(** * A shallow embedding of the cbor.go streaming codec

    The development follows the layout of the Go package: the codec
    primitives of [cbor.go], the error values of [errors.go], the encoder
    of [writer.go] and the decoder (type [CborReader]).  Every Go method
    with a pointer receiver becomes a computation in a small state-and-error
    monad over the receiver; an [Err] result keeps the receiver, because a
    Go method that returns an error has already performed the assignments
    that precede the [return].

    Number representation.  Bytes and the fixed-width integers of the source
    are values of [Z]; every conversion between widths ([byte(x)],
    [uint16(x)], [uint64(x)], [int(x)], [int64(x)]) is written out as the
    wrap-around it performs.  The counters that the Go runtime bounds by the
    length of a slice (the read offset after a bounds check, the number of
    frames on a stack, the items counted in a frame) are incremented without
    wrap-around: a slice never holds more than [2^63 - 1] elements.  The sum
    [r.offset + int(length)], whose second operand comes from the input, is
    computed with the wrap-around of the 64-bit [int].

    Floating-point values only ever occur here through their IEEE 754 bit
    patterns ([math.Float32bits], [math.Float32frombits]), so a [float32] is
    represented by its 32-bit pattern and a [float64] by its 64-bit
    pattern. *)

From Stdlib Require Import ZArith List Bool Lia.
Import ListNotations.
Open Scope Z_scope.

(* ================================================================= *)
(** * Part I: the model *)
(* ================================================================= *)

(** ** Fixed-width integers *)

(** [byte(x)], [uint16(x)], [uint32(x)], [uint64(x)]. *)
Definition to_byte (x : Z) : Z := x mod 2^8.
Definition to_uint16 (x : Z) : Z := x mod 2^16.
Definition to_uint32 (x : Z) : Z := x mod 2^32.
Definition to_uint64 (x : Z) : Z := x mod 2^64.

(** [int64(x)] and, on the 64-bit targets of the package, [int(x)]. *)
Definition to_int64 (x : Z) : Z := (x + 2^63) mod 2^64 - 2^63.

Definition MaxUint8 : Z := 2^8 - 1.
Definition MaxUint16 : Z := 2^16 - 1.
Definition MaxUint32 : Z := 2^32 - 1.
Definition MaxInt64 : Z := 2^63 - 1.
Definition MinInt64 : Z := - 2^63.

(** [len(s)] as an [int]. *)
Definition len {A : Type} (s : list A) : Z := Z.of_nat (length s).

(** [s[i]]: [None] stands for the run-time panic of an index out of range. *)
Definition index {A : Type} (s : list A) (i : Z) : option A :=
  if i <? 0 then None else nth_error s (Z.to_nat i).

(** [s[lo:hi]]: [None] stands for the panic "slice bounds out of range". *)
Definition slice {A : Type} (s : list A) (lo hi : Z) : option (list A) :=
  if (0 <=? lo) && (lo <=? hi) && (hi <=? len s)
  then Some (firstn (Z.to_nat (hi - lo)) (skipn (Z.to_nat lo) s))
  else None.

(** [s[lo:]]. *)
Definition slice_from {A : Type} (s : list A) (lo : Z) : option (list A) :=
  slice s lo (len s).

(** ** encoding/binary, big-endian byte order *)

Module BigEndian.

Definition AppendUint16 (b : list Z) (v : Z) : list Z :=
  b ++ [to_byte (Z.shiftr v 8); to_byte v].

Definition AppendUint32 (b : list Z) (v : Z) : list Z :=
  b ++ [to_byte (Z.shiftr v 24); to_byte (Z.shiftr v 16);
        to_byte (Z.shiftr v 8); to_byte v].

Definition AppendUint64 (b : list Z) (v : Z) : list Z :=
  b ++ [to_byte (Z.shiftr v 56); to_byte (Z.shiftr v 48);
        to_byte (Z.shiftr v 40); to_byte (Z.shiftr v 32);
        to_byte (Z.shiftr v 24); to_byte (Z.shiftr v 16);
        to_byte (Z.shiftr v 8); to_byte v].

(** The readers panic (here: [None]) on a slice that is too short. *)
Definition Uint16 (b : list Z) : option Z :=
  match b with
  | b0 :: b1 :: _ => Some (Z.lor b1 (Z.shiftl b0 8))
  | _ => None
  end.

Definition Uint32 (b : list Z) : option Z :=
  match b with
  | b0 :: b1 :: b2 :: b3 :: _ =>
      Some (Z.lor (Z.lor (Z.lor b3 (Z.shiftl b2 8)) (Z.shiftl b1 16))
                  (Z.shiftl b0 24))
  | _ => None
  end.

Definition Uint64 (b : list Z) : option Z :=
  match b with
  | b0 :: b1 :: b2 :: b3 :: b4 :: b5 :: b6 :: b7 :: _ =>
      Some (Z.lor (Z.lor (Z.lor (Z.lor (Z.lor (Z.lor (Z.lor
             b7 (Z.shiftl b6 8)) (Z.shiftl b5 16)) (Z.shiftl b4 24))
             (Z.shiftl b3 32)) (Z.shiftl b2 40)) (Z.shiftl b1 48))
             (Z.shiftl b0 56))
  | _ => None
  end.

End BigEndian.

(** ** cbor.go: enumerations and the initial byte *)

Inductive MajorType : Type :=
| MajorTypeUnsignedInteger
| MajorTypeNegativeInteger
| MajorTypeByteString
| MajorTypeTextString
| MajorTypeArray
| MajorTypeMap
| MajorTypeTag
| MajorTypeSimpleOrFloat.

(** The numeric value of the Go constant. *)
Definition MajorType_code (mt : MajorType) : Z :=
  match mt with
  | MajorTypeUnsignedInteger => 0
  | MajorTypeNegativeInteger => 1
  | MajorTypeByteString => 2
  | MajorTypeTextString => 3
  | MajorTypeArray => 4
  | MajorTypeMap => 5
  | MajorTypeTag => 6
  | MajorTypeSimpleOrFloat => 7
  end.

(** [MajorType(b >> 5)] for a byte [b]: the operand is always in 0..7. *)
Definition MajorType_of_code (c : Z) : MajorType :=
  match c with
  | 0 => MajorTypeUnsignedInteger
  | 1 => MajorTypeNegativeInteger
  | 2 => MajorTypeByteString
  | 3 => MajorTypeTextString
  | 4 => MajorTypeArray
  | 5 => MajorTypeMap
  | 6 => MajorTypeTag
  | _ => MajorTypeSimpleOrFloat
  end.

Definition MajorType_eqb (a b : MajorType) : bool :=
  MajorType_code a =? MajorType_code b.

Definition AdditionalInfoDirect : Z := 0.
Definition AdditionalInfo8Bit : Z := 24.
Definition AdditionalInfo16Bit : Z := 25.
Definition AdditionalInfo32Bit : Z := 26.
Definition AdditionalInfo64Bit : Z := 27.
Definition AdditionalInfoIndefiniteLength : Z := 31.

Definition SimpleValueFalse : Z := 20.
Definition SimpleValueTrue : Z := 21.
Definition SimpleValueNull : Z := 22.
Definition SimpleValueUndefined : Z := 23.

Definition TagDateTimeString : Z := 0.
Definition TagUnixTime : Z := 1.
Definition TagUnsignedBignum : Z := 2.
Definition TagNegativeBignum : Z := 3.
Definition TagEncodedCborData : Z := 24.
Definition TagURI : Z := 32.
Definition TagSelfDescribedCbor : Z := 55799.

Inductive CborReaderState : Type :=
| StateUndefined
| StateUnsignedInteger
| StateNegativeInteger
| StateByteString
| StateTextString
| StateStartArray
| StateEndArray
| StateStartMap
| StateEndMap
| StateTag
| StateSimpleValue
| StateHalfPrecisionFloat
| StateSinglePrecisionFloat
| StateDoublePrecisionFloat
| StateNull
| StateBoolean
| StateUndefinedValue
| StateStartIndefiniteLengthByteString
| StateEndIndefiniteLengthByteString
| StateStartIndefiniteLengthTextString
| StateEndIndefiniteLengthTextString
| StateFinished.

(** The [iota] value of each state. *)
Definition CborReaderState_code (s : CborReaderState) : Z :=
  match s with
  | StateUndefined => 0
  | StateUnsignedInteger => 1
  | StateNegativeInteger => 2
  | StateByteString => 3
  | StateTextString => 4
  | StateStartArray => 5
  | StateEndArray => 6
  | StateStartMap => 7
  | StateEndMap => 8
  | StateTag => 9
  | StateSimpleValue => 10
  | StateHalfPrecisionFloat => 11
  | StateSinglePrecisionFloat => 12
  | StateDoublePrecisionFloat => 13
  | StateNull => 14
  | StateBoolean => 15
  | StateUndefinedValue => 16
  | StateStartIndefiniteLengthByteString => 17
  | StateEndIndefiniteLengthByteString => 18
  | StateStartIndefiniteLengthTextString => 19
  | StateEndIndefiniteLengthTextString => 20
  | StateFinished => 21
  end.

Definition CborReaderState_eqb (a b : CborReaderState) : bool :=
  CborReaderState_code a =? CborReaderState_code b.

(** The conversion [CborReaderState(mt)] that [readArgumentValue] applies to
    a major type when it builds its [TypeMismatchError]: the integer value
    is kept, so major type [n] is reported as the state numbered [n]. *)
Definition CborReaderState_of_MajorType (mt : MajorType) : CborReaderState :=
  match mt with
  | MajorTypeUnsignedInteger => StateUndefined
  | MajorTypeNegativeInteger => StateUnsignedInteger
  | MajorTypeByteString => StateNegativeInteger
  | MajorTypeTextString => StateByteString
  | MajorTypeArray => StateTextString
  | MajorTypeMap => StateStartArray
  | MajorTypeTag => StateEndArray
  | MajorTypeSimpleOrFloat => StateStartMap
  end.

Inductive CborConformanceMode : Type :=
| ConformanceLax
| ConformanceStrict
| ConformanceCanonical
| ConformanceCtap2Canonical.

Definition CborConformanceMode_code (m : CborConformanceMode) : Z :=
  match m with
  | ConformanceLax => 0
  | ConformanceStrict => 1
  | ConformanceCanonical => 2
  | ConformanceCtap2Canonical => 3
  end.

(** [a >= b] on conformance modes. *)
Definition mode_geb (a b : CborConformanceMode) : bool :=
  CborConformanceMode_code b <=? CborConformanceMode_code a.

Definition mode_eqb (a b : CborConformanceMode) : bool :=
  CborConformanceMode_code a =? CborConformanceMode_code b.

Definition breakByte : Z := 0xFF.

(** [byte(mt)<<5 | (ai & 0x1F)]; the shift is a shift of a [byte]. *)
Definition encodeInitialByte (mt : MajorType) (ai : Z) : Z :=
  Z.lor (to_byte (Z.shiftl (MajorType_code mt) 5)) (Z.land ai 0x1F).

Definition decodeInitialByte (b : Z) : MajorType * Z :=
  (MajorType_of_code (Z.shiftr b 5), Z.land b 0x1F).

(** ** errors.go *)

Inductive CborErr : Type :=
| ErrUnexpectedEndOfData
| ErrInvalidCbor
| ErrInvalidMajorType
| ErrInvalidSimpleValue
| ErrInvalidUtf8
| ErrOverflow
| ErrUnexpectedBreak
| ErrNonCanonical
| ErrNotAtEnd
| ErrInvalidState
| ErrDuplicateKey
| ErrUnsortedKeys
| ErrIndefiniteLengthNotAllowed
| ErrBufferTooSmall
| ErrNestingDepthExceeded
| ErrMissingBreak
| ErrIncompleteContainer
| ErrExtraItems
| TypeMismatchError (Expected Actual : CborReaderState).

(** ** Methods as state-and-error computations *)

Inductive Res (S A : Type) : Type :=
| Ok (a : A) (s : S)
| Err (e : CborErr) (s : S)
| Panic.

Arguments Ok {S A} a s.
Arguments Err {S A} e s.
Arguments Panic {S A}.

Definition M (S A : Type) : Type := S -> Res S A.

Definition ret {S A : Type} (a : A) : M S A := fun s => Ok a s.

Definition bind {S A B : Type} (m : M S A) (k : A -> M S B) : M S B :=
  fun s =>
    match m s with
    | Ok a s' => k a s'
    | Err e s' => Err e s'
    | Panic => Panic
    end.

(** [return ..., err] *)
Definition throw {S A : Type} (e : CborErr) : M S A := fun s => Err e s.

Definition panic {S A : Type} : M S A := fun _ => Panic.

Definition get {S : Type} : M S S := fun s => Ok s s.

Definition modify {S : Type} (f : S -> S) : M S unit := fun s => Ok tt (f s).

(** [if cond { return ..., err }] *)
Definition failIf {S : Type} (cond : bool) (e : CborErr) : M S unit :=
  if cond then throw e else ret tt.

(** [v, err := m()] when the caller inspects [err] itself. *)
Definition try {S A : Type} (m : M S A) : M S (A + CborErr) :=
  fun s =>
    match m s with
    | Ok a s' => Ok (inl a) s'
    | Err e s' => Ok (inr e) s'
    | Panic => Panic
    end.

(** An expression that panics when it has no value. *)
Definition orPanic {S A : Type} (o : option A) : M S A :=
  match o with
  | Some a => ret a
  | None => panic
  end.

Declare Scope cbor_scope.
Delimit Scope cbor_scope with cbor.
Notation "x <- m ;; k" := (bind m (fun x => k))
  (at level 61, m at next level, right associativity) : cbor_scope.
Notation "m ;; k" := (bind m (fun _ => k))
  (at level 61, right associativity) : cbor_scope.
Open Scope cbor_scope.

(** What the caller of a method observes, the receiver left aside. *)
Inductive Outcome (A : Type) : Type :=
| Returned (a : A)
| Failed (e : CborErr)
| Panicked.

Arguments Returned {A} a.
Arguments Failed {A} e.
Arguments Panicked {A}.

Definition outcome {S A : Type} (r : Res S A) : Outcome A :=
  match r with
  | Ok a _ => Returned a
  | Err e _ => Failed e
  | Panic => Panicked
  end.

(** The receiver after the call, when the call did not panic. *)
Definition final {S A : Type} (r : Res S A) : option S :=
  match r with
  | Ok _ s => Some s
  | Err _ s => Some s
  | Panic => None
  end.

(** ** writer.go: the encoder *)

Module Writer.

(** [nestingInfo] *)
Record nestingInfo : Type := mkNestingInfo {
  majorType : MajorType;
  definiteLength : Z;          (* -1 for indefinite *)
  itemsWritten : Z;
  isMap : bool;
  keyWritten : bool;
  isIndefinite : bool
}.

(** [CborWriter].  [nestingStack] is kept innermost frame first: the head
    of the list is [w.nestingStack[len(w.nestingStack)-1]], [append] is a
    cons and dropping the last element is [tl]. *)
Record CborWriter : Type := mkCborWriter {
  buffer : list Z;
  conformanceMode : CborConformanceMode;
  nestingStack : list nestingInfo;
  maxNestingDepth : Z;
  currentOffset : Z;
  allowMultipleRootValues : bool;
  rootValueWritten : bool
}.

Definition set_buffer (b : list Z) (w : CborWriter) : CborWriter :=
  mkCborWriter b (conformanceMode w) (nestingStack w) (maxNestingDepth w)
               (currentOffset w) (allowMultipleRootValues w)
               (rootValueWritten w).

Definition set_conformanceMode (m : CborConformanceMode) (w : CborWriter)
  : CborWriter :=
  mkCborWriter (buffer w) m (nestingStack w) (maxNestingDepth w)
               (currentOffset w) (allowMultipleRootValues w)
               (rootValueWritten w).

Definition set_nestingStack (st : list nestingInfo) (w : CborWriter)
  : CborWriter :=
  mkCborWriter (buffer w) (conformanceMode w) st (maxNestingDepth w)
               (currentOffset w) (allowMultipleRootValues w)
               (rootValueWritten w).

Definition set_maxNestingDepth (d : Z) (w : CborWriter) : CborWriter :=
  mkCborWriter (buffer w) (conformanceMode w) (nestingStack w) d
               (currentOffset w) (allowMultipleRootValues w)
               (rootValueWritten w).

Definition set_currentOffset (o : Z) (w : CborWriter) : CborWriter :=
  mkCborWriter (buffer w) (conformanceMode w) (nestingStack w)
               (maxNestingDepth w) o (allowMultipleRootValues w)
               (rootValueWritten w).

Definition set_allowMultipleRootValues (a : bool) (w : CborWriter)
  : CborWriter :=
  mkCborWriter (buffer w) (conformanceMode w) (nestingStack w)
               (maxNestingDepth w) (currentOffset w) a (rootValueWritten w).

Definition set_rootValueWritten (a : bool) (w : CborWriter) : CborWriter :=
  mkCborWriter (buffer w) (conformanceMode w) (nestingStack w)
               (maxNestingDepth w) (currentOffset w)
               (allowMultipleRootValues w) a.

(** [WriterOption] *)
Definition WriterOption : Type := CborWriter -> CborWriter.

Definition WithConformanceMode (mode : CborConformanceMode) : WriterOption :=
  set_conformanceMode mode.

(** [WithInitialCapacity] is left out: the capacity of a slice is not part
    of this model, and [make([]byte, 0, capacity)] panics for a negative
    one. *)

Definition WithMaxNestingDepth (depth : Z) : WriterOption :=
  set_maxNestingDepth depth.

Definition WithAllowMultipleRootValues (allow : bool) : WriterOption :=
  set_allowMultipleRootValues allow.

Definition NewCborWriter (opts : list WriterOption) : CborWriter :=
  fold_left (fun w opt => opt w) opts
    (mkCborWriter [] ConformanceLax [] 64 0 false false).

Definition Reset (w : CborWriter) : CborWriter :=
  set_rootValueWritten false
    (set_currentOffset 0 (set_nestingStack [] (set_buffer [] w))).

Definition Bytes (w : CborWriter) : list Z := buffer w.

Definition Len (w : CborWriter) : Z := len (buffer w).

Definition NestingDepth (w : CborWriter) : Z := len (nestingStack w).

Definition checkNestingDepth : M CborWriter unit :=
  w <- get ;;
  failIf (maxNestingDepth w <=? len (nestingStack w))
         ErrNestingDepthExceeded.

(** The effect of [advanceContainer] on the innermost frame. *)
Definition advanceFrame (info : nestingInfo) : nestingInfo :=
  if isMap info then
    if keyWritten info then
      mkNestingInfo (majorType info) (definiteLength info)
                    (itemsWritten info + 1) (isMap info) false
                    (isIndefinite info)
    else
      mkNestingInfo (majorType info) (definiteLength info)
                    (itemsWritten info) (isMap info) true
                    (isIndefinite info)
  else
    mkNestingInfo (majorType info) (definiteLength info)
                  (itemsWritten info + 1) (isMap info) (keyWritten info)
                  (isIndefinite info).

Definition advanceContainer : M CborWriter unit :=
  modify (fun w =>
    match nestingStack w with
    | [] => set_rootValueWritten true w
    | info :: rest => set_nestingStack (advanceFrame info :: rest) w
    end).

(** [w.buffer = ...; w.currentOffset = len(w.buffer)] *)
Definition emit (f : list Z -> list Z) : M CborWriter unit :=
  modify (fun w => set_currentOffset (len (f (buffer w)))
                     (set_buffer (f (buffer w)) w)).

(** The bytes that [writeInitialByte] and [writeMinimalInitialByte] append
    to the buffer [b]; [value] is a [uint64]. *)
Definition appendInitialByte (mt : MajorType) (value : Z) (b : list Z)
  : list Z :=
  if value <? 24 then
    b ++ [encodeInitialByte mt (to_byte value)]
  else if value <=? MaxUint8 then
    b ++ [encodeInitialByte mt AdditionalInfo8Bit; to_byte value]
  else if value <=? MaxUint16 then
    BigEndian.AppendUint16 (b ++ [encodeInitialByte mt AdditionalInfo16Bit])
                           (to_uint16 value)
  else if value <=? MaxUint32 then
    BigEndian.AppendUint32 (b ++ [encodeInitialByte mt AdditionalInfo32Bit])
                           (to_uint32 value)
  else
    BigEndian.AppendUint64 (b ++ [encodeInitialByte mt AdditionalInfo64Bit])
                           value.

Definition writeInitialByte (mt : MajorType) (value : Z)
  : M CborWriter unit :=
  emit (appendInitialByte mt value).

Definition writeMinimalInitialByte (mt : MajorType) (value : Z)
  : M CborWriter unit :=
  emit (appendInitialByte mt value).

Definition WriteInt64 (value : Z) : M CborWriter unit :=
  (if 0 <=? value
   then writeMinimalInitialByte MajorTypeUnsignedInteger (to_uint64 value)
   else writeMinimalInitialByte MajorTypeNegativeInteger
          (to_uint64 (to_int64 (-1 - value)))) ;;
  advanceContainer.

Definition WriteUint64 (value : Z) : M CborWriter unit :=
  writeMinimalInitialByte MajorTypeUnsignedInteger value ;;
  advanceContainer.

Definition WriteInt32 (value : Z) : M CborWriter unit := WriteInt64 value.
Definition WriteUint32 (value : Z) : M CborWriter unit := WriteUint64 value.
Definition WriteInt16 (value : Z) : M CborWriter unit := WriteInt64 value.
Definition WriteUint16 (value : Z) : M CborWriter unit := WriteUint64 value.
Definition WriteInt8 (value : Z) : M CborWriter unit := WriteInt64 value.
Definition WriteUint8 (value : Z) : M CborWriter unit := WriteUint64 value.
Definition WriteInt (value : Z) : M CborWriter unit := WriteInt64 value.

Definition WriteByteString (value : list Z) : M CborWriter unit :=
  writeMinimalInitialByte MajorTypeByteString (to_uint64 (len value)) ;;
  emit (fun b => b ++ value) ;;
  advanceContainer.

(** A Go [string] is the sequence of its bytes. *)
Definition WriteTextString (value : list Z) : M CborWriter unit :=
  writeMinimalInitialByte MajorTypeTextString (to_uint64 (len value)) ;;
  emit (fun b => b ++ value) ;;
  advanceContainer.

Definition push (info : nestingInfo) : M CborWriter unit :=
  modify (fun w => set_nestingStack (info :: nestingStack w) w).

Definition pop : M CborWriter unit :=
  modify (fun w => set_nestingStack (tl (nestingStack w)) w).

Definition canonicalMode (w : CborWriter) : bool :=
  mode_eqb (conformanceMode w) ConformanceCanonical
  || mode_eqb (conformanceMode w) ConformanceCtap2Canonical.

(** [length] is an [int]. *)
Definition WriteStartArray (length : Z) : M CborWriter unit :=
  checkNestingDepth ;;
  writeMinimalInitialByte MajorTypeArray (to_uint64 length) ;;
  push (mkNestingInfo MajorTypeArray (to_int64 length) 0 false false false).

Definition WriteStartIndefiniteLengthArray : M CborWriter unit :=
  w <- get ;;
  failIf (canonicalMode w) ErrIndefiniteLengthNotAllowed ;;
  checkNestingDepth ;;
  emit (fun b => b ++ [encodeInitialByte MajorTypeArray
                         (to_byte AdditionalInfoIndefiniteLength)]) ;;
  push (mkNestingInfo MajorTypeArray (-1) 0 false false true).

Definition WriteEndArray : M CborWriter unit :=
  w <- get ;;
  match nestingStack w with
  | [] => throw ErrInvalidState
  | info :: _ =>
      failIf (negb (MajorType_eqb (majorType info) MajorTypeArray))
             ErrInvalidState ;;
      (if isIndefinite info then
         emit (fun b => b ++ [breakByte])
       else if negb (itemsWritten info =? definiteLength info) then
         if itemsWritten info <? definiteLength info
         then throw ErrIncompleteContainer
         else throw ErrExtraItems
       else ret tt) ;;
      pop ;;
      advanceContainer
  end.

Definition WriteStartMap (length : Z) : M CborWriter unit :=
  checkNestingDepth ;;
  writeMinimalInitialByte MajorTypeMap (to_uint64 length) ;;
  push (mkNestingInfo MajorTypeMap (to_int64 length) 0 true false false).

Definition WriteStartIndefiniteLengthMap : M CborWriter unit :=
  w <- get ;;
  failIf (canonicalMode w) ErrIndefiniteLengthNotAllowed ;;
  checkNestingDepth ;;
  emit (fun b => b ++ [encodeInitialByte MajorTypeMap
                         (to_byte AdditionalInfoIndefiniteLength)]) ;;
  push (mkNestingInfo MajorTypeMap (-1) 0 true false true).

Definition WriteEndMap : M CborWriter unit :=
  w <- get ;;
  match nestingStack w with
  | [] => throw ErrInvalidState
  | info :: _ =>
      failIf (negb (MajorType_eqb (majorType info) MajorTypeMap))
             ErrInvalidState ;;
      failIf (keyWritten info) ErrIncompleteContainer ;;
      (if isIndefinite info then
         emit (fun b => b ++ [breakByte])
       else if negb (itemsWritten info =? definiteLength info) then
         if itemsWritten info <? definiteLength info
         then throw ErrIncompleteContainer
         else throw ErrExtraItems
       else ret tt) ;;
      pop ;;
      advanceContainer
  end.

(** [tag] is a [CborTag], a [uint64]. *)
Definition WriteTag (tag : Z) : M CborWriter unit :=
  writeMinimalInitialByte MajorTypeTag tag.

Definition WriteBoolean (value : bool) : M CborWriter unit :=
  (if value
   then emit (fun b => b ++ [encodeInitialByte MajorTypeSimpleOrFloat
                               (to_byte SimpleValueTrue)])
   else emit (fun b => b ++ [encodeInitialByte MajorTypeSimpleOrFloat
                               (to_byte SimpleValueFalse)])) ;;
  advanceContainer.

Definition WriteNull : M CborWriter unit :=
  emit (fun b => b ++ [encodeInitialByte MajorTypeSimpleOrFloat
                         (to_byte SimpleValueNull)]) ;;
  advanceContainer.

Definition WriteUndefined : M CborWriter unit :=
  emit (fun b => b ++ [encodeInitialByte MajorTypeSimpleOrFloat
                         (to_byte SimpleValueUndefined)]) ;;
  advanceContainer.

(** [value] is a [SimpleValue], a [byte]. *)
Definition WriteSimpleValue (value : Z) : M CborWriter unit :=
  (if value <? 32
   then emit (fun b => b ++ [encodeInitialByte MajorTypeSimpleOrFloat
                               (to_byte value)])
   else emit (fun b => b ++ [encodeInitialByte MajorTypeSimpleOrFloat
                               (to_byte AdditionalInfo8Bit);
                             to_byte value])) ;;
  advanceContainer.

(** [float32ToFloat16Bits]; [f] is the bit pattern of the [float32]. *)
Definition float32ToFloat16Bits (f : Z) : Z :=
  let bits := f in
  let sign := to_uint16 (Z.land (Z.shiftr bits 16) 0x8000) in
  let exp := Z.land (Z.shiftr bits 23) 0xFF in
  let frac := Z.land bits 0x7FFFFF in
  if exp =? 0 then
    sign
  else if exp =? 255 then
    if frac =? 0 then Z.lor sign 0x7C00
    else Z.lor (Z.lor sign 0x7C00) (to_uint16 (Z.shiftr frac 13))
  else if 142 <? exp then
    Z.lor sign 0x7C00
  else if exp <? 113 then
    sign
  else
    let exp16 := exp - 127 + 15 in
    let frac16 := Z.shiftr frac 13 in
    Z.lor (Z.lor sign (to_uint16 (Z.shiftl exp16 10))) (to_uint16 frac16).

(** The loop [for frac&0x400 == 0 { frac <<= 1; exp-- }] on a [uint32]
    fraction, run for at most [n] iterations. *)
Fixpoint normalizeSubnormal (n : nat) (frac exp : Z) : Z * Z :=
  match n with
  | O => (frac, exp)
  | S n' =>
      if Z.land frac 0x400 =? 0
      then normalizeSubnormal n' (to_uint32 (Z.shiftl frac 1)) (exp - 1)
      else (frac, exp)
  end.

(** [float16BitsToFloat32]; the result is the bit pattern of the
    [float32].  The loop is entered with a non-zero 10-bit fraction, so it
    ends within ten iterations. *)
Definition float16BitsToFloat32 (bits : Z) : Z :=
  let sign := to_uint32 (Z.shiftl (Z.land bits 0x8000) 16) in
  let exp := Z.land (Z.shiftr bits 10) 0x1F in
  let frac := Z.land bits 0x3FF in
  let normal (exp frac : Z) : Z :=
    let exp32 := to_uint32 (exp - 15 + 127) in
    Z.lor (Z.lor sign (to_uint32 (Z.shiftl exp32 23)))
          (to_uint32 (Z.shiftl frac 13)) in
  if exp =? 0 then
    if frac =? 0 then sign
    else
      let '(frac, exp) := normalizeSubnormal 10 frac exp in
      let exp := exp + 1 in
      let frac := Z.land frac 0x3FF in
      normal exp frac
  else if exp <? 31 then
    normal exp frac
  else
    if frac =? 0 then Z.lor sign 0x7F800000
    else Z.lor (Z.lor sign 0x7F800000) (to_uint32 (Z.shiftl frac 13)).

Definition WriteFloat16 (value : Z) : M CborWriter unit :=
  let bits := float32ToFloat16Bits value in
  emit (fun b => BigEndian.AppendUint16
                   (b ++ [encodeInitialByte MajorTypeSimpleOrFloat 25])
                   bits) ;;
  advanceContainer.

Definition WriteFloat32 (value : Z) : M CborWriter unit :=
  let bits := value in
  emit (fun b => BigEndian.AppendUint32
                   (b ++ [encodeInitialByte MajorTypeSimpleOrFloat 26])
                   bits) ;;
  advanceContainer.

Definition WriteFloat64 (value : Z) : M CborWriter unit :=
  let bits := value in
  emit (fun b => BigEndian.AppendUint64
                   (b ++ [encodeInitialByte MajorTypeSimpleOrFloat 27])
                   bits) ;;
  advanceContainer.

Definition WriteStartIndefiniteLengthByteString : M CborWriter unit :=
  w <- get ;;
  failIf (canonicalMode w) ErrIndefiniteLengthNotAllowed ;;
  checkNestingDepth ;;
  emit (fun b => b ++ [encodeInitialByte MajorTypeByteString
                         (to_byte AdditionalInfoIndefiniteLength)]) ;;
  push (mkNestingInfo MajorTypeByteString (-1) 0 false false true).

Definition WriteStartIndefiniteLengthTextString : M CborWriter unit :=
  w <- get ;;
  failIf (canonicalMode w) ErrIndefiniteLengthNotAllowed ;;
  checkNestingDepth ;;
  emit (fun b => b ++ [encodeInitialByte MajorTypeTextString
                         (to_byte AdditionalInfoIndefiniteLength)]) ;;
  push (mkNestingInfo MajorTypeTextString (-1) 0 false false true).

(** The guard shared by the chunk writers and the string terminators. *)
Definition requireIndefinite (mt : MajorType) : M CborWriter unit :=
  w <- get ;;
  match nestingStack w with
  | [] => throw ErrInvalidState
  | info :: _ =>
      failIf (negb (MajorType_eqb (majorType info) mt)
              || negb (isIndefinite info)) ErrInvalidState
  end.

Definition WriteByteStringChunk (value : list Z) : M CborWriter unit :=
  requireIndefinite MajorTypeByteString ;;
  writeMinimalInitialByte MajorTypeByteString (to_uint64 (len value)) ;;
  emit (fun b => b ++ value).

Definition WriteEndIndefiniteLengthByteString : M CborWriter unit :=
  requireIndefinite MajorTypeByteString ;;
  emit (fun b => b ++ [breakByte]) ;;
  pop ;;
  advanceContainer.

Definition WriteTextStringChunk (value : list Z) : M CborWriter unit :=
  requireIndefinite MajorTypeTextString ;;
  writeMinimalInitialByte MajorTypeTextString (to_uint64 (len value)) ;;
  emit (fun b => b ++ value).

Definition WriteEndIndefiniteLengthTextString : M CborWriter unit :=
  requireIndefinite MajorTypeTextString ;;
  emit (fun b => b ++ [breakByte]) ;;
  pop ;;
  advanceContainer.

(** [Bytes] of [big.Int]: the big-endian bytes of a magnitude, without
    leading zeros.  The recursion is on the binary digits of [x]. *)
Fixpoint bigBytes_pos (fuel : nat) (x : Z) (acc : list Z) : list Z :=
  match fuel with
  | O => acc
  | S fuel' =>
      if x =? 0 then acc
      else bigBytes_pos fuel' (Z.shiftr x 8) (to_byte x :: acc)
  end.

Definition bigBytes (x : Z) : list Z :=
  bigBytes_pos (Z.to_nat (Z.log2 x) + 1) x [].

(** [WriteBigInt]; [None] is the [nil] pointer. *)
Definition WriteBigInt (value : option Z) : M CborWriter unit :=
  match value with
  | None => WriteNull
  | Some value =>
      if (MinInt64 <=? value) && (value <=? MaxInt64) then
        WriteInt64 value
      else if (0 <=? value) && (value <? 2^64) then
        WriteUint64 value
      else
        let '(tag, absValue) :=
          if 0 <=? value then (TagUnsignedBignum, value)
          else (TagNegativeBignum, - value - 1) in
        WriteTag tag ;;
        WriteByteString (bigBytes absValue)
  end.

Definition WriteUri (uri : list Z) : M CborWriter unit :=
  WriteTag TagURI ;;
  WriteTextString uri.

Definition WriteEncodedCborData (data : list Z) : M CborWriter unit :=
  WriteTag TagEncodedCborData ;;
  WriteByteString data.

Definition WriteSelfDescribedCbor : M CborWriter unit :=
  WriteTag TagSelfDescribedCbor.

Definition WriteRaw (data : list Z) : M CborWriter unit :=
  emit (fun b => b ++ data).

End Writer.

(** ** The decoder (type [CborReader]) *)

Module Reader.

(** [readerNestingInfo] *)
Record readerNestingInfo : Type := mkReaderNestingInfo {
  majorType : MajorType;
  definiteLength : Z;          (* -1 for indefinite *)
  itemsRead : Z;
  isMap : bool;
  keyRead : bool;
  isIndefinite : bool
}.

(** [CborReader].  As in the encoder, [nestingStack] is kept innermost
    frame first. *)
Record CborReader : Type := mkCborReader {
  data : list Z;
  offset : Z;
  conformanceMode : CborConformanceMode;
  nestingStack : list readerNestingInfo;
  maxNestingDepth : Z;
  cachedState : CborReaderState;
  stateComputed : bool;
  allowMultipleRootValues : bool
}.

Definition set_data (d : list Z) (r : CborReader) : CborReader :=
  mkCborReader d (offset r) (conformanceMode r) (nestingStack r)
               (maxNestingDepth r) (cachedState r) (stateComputed r)
               (allowMultipleRootValues r).

Definition set_offset (o : Z) (r : CborReader) : CborReader :=
  mkCborReader (data r) o (conformanceMode r) (nestingStack r)
               (maxNestingDepth r) (cachedState r) (stateComputed r)
               (allowMultipleRootValues r).

Definition set_conformanceMode (m : CborConformanceMode) (r : CborReader)
  : CborReader :=
  mkCborReader (data r) (offset r) m (nestingStack r)
               (maxNestingDepth r) (cachedState r) (stateComputed r)
               (allowMultipleRootValues r).

Definition set_nestingStack (st : list readerNestingInfo) (r : CborReader)
  : CborReader :=
  mkCborReader (data r) (offset r) (conformanceMode r) st
               (maxNestingDepth r) (cachedState r) (stateComputed r)
               (allowMultipleRootValues r).

Definition set_maxNestingDepth (d : Z) (r : CborReader) : CborReader :=
  mkCborReader (data r) (offset r) (conformanceMode r) (nestingStack r)
               d (cachedState r) (stateComputed r)
               (allowMultipleRootValues r).

Definition set_cachedState (s : CborReaderState) (r : CborReader)
  : CborReader :=
  mkCborReader (data r) (offset r) (conformanceMode r) (nestingStack r)
               (maxNestingDepth r) s (stateComputed r)
               (allowMultipleRootValues r).

Definition set_stateComputed (c : bool) (r : CborReader) : CborReader :=
  mkCborReader (data r) (offset r) (conformanceMode r) (nestingStack r)
               (maxNestingDepth r) (cachedState r) c
               (allowMultipleRootValues r).

Definition set_allowMultipleRootValues (a : bool) (r : CborReader)
  : CborReader :=
  mkCborReader (data r) (offset r) (conformanceMode r) (nestingStack r)
               (maxNestingDepth r) (cachedState r) (stateComputed r) a.

(** [ReaderOption] *)
Definition ReaderOption : Type := CborReader -> CborReader.

Definition WithReaderConformanceMode (mode : CborConformanceMode)
  : ReaderOption := set_conformanceMode mode.

Definition WithReaderMaxNestingDepth (depth : Z) : ReaderOption :=
  set_maxNestingDepth depth.

Definition WithReaderAllowMultipleRootValues (allow : bool) : ReaderOption :=
  set_allowMultipleRootValues allow.

Definition NewCborReader (data : list Z) (opts : list ReaderOption)
  : CborReader :=
  fold_left (fun r opt => opt r) opts
    (mkCborReader data 0 ConformanceLax [] 64 StateUndefined false false).

Definition Reset (r : CborReader) : CborReader :=
  set_stateComputed false
    (set_cachedState StateUndefined (set_nestingStack [] (set_offset 0 r))).

Definition ResetWithData (d : list Z) (r : CborReader) : CborReader :=
  Reset (set_data d r).

Definition BytesRemaining (r : CborReader) : Z := len (data r) - offset r.

Definition CurrentOffset (r : CborReader) : Z := offset r.

Definition NestingDepth (r : CborReader) : Z := len (nestingStack r).

Definition invalidateState : M CborReader unit :=
  modify (set_stateComputed false).

(** [r.offset += n] for a constant [n]. *)
Definition advance (n : Z) : M CborReader unit :=
  modify (fun r => set_offset (offset r + n) r).

(** The last [switch] of [computeState].  Every major type has a case, so
    the final [return StateUndefined, ErrInvalidMajorType] of the source
    has no counterpart. *)
Definition classify (initialByte : Z) : M CborReader CborReaderState :=
  let '(mt, ai) := decodeInitialByte initialByte in
  match mt with
  | MajorTypeUnsignedInteger => ret StateUnsignedInteger
  | MajorTypeNegativeInteger => ret StateNegativeInteger
  | MajorTypeByteString =>
      if ai =? to_byte AdditionalInfoIndefiniteLength
      then ret StateStartIndefiniteLengthByteString
      else ret StateByteString
  | MajorTypeTextString =>
      if ai =? to_byte AdditionalInfoIndefiniteLength
      then ret StateStartIndefiniteLengthTextString
      else ret StateTextString
  | MajorTypeArray => ret StateStartArray
  | MajorTypeMap => ret StateStartMap
  | MajorTypeTag => ret StateTag
  | MajorTypeSimpleOrFloat =>
      if (ai =? to_byte SimpleValueFalse) || (ai =? to_byte SimpleValueTrue)
      then ret StateBoolean
      else if ai =? to_byte SimpleValueNull then ret StateNull
      else if ai =? to_byte SimpleValueUndefined then ret StateUndefinedValue
      else if ai =? 24 then ret StateSimpleValue
      else if ai =? 25 then ret StateHalfPrecisionFloat
      else if ai =? 26 then ret StateSinglePrecisionFloat
      else if ai =? 27 then ret StateDoublePrecisionFloat
      else if ai <? 24 then ret StateSimpleValue
      else throw ErrInvalidSimpleValue
  end.

(** The frame test that opens [computeState]. *)
Definition frameComplete (info : readerNestingInfo) : bool :=
  negb (isIndefinite info) && (definiteLength info <=? itemsRead info).

Definition computeState : M CborReader CborReaderState :=
  r <- get ;;
  match nestingStack r with
  | info :: _ =>
      if frameComplete info
      then (if isMap info then ret StateEndMap else ret StateEndArray)
      else
        if len (data r) <=? offset r then throw ErrUnexpectedEndOfData
        else
          initialByte <- orPanic (index (data r) (offset r)) ;;
          if initialByte =? breakByte then
            if negb (isIndefinite info) then throw ErrUnexpectedBreak
            else
              match majorType info with
              | MajorTypeArray => ret StateEndArray
              | MajorTypeMap =>
                  if keyRead info then throw ErrIncompleteContainer
                  else ret StateEndMap
              | MajorTypeByteString =>
                  ret StateEndIndefiniteLengthByteString
              | MajorTypeTextString =>
                  ret StateEndIndefiniteLengthTextString
              | _ => classify initialByte
              end
          else classify initialByte
  | [] =>
      if len (data r) <=? offset r then ret StateFinished
      else
        initialByte <- orPanic (index (data r) (offset r)) ;;
        if initialByte =? breakByte then throw ErrUnexpectedBreak
        else classify initialByte
  end.

Definition PeekState : M CborReader CborReaderState :=
  r <- get ;;
  if stateComputed r then ret (cachedState r)
  else
    state <- computeState ;;
    modify (fun r => set_stateComputed true (set_cachedState state r)) ;;
    ret state.

Definition strict (r : CborReader) : bool :=
  mode_geb (conformanceMode r) ConformanceStrict.

Definition readArgumentValue (mt : MajorType) : M CborReader Z :=
  r <- get ;;
  failIf (len (data r) <=? offset r) ErrUnexpectedEndOfData ;;
  initialByte <- orPanic (index (data r) (offset r)) ;;
  let '(actualMt, ai) := decodeInitialByte initialByte in
  failIf (negb (MajorType_eqb actualMt mt))
         (TypeMismatchError (CborReaderState_of_MajorType mt)
                            (CborReaderState_of_MajorType actualMt)) ;;
  advance 1 ;;
  r <- get ;;
  if ai <? 24 then
    ret ai
  else if ai =? 24 then
    failIf (len (data r) <=? offset r) ErrUnexpectedEndOfData ;;
    val <- orPanic (index (data r) (offset r)) ;;
    advance 1 ;;
    failIf (strict r && (val <? 24)) ErrNonCanonical ;;
    ret val
  else if ai =? 25 then
    failIf (len (data r) <? offset r + 2) ErrUnexpectedEndOfData ;;
    rest <- orPanic (slice_from (data r) (offset r)) ;;
    val <- orPanic (BigEndian.Uint16 rest) ;;
    advance 2 ;;
    failIf (strict r && (val <=? 0xFF)) ErrNonCanonical ;;
    ret val
  else if ai =? 26 then
    failIf (len (data r) <? offset r + 4) ErrUnexpectedEndOfData ;;
    rest <- orPanic (slice_from (data r) (offset r)) ;;
    val <- orPanic (BigEndian.Uint32 rest) ;;
    advance 4 ;;
    failIf (strict r && (val <=? 0xFFFF)) ErrNonCanonical ;;
    ret val
  else if ai =? 27 then
    failIf (len (data r) <? offset r + 8) ErrUnexpectedEndOfData ;;
    rest <- orPanic (slice_from (data r) (offset r)) ;;
    val <- orPanic (BigEndian.Uint64 rest) ;;
    advance 8 ;;
    failIf (strict r && (val <=? 0xFFFFFFFF)) ErrNonCanonical ;;
    ret val
  else if ai =? 31 then
    ret 0
  else
    throw ErrInvalidCbor.

(** The effect of [advanceContainer] on the innermost frame. *)
Definition advanceFrame (info : readerNestingInfo) : readerNestingInfo :=
  if isMap info then
    if keyRead info then
      mkReaderNestingInfo (majorType info) (definiteLength info)
                          (itemsRead info + 1) (isMap info) false
                          (isIndefinite info)
    else
      mkReaderNestingInfo (majorType info) (definiteLength info)
                          (itemsRead info) (isMap info) true
                          (isIndefinite info)
  else
    mkReaderNestingInfo (majorType info) (definiteLength info)
                        (itemsRead info + 1) (isMap info) (keyRead info)
                        (isIndefinite info).

Definition advanceContainer : M CborReader unit :=
  modify (fun r =>
    match nestingStack r with
    | [] => r
    | info :: rest =>
        set_stateComputed false
          (set_nestingStack (advanceFrame info :: rest) r)
    end).

Definition expect (state expected : CborReaderState) : M CborReader unit :=
  failIf (negb (CborReaderState_eqb state expected))
         (TypeMismatchError expected state).

Definition ReadUint64 : M CborReader Z :=
  state <- PeekState ;;
  expect state StateUnsignedInteger ;;
  invalidateState ;;
  val <- readArgumentValue MajorTypeUnsignedInteger ;;
  advanceContainer ;;
  ret val.

Definition ReadInt64 : M CborReader Z :=
  state <- PeekState ;;
  invalidateState ;;
  match state with
  | StateUnsignedInteger =>
      val <- readArgumentValue MajorTypeUnsignedInteger ;;
      failIf (MaxInt64 <? val) ErrOverflow ;;
      advanceContainer ;;
      ret (to_int64 val)
  | StateNegativeInteger =>
      val <- readArgumentValue MajorTypeNegativeInteger ;;
      failIf (MaxInt64 <? val) ErrOverflow ;;
      advanceContainer ;;
      ret (to_int64 (-1 - to_int64 val))
  | _ => throw (TypeMismatchError StateUnsignedInteger state)
  end.





Definition ReadTag : M CborReader Z :=
  state <- PeekState ;;
  expect state StateTag ;;
  invalidateState ;;
  val <- readArgumentValue MajorTypeTag ;;
  ret val.

(** [r.offset + int(length)], an addition of 64-bit [int]s. *)
Definition payloadEnd (r : CborReader) (length : Z) : Z :=
  to_int64 (offset r + to_int64 length).

(** The payload [r.data[r.offset : r.offset+int(length)]] after the test
    [r.offset+int(length) > len(r.data)]; the reader is left at its end.
    [ReadByteString] allocates [make([]byte, length)] before it takes the
    slice: that allocation panics only for a [length] for which the slice
    expression panics too. *)
Definition readPayload (length : Z) : M CborReader (list Z) :=
  r <- get ;;
  failIf (len (data r) <? payloadEnd r length) ErrUnexpectedEndOfData ;;
  orPanic (slice (data r) (offset r) (payloadEnd r length)).

Definition skipPayload (length : Z) : M CborReader unit :=
  modify (fun r => set_offset (payloadEnd r length) r).

(** The loop shared by [readIndefiniteByteString] and
    [readIndefiniteTextString]: [mt] is the major type of the chunks and
    [invalid] the test applied to each chunk.  Every iteration that does
    not leave the loop consumes at least the initial byte of a chunk, so
    [fuel] larger than the number of remaining bytes is never used up. *)
Fixpoint readChunks (mt : MajorType) (invalid : CborReader -> list Z -> bool)
         (fuel : nat) (result : list Z) : M CborReader (list Z) :=
  match fuel with
  | O => panic
  | S fuel' =>
      r <- get ;;
      failIf (len (data r) <=? offset r) ErrUnexpectedEndOfData ;;
      b <- orPanic (index (data r) (offset r)) ;;
      if b =? breakByte then
        advance 1 ;;
        ret result
      else
        failIf (negb (MajorType_eqb (fst (decodeInitialByte b)) mt))
               ErrInvalidCbor ;;
        length <- readArgumentValue mt ;;
        chunk <- readPayload length ;;
        failIf (invalid r chunk) ErrInvalidUtf8 ;;
        skipPayload length ;;
        readChunks mt invalid fuel' (result ++ chunk)
  end.

Definition readIndefiniteByteString : M CborReader (list Z) :=
  r <- get ;;
  failIf (mode_geb (conformanceMode r) ConformanceCanonical)
         ErrIndefiniteLengthNotAllowed ;;
  advance 1 ;;
  invalidateState ;;
  result <- readChunks MajorTypeByteString (fun _ _ => false)
                       (S (length (data r))) [] ;;
  advanceContainer ;;
  ret result.

Definition ReadByteString : M CborReader (list Z) :=
  state <- PeekState ;;
  if CborReaderState_eqb state StateStartIndefiniteLengthByteString then
    readIndefiniteByteString
  else
    expect state StateByteString ;;
    invalidateState ;;
    length <- readArgumentValue MajorTypeByteString ;;
    result <- readPayload length ;;
    skipPayload length ;;
    advanceContainer ;;
    ret result.

Section Utf8.

(** [utf8.Valid] of the Go standard library. *)
Variable utf8Valid : list Z -> bool.

Definition invalidUtf8 (r : CborReader) (chunk : list Z) : bool :=
  strict r && negb (utf8Valid chunk).

Definition readIndefiniteTextString : M CborReader (list Z) :=
  r <- get ;;
  failIf (mode_geb (conformanceMode r) ConformanceCanonical)
         ErrIndefiniteLengthNotAllowed ;;
  advance 1 ;;
  invalidateState ;;
  result <- readChunks MajorTypeTextString invalidUtf8
                       (S (length (data r))) [] ;;
  advanceContainer ;;
  ret result.

Definition ReadTextString : M CborReader (list Z) :=
  state <- PeekState ;;
  if CborReaderState_eqb state StateStartIndefiniteLengthTextString then
    readIndefiniteTextString
  else
    expect state StateTextString ;;
    invalidateState ;;
    length <- readArgumentValue MajorTypeTextString ;;
    strBytes <- readPayload length ;;
    r <- get ;;
    failIf (invalidUtf8 r strBytes) ErrInvalidUtf8 ;;
    skipPayload length ;;
    advanceContainer ;;
    ret strBytes.

End Utf8.

(** [SetBytes] of [big.Int]: the bytes as a big-endian unsigned integer. *)
Definition SetBytes (buf : list Z) : Z :=
  fold_left (fun acc b => acc * 256 + b) buf 0.

Definition ReadBigInt : M CborReader Z :=
  state <- PeekState ;;
  match state with
  | StateUnsignedInteger =>
      val <- ReadUint64 ;;
      ret val
  | StateNegativeInteger =>
      res <- try ReadInt64 ;;
      match res with
      | inr _ =>
          modify (set_stateComputed true) ;;
          modify (set_cachedState StateNegativeInteger) ;;
          invalidateState ;;
          raw <- readArgumentValue MajorTypeNegativeInteger ;;
          advanceContainer ;;
          ret (- (raw + 1))
      | inl val => ret val
      end
  | StateTag =>
      tag <- ReadTag ;;
      if tag =? TagUnsignedBignum then
        data <- ReadByteString ;;
        ret (SetBytes data)
      else if tag =? TagNegativeBignum then
        data <- ReadByteString ;;
        ret (- (SetBytes data + 1))
      else
        throw (TypeMismatchError StateUnsignedInteger StateTag)
  | _ => throw (TypeMismatchError StateUnsignedInteger state)
  end.

Definition push (info : readerNestingInfo) : M CborReader unit :=
  modify (fun r => set_nestingStack (info :: nestingStack r) r).

Definition pop : M CborReader unit :=
  modify (fun r => set_nestingStack (tl (nestingStack r)) r).

Definition checkNestingDepth : M CborReader unit :=
  r <- get ;;
  failIf (maxNestingDepth r <=? len (nestingStack r))
         ErrNestingDepthExceeded.

(** The part of [ReadStartArray] and [ReadStartMap] that follows the state
    test; [isMap] is the only difference between the two frames. *)
Definition readStart (mt : MajorType) (isMap : bool) : M CborReader Z :=
  checkNestingDepth ;;
  invalidateState ;;
  r <- get ;;
  b <- orPanic (index (data r) (offset r)) ;;
  if b =? encodeInitialByte mt (to_byte AdditionalInfoIndefiniteLength) then
    failIf (mode_geb (conformanceMode r) ConformanceCanonical)
           ErrIndefiniteLengthNotAllowed ;;
    advance 1 ;;
    push (mkReaderNestingInfo mt (-1) 0 isMap false true) ;;
    ret (-1)
  else
    length <- readArgumentValue mt ;;
    push (mkReaderNestingInfo mt (to_int64 length) 0 isMap false false) ;;
    ret (to_int64 length).

Definition ReadStartArray : M CborReader Z :=
  state <- PeekState ;;
  expect state StateStartArray ;;
  readStart MajorTypeArray false.

Definition ReadStartMap : M CborReader Z :=
  state <- PeekState ;;
  expect state StateStartMap ;;
  readStart MajorTypeMap true.

(** The part of [ReadEndArray] and [ReadEndMap] that follows the state
    test. *)
Definition readEnd (mt : MajorType) : M CborReader unit :=
  r <- get ;;
  match nestingStack r with
  | [] => throw ErrInvalidState
  | info :: _ =>
      failIf (negb (MajorType_eqb (majorType info) mt)) ErrInvalidState ;;
      (if isIndefinite info then
         b <- orPanic (index (data r) (offset r)) ;;
         failIf (negb (b =? breakByte)) ErrMissingBreak ;;
         advance 1
       else ret tt) ;;
      pop ;;
      invalidateState ;;
      advanceContainer
  end.

Definition ReadEndArray : M CborReader unit :=
  state <- PeekState ;;
  expect state StateEndArray ;;
  readEnd MajorTypeArray.

Definition ReadEndMap : M CborReader unit :=
  state <- PeekState ;;
  expect state StateEndMap ;;
  readEnd MajorTypeMap.

Definition ReadBoolean : M CborReader bool :=
  state <- PeekState ;;
  expect state StateBoolean ;;
  invalidateState ;;
  r <- get ;;
  b <- orPanic (index (data r) (offset r)) ;;
  advance 1 ;;
  advanceContainer ;;
  ret (snd (decodeInitialByte b) =? to_byte SimpleValueTrue).

Definition ReadNull : M CborReader unit :=
  state <- PeekState ;;
  expect state StateNull ;;
  invalidateState ;;
  advance 1 ;;
  advanceContainer.

Definition ReadUndefined : M CborReader unit :=
  state <- PeekState ;;
  expect state StateUndefinedValue ;;
  invalidateState ;;
  advance 1 ;;
  advanceContainer.

Definition ReadSimpleValue : M CborReader Z :=
  state <- PeekState ;;
  match state with
  | StateSimpleValue | StateBoolean | StateNull | StateUndefinedValue =>
      invalidateState ;;
      r <- get ;;
      b <- orPanic (index (data r) (offset r)) ;;
      advance 1 ;;
      value <-
        (if snd (decodeInitialByte b) =? 24 then
           r <- get ;;
           failIf (len (data r) <=? offset r) ErrUnexpectedEndOfData ;;
           value <- orPanic (index (data r) (offset r)) ;;
           advance 1 ;;
           failIf (strict r && (value <? 32)) ErrNonCanonical ;;
           ret value
         else ret (snd (decodeInitialByte b))) ;;
      advanceContainer ;;
      ret value
  | _ => throw (TypeMismatchError StateSimpleValue state)
  end.

(** The common shape of [ReadFloat16], [ReadFloat32] and [ReadFloat64]:
    [width] payload bytes decoded by [decode]. *)
Definition readFloatBits (expected : CborReaderState) (width : Z)
           (decode : list Z -> option Z) : M CborReader Z :=
  state <- PeekState ;;
  expect state expected ;;
  invalidateState ;;
  advance 1 ;;
  r <- get ;;
  failIf (len (data r) <? offset r + width) ErrUnexpectedEndOfData ;;
  rest <- orPanic (slice_from (data r) (offset r)) ;;
  bits <- orPanic (decode rest) ;;
  advance width ;;
  advanceContainer ;;
  ret bits.

Definition ReadFloat16 : M CborReader Z :=
  bits <- readFloatBits StateHalfPrecisionFloat 2 BigEndian.Uint16 ;;
  ret (Writer.float16BitsToFloat32 bits).

Definition ReadFloat32 : M CborReader Z :=
  readFloatBits StateSinglePrecisionFloat 4 BigEndian.Uint32.

Definition ReadFloat64 : M CborReader Z :=
  readFloatBits StateDoublePrecisionFloat 8 BigEndian.Uint64.

Definition TryReadNull : M CborReader bool :=
  state <- PeekState ;;
  if CborReaderState_eqb state StateNull
  then ReadNull ;; ret true
  else ret false.

Section Skip.

(** [utf8.Valid] of the Go standard library. *)
Variable utf8Valid : list Z -> bool.

(** The loop [for { state, err := r.PeekState(); ...; if state == end
    { break }; body }] of [skipArray] and [skipMap] on an
    indefinite-length container.  Every iteration that does not leave the
    loop consumes at least one byte, so [fuel] larger than the number of
    bytes of the input is never used up. *)
Fixpoint skipUntil (endState : CborReaderState) (body : M CborReader unit)
         (fuel : nat) : M CborReader unit :=
  match fuel with
  | O => panic
  | S fuel' =>
      state <- PeekState ;;
      if CborReaderState_eqb state endState then ret tt
      else body ;; skipUntil endState body fuel'
  end.

(** The loop [for i := 0; i < length; i++ { body }] on a definite-length
    container; an iteration that does not return with an error consumes at
    least one byte. *)
Fixpoint skipTimes (body : M CborReader unit) (fuel : nat) (i length : Z)
  : M CborReader unit :=
  match fuel with
  | O => if i <? length then panic else ret tt
  | S fuel' =>
      if i <? length then body ;; skipTimes body fuel' (i + 1) length
      else ret tt
  end.

(** [skipArray] and [skipMap]; [skip] is the call of [SkipValue]. *)
Definition skipArrayWith (skip : M CborReader unit) : M CborReader unit :=
  length <- ReadStartArray ;;
  r <- get ;;
  (if length =? -1
   then skipUntil StateEndArray skip (S (List.length (data r)))
   else skipTimes skip (S (List.length (data r))) 0 length) ;;
  ReadEndArray.

Definition skipMapWith (skip : M CborReader unit) : M CborReader unit :=
  length <- ReadStartMap ;;
  r <- get ;;
  (if length =? -1
   then skipUntil StateEndMap (skip ;; skip) (S (List.length (data r)))
   else skipTimes (skip ;; skip) (S (List.length (data r))) 0 length) ;;
  ReadEndMap.

(** [SkipValue] with a bound on the depth of its recursion through tags,
    [skipArray] and [skipMap].  Every nested call is made after [ReadTag],
    [ReadStartArray] or [ReadStartMap] has consumed at least one byte. *)
Fixpoint skipValue (fuel : nat) : M CborReader unit :=
  match fuel with
  | O => panic
  | S fuel' =>
      state <- PeekState ;;
      match state with
      | StateUnsignedInteger => _ <- ReadUint64 ;; ret tt
      | StateNegativeInteger => _ <- ReadInt64 ;; ret tt
      | StateByteString | StateStartIndefiniteLengthByteString =>
          _ <- ReadByteString ;; ret tt
      | StateTextString | StateStartIndefiniteLengthTextString =>
          _ <- ReadTextString utf8Valid ;; ret tt
      | StateStartArray => skipArrayWith (skipValue fuel')
      | StateStartMap => skipMapWith (skipValue fuel')
      | StateTag => _ <- ReadTag ;; skipValue fuel'
      | StateBoolean => _ <- ReadBoolean ;; ret tt
      | StateNull => ReadNull
      | StateUndefinedValue => ReadUndefined
      | StateSimpleValue => _ <- ReadSimpleValue ;; ret tt
      | StateHalfPrecisionFloat => _ <- ReadFloat16 ;; ret tt
      | StateSinglePrecisionFloat => _ <- ReadFloat32 ;; ret tt
      | StateDoublePrecisionFloat => _ <- ReadFloat64 ;; ret tt
      | _ => throw ErrInvalidState
      end
  end.

(** The depth of the recursion never exceeds the number of bytes of the
    input by more than one. *)
Definition SkipValue : M CborReader unit :=
  r <- get ;;
  skipValue (S (List.length (data r))).

Definition skipArray : M CborReader unit := skipArrayWith SkipValue.

Definition skipMap : M CborReader unit := skipMapWith SkipValue.

(** [make([]byte, r.offset-start)] and the slice expression
    [r.data[start:r.offset]] panic together. *)
Definition ReadEncodedValue : M CborReader (list Z) :=
  r <- get ;;
  let start := offset r in
  SkipValue ;;
  r <- get ;;
  orPanic (slice (data r) start (offset r)).

End Skip.

End Reader.


(** ** Notions used to state the properties *)

(** The [n]-byte big-endian representation of [v], and the value of a
    sequence of bytes read as a big-endian unsigned integer. *)
Fixpoint be_bytes (n : nat) (v : Z) : list Z :=
  match n with
  | O => []
  | S n' => be_bytes n' (v / 256) ++ [v mod 256]
  end.

Definition be_value (bs : list Z) : Z :=
  fold_left (fun acc b => acc * 256 + b) bs 0.

(** The encoding of an argument as the specification words it: the smallest
    of the five widths that holds [value], the additional information that
    announces it, and the head made of the initial byte and the big-endian
    argument bytes. *)
Definition argumentWidth (value : Z) : nat :=
  if value <? 24 then 0%nat
  else if value <=? 0xFF then 1%nat
  else if value <=? 0xFFFF then 2%nat
  else if value <=? 0xFFFFFFFF then 4%nat
  else 8%nat.

Definition argumentInfo (value : Z) : Z :=
  if value <? 24 then value
  else if value <=? 0xFF then 24
  else if value <=? 0xFFFF then 25
  else if value <=? 0xFFFFFFFF then 26
  else 27.

Definition writeArgument_spec (mt : MajorType) (value : Z) : list Z :=
  (MajorType_code mt * 32 + argumentInfo value)
    :: be_bytes (argumentWidth value) value.

(** The number of argument bytes that follow an initial byte with additional
    information [ai]. *)
Definition infoWidth (ai : Z) : Z :=
  if ai =? 24 then 1
  else if ai =? 25 then 2
  else if ai =? 26 then 4
  else if ai =? 27 then 8
  else 0.

(** Why ending a container of major type [mt] fails with [e] on the stack
    [st] of the encoder; [map] tells that a pending key is an error too. *)
Definition endFailure (mt : MajorType) (map : bool)
           (st : list Writer.nestingInfo) (e : CborErr) : Prop :=
  (e = ErrInvalidState
   /\ (st = []
       \/ exists info rest, st = info :: rest /\ Writer.majorType info <> mt))
  \/ (e = ErrIncompleteContainer
      /\ exists info rest,
           st = info :: rest /\ Writer.majorType info = mt
           /\ ((map = true /\ Writer.keyWritten info = true)
               \/ (Writer.isIndefinite info = false
                   /\ Writer.itemsWritten info < Writer.definiteLength info)))
  \/ (e = ErrExtraItems
      /\ exists info rest,
           st = info :: rest /\ Writer.majorType info = mt
           /\ Writer.isIndefinite info = false
           /\ Writer.itemsWritten info > Writer.definiteLength info).

(** The bytes that a decoder has not consumed yet. *)
Definition remaining (r : Reader.CborReader) : list Z :=
  skipn (Z.to_nat (Reader.offset r)) (Reader.data r).

(** [readArgumentValue] as a function of the remaining bytes: the number of
    bytes consumed, and the argument or the error. *)
Definition decodeHead (strictMode : bool) (mt : MajorType) (s : list Z)
  : Z * (Z + CborErr) :=
  match s with
  | [] => (0, inr ErrUnexpectedEndOfData)
  | b :: s1 =>
      let '(actualMt, ai) := decodeInitialByte b in
      if negb (MajorType_eqb actualMt mt) then
        (0, inr (TypeMismatchError (CborReaderState_of_MajorType mt)
                                   (CborReaderState_of_MajorType actualMt)))
      else if ai <? 24 then (1, inl ai)
      else if ai =? 24 then
        match s1 with
        | val :: _ =>
            if strictMode && (val <? 24) then (2, inr ErrNonCanonical)
            else (2, inl val)
        | _ => (1, inr ErrUnexpectedEndOfData)
        end
      else if ai =? 25 then
        match BigEndian.Uint16 s1 with
        | Some val =>
            if strictMode && (val <=? 0xFF) then (3, inr ErrNonCanonical)
            else (3, inl val)
        | None => (1, inr ErrUnexpectedEndOfData)
        end
      else if ai =? 26 then
        match BigEndian.Uint32 s1 with
        | Some val =>
            if strictMode && (val <=? 0xFFFF) then (5, inr ErrNonCanonical)
            else (5, inl val)
        | None => (1, inr ErrUnexpectedEndOfData)
        end
      else if ai =? 27 then
        match BigEndian.Uint64 s1 with
        | Some val =>
            if strictMode && (val <=? 0xFFFFFFFF) then (9, inr ErrNonCanonical)
            else (9, inl val)
        | None => (1, inr ErrUnexpectedEndOfData)
        end
      else if ai =? 31 then (1, inl 0)
      else (1, inr ErrInvalidCbor)
  end.

(** The decoder after [n] more bytes have been consumed. *)
Definition consumed (n : Z) (r : Reader.CborReader) : Reader.CborReader :=
  Reader.set_offset (Reader.offset r + n) r.

Definition headOutcome (res : Z * (Z + CborErr)) (r : Reader.CborReader)
  : Res Reader.CborReader Z :=
  match res with
  | (n, inl v) => Ok v (consumed n r)
  | (n, inr e) => Err e (if n =? 0 then r else consumed n r)
  end.

(** Bytes are values below 256. *)
Definition bytes (l : list Z) : Prop := Forall (fun b => 0 <= b < 256) l.

(** The bytes that an encoder operation produces on a fresh encoder
    configured by [opts]. *)
Definition written (opts : list Writer.WriterOption)
           (op : M Writer.CborWriter unit) : list Z :=
  match op (Writer.NewCborWriter opts) with
  | Ok _ w => Writer.Bytes w
  | Err _ w => Writer.Bytes w
  | Panic => []
  end.

(** A binary16 bit pattern is subnormal when its exponent field is zero and
    its fraction is not. *)
Definition subnormal16 (bits : Z) : bool :=
  (Z.land (Z.shiftr bits 10) 0x1F =? 0) && negb (Z.land bits 0x3FF =? 0).

(** The [float32] that [ReadFloat16] returns on the bytes that
    [WriteFloat16 value] produces on a fresh encoder. *)
Definition float16_written_then_read (value : Z) : Outcome Z :=
  outcome (Reader.ReadFloat16
             (Reader.NewCborReader (written [] (Writer.WriteFloat16 value))
                [])).

(** The behaviour of the two conversions on one binary16 pattern, as a
    test that can be run on all of them. *)
Definition float16_behaviour (bits : Z) : bool :=
  let f := Writer.float16BitsToFloat32 bits in
  if subnormal16 bits then
    Writer.float32ToFloat16Bits f =? Z.land bits 0x8000
  else
    Writer.float32ToFloat16Bits f =? bits.

(** A test run on every [k]-bit extension of the bits [base]. *)
Fixpoint all_below (k : nat) (P : Z -> bool) (base : Z) : bool :=
  match k with
  | O => P base
  | S k' => all_below k' P (2 * base) && all_below k' P (2 * base + 1)
  end.

(** The cached classification of a decoder, when there is one, is the one
    that [computeState] would compute. *)
Definition cacheCoherent (r : Reader.CborReader) : Prop :=
  Reader.stateComputed r = true ->
  Reader.computeState r = Ok (Reader.cachedState r) r.

(** The operations of the encoder that open a container or an
    indefinite-length string. *)
Inductive WriteStart : Type :=
| StartArray (length : Z)
| StartMap (length : Z)
| StartIndefiniteLengthArray
| StartIndefiniteLengthMap
| StartIndefiniteLengthByteString
| StartIndefiniteLengthTextString.

Definition runWriteStart (op : WriteStart) : M Writer.CborWriter unit :=
  match op with
  | StartArray length => Writer.WriteStartArray length
  | StartMap length => Writer.WriteStartMap length
  | StartIndefiniteLengthArray => Writer.WriteStartIndefiniteLengthArray
  | StartIndefiniteLengthMap => Writer.WriteStartIndefiniteLengthMap
  | StartIndefiniteLengthByteString =>
      Writer.WriteStartIndefiniteLengthByteString
  | StartIndefiniteLengthTextString =>
      Writer.WriteStartIndefiniteLengthTextString
  end.

Definition indefiniteStart (op : WriteStart) : bool :=
  match op with
  | StartArray _ | StartMap _ => false
  | _ => true
  end.

(** [n] consecutive calls of [WriteStartArray(1)], each inside the array
    that the previous one opened, and [n] consecutive calls of
    [ReadStartArray]. *)
Fixpoint startArrays (n : nat) : M Writer.CborWriter unit :=
  match n with
  | O => ret tt
  | S n' => Writer.WriteStartArray 1 ;; startArrays n'
  end.

Fixpoint readStartArrays (n : nat) : M Reader.CborReader unit :=
  match n with
  | O => ret tt
  | S n' => Reader.ReadStartArray ;; readStartArrays n'
  end.

(** The state of a decoder in front of [m] nested one-element arrays. *)
Definition beforeArrays (m : nat) (r : Reader.CborReader) : Prop :=
  0 <= Reader.offset r
  /\ remaining r = repeat 0x81 m
  /\ Reader.stateComputed r = false
  /\ match Reader.nestingStack r with
     | [] => True
     | info :: _ => Reader.frameComplete info = false
     end.

(** The operations of the decoder that read one data item, or the start or
    the end of a container. *)
Inductive ReadOp : Type :=
| OpReadUint64
| OpReadInt64
| OpReadTag
| OpReadByteString
| OpReadTextString
| OpReadStartArray
| OpReadStartMap
| OpReadEndArray
| OpReadEndMap
| OpReadBoolean
| OpReadNull
| OpReadUndefined
| OpReadSimpleValue
| OpReadFloat16
| OpReadFloat32
| OpReadFloat64.

(** A call whose value is left aside. *)
Definition discard {A : Type} (m : M Reader.CborReader A)
  : M Reader.CborReader unit :=
  _ <- m ;; ret tt.

Definition runReadOp (utf8Valid : list Z -> bool) (op : ReadOp)
  : M Reader.CborReader unit :=
  match op with
  | OpReadUint64 => discard Reader.ReadUint64
  | OpReadInt64 => discard Reader.ReadInt64
  | OpReadTag => discard Reader.ReadTag
  | OpReadByteString => discard Reader.ReadByteString
  | OpReadTextString => discard (Reader.ReadTextString utf8Valid)
  | OpReadStartArray => discard Reader.ReadStartArray
  | OpReadStartMap => discard Reader.ReadStartMap
  | OpReadEndArray => Reader.ReadEndArray
  | OpReadEndMap => Reader.ReadEndMap
  | OpReadBoolean => discard Reader.ReadBoolean
  | OpReadNull => Reader.ReadNull
  | OpReadUndefined => Reader.ReadUndefined
  | OpReadSimpleValue => discard Reader.ReadSimpleValue
  | OpReadFloat16 => discard Reader.ReadFloat16
  | OpReadFloat32 => discard Reader.ReadFloat32
  | OpReadFloat64 => discard Reader.ReadFloat64
  end.

(** The decoder [r] on the first [k] bytes of its input only. *)
Definition truncated (k : Z) (r : Reader.CborReader) : Reader.CborReader :=
  Reader.set_data (firstn (Z.to_nat k) (Reader.data r)) r.

(** The decoder after [PeekState] has stored the classification [s]. *)
Definition cached (s : CborReaderState) (r : Reader.CborReader)
  : Reader.CborReader :=
  Reader.set_stateComputed true (Reader.set_cachedState s r).


(** ** The operations of the encoder as data *)

(** The exported methods of [CborWriter] that write.  [WriteInt32],
    [WriteInt16], [WriteInt8], [WriteInt] and their unsigned counterparts
    are [WriteInt64] and [WriteUint64] on a converted argument. *)
Inductive WriteOp : Type :=
| OpWriteInt64 (value : Z)
| OpWriteUint64 (value : Z)
| OpWriteBigInt (value : option Z)
| OpWriteByteString (value : list Z)
| OpWriteTextString (value : list Z)
| OpWriteStart (start : WriteStart)
| OpWriteEndArray
| OpWriteEndMap
| OpWriteTag (tag : Z)
| OpWriteBoolean (value : bool)
| OpWriteNull
| OpWriteUndefined
| OpWriteSimpleValue (value : Z)
| OpWriteFloat16 (value : Z)
| OpWriteFloat32 (value : Z)
| OpWriteFloat64 (value : Z)
| OpWriteByteStringChunk (value : list Z)
| OpWriteEndIndefiniteLengthByteString
| OpWriteTextStringChunk (value : list Z)
| OpWriteEndIndefiniteLengthTextString
| OpWriteUri (uri : list Z)
| OpWriteEncodedCborData (data : list Z)
| OpWriteSelfDescribedCbor
| OpWriteRaw (data : list Z).

Definition runWriteOp (op : WriteOp) : M Writer.CborWriter unit :=
  match op with
  | OpWriteInt64 value => Writer.WriteInt64 value
  | OpWriteUint64 value => Writer.WriteUint64 value
  | OpWriteBigInt value => Writer.WriteBigInt value
  | OpWriteByteString value => Writer.WriteByteString value
  | OpWriteTextString value => Writer.WriteTextString value
  | OpWriteStart start => runWriteStart start
  | OpWriteEndArray => Writer.WriteEndArray
  | OpWriteEndMap => Writer.WriteEndMap
  | OpWriteTag tag => Writer.WriteTag tag
  | OpWriteBoolean value => Writer.WriteBoolean value
  | OpWriteNull => Writer.WriteNull
  | OpWriteUndefined => Writer.WriteUndefined
  | OpWriteSimpleValue value => Writer.WriteSimpleValue value
  | OpWriteFloat16 value => Writer.WriteFloat16 value
  | OpWriteFloat32 value => Writer.WriteFloat32 value
  | OpWriteFloat64 value => Writer.WriteFloat64 value
  | OpWriteByteStringChunk value => Writer.WriteByteStringChunk value
  | OpWriteEndIndefiniteLengthByteString =>
      Writer.WriteEndIndefiniteLengthByteString
  | OpWriteTextStringChunk value => Writer.WriteTextStringChunk value
  | OpWriteEndIndefiniteLengthTextString =>
      Writer.WriteEndIndefiniteLengthTextString
  | OpWriteUri uri => Writer.WriteUri uri
  | OpWriteEncodedCborData data => Writer.WriteEncodedCborData data
  | OpWriteSelfDescribedCbor => Writer.WriteSelfDescribedCbor
  | OpWriteRaw data => Writer.WriteRaw data
  end.

(** A program of the caller that stops at the first error, as Go code that
    tests every [err] does. *)
Fixpoint runWriteOps (ops : list WriteOp) : M Writer.CborWriter unit :=
  match ops with
  | [] => ret tt
  | op :: ops' => runWriteOp op ;; runWriteOps ops'
  end.

(** What holds of every frame of an encoder, and of every encoder, that
    the operations produce. *)
Definition frameOk (canonical : bool) (info : Writer.nestingInfo) : Prop :=
  0 <= Writer.itemsWritten info
  /\ (Writer.isMap info = true <-> Writer.majorType info = MajorTypeMap)
  /\ (Writer.keyWritten info = true -> Writer.isMap info = true)
  /\ (Writer.isIndefinite info = true -> Writer.definiteLength info = -1)
  /\ (canonical = true -> Writer.isIndefinite info = false).

Definition writerOk (w : Writer.CborWriter) : Prop :=
  Writer.currentOffset w = Writer.Len w
  /\ Writer.NestingDepth w <= Z.max 0 (Writer.maxNestingDepth w)
  /\ Forall (frameOk (Writer.canonicalMode w)) (Writer.nestingStack w).

(** Two encoders that differ at most in [allowMultipleRootValues] and
    [rootValueWritten]. *)
Definition sameButRootFlags (w1 w2 : Writer.CborWriter) : Prop :=
  Writer.buffer w1 = Writer.buffer w2
  /\ Writer.conformanceMode w1 = Writer.conformanceMode w2
  /\ Writer.nestingStack w1 = Writer.nestingStack w2
  /\ Writer.maxNestingDepth w1 = Writer.maxNestingDepth w2
  /\ Writer.currentOffset w1 = Writer.currentOffset w2.

(** The buffer [b'] is [b] with bytes appended. *)
Definition extends (b b' : list Z) : Prop := exists out, b' = b ++ out.

(** ** Data items in front of a decoder *)

(** The stack of the decoder after its innermost frame has counted one
    more item. *)
Definition advanceStack (st : list Reader.readerNestingInfo)
  : list Reader.readerNestingInfo :=
  match st with
  | [] => []
  | info :: rest => Reader.advanceFrame info :: rest
  end.

(** A decoder in front of a data item: the input is a Go slice, a cached
    classification is the current one, and the innermost frame, if there
    is one, has not reached its declared count. *)
Definition ready (r : Reader.CborReader) : Prop :=
  0 <= Reader.offset r
  /\ len (Reader.data r) <= MaxInt64
  /\ cacheCoherent r
  /\ match Reader.nestingStack r with
     | [] => True
     | info :: _ => Reader.frameComplete info = false
     end.

(** [r'] is [r] with [n] more bytes consumed, the stack [st] and no cached
    classification. *)
Definition moved (n : Z) (st : list Reader.readerNestingInfo)
           (r r' : Reader.CborReader) : Prop :=
  Reader.data r' = Reader.data r
  /\ Reader.offset r' = Reader.offset r + n
  /\ Reader.conformanceMode r' = Reader.conformanceMode r
  /\ Reader.maxNestingDepth r' = Reader.maxNestingDepth r
  /\ Reader.allowMultipleRootValues r' = Reader.allowMultipleRootValues r
  /\ Reader.nestingStack r' = st
  /\ Reader.stateComputed r' = false.

(** [r'] is [r] after one data item of [n] bytes has been read. *)
Definition stepped (n : Z) (r r' : Reader.CborReader) : Prop :=
  moved n (advanceStack (Reader.nestingStack r)) r r'.

(** The classification of a head of major type [mt] that carries a
    length or a value. *)
Definition headState (mt : MajorType) : CborReaderState :=
  match mt with
  | MajorTypeUnsignedInteger => StateUnsignedInteger
  | MajorTypeNegativeInteger => StateNegativeInteger
  | MajorTypeByteString => StateByteString
  | MajorTypeTextString => StateTextString
  | MajorTypeArray => StateStartArray
  | MajorTypeMap => StateStartMap
  | MajorTypeTag => StateTag
  | MajorTypeSimpleOrFloat => StateSimpleValue
  end.

(** The encodings of the data items that have no items inside. *)
Definition encInt64 (i : Z) : list Z :=
  if 0 <=? i then writeArgument_spec MajorTypeUnsignedInteger i
  else writeArgument_spec MajorTypeNegativeInteger (-1 - i).

Definition encString (mt : MajorType) (s : list Z) : list Z :=
  writeArgument_spec mt (len s) ++ s.

Definition encBoolean (value : bool) : list Z :=
  [if value then 0xF5 else 0xF4].

Definition encSimpleValue (value : Z) : list Z :=
  if value <? 32 then [0xE0 + value] else [0xF8; value].

Definition encFloat16 (bits : Z) : list Z := 0xF9 :: be_bytes 2 bits.
Definition encFloat32 (bits : Z) : list Z := 0xFA :: be_bytes 4 bits.
Definition encFloat64 (bits : Z) : list Z := 0xFB :: be_bytes 8 bits.

(** ** Data items written by an encoder *)

(** The encoder [w] after the bytes [out] have been appended. *)
Definition appended (out : list Z) (w : Writer.CborWriter)
  : Writer.CborWriter :=
  Writer.set_currentOffset (len (Writer.buffer w ++ out))
    (Writer.set_buffer (Writer.buffer w ++ out) w).

(** The encoder [w] after a data item encoded as [out] has been written:
    the innermost frame has counted it, or the root value is marked. *)
Definition itemWritten (out : list Z) (w : Writer.CborWriter)
  : Writer.CborWriter :=
  match Writer.nestingStack w with
  | [] => Writer.set_rootValueWritten true (appended out w)
  | info :: rest =>
      Writer.set_nestingStack (Writer.advanceFrame info :: rest)
        (appended out w)
  end.

(** The encoder operation [write] appends the bytes [out] and counts one
    data item, in every state of the encoder. *)
Definition writesItem (write : M Writer.CborWriter unit) (out : list Z)
  : Prop :=
  forall w : Writer.CborWriter, write w = Ok tt (itemWritten out w).

(** The decoder operation [read] returns [a] on every input that continues
    with the bytes [out], in every decoder in front of a data item that
    satisfies [P]: it consumes exactly [out] and counts one data item. *)
Definition readsBack {A : Type} (read : M Reader.CborReader A)
           (P : Reader.CborReader -> Prop) (out : list Z) (a : A) : Prop :=
  forall (r : Reader.CborReader) (rest : list Z),
    ready r -> P r -> remaining r = out ++ rest ->
    exists r',
      read r = Ok a r' /\ stepped (len out) r r' /\ remaining r' = rest.

Definition anyReader (r : Reader.CborReader) : Prop := True.


(** What [WriteBigInt] writes for an integer: an integer head when the
    value fits [int64] or [uint64], and otherwise tag 2 or 3 followed by
    the magnitude as a byte string. *)
Definition encBigInt (z : Z) : list Z :=
  if (MinInt64 <=? z) && (z <=? MaxInt64) then encInt64 z
  else if (0 <=? z) && (z <? 2^64) then
    writeArgument_spec MajorTypeUnsignedInteger z
  else if 0 <=? z then
    writeArgument_spec MajorTypeTag TagUnsignedBignum
      ++ encString MajorTypeByteString (Writer.bigBytes z)
  else
    writeArgument_spec MajorTypeTag TagNegativeBignum
      ++ encString MajorTypeByteString (Writer.bigBytes (- z - 1)).

(** The magnitude that [WriteBigInt] writes as a byte string. *)
Definition bigMagnitude (z : Z) : Z := if 0 <=? z then z else - z - 1.


(** ** Nested data items *)

(** A data item as a caller of the encoder builds it: which operation
    writes it, and the items inside it. *)
Unset Elimination Schemes.
Inductive Value : Type :=
| VUint (u : Z)
| VInt (i : Z)
| VBytes (bs : list Z)
| VText (s : list Z)
| VBytesChunks (chunks : list (list Z))
| VTextChunks (chunks : list (list Z))
| VArray (items : list Value)
| VArrayIndef (items : list Value)
| VMap (pairs : list (Value * Value))
| VMapIndef (pairs : list (Value * Value))
| VTagged (tag : Z) (v : Value)
| VBool (b : bool)
| VNull
| VUndefined
| VSimple (value : Z)
| VFloat16 (value : Z)
| VFloat32 (bits : Z)
| VFloat64 (bits : Z).
Set Elimination Schemes.

(** The calls of a program in sequence, up to the first error. *)
Fixpoint sequence {S : Type} (ms : list (M S unit)) : M S unit :=
  match ms with
  | [] => ret tt
  | m :: ms' => m ;; sequence ms'
  end.

(** The calls of the encoder that write a data item. *)
Fixpoint writeValue (v : Value) : M Writer.CborWriter unit :=
  match v with
  | VUint u => Writer.WriteUint64 u
  | VInt i => Writer.WriteInt64 i
  | VBytes bs => Writer.WriteByteString bs
  | VText s => Writer.WriteTextString s
  | VBytesChunks chunks =>
      Writer.WriteStartIndefiniteLengthByteString ;;
      sequence (map Writer.WriteByteStringChunk chunks) ;;
      Writer.WriteEndIndefiniteLengthByteString
  | VTextChunks chunks =>
      Writer.WriteStartIndefiniteLengthTextString ;;
      sequence (map Writer.WriteTextStringChunk chunks) ;;
      Writer.WriteEndIndefiniteLengthTextString
  | VArray items =>
      Writer.WriteStartArray (len items) ;;
      sequence (map writeValue items) ;;
      Writer.WriteEndArray
  | VArrayIndef items =>
      Writer.WriteStartIndefiniteLengthArray ;;
      sequence (map writeValue items) ;;
      Writer.WriteEndArray
  | VMap pairs =>
      Writer.WriteStartMap (len pairs) ;;
      sequence (map (fun kv => let '(k, x) := kv in
                               writeValue k ;; writeValue x) pairs) ;;
      Writer.WriteEndMap
  | VMapIndef pairs =>
      Writer.WriteStartIndefiniteLengthMap ;;
      sequence (map (fun kv => let '(k, x) := kv in
                               writeValue k ;; writeValue x) pairs) ;;
      Writer.WriteEndMap
  | VTagged tag v => Writer.WriteTag tag ;; writeValue v
  | VBool b => Writer.WriteBoolean b
  | VNull => Writer.WriteNull
  | VUndefined => Writer.WriteUndefined
  | VSimple value => Writer.WriteSimpleValue value
  | VFloat16 value => Writer.WriteFloat16 value
  | VFloat32 bits => Writer.WriteFloat32 bits
  | VFloat64 bits => Writer.WriteFloat64 bits
  end.

(** The encoding of a data item. *)
Fixpoint enc (v : Value) : list Z :=
  match v with
  | VUint u => writeArgument_spec MajorTypeUnsignedInteger u
  | VInt i => encInt64 i
  | VBytes bs => encString MajorTypeByteString bs
  | VText s => encString MajorTypeTextString s
  | VBytesChunks chunks =>
      0x5F :: concat (map (encString MajorTypeByteString) chunks) ++ [0xFF]
  | VTextChunks chunks =>
      0x7F :: concat (map (encString MajorTypeTextString) chunks) ++ [0xFF]
  | VArray items =>
      writeArgument_spec MajorTypeArray (len items) ++ concat (map enc items)
  | VArrayIndef items => 0x9F :: concat (map enc items) ++ [0xFF]
  | VMap pairs =>
      writeArgument_spec MajorTypeMap (len pairs)
        ++ concat (map (fun kv => let '(k, x) := kv in enc k ++ enc x) pairs)
  | VMapIndef pairs =>
      0xBF :: concat (map (fun kv => let '(k, x) := kv in enc k ++ enc x)
                          pairs) ++ [0xFF]
  | VTagged tag v => writeArgument_spec MajorTypeTag tag ++ enc v
  | VBool b => encBoolean b
  | VNull => [0xF6]
  | VUndefined => [0xF7]
  | VSimple value => encSimpleValue value
  | VFloat16 value => encFloat16 (Writer.float32ToFloat16Bits value)
  | VFloat32 bits => encFloat32 bits
  | VFloat64 bits => encFloat64 bits
  end.

(** The number of frames that the encoder, and the decoder, open at most
    at a time inside a data item: the encoder opens one for an
    indefinite-length string too. *)
Fixpoint writerDepth (v : Value) : nat :=
  match v with
  | VBytesChunks _ | VTextChunks _ => 1
  | VArray items | VArrayIndef items => S (list_max (map writerDepth items))
  | VMap pairs | VMapIndef pairs =>
      S (list_max (map (fun kv => let '(k, x) := kv in
                                  Nat.max (writerDepth k) (writerDepth x))
                       pairs))
  | VTagged _ v => writerDepth v
  | _ => 0
  end.

Fixpoint readerDepth (v : Value) : nat :=
  match v with
  | VArray items | VArrayIndef items => S (list_max (map readerDepth items))
  | VMap pairs | VMapIndef pairs =>
      S (list_max (map (fun kv => let '(k, x) := kv in
                                  Nat.max (readerDepth k) (readerDepth x))
                       pairs))
  | VTagged _ v => readerDepth v
  | _ => 0
  end.

(** The depth of the recursion of [SkipValue] on a data item. *)
Fixpoint height (v : Value) : nat :=
  match v with
  | VArray items | VArrayIndef items => S (list_max (map height items))
  | VMap pairs | VMapIndef pairs =>
      S (list_max (map (fun kv => let '(k, x) := kv in
                                  Nat.max (height k) (height x)) pairs))
  | VTagged _ v => S (height v)
  | _ => 0
  end.

(** The data items whose arguments are in the range of their Go types.
    [indefinite] tells whether indefinite-length items are allowed, and
    [validText] which text strings are. *)
Unset Elimination Schemes.
Inductive wellFormed (indefinite : bool) (validText : list Z -> Prop)
  : Value -> Prop :=
| wf_uint u : 0 <= u < 2^64 -> wellFormed indefinite validText (VUint u)
| wf_int i :
    MinInt64 <= i <= MaxInt64 -> wellFormed indefinite validText (VInt i)
| wf_bytes bs : len bs < 2^64 -> wellFormed indefinite validText (VBytes bs)
| wf_text s :
    len s < 2^64 -> validText s -> wellFormed indefinite validText (VText s)
| wf_bytes_chunks chunks :
    indefinite = true -> Forall (fun c => len c < 2^64) chunks ->
    wellFormed indefinite validText (VBytesChunks chunks)
| wf_text_chunks chunks :
    indefinite = true ->
    Forall (fun c => len c < 2^64 /\ validText c) chunks ->
    wellFormed indefinite validText (VTextChunks chunks)
| wf_array items :
    len items <= MaxInt64 -> Forall (wellFormed indefinite validText) items ->
    wellFormed indefinite validText (VArray items)
| wf_array_indef items :
    indefinite = true -> Forall (wellFormed indefinite validText) items ->
    wellFormed indefinite validText (VArrayIndef items)
| wf_map pairs :
    len pairs <= MaxInt64 ->
    Forall (fun kv => wellFormed indefinite validText (fst kv)
                      /\ wellFormed indefinite validText (snd kv)) pairs ->
    wellFormed indefinite validText (VMap pairs)
| wf_map_indef pairs :
    indefinite = true ->
    Forall (fun kv => wellFormed indefinite validText (fst kv)
                      /\ wellFormed indefinite validText (snd kv)) pairs ->
    wellFormed indefinite validText (VMapIndef pairs)
| wf_tagged tag v :
    0 <= tag < 2^64 -> wellFormed indefinite validText v ->
    wellFormed indefinite validText (VTagged tag v)
| wf_bool b : wellFormed indefinite validText (VBool b)
| wf_null : wellFormed indefinite validText VNull
| wf_undefined : wellFormed indefinite validText VUndefined
| wf_simple value :
    0 <= value < 20 \/ 32 <= value < 256 ->
    wellFormed indefinite validText (VSimple value)
| wf_float16 value : wellFormed indefinite validText (VFloat16 value)
| wf_float32 bits :
    0 <= bits < 2^32 -> wellFormed indefinite validText (VFloat32 bits)
| wf_float64 bits :
    0 <= bits < 2^64 -> wellFormed indefinite validText (VFloat64 bits).
Set Elimination Schemes.

(** The encoder [w] after the bytes [out] have been appended and the frame
    [f] has been pushed. *)
Definition framed (f : Writer.nestingInfo) (out : list Z)
           (w : Writer.CborWriter) : Writer.CborWriter :=
  Writer.set_nestingStack (f :: Writer.nestingStack w) (appended out w).

(** The frames of the encoder: of an array or an indefinite-length string
    that holds [k] items, and of a map that holds [k] pairs and, when
    [key] is set, the key of the next one. *)
Definition itemsFrame (mt : MajorType) (n k : Z) (indefinite : bool)
  : Writer.nestingInfo :=
  Writer.mkNestingInfo mt n k false false indefinite.

Definition pairsFrame (n k : Z) (key indefinite : bool)
  : Writer.nestingInfo :=
  Writer.mkNestingInfo MajorTypeMap n k true key indefinite.

(** The encoding of the pairs of a map. *)
Definition encPair (kv : Value * Value) : list Z :=
  let '(k, x) := kv in enc k ++ enc x.

Definition writePair (kv : Value * Value) : M Writer.CborWriter unit :=
  let '(k, x) := kv in writeValue k ;; writeValue x.

(** A data item that the encoder accepts: it is well-formed, without
    indefinite-length items in the canonical modes, and its nesting fits
    under the nesting cap. *)
Definition writable (w : Writer.CborWriter) (v : Value) : Prop :=
  wellFormed (negb (Writer.canonicalMode w)) (fun _ => True) v
  /\ Writer.NestingDepth w + Z.of_nat (writerDepth v)
     <= Writer.maxNestingDepth w.

(** A data item that a decoder in the conformance mode [mode] accepts:
    no indefinite-length item in the canonical modes, and valid UTF-8 in
    every text string in the strict and canonical modes. *)
Definition readableIn (utf8Valid : list Z -> bool)
           (mode : CborConformanceMode) (v : Value) : Prop :=
  wellFormed (negb (mode_geb mode ConformanceCanonical))
             (fun s => mode_geb mode ConformanceStrict
                       && negb (utf8Valid s) = false) v.

(** [SkipValue], run with the recursion bound [fuel], skips the data item
    [v] wherever its encoding stands in front of a decoder. *)
Definition skips (utf8Valid : list Z -> bool) (v : Value) : Prop :=
  forall (fuel : nat) (r : Reader.CborReader) (rest : list Z),
    (height v < fuel)%nat ->
    ready r ->
    readableIn utf8Valid (Reader.conformanceMode r) v ->
    Reader.NestingDepth r + Z.of_nat (readerDepth v)
    <= Reader.maxNestingDepth r ->
    remaining r = enc v ++ rest ->
    exists r',
      Reader.skipValue utf8Valid fuel r = Ok tt r'
      /\ stepped (len (enc v)) r r'.


(** ** The state test of the typed reads *)

(** The classifications on which a typed read goes on, and the expected
    state that it reports in [TypeMismatchError] on the others. *)
Definition acceptsState (op : ReadOp) (st : CborReaderState) : bool :=
  match op, st with
  | OpReadUint64, StateUnsignedInteger
  | OpReadInt64, (StateUnsignedInteger | StateNegativeInteger)
  | OpReadTag, StateTag
  | OpReadByteString, (StateByteString | StateStartIndefiniteLengthByteString)
  | OpReadTextString, (StateTextString | StateStartIndefiniteLengthTextString)
  | OpReadStartArray, StateStartArray
  | OpReadStartMap, StateStartMap
  | OpReadEndArray, StateEndArray
  | OpReadEndMap, StateEndMap
  | OpReadBoolean, StateBoolean
  | OpReadNull, StateNull
  | OpReadUndefined, StateUndefinedValue
  | OpReadSimpleValue,
    (StateSimpleValue | StateBoolean | StateNull | StateUndefinedValue)
  | OpReadFloat16, StateHalfPrecisionFloat
  | OpReadFloat32, StateSinglePrecisionFloat
  | OpReadFloat64, StateDoublePrecisionFloat => true
  | _, _ => false
  end.

Definition expectedState (op : ReadOp) : CborReaderState :=
  match op with
  | OpReadUint64 | OpReadInt64 => StateUnsignedInteger
  | OpReadTag => StateTag
  | OpReadByteString => StateByteString
  | OpReadTextString => StateTextString
  | OpReadStartArray => StateStartArray
  | OpReadStartMap => StateStartMap
  | OpReadEndArray => StateEndArray
  | OpReadEndMap => StateEndMap
  | OpReadBoolean => StateBoolean
  | OpReadNull => StateNull
  | OpReadUndefined => StateUndefinedValue
  | OpReadSimpleValue => StateSimpleValue
  | OpReadFloat16 => StateHalfPrecisionFloat
  | OpReadFloat32 => StateSinglePrecisionFloat
  | OpReadFloat64 => StateDoublePrecisionFloat
  end.

(** [r'] is [r] up to the cached classification. *)
Definition samePlace (r r' : Reader.CborReader) : Prop :=
  Reader.data r' = Reader.data r
  /\ Reader.offset r' = Reader.offset r
  /\ Reader.nestingStack r' = Reader.nestingStack r
  /\ Reader.conformanceMode r' = Reader.conformanceMode r
  /\ Reader.maxNestingDepth r' = Reader.maxNestingDepth r.

(** One more data item in a frame, in the words of the specification: an
    array frame counts one more item; a map frame that waits for a key
    only records the key; a map frame that holds a key counts one more
    item and waits for a key again.  [key] and [items] describe the frame
    before, [key'] and [items'] the frame after. *)
Definition countedOnce (isMap key : bool) (items : Z)
           (key' : bool) (items' : Z) : Prop :=
  if isMap then
    if key then key' = false /\ items' = items + 1
    else key' = true /\ items' = items
  else key' = key /\ items' = items + 1.


(* ================================================================= *)
(** * Part II: properties *)
(* ================================================================= *)

(** ** Bit-level arithmetic *)

Lemma lor_shiftl_add (a b k : Z) :
  0 <= k -> 0 <= a < 2^k -> 0 <= b -> Z.lor a (Z.shiftl b k) = a + b * 2^k.
Proof.
  intros Hk Ha Hb.
  rewrite Z.shiftl_mul_pow2 by lia.
  assert (Hland : Z.land a (b * 2^k) = 0).
  { apply Z.bits_inj'. intros n Hn. rewrite Z.land_spec, Z.bits_0.
    destruct (Z.ltb_spec n k).
    - rewrite Z.mul_pow2_bits_low by lia. apply andb_false_r.
    - destruct (Z.eq_dec a 0) as [->|Hne]; [now rewrite Z.bits_0|].
      rewrite (Z.bits_above_log2 a n); [reflexivity|lia|].
      apply Z.lt_le_trans with k; [|lia].
      apply Z.log2_lt_pow2; lia. }
  rewrite <- Z.lxor_lor by exact Hland.
  symmetry. apply Z.add_nocarry_lxor. exact Hland.
Qed.

Lemma to_byte_range (x : Z) : 0 <= to_byte x < 2^8.
Proof. unfold to_byte. apply Z.mod_pos_bound. reflexivity. Qed.

Lemma to_byte_small (x : Z) : 0 <= x < 256 -> to_byte x = x.
Proof. intros H. unfold to_byte. apply Z.mod_small. exact H. Qed.

Lemma encodeInitialByte_arith (mt : MajorType) (ai : Z) :
  0 <= ai < 32 -> encodeInitialByte mt ai = MajorType_code mt * 32 + ai.
Proof.
  intros H. unfold encodeInitialByte, to_byte.
  change 0x1F with (Z.ones 5). rewrite Z.land_ones by lia.
  rewrite (Z.mod_small ai) by (change (2^5) with 32; lia).
  rewrite Z.lor_comm.
  replace (Z.shiftl (MajorType_code mt) 5 mod 2^8)
    with (Z.shiftl (MajorType_code mt) 5) by (destruct mt; reflexivity).
  assert (Hc : 0 <= MajorType_code mt < 8) by (destruct mt; simpl; lia).
  rewrite lor_shiftl_add by (change (2^5) with 32; lia).
  change (2^5) with 32. lia.
Qed.

Lemma decode_encodeInitialByte (mt : MajorType) (ai : Z) :
  0 <= ai < 32 -> decodeInitialByte (encodeInitialByte mt ai) = (mt, ai).
Proof.
  intros H. rewrite encodeInitialByte_arith by lia. unfold decodeInitialByte.
  rewrite Z.shiftr_div_pow2 by lia.
  change 0x1F with (Z.ones 5). rewrite Z.land_ones by lia.
  change (2^5) with 32.
  assert (Hc : 0 <= MajorType_code mt < 8) by (destruct mt; simpl; lia).
  f_equal.
  - replace ((MajorType_code mt * 32 + ai) / 32) with (MajorType_code mt)
      by (apply Z.div_unique with ai; lia).
    destruct mt; reflexivity.
  - symmetry. apply Z.mod_unique with (MajorType_code mt); lia.
Qed.

Lemma encodeInitialByte_not_break (mt : MajorType) (ai : Z) :
  0 <= ai < 31 -> encodeInitialByte mt ai <> breakByte.
Proof.
  intros H. rewrite encodeInitialByte_arith by lia.
  unfold breakByte. destruct mt; unfold MajorType_code; lia.
Qed.

(** ** Big-endian arguments *)

Lemma AppendUint16_be (b : list Z) (v : Z) :
  0 <= v < 2^16 -> BigEndian.AppendUint16 b v = b ++ be_bytes 2 v.
Proof.
  intros Hv. unfold BigEndian.AppendUint16, to_byte. cbn [be_bytes app].
  rewrite Z.shiftr_div_pow2 by lia.
  change (2^8) with 256. reflexivity.
Qed.

Lemma AppendUint32_be (b : list Z) (v : Z) :
  0 <= v < 2^32 -> BigEndian.AppendUint32 b v = b ++ be_bytes 4 v.
Proof.
  intros Hv. unfold BigEndian.AppendUint32, to_byte. cbn [be_bytes app].
  rewrite !Z.shiftr_div_pow2 by lia.
  change (2^8) with 256. change (2^16) with (256 * 256).
  change (2^24) with (256 * 256 * 256).
  rewrite <- !Z.div_div by lia.
  reflexivity.
Qed.

Lemma AppendUint64_be (b : list Z) (v : Z) :
  0 <= v < 2^64 -> BigEndian.AppendUint64 b v = b ++ be_bytes 8 v.
Proof.
  intros Hv. unfold BigEndian.AppendUint64, to_byte. cbn [be_bytes app].
  rewrite !Z.shiftr_div_pow2 by lia.
  change (2^8) with 256. change (2^16) with (256 * 256).
  change (2^24) with (256 * 256 * 256).
  change (2^32) with (256 * 256 * 256 * 256).
  change (2^40) with (256 * 256 * 256 * 256 * 256).
  change (2^48) with (256 * 256 * 256 * 256 * 256 * 256).
  change (2^56) with (256 * 256 * 256 * 256 * 256 * 256 * 256).
  rewrite <- !Z.div_div by lia.
  reflexivity.
Qed.


(** ** The encoder's heads *)

Lemma appendInitialByte_spec (mt : MajorType) (value : Z) (b : list Z) :
  0 <= value < 2^64 ->
  Writer.appendInitialByte mt value b = b ++ writeArgument_spec mt value.
Proof.
  intros Hv.
  unfold Writer.appendInitialByte, writeArgument_spec, argumentInfo,
    argumentWidth.
  change MaxUint8 with 0xFF. change MaxUint16 with 0xFFFF.
  change MaxUint32 with 0xFFFFFFFF.
  destruct (Z.ltb_spec value 24).
  { rewrite to_byte_small by lia. rewrite encodeInitialByte_arith by lia.
    reflexivity. }
  destruct (Z.leb_spec value 0xFF).
  { rewrite to_byte_small by lia.
    unfold AdditionalInfo8Bit. rewrite encodeInitialByte_arith by lia.
    cbn [be_bytes app]. rewrite Z.mod_small by lia. reflexivity. }
  destruct (Z.leb_spec value 0xFFFF).
  { unfold to_uint16. rewrite Z.mod_small by lia.
    rewrite AppendUint16_be by lia.
    unfold AdditionalInfo16Bit. rewrite encodeInitialByte_arith by lia.
    rewrite <- app_assoc. reflexivity. }
  destruct (Z.leb_spec value 0xFFFFFFFF).
  { unfold to_uint32. rewrite Z.mod_small by lia.
    rewrite AppendUint32_be by lia.
    unfold AdditionalInfo32Bit. rewrite encodeInitialByte_arith by lia.
    rewrite <- app_assoc. reflexivity. }
  rewrite AppendUint64_be by lia.
  unfold AdditionalInfo64Bit. rewrite encodeInitialByte_arith by lia.
  rewrite <- app_assoc. reflexivity.
Qed.

Lemma be_value_app (xs ys : list Z) :
  be_value (xs ++ ys) = fold_left (fun acc b => acc * 256 + b) ys (be_value xs).
Proof. unfold be_value. apply fold_left_app. Qed.

Lemma be_value_be_bytes (n : nat) (v : Z) :
  0 <= v < 256 ^ Z.of_nat n -> be_value (be_bytes n v) = v.
Proof.
  revert v. induction n as [|n IH]; intros v Hv.
  - change (256 ^ Z.of_nat 0) with 1 in Hv. cbn. lia.
  - cbn [be_bytes]. rewrite be_value_app. cbn [fold_left].
    rewrite IH.
    + Z.div_mod_to_equations. lia.
    + rewrite Nat2Z.inj_succ, Z.pow_succ_r in Hv by lia.
      Z.div_mod_to_equations. nia.
Qed.

Lemma be_bytes_length (n : nat) (v : Z) : length (be_bytes n v) = n.
Proof.
  revert v. induction n as [|n IH]; intros v; cbn [be_bytes].
  - reflexivity.
  - rewrite length_app, IH. cbn. lia.
Qed.

Lemma be_bytes_range (n : nat) (v b : Z) :
  In b (be_bytes n v) -> 0 <= b < 256.
Proof.
  revert v. induction n as [|n IH]; intros v; cbn [be_bytes].
  - intros [].
  - intros Hin. apply in_app_or in Hin. destruct Hin as [Hin|[<-|[]]].
    + eapply IH; eauto.
    + apply Z.mod_pos_bound. lia.
Qed.

(** A value in the range of a width is below the bound that makes the next
    smaller width sufficient only when the specification picks that
    width. *)
Lemma argumentWidth_holds (value : Z) :
  0 <= value < 2^64 ->
  24 <= value -> 0 <= value < 256 ^ Z.of_nat (argumentWidth value).
Proof.
  intros Hv H24. unfold argumentWidth.
  destruct (Z.ltb_spec value 24); [lia|].
  destruct (Z.leb_spec value 0xFF); [cbn; lia|].
  destruct (Z.leb_spec value 0xFFFF); [cbn; lia|].
  destruct (Z.leb_spec value 0xFFFFFFFF); [cbn; lia|].
  cbn; lia.
Qed.

(** C2.  For every major type [mt], every [uint64] argument [value] and
    every encoder state [w] (so in every conformance mode, lax included),
    [writeMinimalInitialByte] appends exactly the head that the
    specification describes and changes nothing else but [currentOffset]:
    one byte with immediate additional information for a value below 24, a
    1-byte argument up to 0xFF, 2 bytes up to 0xFFFF, 4 bytes up to
    0xFFFFFFFF and 8 bytes above, the argument bytes being the big-endian
    representation of the value.  [writeInitialByte] emits the same
    bytes. *)
Theorem writeMinimalInitialByte_minimal
  (mt : MajorType) (value : Z) (w : Writer.CborWriter)
  (Hvalue : 0 <= value < 2^64) :
  exists head,
    Writer.writeMinimalInitialByte mt value w
      = Ok tt (Writer.set_currentOffset (len (Writer.buffer w ++ head))
                 (Writer.set_buffer (Writer.buffer w ++ head) w))
    /\ Writer.writeInitialByte mt value w
         = Writer.writeMinimalInitialByte mt value w
    /\ head = writeArgument_spec mt value
    /\ (value < 24 -> head = [MajorType_code mt * 32 + value])
    /\ (24 <= value <= 0xFF -> head = [MajorType_code mt * 32 + 24; value])
    /\ (0xFF < value <= 0xFFFF ->
        head = (MajorType_code mt * 32 + 25) :: be_bytes 2 value)
    /\ (0xFFFF < value <= 0xFFFFFFFF ->
        head = (MajorType_code mt * 32 + 26) :: be_bytes 4 value)
    /\ (0xFFFFFFFF < value ->
        head = (MajorType_code mt * 32 + 27) :: be_bytes 8 value)
    /\ (24 <= value -> be_value (tl head) = value).
Proof.
  exists (writeArgument_spec mt value).
  split; [|split; [|split; [|split; [|split; [|split; [|split; [|split]]]]]]].
  - unfold Writer.writeMinimalInitialByte, Writer.emit, modify.
    rewrite appendInitialByte_spec by exact Hvalue. reflexivity.
  - reflexivity.
  - reflexivity.
  - intros H. unfold writeArgument_spec, argumentInfo, argumentWidth.
    destruct (Z.ltb_spec value 24); [reflexivity|lia].
  - intros H. unfold writeArgument_spec, argumentInfo, argumentWidth.
    destruct (Z.ltb_spec value 24); [lia|].
    destruct (Z.leb_spec value 0xFF); [|lia].
    cbn [be_bytes app]. rewrite Z.mod_small by lia. reflexivity.
  - intros H. unfold writeArgument_spec, argumentInfo, argumentWidth.
    destruct (Z.ltb_spec value 24); [lia|].
    destruct (Z.leb_spec value 0xFF); [lia|].
    destruct (Z.leb_spec value 0xFFFF); [reflexivity|lia].
  - intros H. unfold writeArgument_spec, argumentInfo, argumentWidth.
    destruct (Z.ltb_spec value 24); [lia|].
    destruct (Z.leb_spec value 0xFF); [lia|].
    destruct (Z.leb_spec value 0xFFFF); [lia|].
    destruct (Z.leb_spec value 0xFFFFFFFF); [reflexivity|lia].
  - intros H. unfold writeArgument_spec, argumentInfo, argumentWidth.
    destruct (Z.ltb_spec value 24); [lia|].
    destruct (Z.leb_spec value 0xFF); [lia|].
    destruct (Z.leb_spec value 0xFFFF); [lia|].
    destruct (Z.leb_spec value 0xFFFFFFFF); [lia|reflexivity].
  - intros H. unfold writeArgument_spec. cbn [tl].
    apply be_value_be_bytes. apply argumentWidth_holds; assumption.
Qed.

Lemma writeMinimalInitialByte_minimal_witness :
  0 <= 1000 < 2^64 /\
  exists head,
    Writer.writeMinimalInitialByte MajorTypeUnsignedInteger 1000
      (Writer.NewCborWriter [Writer.WithConformanceMode ConformanceCanonical])
    = Ok tt (Writer.mkCborWriter head ConformanceCanonical [] 64 (len head)
               false false)
    /\ head = [0x19; 0x03; 0xe8].
Proof.
  split; [lia|].
  destruct (writeMinimalInitialByte_minimal MajorTypeUnsignedInteger 1000
              (Writer.NewCborWriter
                 [Writer.WithConformanceMode ConformanceCanonical])
              ltac:(lia))
    as (head & Hrun & _ & Hspec & _).
  exists head. split.
  - exact Hrun.
  - rewrite Hspec. reflexivity.
Defined.

(** ** Ending a container in the encoder *)

Lemma MajorType_eqb_eq (a b : MajorType) :
  MajorType_eqb a b = true <-> a = b.
Proof.
  unfold MajorType_eqb. rewrite Z.eqb_eq.
  split; [|now intros ->]. destruct a, b; cbn; congruence.
Qed.

Lemma MajorType_eqb_refl (a : MajorType) : MajorType_eqb a a = true.
Proof. now apply MajorType_eqb_eq. Qed.

Lemma MajorType_eqb_neq (a b : MajorType) :
  MajorType_eqb a b = false <-> a <> b.
Proof.
  rewrite <- MajorType_eqb_eq. destruct (MajorType_eqb a b); split; congruence.
Qed.

Lemma writeEnd_failure (mt : MajorType) (map : bool) (w w' : Writer.CborWriter)
      (e : CborErr) :
  (if map then Writer.WriteEndMap else Writer.WriteEndArray) w = Err e w' ->
  mt = (if map then MajorTypeMap else MajorTypeArray) ->
  w' = w /\ endFailure mt map (Writer.nestingStack w) e.
Proof.
  intros Hrun ->. unfold endFailure.
  destruct map; unfold Writer.WriteEndMap, Writer.WriteEndArray in Hrun;
    unfold bind, get, failIf, throw, ret in Hrun;
    destruct (Writer.nestingStack w) as [|info rest] eqn:Hst.
  all: try (inversion Hrun; subst; split; [reflexivity|left; auto]).
  - destruct (MajorType_eqb (Writer.majorType info) MajorTypeMap) eqn:Hmt;
      cbn [negb] in Hrun.
    2:{ inversion Hrun; subst. split; [reflexivity|].
        left. split; [reflexivity|]. right. exists info, rest.
        split; [reflexivity|]. now apply MajorType_eqb_neq. }
    apply MajorType_eqb_eq in Hmt.
    destruct (Writer.keyWritten info) eqn:Hkey.
    { inversion Hrun; subst. split; [reflexivity|].
      right; left. split; [reflexivity|]. exists info, rest.
      repeat split; auto. }
    destruct (Writer.isIndefinite info) eqn:Hind.
    { unfold Writer.emit, Writer.pop, Writer.advanceContainer, modify in Hrun.
      discriminate Hrun. }
    destruct (Z.eqb_spec (Writer.itemsWritten info) (Writer.definiteLength info))
      as [Heq|Hne]; cbn [negb] in Hrun.
    { unfold Writer.pop, Writer.advanceContainer, modify in Hrun.
      discriminate Hrun. }
    destruct (Z.ltb_spec (Writer.itemsWritten info) (Writer.definiteLength info));
      inversion Hrun; subst; (split; [reflexivity|]).
    + right; left. split; [reflexivity|]. exists info, rest.
      repeat split; auto.
    + right; right. split; [reflexivity|]. exists info, rest.
      repeat split; auto. lia.
  - destruct (MajorType_eqb (Writer.majorType info) MajorTypeArray) eqn:Hmt;
      cbn [negb] in Hrun.
    2:{ inversion Hrun; subst. split; [reflexivity|].
        left. split; [reflexivity|]. right. exists info, rest.
        split; [reflexivity|]. now apply MajorType_eqb_neq. }
    apply MajorType_eqb_eq in Hmt.
    destruct (Writer.isIndefinite info) eqn:Hind.
    { unfold Writer.emit, Writer.pop, Writer.advanceContainer, modify in Hrun.
      discriminate Hrun. }
    destruct (Z.eqb_spec (Writer.itemsWritten info) (Writer.definiteLength info))
      as [Heq|Hne]; cbn [negb] in Hrun.
    { unfold Writer.pop, Writer.advanceContainer, modify in Hrun.
      discriminate Hrun. }
    destruct (Z.ltb_spec (Writer.itemsWritten info) (Writer.definiteLength info));
      inversion Hrun; subst; (split; [reflexivity|]).
    + right; left. split; [reflexivity|]. exists info, rest.
      repeat split; auto.
    + right; right. split; [reflexivity|]. exists info, rest.
      repeat split; auto. lia.
Qed.

(** C10.  Whenever [WriteEndArray] or [WriteEndMap] returns an error, the
    encoder (output buffer, nesting stack and every field of every frame)
    is exactly what it was before the call, and the error is [InvalidState]
    when no frame or a frame of the other major type is on top,
    [IncompleteContainer] when a definite container has fewer items than
    declared or a map has a key without its value, and [ExtraItems] when a
    definite container has more items than declared. *)
Theorem WriteEnd_error_leaves_writer_unchanged
  (w w' : Writer.CborWriter) (e : CborErr) :
  (Writer.WriteEndArray w = Err e w' ->
   w' = w /\ endFailure MajorTypeArray false (Writer.nestingStack w) e)
  /\ (Writer.WriteEndMap w = Err e w' ->
      w' = w /\ endFailure MajorTypeMap true (Writer.nestingStack w) e).
Proof.
  split; intros Hrun.
  - now apply (writeEnd_failure MajorTypeArray false w w' e).
  - now apply (writeEnd_failure MajorTypeMap true w w' e).
Qed.

Lemma WriteEnd_error_leaves_writer_unchanged_witness :
  let w := Writer.mkCborWriter [0x82; 0x01] ConformanceLax
             [Writer.mkNestingInfo MajorTypeArray 2 1 false false false]
             64 2 false false in
  Writer.WriteEndArray w = Err ErrIncompleteContainer w
  /\ Writer.WriteEndMap w = Err ErrInvalidState w
  /\ endFailure MajorTypeArray false (Writer.nestingStack w)
       ErrIncompleteContainer
  /\ endFailure MajorTypeMap true (Writer.nestingStack w) ErrInvalidState.
Proof.
  intros w.
  assert (Ha : Writer.WriteEndArray w = Err ErrIncompleteContainer w)
    by reflexivity.
  assert (Hm : Writer.WriteEndMap w = Err ErrInvalidState w) by reflexivity.
  split; [exact Ha|]. split; [exact Hm|]. split.
  - exact (proj2 (proj1 (WriteEnd_error_leaves_writer_unchanged
                           w w ErrIncompleteContainer) Ha)).
  - exact (proj2 (proj2 (WriteEnd_error_leaves_writer_unchanged
                           w w ErrInvalidState) Hm)).
Defined.


(** ** Slices and offsets *)

Lemma len_nonneg {A : Type} (l : list A) : 0 <= len l.
Proof. unfold len. lia. Qed.

Lemma len_app {A : Type} (l1 l2 : list A) : len (l1 ++ l2) = len l1 + len l2.
Proof. unfold len. rewrite length_app. lia. Qed.

Lemma len_cons {A : Type} (a : A) (l : list A) : len (a :: l) = 1 + len l.
Proof. unfold len. cbn [length]. lia. Qed.

Lemma len_skipn {A : Type} (d : list A) (o : Z) :
  0 <= o -> len (skipn (Z.to_nat o) d) = Z.max 0 (len d - o).
Proof. intros Ho. unfold len. rewrite length_skipn. lia. Qed.

Lemma skipn_add {A : Type} (d : list A) (o n : Z) :
  0 <= o -> 0 <= n ->
  skipn (Z.to_nat (o + n)) d = skipn (Z.to_nat n) (skipn (Z.to_nat o) d).
Proof.
  intros Ho Hn. rewrite skipn_skipn. f_equal. lia.
Qed.

Lemma index_skipn {A : Type} (d : list A) (o : Z) :
  0 <= o -> index d o = hd_error (skipn (Z.to_nat o) d).
Proof.
  intros Ho. unfold index.
  destruct (Z.ltb_spec o 0); [lia|].
  generalize (Z.to_nat o). intros n. revert d.
  induction n as [|n IH]; intros [|a d]; cbn; auto.
Qed.

Lemma len_leb_skipn {A : Type} (d : list A) (o : Z) :
  0 <= o ->
  (len d <=? o) = match skipn (Z.to_nat o) d with [] => true | _ => false end.
Proof.
  intros Ho. pose proof (len_skipn d o Ho) as Hl.
  destruct (skipn (Z.to_nat o) d) as [|a s].
  - change (len (@nil A)) with 0 in Hl. apply Z.leb_le. lia.
  - rewrite len_cons in Hl. pose proof (len_nonneg s). apply Z.leb_gt. lia.
Qed.

Lemma len_ltb_skipn {A : Type} (d : list A) (o n : Z) :
  0 <= o -> 0 < n ->
  (len d <? o + n) = (len (skipn (Z.to_nat o) d) <? n).
Proof.
  intros Ho Hn. rewrite len_skipn by exact Ho.
  destruct (Z.ltb_spec (len d) (o + n)), (Z.ltb_spec (Z.max 0 (len d - o)) n);
    try reflexivity; lia.
Qed.

Lemma slice_from_skipn {A : Type} (d : list A) (o : Z) :
  0 <= o <= len d -> slice_from d o = Some (skipn (Z.to_nat o) d).
Proof.
  intros Ho. unfold slice_from, slice.
  destruct (Z.leb_spec 0 o); [|lia].
  destruct (Z.leb_spec o (len d)); [|lia].
  rewrite Z.leb_refl. cbn [andb]. f_equal.
  apply firstn_all2. rewrite length_skipn. unfold len. lia.
Qed.

(** ** [readArgumentValue] on the remaining bytes *)

Lemma Uint16_be (b0 b1 : Z) (s : list Z) :
  0 <= b0 < 256 -> 0 <= b1 < 256 ->
  BigEndian.Uint16 (b0 :: b1 :: s) = Some (be_value [b0; b1]).
Proof.
  intros H0 H1. cbn [BigEndian.Uint16]. f_equal.
  rewrite lor_shiftl_add by lia. unfold be_value. cbn [fold_left]. lia.
Qed.

Lemma Uint32_be (b0 b1 b2 b3 : Z) (s : list Z) :
  0 <= b0 < 256 -> 0 <= b1 < 256 -> 0 <= b2 < 256 -> 0 <= b3 < 256 ->
  BigEndian.Uint32 (b0 :: b1 :: b2 :: b3 :: s) = Some (be_value [b0; b1; b2; b3]).
Proof.
  intros H0 H1 H2 H3. cbn [BigEndian.Uint32]. f_equal.
  rewrite (lor_shiftl_add _ _ 8) by lia.
  rewrite (lor_shiftl_add _ _ 16) by lia.
  rewrite (lor_shiftl_add _ _ 24) by lia.
  unfold be_value. cbn [fold_left]. lia.
Qed.

Lemma Uint64_be (b0 b1 b2 b3 b4 b5 b6 b7 : Z) (s : list Z) :
  0 <= b0 < 256 -> 0 <= b1 < 256 -> 0 <= b2 < 256 -> 0 <= b3 < 256 ->
  0 <= b4 < 256 -> 0 <= b5 < 256 -> 0 <= b6 < 256 -> 0 <= b7 < 256 ->
  BigEndian.Uint64 (b0 :: b1 :: b2 :: b3 :: b4 :: b5 :: b6 :: b7 :: s)
  = Some (be_value [b0; b1; b2; b3; b4; b5; b6; b7]).
Proof.
  intros H0 H1 H2 H3 H4 H5 H6 H7. cbn [BigEndian.Uint64]. f_equal.
  rewrite (lor_shiftl_add _ _ 8) by lia.
  rewrite (lor_shiftl_add _ _ 16) by lia.
  rewrite (lor_shiftl_add _ _ 24) by lia.
  rewrite (lor_shiftl_add _ _ 32) by lia.
  rewrite (lor_shiftl_add _ _ 40) by lia.
  rewrite (lor_shiftl_add _ _ 48) by lia.
  rewrite (lor_shiftl_add _ _ 56) by lia.
  unfold be_value. cbn [fold_left]. lia.
Qed.


Ltac unfold_monad :=
  unfold orPanic, failIf, try, bind, get, throw, ret, modify, panic;
  cbn beta iota.

Ltac unfold_monad_in H :=
  unfold orPanic, failIf, try, bind, get, throw, ret, modify, panic in H;
  cbn beta iota in H.

Ltac reader_fields :=
  cbn [Reader.data Reader.offset Reader.conformanceMode Reader.nestingStack
       Reader.maxNestingDepth Reader.cachedState Reader.stateComputed
       Reader.allowMultipleRootValues
       Reader.set_data Reader.set_offset Reader.set_conformanceMode
       Reader.set_nestingStack Reader.set_maxNestingDepth
       Reader.set_cachedState Reader.set_stateComputed
       Reader.set_allowMultipleRootValues Reader.strict consumed
       truncated cached].

Ltac reader_fields_in H :=
  cbn [Reader.data Reader.offset Reader.conformanceMode Reader.nestingStack
       Reader.maxNestingDepth Reader.cachedState Reader.stateComputed
       Reader.allowMultipleRootValues
       Reader.set_data Reader.set_offset Reader.set_conformanceMode
       Reader.set_nestingStack Reader.set_maxNestingDepth
       Reader.set_cachedState Reader.set_stateComputed
       Reader.set_allowMultipleRootValues Reader.strict consumed
       truncated cached] in H.

Ltac reader_setters :=
  unfold consumed, truncated, cached, Reader.set_data, Reader.set_offset,
    Reader.set_conformanceMode, Reader.set_nestingStack,
    Reader.set_maxNestingDepth, Reader.set_cachedState,
    Reader.set_stateComputed, Reader.set_allowMultipleRootValues;
  cbn [Reader.data Reader.offset Reader.conformanceMode Reader.nestingStack
       Reader.maxNestingDepth Reader.cachedState Reader.stateComputed
       Reader.allowMultipleRootValues].

Ltac reader_eq :=
  reader_setters;
  repeat match goal with
         | |- Ok _ _ = Ok _ _ => f_equal
         | |- Err _ _ = Err _ _ => f_equal
         | |- Reader.mkCborReader _ _ _ _ _ _ _ _
              = Reader.mkCborReader _ _ _ _ _ _ _ _ => f_equal
         end;
  try reflexivity; try lia.

Lemma consumed_consumed (n m : Z) (r : Reader.CborReader) :
  consumed m (consumed n r) = consumed (n + m) r.
Proof.
  reader_eq.
Qed.

Lemma remaining_consumed (n : Z) (r : Reader.CborReader) :
  0 <= Reader.offset r -> 0 <= n ->
  remaining (consumed n r) = skipn (Z.to_nat n) (remaining r).
Proof.
  intros Ho Hn. unfold remaining. reader_fields. now apply skipn_add.
Qed.

Lemma Uint16_none (s : list Z) :
  BigEndian.Uint16 s = None <-> len s < 2.
Proof.
  destruct s as [|b0 [|b1 s]]; cbn [BigEndian.Uint16]; rewrite ?len_cons;
    try pose proof (len_nonneg s) as Hnn; change (len (@nil Z)) with 0;
    split; intros Hx; try reflexivity; try discriminate; try lia.
Qed.

Lemma Uint32_none (s : list Z) :
  BigEndian.Uint32 s = None <-> len s < 4.
Proof.
  destruct s as [|b0 [|b1 [|b2 [|b3 s]]]]; cbn [BigEndian.Uint32];
    rewrite ?len_cons;
    try pose proof (len_nonneg s) as Hnn; change (len (@nil Z)) with 0;
    split; intros Hx; try reflexivity; try discriminate; try lia.
Qed.

Lemma Uint64_none (s : list Z) :
  BigEndian.Uint64 s = None <-> len s < 8.
Proof.
  destruct s as [|b0 [|b1 [|b2 [|b3 [|b4 [|b5 [|b6 [|b7 s]]]]]]]];
    cbn [BigEndian.Uint64]; rewrite ?len_cons;
    try pose proof (len_nonneg s) as Hnn; change (len (@nil Z)) with 0;
    split; intros Hx; try reflexivity; try discriminate; try lia.
Qed.

(** The decoder reads a head by looking at the remaining bytes only. *)
Lemma readArgumentValue_decodeHead (mt : MajorType) (r : Reader.CborReader) :
  0 <= Reader.offset r ->
  Reader.readArgumentValue mt r
  = headOutcome (decodeHead (Reader.strict r) mt (remaining r)) r.
Proof.
  intros Ho. unfold Reader.readArgumentValue, decodeHead, remaining.
  unfold_monad. unfold Reader.advance, Reader.strict, modify. reader_fields.
  rewrite len_leb_skipn, index_skipn by exact Ho.
  destruct (skipn (Z.to_nat (Reader.offset r)) (Reader.data r))
    as [|b s1] eqn:Hs; [reflexivity|].
  cbn [hd_error].
  destruct (decodeInitialByte b) as [actualMt ai].
  destruct (negb (MajorType_eqb actualMt mt)); [reflexivity|].
  assert (Hs1 : skipn (Z.to_nat (Reader.offset r + 1)) (Reader.data r) = s1).
  { rewrite skipn_add, Hs by lia. reflexivity. }
  assert (Hlen : len (Reader.data r) - Reader.offset r = 1 + len s1).
  { pose proof (len_skipn (Reader.data r) (Reader.offset r) Ho) as Hl.
    rewrite Hs, len_cons in Hl. pose proof (len_nonneg s1). lia. }
  destruct (ai <? 24); [reflexivity|].
  destruct (ai =? 24).
  { rewrite len_leb_skipn, index_skipn, Hs1 by lia.
    destruct s1 as [|val s2]; [reflexivity|]. cbn [hd_error].
    destruct (mode_geb (Reader.conformanceMode r) ConformanceStrict
              && (val <? 24)); cbn [headOutcome Z.eqb];
      reader_eq. }
  destruct (ai =? 25).
  { rewrite len_ltb_skipn, Hs1 by lia.
    destruct (BigEndian.Uint16 s1) as [val|] eqn:Hv.
    - assert (~ len s1 < 2) by (rewrite <- Uint16_none; congruence).
      destruct (Z.ltb_spec (len s1) 2); [lia|].
      rewrite slice_from_skipn, Hs1, Hv by (pose proof (len_nonneg s1); lia).
      destruct (mode_geb (Reader.conformanceMode r) ConformanceStrict
                && (val <=? 0xFF)); cbn [headOutcome Z.eqb];
        reader_eq.
    - apply Uint16_none in Hv.
      destruct (Z.ltb_spec (len s1) 2); [reflexivity|lia]. }
  destruct (ai =? 26).
  { rewrite len_ltb_skipn, Hs1 by lia.
    destruct (BigEndian.Uint32 s1) as [val|] eqn:Hv.
    - assert (~ len s1 < 4) by (rewrite <- Uint32_none; congruence).
      destruct (Z.ltb_spec (len s1) 4); [lia|].
      rewrite slice_from_skipn, Hs1, Hv by (pose proof (len_nonneg s1); lia).
      destruct (mode_geb (Reader.conformanceMode r) ConformanceStrict
                && (val <=? 0xFFFF)); cbn [headOutcome Z.eqb];
        reader_eq.
    - apply Uint32_none in Hv.
      destruct (Z.ltb_spec (len s1) 4); [reflexivity|lia]. }
  destruct (ai =? 27).
  { rewrite len_ltb_skipn, Hs1 by lia.
    destruct (BigEndian.Uint64 s1) as [val|] eqn:Hv.
    - assert (~ len s1 < 8) by (rewrite <- Uint64_none; congruence).
      destruct (Z.ltb_spec (len s1) 8); [lia|].
      rewrite slice_from_skipn, Hs1, Hv by (pose proof (len_nonneg s1); lia).
      destruct (mode_geb (Reader.conformanceMode r) ConformanceStrict
                && (val <=? 0xFFFFFFFF)); cbn [headOutcome Z.eqb];
        reader_eq.
    - apply Uint64_none in Hv.
      destruct (Z.ltb_spec (len s1) 8); [reflexivity|lia]. }
  destruct (ai =? 31); reflexivity.
Qed.


(** ** Heads written by the encoder are read back by the decoder *)

Lemma decodeInitialByte_arith (mt : MajorType) (ai : Z) :
  0 <= ai < 32 -> decodeInitialByte (MajorType_code mt * 32 + ai) = (mt, ai).
Proof.
  intros H. rewrite <- encodeInitialByte_arith by exact H.
  now apply decode_encodeInitialByte.
Qed.

Lemma to_int64_small (x : Z) : MinInt64 <= x <= MaxInt64 -> to_int64 x = x.
Proof.
  unfold MinInt64, MaxInt64, to_int64. intros H.
  rewrite Z.mod_small by lia. lia.
Qed.

Lemma to_uint64_small (x : Z) : 0 <= x < 2^64 -> to_uint64 x = x.
Proof. intros H. unfold to_uint64. now apply Z.mod_small. Qed.

Lemma be_bytes_2 (v : Z) (rest : list Z) :
  0 <= v < 2^16 -> BigEndian.Uint16 (be_bytes 2 v ++ rest) = Some v.
Proof.
  intros Hv. cbn [be_bytes app].
  rewrite Uint16_be by (apply Z.mod_pos_bound; lia).
  f_equal. change [(v / 256) mod 256; v mod 256] with (be_bytes 2 v).
  apply be_value_be_bytes. exact Hv.
Qed.

Lemma be_bytes_4 (v : Z) (rest : list Z) :
  0 <= v < 2^32 -> BigEndian.Uint32 (be_bytes 4 v ++ rest) = Some v.
Proof.
  intros Hv. cbn [be_bytes app].
  rewrite Uint32_be by (apply Z.mod_pos_bound; lia).
  f_equal.
  change [(v / 256 / 256 / 256) mod 256; (v / 256 / 256) mod 256;
          (v / 256) mod 256; v mod 256] with (be_bytes 4 v).
  apply be_value_be_bytes. exact Hv.
Qed.

Lemma be_bytes_8 (v : Z) (rest : list Z) :
  0 <= v < 2^64 -> BigEndian.Uint64 (be_bytes 8 v ++ rest) = Some v.
Proof.
  intros Hv. cbn [be_bytes app].
  rewrite Uint64_be by (apply Z.mod_pos_bound; lia).
  f_equal.
  change [(v / 256 / 256 / 256 / 256 / 256 / 256 / 256) mod 256;
          (v / 256 / 256 / 256 / 256 / 256 / 256) mod 256;
          (v / 256 / 256 / 256 / 256 / 256) mod 256;
          (v / 256 / 256 / 256 / 256) mod 256;
          (v / 256 / 256 / 256) mod 256; (v / 256 / 256) mod 256;
          (v / 256) mod 256; v mod 256] with (be_bytes 8 v).
  apply be_value_be_bytes. exact Hv.
Qed.

(** The head that the encoder writes is accepted in every conformance mode
    and decodes to the argument it was written for. *)
Lemma decodeHead_written (strictMode : bool) (mt : MajorType) (v : Z)
      (rest : list Z) :
  0 <= v < 2^64 ->
  decodeHead strictMode mt (writeArgument_spec mt v ++ rest)
  = (1 + Z.of_nat (argumentWidth v), inl v).
Proof.
  intros Hv. unfold writeArgument_spec, argumentInfo, argumentWidth.
  cbn [app decodeHead].
  destruct (Z.ltb_spec v 24).
  { rewrite decodeInitialByte_arith by lia.
    rewrite MajorType_eqb_refl. cbn [negb].
    destruct (Z.ltb_spec v 24); [reflexivity|lia]. }
  destruct (Z.leb_spec v 0xFF).
  { rewrite decodeInitialByte_arith by lia.
    rewrite MajorType_eqb_refl. cbn [negb be_bytes app Z.ltb Z.eqb Z.compare Pos.compare Pos.compare_cont].
    rewrite Z.mod_small by lia.
    destruct (Z.ltb_spec v 24); [lia|]. rewrite andb_false_r. reflexivity. }
  destruct (Z.leb_spec v 0xFFFF).
  { rewrite decodeInitialByte_arith by lia.
    rewrite MajorType_eqb_refl. cbn [negb Z.ltb Z.eqb Z.compare Pos.compare Pos.compare_cont].
    rewrite be_bytes_2 by lia.
    destruct (Z.leb_spec v 0xFF); [lia|]. rewrite andb_false_r. reflexivity. }
  destruct (Z.leb_spec v 0xFFFFFFFF).
  { rewrite decodeInitialByte_arith by lia.
    rewrite MajorType_eqb_refl. cbn [negb Z.ltb Z.eqb Z.compare Pos.compare Pos.compare_cont].
    rewrite be_bytes_4 by lia.
    destruct (Z.leb_spec v 0xFFFF); [lia|]. rewrite andb_false_r. reflexivity. }
  rewrite decodeInitialByte_arith by lia.
  rewrite MajorType_eqb_refl. cbn [negb Z.ltb Z.eqb Z.compare Pos.compare Pos.compare_cont].
  rewrite be_bytes_8 by lia.
  destruct (Z.leb_spec v 0xFFFFFFFF); [lia|]. rewrite andb_false_r. reflexivity.
Qed.

Lemma argumentInfo_range (v : Z) : 0 <= v -> 0 <= argumentInfo v < 28.
Proof.
  intros Hv. unfold argumentInfo.
  destruct (Z.ltb_spec v 24); [lia|].
  destruct (v <=? 0xFF); [lia|].
  destruct (v <=? 0xFFFF); [lia|].
  destruct (v <=? 0xFFFFFFFF); lia.
Qed.

(** ** The classifier on a fresh item *)

Lemma computeState_root (r : Reader.CborReader) (b : Z) (s : list Z) :
  0 <= Reader.offset r ->
  Reader.nestingStack r = [] ->
  remaining r = b :: s ->
  b <> breakByte ->
  Reader.computeState r = Reader.classify b r.
Proof.
  intros Ho Hst Hs Hb. unfold Reader.computeState. unfold_monad.
  rewrite Hst. rewrite len_leb_skipn, index_skipn by exact Ho.
  unfold remaining in Hs. rewrite Hs. cbn [hd_error].
  destruct (Z.eqb_spec b breakByte); [contradiction|reflexivity].
Qed.

Lemma classify_integer (mt : MajorType) (ai : Z) (r : Reader.CborReader) :
  0 <= ai < 32 ->
  (mt = MajorTypeUnsignedInteger ->
   Reader.classify (MajorType_code mt * 32 + ai) r = Ok StateUnsignedInteger r)
  /\ (mt = MajorTypeNegativeInteger ->
      Reader.classify (MajorType_code mt * 32 + ai) r
      = Ok StateNegativeInteger r)
  /\ (mt = MajorTypeTag ->
      Reader.classify (MajorType_code mt * 32 + ai) r = Ok StateTag r).
Proof.
  intros Hai. unfold Reader.classify.
  rewrite decodeInitialByte_arith by exact Hai.
  repeat split; intros ->; reflexivity.
Qed.

Lemma written_head (opts : list Writer.WriterOption) (mt : MajorType) (v : Z) :
  0 <= v < 2^64 ->
  Writer.buffer (Writer.NewCborWriter opts) = [] ->
  Writer.writeMinimalInitialByte mt v (Writer.NewCborWriter opts)
  = Ok tt (Writer.set_currentOffset (len (writeArgument_spec mt v))
             (Writer.set_buffer (writeArgument_spec mt v)
                (Writer.NewCborWriter opts))).
Proof.
  intros Hv Hb.
  unfold Writer.writeMinimalInitialByte, Writer.emit, modify.
  rewrite appendInitialByte_spec, Hb by exact Hv. reflexivity.
Qed.

Lemma expect_same (s : CborReaderState) (r : Reader.CborReader) :
  Reader.expect s s r = Ok tt r.
Proof. destruct s; reflexivity. Qed.

Lemma CborReaderState_eqb_eq (a b : CborReaderState) :
  CborReaderState_eqb a b = true <-> a = b.
Proof.
  unfold CborReaderState_eqb. rewrite Z.eqb_eq.
  split; [|now intros ->]. destruct a, b; cbn; congruence.
Qed.

Lemma expect_ok (s expected : CborReaderState) (r r' : Reader.CborReader)
      (u : unit) :
  Reader.expect s expected r = Ok u r' -> s = expected /\ r' = r.
Proof.
  unfold Reader.expect, failIf, throw, ret.
  destruct (CborReaderState_eqb s expected) eqn:E; cbn [negb]; intros H.
  - apply CborReaderState_eqb_eq in E. inversion H. auto.
  - discriminate H.
Qed.

(** Reading an integer head at the root of a decoder that has not looked at
    its input yet. *)
Lemma read_written_head (mt : MajorType) (v : Z) (mode : CborConformanceMode) :
  0 <= v < 2^64 ->
  let r := Reader.NewCborReader (writeArgument_spec mt v)
             [Reader.WithReaderConformanceMode mode] in
  (mt = MajorTypeUnsignedInteger ->
   outcome (Reader.ReadUint64 r) = Returned v
   /\ outcome (Reader.ReadInt64 r)
      = if MaxInt64 <? v then Failed ErrOverflow else Returned (to_int64 v))
  /\ (mt = MajorTypeNegativeInteger ->
      outcome (Reader.ReadInt64 r)
      = if MaxInt64 <? v then Failed ErrOverflow
        else Returned (to_int64 (-1 - to_int64 v))).
Proof.
  intros Hv r.
  assert (Hrem : forall c s, remaining (Reader.set_stateComputed c
                   (Reader.set_cachedState s r)) = writeArgument_spec mt v)
    by reflexivity.
  assert (Hpeek : forall st,
    Reader.classify (MajorType_code mt * 32 + argumentInfo v) r = Ok st r ->
    Reader.PeekState r
    = Ok st (Reader.set_stateComputed true (Reader.set_cachedState st r))).
  { intros st Hc. unfold Reader.PeekState. unfold_monad.
    change (Reader.stateComputed r) with false. cbn beta iota.
    rewrite (computeState_root r (MajorType_code mt * 32 + argumentInfo v)
               (be_bytes (argumentWidth v) v)); try reflexivity.
    - rewrite Hc. reflexivity.
    - pose proof (argumentInfo_range v ltac:(lia)).
      unfold breakByte. destruct mt; unfold MajorType_code; lia. }
  pose proof (argumentInfo_range v ltac:(lia)) as Hai.
  destruct (classify_integer mt (argumentInfo v) r ltac:(lia))
    as (Hu & Hn & _).
  assert (Hhead : forall c s,
    Reader.readArgumentValue mt
      (Reader.set_stateComputed c (Reader.set_cachedState s r))
    = Ok v (consumed (1 + Z.of_nat (argumentWidth v))
              (Reader.set_stateComputed c (Reader.set_cachedState s r)))).
  { intros c s. rewrite readArgumentValue_decodeHead by (cbn; lia).
    rewrite Hrem. rewrite <- (app_nil_r (writeArgument_spec mt v)).
    rewrite decodeHead_written by exact Hv. reflexivity. }
  split; intros ->.
  - specialize (Hpeek _ (Hu eq_refl)). split.
    + unfold Reader.ReadUint64, Reader.invalidateState.
      unfold_monad. rewrite Hpeek. cbn iota beta.
      rewrite expect_same. cbn iota beta.
      change (Reader.set_stateComputed false
                (Reader.set_stateComputed true
                   (Reader.set_cachedState StateUnsignedInteger r)))
        with (Reader.set_stateComputed false
                (Reader.set_cachedState StateUnsignedInteger r)).
      rewrite Hhead. reflexivity.
    + unfold Reader.ReadInt64, Reader.invalidateState.
      unfold_monad. rewrite Hpeek. cbn iota beta.
      change (Reader.set_stateComputed false
                (Reader.set_stateComputed true
                   (Reader.set_cachedState StateUnsignedInteger r)))
        with (Reader.set_stateComputed false
                (Reader.set_cachedState StateUnsignedInteger r)).
      rewrite Hhead. cbn iota beta.
      destruct (MaxInt64 <? v); reflexivity.
  - specialize (Hpeek _ (Hn eq_refl)).
    unfold Reader.ReadInt64, Reader.invalidateState.
    unfold_monad. rewrite Hpeek. cbn iota beta.
    change (Reader.set_stateComputed false
              (Reader.set_stateComputed true
                 (Reader.set_cachedState StateNegativeInteger r)))
      with (Reader.set_stateComputed false
              (Reader.set_cachedState StateNegativeInteger r)).
    rewrite Hhead. cbn iota beta.
    destruct (MaxInt64 <? v); reflexivity.
Qed.


(** ** Integers written and read back *)

Lemma WriteUint64_fresh (wmode : CborConformanceMode) (u : Z) :
  0 <= u < 2^64 ->
  outcome (Writer.WriteUint64 u
             (Writer.NewCborWriter [Writer.WithConformanceMode wmode]))
  = Returned tt
  /\ written [Writer.WithConformanceMode wmode] (Writer.WriteUint64 u)
     = writeArgument_spec MajorTypeUnsignedInteger u.
Proof.
  intros Hu. unfold written, Writer.WriteUint64, bind.
  rewrite written_head by (exact Hu || reflexivity).
  split; reflexivity.
Qed.

Lemma WriteInt64_fresh (wmode : CborConformanceMode) (i : Z) :
  MinInt64 <= i <= MaxInt64 ->
  outcome (Writer.WriteInt64 i
             (Writer.NewCborWriter [Writer.WithConformanceMode wmode]))
  = Returned tt
  /\ written [Writer.WithConformanceMode wmode] (Writer.WriteInt64 i)
     = if 0 <=? i then writeArgument_spec MajorTypeUnsignedInteger i
       else writeArgument_spec MajorTypeNegativeInteger (-1 - i).
Proof.
  unfold MinInt64, MaxInt64. intros Hi. unfold written, Writer.WriteInt64, bind.
  destruct (Z.leb_spec 0 i).
  - rewrite to_uint64_small by lia.
    rewrite written_head by (lia || reflexivity).
    split; reflexivity.
  - rewrite to_int64_small by (unfold MinInt64, MaxInt64; lia).
    rewrite to_uint64_small by lia.
    rewrite written_head by (lia || reflexivity).
    split; reflexivity.
Qed.

(** C1.  For every [uint64] value [u], [ReadUint64] applied to the bytes that
    [WriteUint64 u] produces on a fresh encoder returns [u]; for every
    [int64] value [i], the bounds [MinInt64] and [MaxInt64] included,
    [ReadInt64] applied to the bytes that [WriteInt64 i] produces returns
    [i].  Both hold whatever the conformance modes of the encoder and of the
    decoder are. *)
Theorem integer_round_trip
  (wmode rmode : CborConformanceMode) (u i : Z)
  (Hu : 0 <= u < 2^64) (Hi : MinInt64 <= i <= MaxInt64) :
  let wopts := [Writer.WithConformanceMode wmode] in
  let ropts := [Reader.WithReaderConformanceMode rmode] in
  outcome (Writer.WriteUint64 u (Writer.NewCborWriter wopts)) = Returned tt
  /\ outcome (Reader.ReadUint64
                (Reader.NewCborReader (written wopts (Writer.WriteUint64 u))
                   ropts)) = Returned u
  /\ outcome (Writer.WriteInt64 i (Writer.NewCborWriter wopts)) = Returned tt
  /\ outcome (Reader.ReadInt64
                (Reader.NewCborReader (written wopts (Writer.WriteInt64 i))
                   ropts)) = Returned i.
Proof.
  cbv zeta.
  destruct (WriteUint64_fresh wmode u Hu) as [Hwu Hbu].
  destruct (WriteInt64_fresh wmode i Hi) as [Hwi Hbi].
  rewrite Hbu, Hbi. unfold MinInt64, MaxInt64 in Hi.
  split; [exact Hwu|]. split; [|split; [exact Hwi|]].
  - apply (read_written_head MajorTypeUnsignedInteger u rmode Hu). reflexivity.
  - destruct (Z.leb_spec 0 i).
    + destruct (read_written_head MajorTypeUnsignedInteger i rmode
                  ltac:(lia)) as [Hr _].
      destruct (Hr eq_refl) as [_ Hr']. rewrite Hr'.
      destruct (Z.ltb_spec MaxInt64 i); [unfold MaxInt64 in *; lia|].
      rewrite to_int64_small by (unfold MinInt64, MaxInt64; lia). reflexivity.
    + destruct (read_written_head MajorTypeNegativeInteger (-1 - i) rmode
                  ltac:(lia)) as [_ Hr].
      rewrite (Hr eq_refl).
      destruct (Z.ltb_spec MaxInt64 (-1 - i)); [unfold MaxInt64 in *; lia|].
      rewrite (to_int64_small (-1 - i)) by (unfold MinInt64, MaxInt64; lia).
      rewrite to_int64_small by (unfold MinInt64, MaxInt64; lia).
      f_equal. lia.
Qed.

Lemma integer_round_trip_witness :
  (0 <= 2^64 - 1 < 2^64 /\ MinInt64 <= MinInt64 <= MaxInt64)
  /\ outcome (Reader.ReadUint64
                (Reader.NewCborReader
                   (written [Writer.WithConformanceMode ConformanceLax]
                      (Writer.WriteUint64 (2^64 - 1)))
                   [Reader.WithReaderConformanceMode ConformanceStrict]))
     = Returned (2^64 - 1)
  /\ outcome (Reader.ReadInt64
                (Reader.NewCborReader
                   (written [Writer.WithConformanceMode ConformanceLax]
                      (Writer.WriteInt64 MinInt64))
                   [Reader.WithReaderConformanceMode ConformanceStrict]))
     = Returned MinInt64.
Proof.
  assert (Hu : 0 <= 2^64 - 1 < 2^64) by lia.
  assert (Hi : MinInt64 <= MinInt64 <= MaxInt64)
    by (unfold MinInt64, MaxInt64; lia).
  split; [split; assumption|].
  destruct (integer_round_trip ConformanceLax ConformanceStrict
              (2^64 - 1) MinInt64 Hu Hi) as (_ & Hr & _ & Hr').
  split; assumption.
Defined.


(** ** Non-minimal arguments *)

(** In the strict, canonical and CTAP2-canonical modes [readArgumentValue]
    rejects a head whose argument would have fitted a smaller width, and in
    the lax mode it returns the argument. *)
Lemma decodeHead_non_minimal (strictMode : bool) (mt : MajorType) (ai : Z)
      (payload rest : list Z) :
  (ai = 24 /\ length payload = 1%nat /\ be_value payload < 24
   \/ ai = 25 /\ length payload = 2%nat /\ be_value payload <= 0xFF
   \/ ai = 26 /\ length payload = 4%nat /\ be_value payload <= 0xFFFF
   \/ ai = 27 /\ length payload = 8%nat /\ be_value payload <= 0xFFFFFFFF) ->
  bytes payload ->
  decodeHead strictMode mt ((MajorType_code mt * 32 + ai) :: payload ++ rest)
  = (1 + len payload,
     if strictMode then inr ErrNonCanonical else inl (be_value payload)).
Proof.
  intros Hcase Hb. unfold decodeHead.
  assert (Hai : 0 <= ai < 32) by (intuition lia).
  rewrite decodeInitialByte_arith by exact Hai.
  rewrite MajorType_eqb_refl. cbn [negb].
  destruct Hcase as [(-> & Hl & Hv)|[(-> & Hl & Hv)|[(-> & Hl & Hv)
                    |(-> & Hl & Hv)]]];
    cbn [Z.ltb Z.eqb Z.compare Pos.compare Pos.compare_cont Pos.eqb].
  - destruct payload as [|b0 [|]]; try discriminate Hl.
    cbn [app]. unfold be_value in *. cbn [fold_left] in *.
    destruct (Z.ltb_spec (0 * 256 + b0) 24); [|lia].
    replace (b0 <? 24) with true by (symmetry; apply Z.ltb_lt; lia).
    destruct strictMode; reflexivity.
  - destruct payload as [|b0 [|b1 [|]]]; try discriminate Hl.
    inversion Hb as [|? ? H0 Hb1]; subst. inversion Hb1 as [|? ? H1 _]; subst.
    cbn [app]. rewrite Uint16_be by assumption.
    destruct (Z.leb_spec (be_value [b0; b1]) 0xFF); [|lia].
    destruct strictMode; reflexivity.
  - destruct payload as [|b0 [|b1 [|b2 [|b3 [|]]]]]; try discriminate Hl.
    inversion Hb as [|? ? H0 Hb1]; subst. inversion Hb1 as [|? ? H1 Hb2]; subst.
    inversion Hb2 as [|? ? H2 Hb3]; subst. inversion Hb3 as [|? ? H3 _]; subst.
    cbn [app]. rewrite Uint32_be by assumption.
    destruct (Z.leb_spec (be_value [b0; b1; b2; b3]) 0xFFFF); [|lia].
    destruct strictMode; reflexivity.
  - destruct payload as [|b0 [|b1 [|b2 [|b3 [|b4 [|b5 [|b6 [|b7 [|]]]]]]]]];
      try discriminate Hl.
    inversion Hb as [|? ? H0 Hb1]; subst. inversion Hb1 as [|? ? H1 Hb2]; subst.
    inversion Hb2 as [|? ? H2 Hb3]; subst. inversion Hb3 as [|? ? H3 Hb4]; subst.
    inversion Hb4 as [|? ? H4 Hb5]; subst. inversion Hb5 as [|? ? H5 Hb6]; subst.
    inversion Hb6 as [|? ? H6 Hb7]; subst. inversion Hb7 as [|? ? H7 _]; subst.
    cbn [app]. rewrite Uint64_be by assumption.
    destruct (Z.leb_spec (be_value [b0; b1; b2; b3; b4; b5; b6; b7]) 0xFFFFFFFF);
      [|lia].
    destruct strictMode; reflexivity.
Qed.

Lemma strict_modes (r : Reader.CborReader) :
  Reader.strict r = true
  <-> Reader.conformanceMode r = ConformanceStrict
      \/ Reader.conformanceMode r = ConformanceCanonical
      \/ Reader.conformanceMode r = ConformanceCtap2Canonical.
Proof.
  unfold Reader.strict. destruct (Reader.conformanceMode r); cbn;
    intuition congruence.
Qed.

Lemma readArgumentValue_non_minimal (mt : MajorType) (ai : Z)
      (payload rest : list Z) (r : Reader.CborReader) :
  0 <= Reader.offset r ->
  remaining r = (MajorType_code mt * 32 + ai) :: payload ++ rest ->
  (ai = 24 /\ length payload = 1%nat /\ be_value payload < 24
   \/ ai = 25 /\ length payload = 2%nat /\ be_value payload <= 0xFF
   \/ ai = 26 /\ length payload = 4%nat /\ be_value payload <= 0xFFFF
   \/ ai = 27 /\ length payload = 8%nat /\ be_value payload <= 0xFFFFFFFF) ->
  bytes payload ->
  outcome (Reader.readArgumentValue mt r)
  = if Reader.strict r then Failed ErrNonCanonical
    else Returned (be_value payload).
Proof.
  intros Ho Hrem Hcase Hb.
  rewrite readArgumentValue_decodeHead, Hrem by exact Ho.
  rewrite decodeHead_non_minimal by assumption.
  destruct (Reader.strict r); unfold headOutcome; [|reflexivity].
  destruct (1 + len payload =? 0); reflexivity.
Qed.

(** C3.  A strict-mode decoder fed the two bytes [0x18 0x17] fails with
    [NonCanonical] and a lax one returns 23; [ReadInt64] rejects the
    non-minimal negative integer [0x38 0x17] in the same way.  [ReadBigInt]
    does not: after the [NonCanonical] failure of [ReadInt64] it decodes a
    second head at the offset that the failed call left behind, so on
    [0x38 0x17] it reports [UnexpectedEndOfData], and on [0x38 0x17 0x20] it
    returns -1, the value of the following item. *)
Theorem ReadBigInt_non_minimal_not_rejected :
  let strictly := [Reader.WithReaderConformanceMode ConformanceStrict] in
  outcome (Reader.ReadUint64 (Reader.NewCborReader [0x18; 0x17] strictly))
  = Failed ErrNonCanonical
  /\ outcome (Reader.ReadUint64 (Reader.NewCborReader [0x18; 0x17] []))
     = Returned 23
  /\ outcome (Reader.ReadInt64 (Reader.NewCborReader [0x38; 0x17] strictly))
     = Failed ErrNonCanonical
  /\ outcome (Reader.ReadBigInt (Reader.NewCborReader [0x38; 0x17] strictly))
     = Failed ErrUnexpectedEndOfData
  /\ outcome (Reader.ReadBigInt
                (Reader.NewCborReader [0x38; 0x17; 0x20] strictly))
     = Returned (-1).
Proof. cbv zeta. repeat split; reflexivity. Qed.

(** ** Big integers *)

(** C5.  On the negative integer [0x3B 0x80 0x00 ... 0x00], whose argument
    [2^63] exceeds [MaxInt64], [ReadBigInt] does not return [-1 - 2^63]: the
    call of [ReadInt64] has consumed the head before it fails with
    [Overflow], and the second [readArgumentValue] starts at the end of the
    input and fails with [UnexpectedEndOfData].  When another negative
    integer follows, as in [0x3B 0xFF ... 0xFF 0x20], its value is returned
    and both items are consumed.  The other cases of the claim behave as
    stated, here on [2^64] and [-1 - 2^64] written as tags 2 and 3. *)
Theorem ReadBigInt_negative_beyond_int64 :
  outcome (Reader.ReadBigInt
             (Reader.NewCborReader [0x3B; 0x80; 0; 0; 0; 0; 0; 0; 0] []))
  = Failed ErrUnexpectedEndOfData
  /\ (exists r',
        Reader.ReadBigInt
          (Reader.NewCborReader
             [0x3B; 0xFF; 0xFF; 0xFF; 0xFF; 0xFF; 0xFF; 0xFF; 0xFF; 0x20] [])
        = Ok (-1) r'
        /\ Reader.offset r' = 10)
  /\ outcome (Reader.ReadBigInt
                (Reader.NewCborReader
                   [0x3B; 0x7F; 0xFF; 0xFF; 0xFF; 0xFF; 0xFF; 0xFF; 0xFF] []))
     = Returned (- 2^63)
  /\ outcome (Reader.ReadBigInt
                (Reader.NewCborReader
                   [0x1B; 0xFF; 0xFF; 0xFF; 0xFF; 0xFF; 0xFF; 0xFF; 0xFF] []))
     = Returned (2^64 - 1)
  /\ outcome (Reader.ReadBigInt
                (Reader.NewCborReader
                   [0xC2; 0x49; 1; 0; 0; 0; 0; 0; 0; 0; 0] []))
     = Returned (2^64)
  /\ outcome (Reader.ReadBigInt
                (Reader.NewCborReader
                   [0xC3; 0x49; 1; 0; 0; 0; 0; 0; 0; 0; 0] []))
     = Returned (-1 - 2^64).
Proof.
  split; [reflexivity|]. split; [|repeat split; reflexivity].
  eexists. split; reflexivity.
Qed.


(** ** Half precision *)

Lemma all_below_spec (k : nat) (P : Z -> bool) (base : Z) :
  all_below k P base = true ->
  forall z, base * 2 ^ Z.of_nat k <= z < (base + 1) * 2 ^ Z.of_nat k ->
            P z = true.
Proof.
  revert base. induction k as [|k IH]; intros base Hall z Hz.
  - cbn [all_below] in Hall. change (2 ^ Z.of_nat 0) with 1 in Hz.
    replace z with base by lia. exact Hall.
  - cbn [all_below] in Hall. apply andb_true_iff in Hall.
    destruct Hall as [H0 H1].
    rewrite Nat2Z.inj_succ, Z.pow_succ_r in Hz by lia.
    pose proof (Z.pow_pos_nonneg 2 (Z.of_nat k) ltac:(lia) ltac:(lia)) as Hp.
    destruct (Z.lt_ge_cases z ((2 * base + 1) * 2 ^ Z.of_nat k)).
    + apply (IH (2 * base) H0). nia.
    + apply (IH (2 * base + 1) H1). nia.
Qed.

(** The normalisation loop of [float16BitsToFloat32] leaves through its
    condition within the ten iterations of the model. *)
Lemma normalizeSubnormal_exits (frac exp : Z) :
  0 < frac < 0x400 ->
  Z.land (fst (Writer.normalizeSubnormal 10 frac exp)) 0x400 <> 0.
Proof.
  intros Hf.
  assert (Hall : all_below 10
            (fun f => (f =? 0)
                      || negb (Z.land (fst (Writer.normalizeSubnormal 10 f 0))
                                      0x400 =? 0)) 0 = true)
    by (vm_compute; reflexivity).
  pose proof (all_below_spec _ _ _ Hall frac ltac:(cbn; lia)) as H.
  cbv beta in H. destruct (Z.eqb_spec frac 0) as [|Hne]; [lia|].
  cbn [orb] in H.
  assert (Hexp : forall n f e,
            fst (Writer.normalizeSubnormal n f e)
            = fst (Writer.normalizeSubnormal n f 0)).
  { intros k. induction k as [|k IH]; intros f e;
      cbn [Writer.normalizeSubnormal].
    - reflexivity.
    - destruct (Z.land f 0x400 =? 0); [|reflexivity].
      rewrite (IH _ (e - 1)), (IH _ (0 - 1)). reflexivity. }
  rewrite Hexp. destruct (Z.eqb_spec
    (Z.land (fst (Writer.normalizeSubnormal 10 frac 0)) 0x400) 0) as [Hz|Hnz];
    [discriminate H|assumption].
Qed.

Lemma float16_behaviour_all (bits : Z) :
  0 <= bits < 2^16 -> float16_behaviour bits = true.
Proof.
  intros Hb.
  apply (all_below_spec 16 float16_behaviour 0);
    [vm_compute; reflexivity|cbn; lia].
Qed.

(** What [WriteFloat16] writes, [ReadFloat16] reads: the [float32] of the
    binary16 pattern that [float32ToFloat16Bits] chose. *)
Lemma float16_written_then_read_eq (value : Z) :
  0 <= Writer.float32ToFloat16Bits value < 2^16 ->
  float16_written_then_read value
  = Returned (Writer.float16BitsToFloat32 (Writer.float32ToFloat16Bits value)).
Proof.
  intros Hr. unfold float16_written_then_read, written, Writer.WriteFloat16.
  set (bits := Writer.float32ToFloat16Bits value) in *.
  unfold Writer.emit, Writer.advanceContainer. unfold_monad.
  cbn [Writer.NewCborWriter fold_left Writer.buffer Writer.nestingStack
       Writer.set_buffer Writer.set_currentOffset Writer.set_rootValueWritten
       Writer.Bytes app].
  rewrite AppendUint16_be by exact Hr.
  change (encodeInitialByte MajorTypeSimpleOrFloat 25) with 0xF9.
  cbn [app].
  unfold Reader.ReadFloat16, Reader.readFloatBits, Reader.PeekState,
    Reader.invalidateState, Reader.advance, Reader.advanceContainer.
  unfold_monad.
  cbn [Reader.NewCborReader fold_left Reader.stateComputed].
  rewrite (computeState_root _ 0xF9 (be_bytes 2 bits));
    [|cbn; lia|reflexivity|reflexivity|unfold breakByte; lia].
  change (Reader.classify 0xF9) with
    (@ret Reader.CborReader _ StateHalfPrecisionFloat).
  unfold ret. cbn beta iota. rewrite expect_same. cbn beta iota.
  reader_setters.
  change (len (0xF9 :: be_bytes 2 bits) <? 0 + 1 + 2) with false.
  cbn beta iota.
  change (slice_from (0xF9 :: be_bytes 2 bits) (0 + 1))
    with (Some (be_bytes 2 bits ++ [])).
  cbn beta iota. rewrite be_bytes_2 by exact Hr. reflexivity.
Qed.

(** C4, as the code has it.  For every binary16 bit pattern that is not
    subnormal (the normal numbers, both zeros, both infinities and the NaNs),
    [float16BitsToFloat32] followed by [float32ToFloat16Bits] gives the
    pattern back, and [ReadFloat16] applied to what [WriteFloat16] writes
    for the [float32] of the pattern returns that [float32] bit for bit.  A
    subnormal binary16 pattern comes back as the zero of its sign:
    [float32ToFloat16Bits] flushes every exponent below 113 to zero. *)
Theorem binary16_round_trip (bits : Z) (Hbits : 0 <= bits < 2^16) :
  let f := Writer.float16BitsToFloat32 bits in
  (subnormal16 bits = false ->
   Writer.float32ToFloat16Bits f = bits
   /\ float16_written_then_read f = Returned f)
  /\ (subnormal16 bits = true ->
      Writer.float32ToFloat16Bits f = Z.land bits 0x8000).
Proof.
  cbv zeta. pose proof (float16_behaviour_all bits Hbits) as H.
  unfold float16_behaviour in H. cbv zeta in H.
  destruct (subnormal16 bits); split; intros Hs; try discriminate Hs.
  - now apply Z.eqb_eq.
  - apply Z.eqb_eq in H. split; [exact H|].
    rewrite float16_written_then_read_eq by (rewrite H; exact Hbits).
    now rewrite H.
Qed.

Lemma binary16_round_trip_witness :
  0 <= 0x3E00 < 2^16
  /\ Writer.float16BitsToFloat32 0x3E00 = 0x3FC00000
  /\ Writer.float32ToFloat16Bits 0x3FC00000 = 0x3E00
  /\ float16_written_then_read 0x3FC00000 = Returned 0x3FC00000.
Proof.
  assert (H : 0 <= 0x3E00 < 2^16) by lia.
  split; [exact H|]. split; [reflexivity|].
  exact (proj1 (binary16_round_trip 0x3E00 H) eq_refl).
Defined.

(** C4, counterexample.  The smallest positive subnormal of binary16,
    [2^-24], is the [float32] [0x33800000]; converted back it is [+0]. *)
Lemma binary16_subnormal_not_round_trip :
  0 <= 0x0001 < 2^16
  /\ Writer.float16BitsToFloat32 0x0001 = 0x33800000
  /\ Writer.float32ToFloat16Bits (Writer.float16BitsToFloat32 0x0001) <> 0x0001
  /\ float16_written_then_read (Writer.float16BitsToFloat32 0x0001)
     <> Returned (Writer.float16BitsToFloat32 0x0001).
Proof.
  split; [lia|]. split; [reflexivity|]. split.
  - vm_compute. discriminate.
  - vm_compute. discriminate.
Qed.


(** ** The classifier *)

Lemma index_Some_bounds {A : Type} (d : list A) (o : Z) (a : A) :
  index d o = Some a -> 0 <= o < len d.
Proof.
  unfold index, len. destruct (Z.ltb_spec o 0) as [Hlt|Hge]; [discriminate|].
  intros H. assert (Hn : nth_error d (Z.to_nat o) <> None) by congruence.
  apply nth_error_Some in Hn. lia.
Qed.

Lemma computeState_pure (r r' : Reader.CborReader) (s : CborReaderState) :
  Reader.computeState r = Ok s r' -> r' = r.
Proof.
  unfold Reader.computeState, Reader.classify. unfold_monad.
  destruct (Reader.nestingStack r) as [|info rest].
  - destruct (len (Reader.data r) <=? Reader.offset r);
      [intros H; now inversion H|].
    destruct (index (Reader.data r) (Reader.offset r)) as [b|];
      [|discriminate].
    destruct (b =? breakByte); [discriminate|].
    destruct (decodeInitialByte b) as [mt ai].
    destruct mt;
      repeat match goal with
             | |- context [if ?c then _ else _] => destruct c
             end; intros H; now inversion H.
  - destruct (Reader.frameComplete info).
    { destruct (Reader.isMap info); intros H; now inversion H. }
    destruct (len (Reader.data r) <=? Reader.offset r); [discriminate|].
    destruct (index (Reader.data r) (Reader.offset r)) as [b|];
      [|discriminate].
    destruct (decodeInitialByte b) as [mt ai] eqn:Hd.
    destruct (b =? breakByte).
    + destruct (Reader.isIndefinite info); cbn [negb]; [|discriminate].
      destruct (Reader.majorType info); try (intros H; now inversion H);
        try (destruct (Reader.keyRead info); intros H; now inversion H);
        destruct mt;
        repeat match goal with
               | |- context [if ?c then _ else _] => destruct c
               end; intros H; now inversion H.
    + destruct mt;
        repeat match goal with
               | |- context [if ?c then _ else _] => destruct c
               end; intros H; now inversion H.
Qed.

(** With a coherent cache, [PeekState] answers what [computeState]
    computes. *)
Lemma PeekState_outcome (r : Reader.CborReader) :
  cacheCoherent r ->
  outcome (Reader.PeekState r) = outcome (Reader.computeState r).
Proof.
  intros Hc. unfold Reader.PeekState. unfold_monad.
  destruct (Reader.stateComputed r) eqn:Hs.
  - rewrite (Hc Hs). reflexivity.
  - destruct (Reader.computeState r); reflexivity.
Qed.

(** C6.  When the next input byte of the decoder is [0xFF] (and the cached
    classification, if any, is the current one), [PeekState] reports
    [UnexpectedBreak] at nesting depth 0; inside a frame that has not
    reached its declared count it reports [UnexpectedBreak] when the frame
    is not indefinite-length, [IncompleteContainer] when the frame is an
    indefinite map whose key has been read without its value, and otherwise
    the end state of the frame's major type: end of array, end of map, end
    of indefinite-length byte string or end of indefinite-length text
    string. *)
Theorem break_byte_classification
  (r : Reader.CborReader)
  (Hcache : cacheCoherent r)
  (Hbreak : index (Reader.data r) (Reader.offset r) = Some breakByte) :
  match Reader.nestingStack r with
  | [] => outcome (Reader.PeekState r) = Failed ErrUnexpectedBreak
  | info :: _ =>
      Reader.frameComplete info = false ->
      (Reader.isIndefinite info = false ->
       outcome (Reader.PeekState r) = Failed ErrUnexpectedBreak)
      /\ (Reader.isIndefinite info = true ->
          (Reader.majorType info = MajorTypeMap ->
           Reader.keyRead info = true ->
           outcome (Reader.PeekState r) = Failed ErrIncompleteContainer)
          /\ (Reader.majorType info = MajorTypeMap ->
              Reader.keyRead info = false ->
              outcome (Reader.PeekState r) = Returned StateEndMap)
          /\ (Reader.majorType info = MajorTypeArray ->
              outcome (Reader.PeekState r) = Returned StateEndArray)
          /\ (Reader.majorType info = MajorTypeByteString ->
              outcome (Reader.PeekState r)
              = Returned StateEndIndefiniteLengthByteString)
          /\ (Reader.majorType info = MajorTypeTextString ->
              outcome (Reader.PeekState r)
              = Returned StateEndIndefiniteLengthTextString))
  end.
Proof.
  rewrite (PeekState_outcome r Hcache).
  pose proof (index_Some_bounds _ _ _ Hbreak) as Hb.
  unfold Reader.computeState. unfold_monad. rewrite Hbreak.
  destruct (Z.leb_spec (len (Reader.data r)) (Reader.offset r)); [lia|].
  rewrite Z.eqb_refl.
  destruct (Reader.nestingStack r) as [|info rest]; [reflexivity|].
  intros Hfc. rewrite Hfc. split; intros Hind; rewrite Hind; cbn [negb].
  - reflexivity.
  - repeat split; intros Hmt; rewrite Hmt; try reflexivity;
      intros Hk; rewrite Hk; reflexivity.
Qed.

Lemma break_byte_classification_witness :
  let root := Reader.NewCborReader [0xFF] [] in
  let inMap :=
    Reader.mkCborReader [0xBF; 0x01; 0xFF] 2 ConformanceLax
      [Reader.mkReaderNestingInfo MajorTypeMap (-1) 0 true true true]
      64 StateUndefined false false in
  (cacheCoherent root
   /\ index (Reader.data root) (Reader.offset root) = Some breakByte)
  /\ outcome (Reader.PeekState root) = Failed ErrUnexpectedBreak
  /\ outcome (Reader.PeekState inMap) = Failed ErrIncompleteContainer.
Proof.
  cbv zeta.
  assert (Hc : forall d o st,
            cacheCoherent (Reader.mkCborReader d o ConformanceLax st 64
                             StateUndefined false false))
    by (intros d o st H; discriminate H).
  split; [split; [apply Hc|reflexivity]|]. split.
  - exact (break_byte_classification (Reader.NewCborReader [0xFF] [])
             (Hc _ _ _) eq_refl).
  - exact (proj1 (proj2 (break_byte_classification
             (Reader.mkCborReader [0xBF; 0x01; 0xFF] 2 ConformanceLax
                [Reader.mkReaderNestingInfo MajorTypeMap (-1) 0 true true true]
                64 StateUndefined false false)
             (Hc _ _ _) eq_refl eq_refl) eq_refl) eq_refl eq_refl).
Defined.


(** ** Tags *)

Lemma PeekState_fields (r r' : Reader.CborReader) (s : CborReaderState) :
  Reader.PeekState r = Ok s r' ->
  Reader.data r' = Reader.data r /\ Reader.offset r' = Reader.offset r
  /\ Reader.nestingStack r' = Reader.nestingStack r
  /\ Reader.conformanceMode r' = Reader.conformanceMode r
  /\ Reader.maxNestingDepth r' = Reader.maxNestingDepth r.
Proof.
  unfold Reader.PeekState. unfold_monad.
  destruct (Reader.stateComputed r).
  - intros H. inversion H. subst. auto.
  - destruct (Reader.computeState r) as [s0 r0| |] eqn:Hc; try discriminate.
    apply computeState_pure in Hc. subst r0.
    intros H. inversion H. subst. auto.
Qed.

Lemma PeekState_error (r r' : Reader.CborReader) (e : CborErr) :
  Reader.PeekState r = Err e r' ->
  Reader.nestingStack r' = Reader.nestingStack r.
Proof.
  unfold Reader.PeekState. unfold_monad.
  destruct (Reader.stateComputed r); [discriminate|].
  unfold Reader.computeState, Reader.classify. unfold_monad.
  destruct (Reader.nestingStack r) as [|info rest] eqn:Hst.
  - repeat match goal with
           | |- context [if ?c then _ else _] => destruct c
           | |- context [match index ?d ?o with _ => _ end] =>
               destruct (index d o)
           | |- context [let '(_, _) := ?p in _] => destruct p
           | |- context [match ?m with MajorTypeUnsignedInteger => _ | _ => _ end] =>
               destruct m
           end; intros H; inversion H; subst; auto; discriminate.
  - repeat match goal with
           | |- context [if ?c then _ else _] => destruct c
           | |- context [match index ?d ?o with _ => _ end] =>
               destruct (index d o)
           | |- context [let '(_, _) := ?p in _] => destruct p
           | |- context [match ?m with MajorTypeUnsignedInteger => _ | _ => _ end] =>
               destruct m
           end; intros H; inversion H; subst; auto; discriminate.
Qed.

(** [readArgumentValue] moves the offset and nothing else. *)
Lemma headOutcome_final (res : Z * (Z + CborErr)) (r r' : Reader.CborReader) :
  final (headOutcome res r) = Some r' ->
  exists n, r' = consumed n r.
Proof.
  destruct res as [n [v|e]]; cbn [headOutcome final].
  - intros H. inversion H. now exists n.
  - destruct (Z.eqb_spec n 0) as [->|Hn]; intros H; inversion H.
    + exists 0. reader_setters. destruct r'. reader_setters. f_equal. lia.
    + now exists n.
Qed.

(** The shape of the bytes behind a successfully decoded head. *)
Lemma decodeHead_ok (strictMode : bool) (mt : MajorType) (s : list Z)
      (n v : Z) :
  bytes s ->
  decodeHead strictMode mt s = (n, inl v) ->
  exists ai payload rest,
    s = (MajorType_code mt * 32 + ai) :: payload ++ rest
    /\ 0 <= ai < 32
    /\ len payload = infoWidth ai
    /\ n = 1 + infoWidth ai
    /\ v = (if ai <? 24 then ai else be_value payload).
Proof.
  intros Hb. unfold decodeHead. destruct s as [|b s1]; [discriminate|].
  inversion Hb as [|? ? Hb0 Hb1]; subst.
  destruct (decodeInitialByte b) as [actualMt ai] eqn:Hd.
  assert (Hbai : b = MajorType_code actualMt * 32 + ai /\ 0 <= ai < 32).
  { unfold decodeInitialByte in Hd. inversion Hd as [[Hmt Hai]].
    change 0x1F with (Z.ones 5). rewrite Z.land_ones by lia.
    rewrite Z.shiftr_div_pow2 by lia. change (2^5) with 32.
    assert (0 <= b / 32 < 8) by (Z.div_mod_to_equations; lia).
    assert (Hc : MajorType_code (MajorType_of_code (b / 32)) = b / 32).
    { assert (Hq : b / 32 = 0 \/ b / 32 = 1 \/ b / 32 = 2 \/ b / 32 = 3
                   \/ b / 32 = 4 \/ b / 32 = 5 \/ b / 32 = 6 \/ b / 32 = 7)
        by lia.
      destruct Hq as [Hq|[Hq|[Hq|[Hq|[Hq|[Hq|[Hq|Hq]]]]]]];
        rewrite Hq; reflexivity. }
    rewrite Hc. Z.div_mod_to_equations. lia. }
  destruct Hbai as [-> Hai].
  destruct (MajorType_eqb actualMt mt) eqn:Hmt; cbn [negb]; [|discriminate].
  apply MajorType_eqb_eq in Hmt. subst actualMt.
  destruct (Z.ltb_spec ai 24) as [Hlt|Hge].
  { intros H. inversion H; subst. exists v, [], s1.
    unfold infoWidth.
    destruct (Z.eqb_spec v 24); [lia|]. destruct (Z.eqb_spec v 25); [lia|].
    destruct (Z.eqb_spec v 26); [lia|]. destruct (Z.eqb_spec v 27); [lia|].
    destruct (Z.ltb_spec v 24); [|lia]. repeat split; try reflexivity; lia. }
  destruct (Z.eqb_spec ai 24) as [->|H24].
  { destruct s1 as [|val s2]; [discriminate|].
    destruct (strictMode && (val <? 24)); [discriminate|].
    intros H. inversion H; subst. exists 24, [v], s2.
    repeat split; try reflexivity; try lia. }
  destruct (Z.eqb_spec ai 25) as [->|H25].
  { destruct s1 as [|b0 [|b1 s2]]; try discriminate.
    inversion Hb1 as [|? ? H0 Hb2]; subst. inversion Hb2 as [|? ? H1 _]; subst.
    rewrite Uint16_be by assumption.
    destruct (strictMode && (be_value [b0; b1] <=? 0xFF)); [discriminate|].
    intros H. inversion H; subst. exists 25, [b0; b1], s2.
    repeat split; try reflexivity; lia. }
  destruct (Z.eqb_spec ai 26) as [->|H26].
  { destruct s1 as [|b0 [|b1 [|b2 [|b3 s2]]]]; try discriminate.
    inversion Hb1 as [|? ? H0 Hb2]; subst. inversion Hb2 as [|? ? H1 Hb3]; subst.
    inversion Hb3 as [|? ? H2 Hb4]; subst. inversion Hb4 as [|? ? H3 _]; subst.
    rewrite Uint32_be by assumption.
    destruct (strictMode && (be_value [b0; b1; b2; b3] <=? 0xFFFF));
      [discriminate|].
    intros H. inversion H; subst. exists 26, [b0; b1; b2; b3], s2.
    repeat split; try reflexivity; lia. }
  destruct (Z.eqb_spec ai 27) as [->|H27].
  { destruct s1 as [|b0 [|b1 [|b2 [|b3 [|b4 [|b5 [|b6 [|b7 s2]]]]]]]];
      try discriminate.
    inversion Hb1 as [|? ? H0 Hb2]; subst. inversion Hb2 as [|? ? H1 Hb3]; subst.
    inversion Hb3 as [|? ? H2 Hb4]; subst. inversion Hb4 as [|? ? H3 Hb5]; subst.
    inversion Hb5 as [|? ? H4 Hb6]; subst. inversion Hb6 as [|? ? H5 Hb7]; subst.
    inversion Hb7 as [|? ? H6 Hb8]; subst. inversion Hb8 as [|? ? H7 _]; subst.
    rewrite Uint64_be by assumption.
    destruct (strictMode
              && (be_value [b0; b1; b2; b3; b4; b5; b6; b7] <=? 0xFFFFFFFF));
      [discriminate|].
    intros H. inversion H; subst.
    exists 27, [b0; b1; b2; b3; b4; b5; b6; b7], s2.
    repeat split; try reflexivity; lia. }
  destruct (Z.eqb_spec ai 31) as [->|H31]; [|discriminate].
  intros H. inversion H; subst. exists 31, [], s1.
  repeat split; try reflexivity; lia.
Qed.

Lemma bytes_skipn (d : list Z) (n : nat) : bytes d -> bytes (skipn n d).
Proof.
  unfold bytes. rewrite !Forall_forall. intros H b Hin.
  apply H. rewrite <- (firstn_skipn n d). apply in_or_app. now right.
Qed.

Lemma ReadTag_stack (r : Reader.CborReader) :
  0 <= Reader.offset r ->
  match final (Reader.ReadTag r) with
  | Some r' => Reader.nestingStack r' = Reader.nestingStack r
  | None => True
  end.
Proof.
  intros Ho. unfold Reader.ReadTag, Reader.invalidateState. unfold_monad.
  destruct (Reader.PeekState r) as [s r1|e r1|] eqn:Hp; cbn [final]; auto.
  2:{ now apply PeekState_error in Hp. }
  destruct (PeekState_fields _ _ _ Hp) as (Hd & Hoff & Hst & _).
  unfold Reader.expect, failIf, throw, ret.
  destruct (negb (CborReaderState_eqb s StateTag)); cbn [final]; [exact Hst|].
  rewrite readArgumentValue_decodeHead by (reader_fields; lia).
  match goal with
  | |- context [headOutcome ?res ?r0] =>
      pose proof (headOutcome_final res r0) as Hf;
      destruct (headOutcome res r0) as [v r2|e r2|]; cbn [final] in *; auto;
      destruct (Hf r2 eq_refl) as [n ->]; reader_fields; exact Hst
  end.
Qed.

(** [WriteTag] appends the head of its argument and nothing else. *)
Lemma WriteTag_head (w : Writer.CborWriter) (tag : Z) :
  0 <= tag < 2^64 ->
  exists w',
    Writer.WriteTag tag w = Ok tt w'
    /\ Writer.nestingStack w' = Writer.nestingStack w
    /\ Writer.rootValueWritten w' = Writer.rootValueWritten w
    /\ Writer.buffer w'
       = Writer.buffer w ++ writeArgument_spec MajorTypeTag tag.
Proof.
  intros Ht.
  eexists. unfold Writer.WriteTag, Writer.writeMinimalInitialByte,
    Writer.emit, modify.
  rewrite appendInitialByte_spec by exact Ht.
  repeat split; reflexivity.
Qed.

(** A call of [ReadTag] that returns has consumed a head of major type 6
    and returns its argument. *)
Lemma ReadTag_consumes_head (r r' : Reader.CborReader) (tag : Z) :
  0 <= Reader.offset r -> bytes (Reader.data r) ->
  Reader.ReadTag r = Ok tag r' ->
  exists ai payload,
    remaining r
    = (MajorType_code MajorTypeTag * 32 + ai) :: payload ++ remaining r'
    /\ len payload = infoWidth ai
    /\ Reader.offset r' = Reader.offset r + 1 + len payload
    /\ Reader.data r' = Reader.data r
    /\ tag = (if ai <? 24 then ai else be_value payload).
Proof.
  intros Ho Hb Hrun.
  unfold Reader.ReadTag, Reader.invalidateState in Hrun.
  unfold_monad_in Hrun.
  destruct (Reader.PeekState r) as [s r1|e r1|] eqn:Hp; try discriminate.
  destruct (PeekState_fields _ _ _ Hp) as (Hd & Hoff & Hst & _).
  destruct (Reader.expect s StateTag r1) as [u r2|e r2|] eqn:He;
    try discriminate.
  apply expect_ok in He. destruct He as [-> ->].
  rewrite readArgumentValue_decodeHead in Hrun by (reader_fields; lia).
  set (r2 := Reader.set_stateComputed false r1) in *.
  assert (Hrem : remaining r2 = remaining r).
  { unfold remaining, r2. reader_fields. now rewrite Hd, Hoff. }
  destruct (decodeHead (Reader.strict r2) MajorTypeTag (remaining r2))
    as [n [v|e]] eqn:Hh; cbn [headOutcome] in Hrun;
    [|destruct (n =? 0); discriminate].
  inversion Hrun; subst v r'. clear Hrun.
  apply decodeHead_ok in Hh.
  2:{ rewrite Hrem. unfold remaining. now apply bytes_skipn. }
  destruct Hh as (ai & payload & rest & Hs & Hai & Hlen & Hn & Hv).
  exists ai, payload.
  assert (Hn0 : 0 <= n) by (pose proof (len_nonneg payload); lia).
  assert (Hrest : remaining (consumed n r2) = rest).
  { rewrite remaining_consumed by (unfold r2; reader_fields; lia).
    rewrite Hs. replace (Z.to_nat n) with (S (length payload))
      by (unfold len in Hlen; lia).
    cbn [skipn]. rewrite skipn_app, skipn_all, Nat.sub_diag. reflexivity. }
  rewrite Hrest, <- Hrem. split; [exact Hs|]. split; [exact Hlen|].
  unfold r2. reader_fields. rewrite Hd, Hoff.
  repeat split; try assumption; lia.
Qed.


(** ** The nesting cap *)

Ltac writer_fields :=
  cbn [Writer.buffer Writer.conformanceMode Writer.nestingStack
       Writer.maxNestingDepth Writer.currentOffset
       Writer.allowMultipleRootValues Writer.rootValueWritten
       Writer.set_buffer Writer.set_conformanceMode Writer.set_nestingStack
       Writer.set_maxNestingDepth Writer.set_currentOffset
       Writer.set_allowMultipleRootValues Writer.set_rootValueWritten].

Lemma writeStart_at_cap (op : WriteStart) (w : Writer.CborWriter) :
  Writer.maxNestingDepth w <= Writer.NestingDepth w ->
  runWriteStart op w
  = Err (if indefiniteStart op && Writer.canonicalMode w
         then ErrIndefiniteLengthNotAllowed
         else ErrNestingDepthExceeded) w.
Proof.
  unfold Writer.NestingDepth. intros Hd.
  destruct op; cbn [runWriteStart indefiniteStart andb];
    unfold Writer.WriteStartArray, Writer.WriteStartMap,
      Writer.WriteStartIndefiniteLengthArray,
      Writer.WriteStartIndefiniteLengthMap,
      Writer.WriteStartIndefiniteLengthByteString,
      Writer.WriteStartIndefiniteLengthTextString, Writer.checkNestingDepth;
    unfold_monad;
    try (destruct (Writer.canonicalMode w); [reflexivity|]);
    destruct (Z.leb_spec (Writer.maxNestingDepth w)
                (len (Writer.nestingStack w))); try lia; reflexivity.
Qed.

Lemma writeStart_below_cap (op : WriteStart) (w : Writer.CborWriter) :
  Writer.NestingDepth w < Writer.maxNestingDepth w ->
  if indefiniteStart op && Writer.canonicalMode w then
    runWriteStart op w = Err ErrIndefiniteLengthNotAllowed w
  else
    exists w' info,
      runWriteStart op w = Ok tt w'
      /\ Writer.nestingStack w' = info :: Writer.nestingStack w
      /\ Writer.maxNestingDepth w' = Writer.maxNestingDepth w
      /\ Writer.conformanceMode w' = Writer.conformanceMode w.
Proof.
  unfold Writer.NestingDepth. intros Hd.
  destruct op; cbn [runWriteStart indefiniteStart andb];
    unfold Writer.WriteStartArray, Writer.WriteStartMap,
      Writer.WriteStartIndefiniteLengthArray,
      Writer.WriteStartIndefiniteLengthMap,
      Writer.WriteStartIndefiniteLengthByteString,
      Writer.WriteStartIndefiniteLengthTextString, Writer.checkNestingDepth,
      Writer.writeMinimalInitialByte, Writer.emit, Writer.push;
    unfold_monad;
    try (destruct (Writer.canonicalMode w); [reflexivity|]);
    (destruct (Z.leb_spec (Writer.maxNestingDepth w)
                 (len (Writer.nestingStack w))); [lia|]);
    writer_fields; eexists; eexists; repeat split; reflexivity.
Qed.

Lemma startArrays_below_cap (n : nat) (w : Writer.CborWriter) :
  Writer.NestingDepth w + Z.of_nat n <= Writer.maxNestingDepth w ->
  exists w',
    startArrays n w = Ok tt w'
    /\ Writer.NestingDepth w' = Writer.NestingDepth w + Z.of_nat n
    /\ Writer.maxNestingDepth w' = Writer.maxNestingDepth w.
Proof.
  revert w. induction n as [|n IH]; intros w Hd.
  - exists w. cbn [startArrays]. repeat split; try reflexivity; lia.
  - cbn [startArrays]. unfold bind.
    pose proof (writeStart_below_cap (StartArray 1) w ltac:(lia)) as Hs.
    cbn [indefiniteStart andb runWriteStart] in Hs.
    destruct Hs as (w1 & info & Hrun & Hst & Hmax & _).
    rewrite Hrun.
    assert (Hd1 : Writer.NestingDepth w1 = Writer.NestingDepth w + 1).
    { unfold Writer.NestingDepth. rewrite Hst, len_cons. lia. }
    destruct (IH w1 ltac:(lia)) as (w' & Hrun' & Hd' & Hmax').
    exists w'. split; [exact Hrun'|]. split; lia.
Qed.

Lemma computeState_in_frame (r : Reader.CborReader) info rest (b : Z)
      (s : list Z) :
  0 <= Reader.offset r ->
  Reader.nestingStack r = info :: rest ->
  Reader.frameComplete info = false ->
  remaining r = b :: s ->
  b <> breakByte ->
  Reader.computeState r = Reader.classify b r.
Proof.
  intros Ho Hst Hfc Hs Hb. unfold Reader.computeState. unfold_monad.
  rewrite Hst, Hfc. rewrite len_leb_skipn, index_skipn by exact Ho.
  unfold remaining in Hs. rewrite Hs. cbn [hd_error].
  destruct (Z.eqb_spec b breakByte); [contradiction|reflexivity].
Qed.

Lemma ReadStartArray_nested (m : nat) (r : Reader.CborReader) :
  beforeArrays (S m) r ->
  Reader.NestingDepth r < Reader.maxNestingDepth r ->
  exists r',
    Reader.ReadStartArray r = Ok 1 r'
    /\ beforeArrays m r'
    /\ Reader.NestingDepth r' = Reader.NestingDepth r + 1
    /\ Reader.maxNestingDepth r' = Reader.maxNestingDepth r.
Proof.
  intros (Ho & Hrem & Hsc & Hfr) Hd. cbn [repeat] in Hrem.
  assert (Hcs : Reader.computeState r = Ok StateStartArray r).
  { destruct (Reader.nestingStack r) as [|info rest] eqn:Hst.
    - rewrite (computeState_root r 0x81 (repeat 0x81 m));
        try assumption; [reflexivity|unfold breakByte; lia].
    - rewrite (computeState_in_frame r info rest 0x81 (repeat 0x81 m));
        try assumption; [reflexivity|unfold breakByte; lia]. }
  unfold Reader.ReadStartArray, Reader.PeekState. unfold_monad.
  rewrite Hsc, Hcs. cbn beta iota. rewrite expect_same. cbn beta iota.
  unfold Reader.readStart, Reader.checkNestingDepth, Reader.invalidateState,
    Reader.push, Reader.advance.
  unfold_monad. reader_fields.
  unfold Reader.NestingDepth in Hd.
  destruct (Z.leb_spec (Reader.maxNestingDepth r)
              (len (Reader.nestingStack r))); [lia|].
  cbn beta iota. reader_fields.
  rewrite index_skipn by exact Ho. unfold remaining in Hrem. rewrite Hrem.
  cbn [hd_error].
  change (0x81 =? encodeInitialByte MajorTypeArray
                    (to_byte AdditionalInfoIndefiniteLength)) with false.
  cbn beta iota.
  rewrite readArgumentValue_decodeHead by (reader_fields; exact Ho).
  unfold remaining at 1. reader_fields. rewrite Hrem.
  cbn [decodeHead]. change (decodeInitialByte 0x81) with (MajorTypeArray, 1).
  cbn [MajorType_eqb MajorType_code Z.eqb negb Z.ltb Z.compare Pos.compare
       Pos.eqb headOutcome].
  eexists. split; [reflexivity|].
  unfold beforeArrays, remaining, Reader.NestingDepth.
  reader_setters. rewrite skipn_add, Hrem by lia.
  repeat split; try reflexivity; try lia.
  rewrite len_cons. lia.
Qed.

Lemma readStartArrays_below_cap (n m : nat) (r : Reader.CborReader) :
  beforeArrays (n + m) r ->
  Reader.NestingDepth r + Z.of_nat n <= Reader.maxNestingDepth r ->
  exists r',
    readStartArrays n r = Ok tt r'
    /\ beforeArrays m r'
    /\ Reader.NestingDepth r' = Reader.NestingDepth r + Z.of_nat n
    /\ Reader.maxNestingDepth r' = Reader.maxNestingDepth r.
Proof.
  revert r. induction n as [|n IH]; intros r Hb Hd.
  - exists r. cbn [readStartArrays].
    split; [reflexivity|split; [exact Hb|split; [lia|reflexivity]]].
  - cbn [readStartArrays]. unfold bind.
    destruct (ReadStartArray_nested (n + m) r Hb ltac:(lia))
      as (r1 & Hrun & Hb1 & Hd1 & Hmax1).
    rewrite Hrun.
    destruct (IH r1 Hb1 ltac:(lia)) as (r' & Hrun' & Hb' & Hd' & Hmax').
    exists r'. split; [exact Hrun'|]. split; [exact Hb'|]. split; lia.
Qed.

(** An array or map start that the decoder refuses at the cap. *)
Lemma readStart_at_cap (r : Reader.CborReader) :
  Reader.maxNestingDepth r <= Reader.NestingDepth r ->
  (outcome (Reader.PeekState r) = Returned StateStartArray ->
   exists r',
     Reader.ReadStartArray r = Err ErrNestingDepthExceeded r'
     /\ Reader.nestingStack r' = Reader.nestingStack r
     /\ Reader.offset r' = Reader.offset r)
  /\ (outcome (Reader.PeekState r) = Returned StateStartMap ->
      exists r',
        Reader.ReadStartMap r = Err ErrNestingDepthExceeded r'
        /\ Reader.nestingStack r' = Reader.nestingStack r
        /\ Reader.offset r' = Reader.offset r).
Proof.
  unfold Reader.NestingDepth. intros Hd. split; intros Hp;
    unfold Reader.ReadStartArray, Reader.ReadStartMap; unfold_monad;
    destruct (Reader.PeekState r) as [s r1|e r1|] eqn:Hpeek;
    try discriminate Hp; cbn [outcome] in Hp; inversion Hp; subst s;
    destruct (PeekState_fields _ _ _ Hpeek) as (_ & Hoff & Hst & _ & Hmax);
    rewrite expect_same; cbn beta iota;
    unfold Reader.readStart, Reader.checkNestingDepth; unfold_monad;
    rewrite Hmax, Hst;
    (destruct (Z.leb_spec (Reader.maxNestingDepth r)
                 (len (Reader.nestingStack r))); [|lia]);
    exists r1; repeat split; assumption.
Qed.


Ltac case_split :=
  repeat match goal with
         | |- context [if ?c then _ else _] => destruct c
         | |- context [match index ?d ?o with _ => _ end] =>
             destruct (index d o)
         | |- context [match Reader.nestingStack ?r with _ => _ end] =>
             destruct (Reader.nestingStack r)
         | |- context [match decodeInitialByte ?b with _ => _ end] =>
             destruct (decodeInitialByte b)
         | |- context [match BigEndian.Uint16 ?s with _ => _ end] =>
             destruct (BigEndian.Uint16 s)
         | |- context [match BigEndian.Uint32 ?s with _ => _ end] =>
             destruct (BigEndian.Uint32 s)
         | |- context [match BigEndian.Uint64 ?s with _ => _ end] =>
             destruct (BigEndian.Uint64 s)
         | |- context [match ?x with _ => _ end] => is_var x; destruct x
         | |- context [match Reader.majorType ?i with _ => _ end] =>
             destruct (Reader.majorType i)
         end.

Lemma decodeHead_not_depth (strictMode : bool) (mt : MajorType) (s : list Z)
      (n : Z) (e : CborErr) :
  decodeHead strictMode mt s = (n, inr e) -> e <> ErrNestingDepthExceeded.
Proof.
  unfold decodeHead. case_split; intros H; inversion H; discriminate.
Qed.

Lemma PeekState_not_depth (r r' : Reader.CborReader) (e : CborErr) :
  Reader.PeekState r = Err e r' -> e <> ErrNestingDepthExceeded.
Proof.
  unfold Reader.PeekState, Reader.computeState, Reader.classify.
  unfold_monad. case_split; intros H; inversion H; discriminate.
Qed.

Lemma readStart_below_cap (r : Reader.CborReader) :
  0 <= Reader.offset r ->
  Reader.NestingDepth r < Reader.maxNestingDepth r ->
  outcome (Reader.ReadStartArray r) <> Failed ErrNestingDepthExceeded
  /\ outcome (Reader.ReadStartMap r) <> Failed ErrNestingDepthExceeded.
Proof.
  unfold Reader.NestingDepth. intros Ho Hd.
  split; unfold Reader.ReadStartArray, Reader.ReadStartMap; unfold_monad;
    (destruct (Reader.PeekState r) as [s r1|e r1|] eqn:Hpeek;
     [|apply PeekState_not_depth in Hpeek; cbn [outcome]; congruence
      |discriminate]);
    destruct (PeekState_fields _ _ _ Hpeek) as (_ & Hoff & Hst & _ & Hmax);
    unfold Reader.expect, failIf, throw, ret;
    (match goal with
     | |- context [negb ?c] => destruct c; cbn [negb]; [|discriminate]
     end);
    unfold Reader.readStart, Reader.checkNestingDepth, Reader.invalidateState,
      Reader.advance, Reader.push;
    unfold_monad; rewrite Hmax, Hst;
    (destruct (Z.leb_spec (Reader.maxNestingDepth r)
                 (len (Reader.nestingStack r))); [lia|]);
    cbn beta iota; reader_fields;
    (destruct (index (Reader.data r1) (Reader.offset r1)); [|discriminate]);
    (match goal with
     | |- context [if ?c then _ else _] => destruct c
     end);
    try (destruct (mode_geb (Reader.conformanceMode r1) ConformanceCanonical);
         discriminate);
    rewrite readArgumentValue_decodeHead by (reader_fields; lia);
    (match goal with
     | |- context [headOutcome ?res ?r0] =>
         destruct res as [n [v|e]] eqn:Hh; cbn [headOutcome outcome];
         [discriminate|]
     end);
    apply decodeHead_not_depth in Hh; congruence.
Qed.

(** C9, as the code has it.  With [maxNestingDepth = N] and [N] frames open,
    no start operation pushes a frame: [WriteStartArray] and [WriteStartMap]
    fail with [NestingDepthExceeded] in every mode, and so do the four
    [WriteStartIndefiniteLength...] operations in the lax and strict modes;
    in the canonical and CTAP2-canonical modes these four fail with
    [IndefiniteLengthNotAllowed], because the encoder tests the mode before
    the depth.  [ReadStartArray] and [ReadStartMap] fail with
    [NestingDepthExceeded] whenever the next item is an array or map start.
    Below the cap no start is refused for depth.  From a fresh encoder, [N]
    nested [WriteStartArray] succeed and the next one fails with
    [NestingDepthExceeded]; the decoder refuses the [N+1]-th nested array in
    the same way. *)
Theorem nesting_cap :
  (forall (op : WriteStart) (w : Writer.CborWriter),
      Writer.maxNestingDepth w <= Writer.NestingDepth w ->
      runWriteStart op w
      = Err (if indefiniteStart op && Writer.canonicalMode w
             then ErrIndefiniteLengthNotAllowed
             else ErrNestingDepthExceeded) w)
  /\ (forall (op : WriteStart) (w : Writer.CborWriter),
         Writer.NestingDepth w < Writer.maxNestingDepth w ->
         if indefiniteStart op && Writer.canonicalMode w then
           runWriteStart op w = Err ErrIndefiniteLengthNotAllowed w
         else
           exists w' info,
             runWriteStart op w = Ok tt w'
             /\ Writer.nestingStack w' = info :: Writer.nestingStack w
             /\ Writer.maxNestingDepth w' = Writer.maxNestingDepth w
             /\ Writer.conformanceMode w' = Writer.conformanceMode w)
  /\ (forall (N : nat) (mode : CborConformanceMode),
         exists w,
           startArrays N
             (Writer.NewCborWriter
                [Writer.WithConformanceMode mode;
                 Writer.WithMaxNestingDepth (Z.of_nat N)])
           = Ok tt w
           /\ Writer.NestingDepth w = Z.of_nat N
           /\ Writer.WriteStartArray 1 w = Err ErrNestingDepthExceeded w)
  /\ (forall (r : Reader.CborReader),
         Reader.maxNestingDepth r <= Reader.NestingDepth r ->
         (outcome (Reader.PeekState r) = Returned StateStartArray ->
          exists r',
            Reader.ReadStartArray r = Err ErrNestingDepthExceeded r'
            /\ Reader.nestingStack r' = Reader.nestingStack r
            /\ Reader.offset r' = Reader.offset r)
         /\ (outcome (Reader.PeekState r) = Returned StateStartMap ->
             exists r',
               Reader.ReadStartMap r = Err ErrNestingDepthExceeded r'
               /\ Reader.nestingStack r' = Reader.nestingStack r
               /\ Reader.offset r' = Reader.offset r))
  /\ (forall (r : Reader.CborReader),
         0 <= Reader.offset r ->
         Reader.NestingDepth r < Reader.maxNestingDepth r ->
         outcome (Reader.ReadStartArray r) <> Failed ErrNestingDepthExceeded
         /\ outcome (Reader.ReadStartMap r) <> Failed ErrNestingDepthExceeded)
  /\ (forall (N : nat) (mode : CborConformanceMode),
         exists r,
           readStartArrays N
             (Reader.NewCborReader (repeat 0x81 (S N))
                [Reader.WithReaderConformanceMode mode;
                 Reader.WithReaderMaxNestingDepth (Z.of_nat N)])
           = Ok tt r
           /\ Reader.NestingDepth r = Z.of_nat N
           /\ outcome (Reader.ReadStartArray r)
              = Failed ErrNestingDepthExceeded).
Proof.
  split; [exact writeStart_at_cap|]. split; [exact writeStart_below_cap|].
  split; [|split; [exact readStart_at_cap|split; [exact readStart_below_cap|]]].
  - intros N mode.
    destruct (startArrays_below_cap N
                (Writer.NewCborWriter
                   [Writer.WithConformanceMode mode;
                    Writer.WithMaxNestingDepth (Z.of_nat N)]))
      as (w & Hrun & Hd & Hmax).
    { cbn. lia. }
    exists w. split; [exact Hrun|]. split; [rewrite Hd; cbn; lia|].
    apply (writeStart_at_cap (StartArray 1) w).
    rewrite Hmax, Hd. cbn. lia.
  - intros N mode.
    destruct (readStartArrays_below_cap N 1
                (Reader.NewCborReader (repeat 0x81 (S N))
                   [Reader.WithReaderConformanceMode mode;
                    Reader.WithReaderMaxNestingDepth (Z.of_nat N)]))
      as (r & Hrun & Hb & Hd & Hmax).
    { unfold beforeArrays, remaining. cbn [Reader.NewCborReader fold_left].
      reader_setters. unfold Reader.WithReaderConformanceMode,
        Reader.WithReaderMaxNestingDepth. reader_setters.
      replace (N + 1)%nat with (S N) by lia.
      repeat split; try reflexivity; lia. }
    { cbn. lia. }
    exists r. split; [exact Hrun|]. split; [rewrite Hd; cbn; lia|].
    destruct Hb as (Ho & Hrem & Hsc & Hfr).
    assert (Hp : outcome (Reader.PeekState r) = Returned StateStartArray).
    { unfold Reader.PeekState. unfold_monad. rewrite Hsc.
      cbn [repeat] in Hrem.
      destruct (Reader.nestingStack r) as [|info rest] eqn:Hst.
      - rewrite (computeState_root r 0x81 []);
          try assumption; [reflexivity|unfold breakByte; lia].
      - rewrite (computeState_in_frame r info rest 0x81 []);
          try assumption; [reflexivity|unfold breakByte; lia]. }
    destruct (proj1 (readStart_at_cap r ltac:(rewrite Hmax, Hd; cbn; lia)) Hp)
      as (r' & Hfail & _).
    rewrite Hfail. reflexivity.
Qed.

Lemma nesting_cap_witness :
  let w := Writer.mkCborWriter [0x81; 0x81; 0x81] ConformanceLax
             [Writer.mkNestingInfo MajorTypeArray 1 0 false false false;
              Writer.mkNestingInfo MajorTypeArray 1 0 false false false;
              Writer.mkNestingInfo MajorTypeArray 1 0 false false false]
             3 3 false false in
  Writer.maxNestingDepth w <= Writer.NestingDepth w
  /\ Writer.WriteStartArray 1 w = Err ErrNestingDepthExceeded w
  /\ Writer.WriteStartIndefiniteLengthMap w = Err ErrNestingDepthExceeded w.
Proof.
  intros w.
  assert (Hw : Writer.maxNestingDepth w <= Writer.NestingDepth w)
    by (cbn; lia).
  split; [exact Hw|]. split.
  - exact (proj1 nesting_cap (StartArray 1) w Hw).
  - exact (proj1 nesting_cap StartIndefiniteLengthMap w Hw).
Defined.

(** C9, counterexample.  In the canonical modes an indefinite-length start
    at the cap is refused for its length form, not for the depth; and a
    [ReadStartArray] at the cap in front of an integer reports the type
    mismatch. *)
Lemma nesting_cap_other_errors :
  let w := Writer.mkCborWriter [0x81] ConformanceCanonical
             [Writer.mkNestingInfo MajorTypeArray 1 0 false false false]
             1 1 false false in
  let r := Reader.mkCborReader [0x81; 0x01] 1 ConformanceLax
             [Reader.mkReaderNestingInfo MajorTypeArray 1 0 false false false]
             1 StateUndefined false false in
  Writer.NestingDepth w = Writer.maxNestingDepth w
  /\ outcome (Writer.WriteStartIndefiniteLengthArray w)
     = Failed ErrIndefiniteLengthNotAllowed
  /\ outcome (Writer.WriteStartIndefiniteLengthArray w)
     <> Failed ErrNestingDepthExceeded
  /\ Reader.NestingDepth r = Reader.maxNestingDepth r
  /\ outcome (Reader.ReadStartArray r)
     = Failed (TypeMismatchError StateStartArray StateUnsignedInteger)
  /\ outcome (Reader.ReadStartArray r) <> Failed ErrNestingDepthExceeded.
Proof.
  cbv zeta. repeat split; try reflexivity; vm_compute; discriminate.
Qed.


(** ** Truncated input *)

Lemma len_firstn {A : Type} (d : list A) (k : Z) :
  0 <= k <= len d -> len (firstn (Z.to_nat k) d) = k.
Proof. unfold len. intros H. rewrite length_firstn. lia. Qed.

Lemma remaining_truncated (k : Z) (r rt : Reader.CborReader) :
  rt = truncated k r ->
  0 <= Reader.offset r ->
  remaining rt = firstn (Z.to_nat (k - Reader.offset r)) (remaining r).
Proof.
  intros -> Ho. unfold remaining, truncated. reader_fields.
  destruct (Z.le_gt_cases (Reader.offset r) k) as [Hle|Hgt].
  - rewrite skipn_firstn_comm. f_equal. lia.
  - replace (Z.to_nat (k - Reader.offset r)) with 0%nat by lia.
    cbn [firstn]. apply skipn_all2. rewrite length_firstn. lia.
Qed.

Lemma Uint16_firstn (s : list Z) (m : nat) :
  (2 <= m)%nat -> BigEndian.Uint16 (firstn m s) = BigEndian.Uint16 s.
Proof.
  intros Hm. do 2 (destruct m as [|m]; [lia|]).
  destruct s as [|b0 [|b1 s]]; reflexivity.
Qed.

Lemma Uint32_firstn (s : list Z) (m : nat) :
  (4 <= m)%nat -> BigEndian.Uint32 (firstn m s) = BigEndian.Uint32 s.
Proof.
  intros Hm. do 4 (destruct m as [|m]; [lia|]).
  destruct s as [|b0 [|b1 [|b2 [|b3 s]]]]; reflexivity.
Qed.

Lemma Uint64_firstn (s : list Z) (m : nat) :
  (8 <= m)%nat -> BigEndian.Uint64 (firstn m s) = BigEndian.Uint64 s.
Proof.
  intros Hm. do 8 (destruct m as [|m]; [lia|]).
  destruct s as [|b0 [|b1 [|b2 [|b3 [|b4 [|b5 [|b6 [|b7 s]]]]]]]];
    reflexivity.
Qed.

Lemma Uint16_firstn_short (s : list Z) (m : nat) :
  (m < 2)%nat -> BigEndian.Uint16 (firstn m s) = None.
Proof.
  intros Hm. apply Uint16_none. unfold len. rewrite length_firstn. lia.
Qed.

Lemma Uint32_firstn_short (s : list Z) (m : nat) :
  (m < 4)%nat -> BigEndian.Uint32 (firstn m s) = None.
Proof.
  intros Hm. apply Uint32_none. unfold len. rewrite length_firstn. lia.
Qed.

Lemma Uint64_firstn_short (s : list Z) (m : nat) :
  (m < 8)%nat -> BigEndian.Uint64 (firstn m s) = None.
Proof.
  intros Hm. apply Uint64_none. unfold len. rewrite length_firstn. lia.
Qed.

(** A head that decodes on the whole input decodes to the same argument on
    every prefix that contains it, and is reported as truncated on every
    shorter prefix. *)
Lemma decodeHead_firstn (strictMode : bool) (mt : MajorType) (s : list Z)
      (n v : Z) (m : nat) :
  decodeHead strictMode mt s = (n, inl v) ->
  1 <= n
  /\ (n <= Z.of_nat m ->
      decodeHead strictMode mt (firstn m s) = (n, inl v))
  /\ (Z.of_nat m < n ->
      exists c, decodeHead strictMode mt (firstn m s)
                = (c, inr ErrUnexpectedEndOfData) /\ 0 <= c <= 1).
Proof.
  unfold decodeHead. destruct s as [|b s1]; [discriminate|].
  destruct m as [|m].
  { cbn [firstn]. intros H. split; [|split].
    - revert H. case_split; intros H; inversion H; lia.
    - intros Hn. exfalso. revert H. case_split; intros H; inversion H; lia.
    - intros _. exists 0. split; [reflexivity|lia]. }
  cbn [firstn].
  destruct (decodeInitialByte b) as [actualMt ai].
  destruct (negb (MajorType_eqb actualMt mt)); [discriminate|].
  destruct (ai <? 24).
  { intros H. inversion H; subst. split; [lia|]. split; [reflexivity|lia]. }
  destruct (ai =? 24).
  { destruct s1 as [|val s2]; [discriminate|].
    destruct (strictMode && (val <? 24)) eqn:Hc; [discriminate|].
    intros H. inversion H; subst. split; [lia|].
    destruct m as [|m]; cbn [firstn].
    - split; [lia|]. intros _. exists 1. split; [reflexivity|lia].
    - rewrite Hc. split; [reflexivity|lia]. }
  destruct (ai =? 25).
  { destruct (BigEndian.Uint16 s1) as [val|] eqn:Hv; [|discriminate].
    destruct (strictMode && (val <=? 0xFF)) eqn:Hc; [discriminate|].
    intros H. inversion H; subst. split; [lia|]. split; intros Hn.
    - rewrite Uint16_firstn, Hv, Hc by lia. reflexivity.
    - rewrite Uint16_firstn_short by lia. exists 1. split; [reflexivity|lia]. }
  destruct (ai =? 26).
  { destruct (BigEndian.Uint32 s1) as [val|] eqn:Hv; [|discriminate].
    destruct (strictMode && (val <=? 0xFFFF)) eqn:Hc; [discriminate|].
    intros H. inversion H; subst. split; [lia|]. split; intros Hn.
    - rewrite Uint32_firstn, Hv, Hc by lia. reflexivity.
    - rewrite Uint32_firstn_short by lia. exists 1. split; [reflexivity|lia]. }
  destruct (ai =? 27).
  { destruct (BigEndian.Uint64 s1) as [val|] eqn:Hv; [|discriminate].
    destruct (strictMode && (val <=? 0xFFFFFFFF)) eqn:Hc; [discriminate|].
    intros H. inversion H; subst. split; [lia|]. split; intros Hn.
    - rewrite Uint64_firstn, Hv, Hc by lia. reflexivity.
    - rewrite Uint64_firstn_short by lia. exists 1. split; [reflexivity|lia]. }
  destruct (ai =? 31); [|discriminate].
  intros H. inversion H; subst. split; [lia|]. split; [reflexivity|lia].
Qed.

Lemma truncated_offset (k : Z) (r : Reader.CborReader) :
  Reader.offset (truncated k r) = Reader.offset r.
Proof. reflexivity. Qed.

Lemma truncated_consumed (k n : Z) (r : Reader.CborReader) :
  truncated k (consumed n r) = consumed n (truncated k r).
Proof. reflexivity. Qed.

(** [readArgumentValue] on a truncated input. *)
Lemma readArgumentValue_truncated (k : Z) (mt : MajorType)
      (r rt r' : Reader.CborReader) (v : Z) :
  rt = truncated k r ->
  0 <= Reader.offset r ->
  Reader.readArgumentValue mt r = Ok v r' ->
  Reader.offset r < Reader.offset r'
  /\ r' = consumed (Reader.offset r' - Reader.offset r) r
  /\ (Reader.offset r' <= k ->
      Reader.readArgumentValue mt rt = Ok v (truncated k r'))
  /\ (k < Reader.offset r' ->
      outcome (Reader.readArgumentValue mt rt)
      = Failed ErrUnexpectedEndOfData).
Proof.
  intros Hrt Ho Hrun.
  rewrite readArgumentValue_decodeHead in Hrun by exact Ho.
  destruct (decodeHead (Reader.strict r) mt (remaining r)) as [n [v0|e]]
    eqn:Hh; cbn [headOutcome] in Hrun; [|destruct (n =? 0); discriminate].
  inversion Hrun; subst v0 r'. clear Hrun.
  destruct (decodeHead_firstn _ _ _ _ _
              (Z.to_nat (k - Reader.offset r)) Hh) as (Hn & Hin & Hout).
  assert (Hort : 0 <= Reader.offset rt) by (subst rt; exact Ho).
  assert (Hst : Reader.strict rt = Reader.strict r) by (subst rt; reflexivity).
  unfold consumed at 1 2 3 4. reader_fields.
  split; [lia|]. split; [f_equal; lia|].
  rewrite readArgumentValue_decodeHead by exact Hort.
  rewrite (remaining_truncated k r rt Hrt Ho), Hst.
  split; intros Hk.
  - rewrite Hin by lia. cbn [headOutcome]. subst rt. reflexivity.
  - destruct Hout as (c & Hc & Hc01); [lia|]. rewrite Hc.
    cbn [headOutcome]. destruct (c =? 0); reflexivity.
Qed.

Lemma readArgumentValue_cut (k : Z) (mt : MajorType)
      (r r' : Reader.CborReader) (v : Z) :
  Reader.readArgumentValue mt r = Ok v r' ->
  0 <= Reader.offset r ->
  k < Reader.offset r' ->
  outcome (Reader.readArgumentValue mt (truncated k r))
  = Failed ErrUnexpectedEndOfData.
Proof.
  intros Hrun Ho Hk.
  now apply (readArgumentValue_truncated k mt r _ r' v eq_refl Ho Hrun).
Qed.

Lemma readArgumentValue_kept (k : Z) (mt : MajorType)
      (r r' : Reader.CborReader) (v : Z) :
  Reader.readArgumentValue mt r = Ok v r' ->
  0 <= Reader.offset r ->
  Reader.offset r' <= k ->
  Reader.readArgumentValue mt (truncated k r) = Ok v (truncated k r').
Proof.
  intros Hrun Ho Hk.
  now apply (readArgumentValue_truncated k mt r _ r' v eq_refl Ho Hrun).
Qed.

Lemma readArgumentValue_advances (mt : MajorType)
      (r r' : Reader.CborReader) (v : Z) :
  Reader.readArgumentValue mt r = Ok v r' ->
  0 <= Reader.offset r ->
  Reader.offset r < Reader.offset r'
  /\ r' = consumed (Reader.offset r' - Reader.offset r) r.
Proof.
  intros Hrun Ho.
  destruct (readArgumentValue_truncated 0 mt r _ r' v eq_refl Ho Hrun)
    as (H1 & H2 & _). now split.
Qed.


(** *** Sequencing *)

Lemma bind_ok_inv {S A B : Type} (m : M S A) (f : A -> M S B) (s s' : S)
      (b : B) :
  bind m f s = Ok b s' -> exists a s1, m s = Ok a s1 /\ f a s1 = Ok b s'.
Proof.
  unfold bind. destruct (m s) as [a s1|e s1|]; try discriminate.
  intros H. now exists a, s1.
Qed.

Lemma bind_step {S A B : Type} (m : M S A) (f : A -> M S B) (s s1 : S)
      (a : A) :
  m s = Ok a s1 -> bind m f s = f a s1.
Proof. unfold bind. now intros ->. Qed.

Lemma bind_failed {S A B : Type} (m : M S A) (f : A -> M S B) (s : S)
      (e : CborErr) :
  outcome (m s) = Failed e -> outcome (bind m f s) = Failed e.
Proof.
  unfold bind. destruct (m s) as [a s1|e1 s1|]; try discriminate.
  cbn [outcome]. intros H. inversion H. reflexivity.
Qed.

Lemma discard_ok_inv {A : Type} (m : M Reader.CborReader A)
      (r r' : Reader.CborReader) (u : unit) :
  discard m r = Ok u r' -> exists a, m r = Ok a r'.
Proof.
  unfold discard. intros H. apply bind_ok_inv in H.
  destruct H as (a & r1 & H1 & H2). inversion H2; subst. now exists a.
Qed.

Lemma discard_failed {A : Type} (m : M Reader.CborReader A)
      (r : Reader.CborReader) (e : CborErr) :
  outcome (m r) = Failed e -> outcome (discard m r) = Failed e.
Proof. apply bind_failed. Qed.

(** *** The classifier on a truncated input *)

Lemma index_firstn {A : Type} (d : list A) (k o : Z) :
  0 <= o < k -> index (firstn (Z.to_nat k) d) o = index d o.
Proof.
  intros H. unfold index. destruct (Z.ltb_spec o 0) as [Hlt|Hge]; [lia|].
  rewrite nth_error_firstn.
  destruct (Nat.ltb_spec (Z.to_nat o) (Z.to_nat k)); [reflexivity|lia].
Qed.

Lemma len_firstn_leb {A : Type} (d : list A) (k o : Z) :
  0 <= o < k -> (len (firstn (Z.to_nat k) d) <=? o) = (len d <=? o).
Proof.
  intros H. unfold len. rewrite length_firstn.
  destruct (Z.leb_spec (Z.of_nat (Nat.min (Z.to_nat k) (length d))) o),
           (Z.leb_spec (Z.of_nat (length d)) o); try reflexivity; lia.
Qed.

Lemma computeState_unchanged (r : Reader.CborReader) :
  match Reader.computeState r with
  | Ok _ r' => r' = r
  | Err _ r' => r' = r
  | Panic => True
  end.
Proof.
  unfold Reader.computeState, Reader.classify. unfold_monad.
  case_split; auto.
Qed.

Lemma computeState_congr (r rt : Reader.CborReader) :
  Reader.nestingStack rt = Reader.nestingStack r ->
  (len (Reader.data rt) <=? Reader.offset rt)
  = (len (Reader.data r) <=? Reader.offset r) ->
  index (Reader.data rt) (Reader.offset rt)
  = index (Reader.data r) (Reader.offset r) ->
  Reader.computeState rt
  = match Reader.computeState r with
    | Ok s _ => Ok s rt
    | Err e _ => Err e rt
    | Panic => Panic
    end.
Proof.
  intros Hst Hlen Hidx.
  unfold Reader.computeState, Reader.classify. unfold_monad.
  rewrite Hst, Hlen, Hidx. case_split; reflexivity.
Qed.

Lemma PeekState_fresh (r : Reader.CborReader) :
  Reader.stateComputed r = false ->
  Reader.PeekState r
  = match Reader.computeState r with
    | Ok s _ => Ok s (cached s r)
    | Err e _ => Err e r
    | Panic => Panic
    end.
Proof.
  intros Hsc. unfold Reader.PeekState. unfold_monad. rewrite Hsc.
  pose proof (computeState_unchanged r) as Hu.
  destruct (Reader.computeState r) as [s r0|e r0|]; subst; reflexivity.
Qed.

(** Inside the input, truncation does not change the classification. *)
Lemma PeekState_truncated_inside (k : Z) (r rt : Reader.CborReader)
      (s : CborReaderState) (r1 : Reader.CborReader) :
  rt = truncated k r ->
  Reader.stateComputed r = false ->
  0 <= Reader.offset r < k ->
  Reader.PeekState r = Ok s r1 ->
  r1 = cached s r /\ Reader.PeekState rt = Ok s (truncated k r1).
Proof.
  intros -> Hsc Ho Hp. rewrite PeekState_fresh in Hp by exact Hsc.
  rewrite PeekState_fresh by exact Hsc.
  rewrite (computeState_congr r (truncated k r)).
  - destruct (Reader.computeState r) as [s0 r0|e r0|]; try discriminate.
    inversion Hp; subst. split; reflexivity.
  - reflexivity.
  - unfold truncated. reader_fields. now apply len_firstn_leb.
  - unfold truncated. reader_fields. now apply index_firstn.
Qed.

(** At the end of a truncated input the classifier reports the end of the
    data inside an open frame that expects more items, the end of the frame
    when it is complete, and [StateFinished] at the root. *)
Lemma computeState_truncated_end (k : Z) (r rt : Reader.CborReader) :
  rt = truncated k r ->
  0 <= k <= Reader.offset r ->
  Reader.computeState rt
  = match Reader.nestingStack r with
    | [] => Ok StateFinished rt
    | info :: _ =>
        if Reader.frameComplete info
        then (if Reader.isMap info then Ok StateEndMap rt
              else Ok StateEndArray rt)
        else Err ErrUnexpectedEndOfData rt
    end.
Proof.
  intros -> Hk.
  assert (Hlen : (len (Reader.data (truncated k r))
                  <=? Reader.offset (truncated k r)) = true).
  { unfold truncated. reader_fields.
    apply Z.leb_le. unfold len. rewrite length_firstn. lia. }
  assert (Hst : Reader.nestingStack (truncated k r) = Reader.nestingStack r)
    by reflexivity.
  generalize dependent (truncated k r). intros rt Hlen Hst.
  unfold Reader.computeState. unfold_monad. rewrite Hst, Hlen.
  destruct (Reader.nestingStack r) as [|info rest]; [reflexivity|].
  destruct (Reader.frameComplete info); [|reflexivity].
  destruct (Reader.isMap info); reflexivity.
Qed.

Lemma computeState_frameComplete (r : Reader.CborReader) info rest :
  Reader.nestingStack r = info :: rest ->
  Reader.frameComplete info = true ->
  Reader.computeState r
  = Ok (if Reader.isMap info then StateEndMap else StateEndArray) r.
Proof.
  intros Hst Hfc. unfold Reader.computeState. unfold_monad.
  rewrite Hst, Hfc. destruct (Reader.isMap info); reflexivity.
Qed.

(** The scheme of every typed read: classify, then run a body that depends
    on the classification.  On an input cut at [k], strictly before the end
    of what the read consumes, the read fails with [UnexpectedEndOfData] as
    soon as its body does so when the cut is after the initial byte, and
    does not consume anything at the end of a complete frame. *)
Lemma peek_then_truncated {A : Type}
      (body : CborReaderState -> M Reader.CborReader A)
      (k : Z) (r r' : Reader.CborReader) (a : A) :
  Reader.stateComputed r = false ->
  0 <= Reader.offset r ->
  (state <- Reader.PeekState ;; body state) r = Ok a r' ->
  Reader.offset r <= k < Reader.offset r' ->
  Reader.offset r < k \/ Reader.nestingStack r <> [] ->
  (forall s, Reader.offset r < k ->
             body s (cached s r) = Ok a r' ->
             outcome (body s (truncated k (cached s r)))
             = Failed ErrUnexpectedEndOfData) ->
  (forall info rest s,
      Reader.nestingStack r = info :: rest ->
      Reader.isIndefinite info = false ->
      s = StateEndMap \/ s = StateEndArray ->
      body s (cached s r) = Ok a r' ->
      Reader.offset r' <= Reader.offset r) ->
  outcome ((state <- Reader.PeekState ;; body state) (truncated k r))
  = Failed ErrUnexpectedEndOfData.
Proof.
  intros Hsc Ho Hrun Hk Hcut Hinside Hend.
  apply bind_ok_inv in Hrun. destruct Hrun as (s & r1 & Hp & Hbody).
  destruct (Z.lt_ge_cases (Reader.offset r) k) as [Hlt|Hge].
  - destruct (PeekState_truncated_inside k r _ s r1 eq_refl Hsc
                ltac:(lia) Hp) as [-> Hpt].
    rewrite (bind_step _ _ _ _ _ Hpt). now apply Hinside.
  - assert (Hkeq : k = Reader.offset r) by lia.
    destruct Hcut as [Hcut|Hcut]; [lia|].
    rewrite PeekState_fresh in Hp by exact Hsc.
    unfold bind at 1. rewrite PeekState_fresh by exact Hsc.
    rewrite (computeState_truncated_end k r _ eq_refl) by lia.
    destruct (Reader.nestingStack r) as [|info rest] eqn:Hst;
      [contradiction|].
    destruct (Reader.frameComplete info) eqn:Hfc; [|reflexivity].
    exfalso.
    rewrite (computeState_frameComplete r info rest Hst Hfc) in Hp.
    inversion Hp; subst s r1.
    assert (Hind : Reader.isIndefinite info = false).
    { unfold Reader.frameComplete in Hfc.
      destruct (Reader.isIndefinite info); [discriminate|reflexivity]. }
    assert (Hs : (if Reader.isMap info then StateEndMap else StateEndArray)
                 = StateEndMap
                 \/ (if Reader.isMap info then StateEndMap else StateEndArray)
                    = StateEndArray)
      by (destruct (Reader.isMap info); auto).
    specialize (Hend info rest _ eq_refl Hind Hs Hbody).
    lia.
Qed.


(** *** The typed reads on a truncated input *)

Lemma bind_modify {S B : Type} (g : S -> S) (f : unit -> M S B) (s : S) :
  bind (modify g) f s = f tt (g s).
Proof. reflexivity. Qed.

Lemma advanceContainer_ok (r : Reader.CborReader) :
  exists r', Reader.advanceContainer r = Ok tt r'
             /\ Reader.offset r' = Reader.offset r
             /\ Reader.data r' = Reader.data r.
Proof.
  unfold Reader.advanceContainer, modify.
  destruct (Reader.nestingStack r); eexists; repeat split; reflexivity.
Qed.

Lemma advanceContainer_inv (r r' : Reader.CborReader) (u : unit) :
  Reader.advanceContainer r = Ok u r' -> Reader.offset r' = Reader.offset r.
Proof.
  destruct (advanceContainer_ok r) as (r1 & H1 & Ho & _).
  rewrite H1. intros H. inversion H; subst. exact Ho.
Qed.

(** Splits a successful run [H] of a sequence into its steps. *)
Ltac split_run H :=
  let a := fresh "a" in
  let r1 := fresh "r" in
  let H1 := fresh "Hstep" in
  apply bind_ok_inv in H; destruct H as (a & r1 & H1 & H).

Ltac expect_in H :=
  let a := fresh "u" in
  let r1 := fresh "r" in
  let H1 := fresh "Hexp" in
  apply bind_ok_inv in H; destruct H as (a & r1 & H1 & H);
  apply expect_ok in H1; destruct H1 as [? ?]; subst.

Lemma ReadUint64_truncated (k : Z) (r r' : Reader.CborReader) (a : Z) :
  Reader.stateComputed r = false ->
  0 <= Reader.offset r ->
  Reader.ReadUint64 r = Ok a r' ->
  Reader.offset r <= k < Reader.offset r' ->
  Reader.offset r < k \/ Reader.nestingStack r <> [] ->
  outcome (Reader.ReadUint64 (truncated k r)) = Failed ErrUnexpectedEndOfData.
Proof.
  intros Hsc Ho Hrun Hk Hcut. unfold Reader.ReadUint64 in *.
  apply (peek_then_truncated _ k r r' a); try assumption.
  - intros s Hlt Hbody. expect_in Hbody.
    rewrite (bind_step _ _ _ _ _ (expect_same _ _)).
    unfold Reader.invalidateState in *. rewrite bind_modify in *.
    split_run Hbody.
    pose proof (readArgumentValue_cut k _ _ _ _ Hstep Ho) as Hout.
    split_run Hbody. apply advanceContainer_inv in Hstep0.
    inversion Hbody; subst.
    apply bind_failed. apply Hout. lia.
  - intros info rest s Hst Hind [-> | ->] Hbody; discriminate Hbody.
Qed.

Lemma ReadTag_truncated (k : Z) (r r' : Reader.CborReader) (a : Z) :
  Reader.stateComputed r = false ->
  0 <= Reader.offset r ->
  Reader.ReadTag r = Ok a r' ->
  Reader.offset r <= k < Reader.offset r' ->
  Reader.offset r < k \/ Reader.nestingStack r <> [] ->
  outcome (Reader.ReadTag (truncated k r)) = Failed ErrUnexpectedEndOfData.
Proof.
  intros Hsc Ho Hrun Hk Hcut. unfold Reader.ReadTag in *.
  apply (peek_then_truncated _ k r r' a); try assumption.
  - intros s Hlt Hbody. expect_in Hbody.
    rewrite (bind_step _ _ _ _ _ (expect_same _ _)).
    unfold Reader.invalidateState in *. rewrite bind_modify in *.
    split_run Hbody.
    pose proof (readArgumentValue_cut k _ _ _ _ Hstep Ho) as Hout.
    inversion Hbody; subst.
    apply bind_failed. apply Hout. lia.
  - intros info rest s Hst Hind [-> | ->] Hbody; discriminate Hbody.
Qed.

Lemma ReadInt64_truncated (k : Z) (r r' : Reader.CborReader) (a : Z) :
  Reader.stateComputed r = false ->
  0 <= Reader.offset r ->
  Reader.ReadInt64 r = Ok a r' ->
  Reader.offset r <= k < Reader.offset r' ->
  Reader.offset r < k \/ Reader.nestingStack r <> [] ->
  outcome (Reader.ReadInt64 (truncated k r)) = Failed ErrUnexpectedEndOfData.
Proof.
  intros Hsc Ho Hrun Hk Hcut. unfold Reader.ReadInt64 in *.
  apply (peek_then_truncated _ k r r' a); try assumption.
  - intros s Hlt Hbody.
    unfold Reader.invalidateState in *. rewrite bind_modify in *.
    destruct s; try discriminate Hbody.
    + split_run Hbody.
      pose proof (readArgumentValue_cut k _ _ _ _ Hstep Ho) as Hout.
      split_run Hbody. unfold failIf in Hstep0.
      destruct (MaxInt64 <? a0); [discriminate|]. inversion Hstep0; subst.
      split_run Hbody. apply advanceContainer_inv in Hstep1.
      inversion Hbody; subst.
      apply bind_failed. apply Hout. lia.
    + split_run Hbody.
      pose proof (readArgumentValue_cut k _ _ _ _ Hstep Ho) as Hout.
      split_run Hbody. unfold failIf in Hstep0.
      destruct (MaxInt64 <? a0); [discriminate|]. inversion Hstep0; subst.
      split_run Hbody. apply advanceContainer_inv in Hstep1.
      inversion Hbody; subst.
      apply bind_failed. apply Hout. lia.
  - intros info rest s Hst Hind [-> | ->] Hbody; discriminate Hbody.
Qed.


Lemma bind_get {S B : Type} (f : S -> M S B) (s : S) :
  bind get f s = f s s.
Proof. reflexivity. Qed.

Lemma len_truncated (k : Z) (r : Reader.CborReader) :
  0 <= k ->
  len (Reader.data (truncated k r)) = Z.min k (len (Reader.data r)).
Proof.
  intros Hk. unfold truncated, len. reader_fields.
  rewrite length_firstn. lia.
Qed.

Lemma failIf_ok {S : Type} (c : bool) (e : CborErr) (s s' : S) (u : unit) :
  failIf c e s = Ok u s' -> c = false /\ s' = s.
Proof.
  unfold failIf, throw, ret. destruct c; [discriminate|].
  intros H. inversion H. auto.
Qed.

Lemma orPanic_ok {S A : Type} (o : option A) (s s' : S) (a : A) :
  orPanic o s = Ok a s' -> o = Some a /\ s' = s.
Proof.
  unfold orPanic, ret, panic. destruct o; [|discriminate].
  intros H. inversion H. auto.
Qed.

Ltac failIf_in H :=
  let a := fresh "u" in
  let r1 := fresh "r" in
  let H1 := fresh "Hcond" in
  apply bind_ok_inv in H; destruct H as (a & r1 & H1 & H);
  apply failIf_ok in H1; destruct H1 as [H1 ?]; subst.

Ltac orPanic_in H :=
  let a := fresh "x" in
  let r1 := fresh "r" in
  let H1 := fresh "Hsome" in
  apply bind_ok_inv in H; destruct H as (a & r1 & H1 & H);
  apply orPanic_ok in H1; destruct H1 as [H1 ?]; subst.

(** The floats: one initial byte and [width] payload bytes. *)
Lemma readFloatBits_truncated (expected : CborReaderState) (width : Z)
      (decode : list Z -> option Z)
      (k : Z) (r r' : Reader.CborReader) (a : Z) :
  Reader.stateComputed r = false ->
  0 <= Reader.offset r ->
  Reader.readFloatBits expected width decode r = Ok a r' ->
  Reader.offset r <= k < Reader.offset r' ->
  Reader.offset r < k \/ Reader.nestingStack r <> [] ->
  expected <> StateEndMap -> expected <> StateEndArray ->
  outcome (Reader.readFloatBits expected width decode (truncated k r))
  = Failed ErrUnexpectedEndOfData.
Proof.
  intros Hsc Ho Hrun Hk Hcut Hm Ha. unfold Reader.readFloatBits in *.
  apply (peek_then_truncated _ k r r' a); try assumption.
  - intros s Hlt Hbody. expect_in Hbody.
    rewrite (bind_step _ _ _ _ _ (expect_same _ _)).
    unfold Reader.invalidateState, Reader.advance in *.
    rewrite !bind_modify, bind_get in *.
    failIf_in Hbody. orPanic_in Hbody. orPanic_in Hbody.
    rewrite bind_modify in Hbody. split_run Hbody.
    apply advanceContainer_inv in Hstep. inversion Hbody; subst.
    revert Hstep Hcond. reader_fields. intros Hstep Hcond.
    apply Z.ltb_ge in Hcond.
    apply bind_failed. unfold failIf.
    match goal with
    | |- context [if ?c then _ else _] =>
        assert (Hc : c = true); [|rewrite Hc; reflexivity]
    end.
    apply Z.ltb_lt. reader_fields. unfold len. rewrite length_firstn.
    unfold len in Hcond. lia.
  - intros info rest s Hst Hind Hs Hbody. exfalso. expect_in Hbody.
    destruct Hs; congruence.
Qed.

(** The reads that consume the initial byte only. *)
Lemma ReadNull_truncated (k : Z) (r r' : Reader.CborReader) (a : unit) :
  Reader.stateComputed r = false ->
  0 <= Reader.offset r ->
  Reader.ReadNull r = Ok a r' ->
  Reader.offset r <= k < Reader.offset r' ->
  Reader.offset r < k \/ Reader.nestingStack r <> [] ->
  outcome (Reader.ReadNull (truncated k r)) = Failed ErrUnexpectedEndOfData.
Proof.
  intros Hsc Ho Hrun Hk Hcut. unfold Reader.ReadNull in *.
  apply (peek_then_truncated _ k r r' a); try assumption.
  - intros s Hlt Hbody. exfalso. expect_in Hbody.
    unfold Reader.invalidateState, Reader.advance in *.
    rewrite !bind_modify in Hbody.
    apply advanceContainer_inv in Hbody. revert Hbody. reader_fields. lia.
  - intros info rest s Hst Hind [-> | ->] Hbody; discriminate Hbody.
Qed.

Lemma ReadUndefined_truncated (k : Z) (r r' : Reader.CborReader) (a : unit) :
  Reader.stateComputed r = false ->
  0 <= Reader.offset r ->
  Reader.ReadUndefined r = Ok a r' ->
  Reader.offset r <= k < Reader.offset r' ->
  Reader.offset r < k \/ Reader.nestingStack r <> [] ->
  outcome (Reader.ReadUndefined (truncated k r))
  = Failed ErrUnexpectedEndOfData.
Proof.
  intros Hsc Ho Hrun Hk Hcut. unfold Reader.ReadUndefined in *.
  apply (peek_then_truncated _ k r r' a); try assumption.
  - intros s Hlt Hbody. exfalso. expect_in Hbody.
    unfold Reader.invalidateState, Reader.advance in *.
    rewrite !bind_modify in Hbody.
    apply advanceContainer_inv in Hbody. revert Hbody. reader_fields. lia.
  - intros info rest s Hst Hind [-> | ->] Hbody; discriminate Hbody.
Qed.

Lemma ReadBoolean_truncated (k : Z) (r r' : Reader.CborReader) (a : bool) :
  Reader.stateComputed r = false ->
  0 <= Reader.offset r ->
  Reader.ReadBoolean r = Ok a r' ->
  Reader.offset r <= k < Reader.offset r' ->
  Reader.offset r < k \/ Reader.nestingStack r <> [] ->
  outcome (Reader.ReadBoolean (truncated k r)) = Failed ErrUnexpectedEndOfData.
Proof.
  intros Hsc Ho Hrun Hk Hcut. unfold Reader.ReadBoolean in *.
  apply (peek_then_truncated _ k r r' a); try assumption.
  - intros s Hlt Hbody. exfalso. expect_in Hbody.
    unfold Reader.invalidateState, Reader.advance in *.
    rewrite !bind_modify, bind_get in Hbody.
    orPanic_in Hbody. rewrite bind_modify in Hbody. split_run Hbody.
    apply advanceContainer_inv in Hstep. inversion Hbody; subst.
    revert Hstep. reader_fields. lia.
  - intros info rest s Hst Hind [-> | ->] Hbody; discriminate Hbody.
Qed.

Lemma ReadSimpleValue_truncated (k : Z) (r r' : Reader.CborReader) (a : Z) :
  Reader.stateComputed r = false ->
  0 <= Reader.offset r ->
  Reader.ReadSimpleValue r = Ok a r' ->
  Reader.offset r <= k < Reader.offset r' ->
  Reader.offset r < k \/ Reader.nestingStack r <> [] ->
  outcome (Reader.ReadSimpleValue (truncated k r))
  = Failed ErrUnexpectedEndOfData.
Proof.
  intros Hsc Ho Hrun Hk Hcut. unfold Reader.ReadSimpleValue in *.
  apply (peek_then_truncated _ k r r' a); try assumption.
  - intros s Hlt Hbody.
    assert (Hgo :
      forall st,
        (Reader.invalidateState;;
         r0 <- get;;
         b <- orPanic (index (Reader.data r0) (Reader.offset r0));;
         Reader.advance 1;;
         value <-
           (if snd (decodeInitialByte b) =? 24
            then
              r1 <- get;;
              failIf (len (Reader.data r1) <=? Reader.offset r1)
                     ErrUnexpectedEndOfData;;
              value <- orPanic (index (Reader.data r1) (Reader.offset r1));;
              Reader.advance 1;;
              failIf (Reader.strict r1 && (value <? 32)) ErrNonCanonical;;
              ret value
            else ret (snd (decodeInitialByte b)));;
         Reader.advanceContainer;; ret value) (cached st r) = Ok a r' ->
        outcome
          ((Reader.invalidateState;;
            r0 <- get;;
            b <- orPanic (index (Reader.data r0) (Reader.offset r0));;
            Reader.advance 1;;
            value <-
              (if snd (decodeInitialByte b) =? 24
               then
                 r1 <- get;;
                 failIf (len (Reader.data r1) <=? Reader.offset r1)
                        ErrUnexpectedEndOfData;;
                 value <- orPanic (index (Reader.data r1) (Reader.offset r1));;
                 Reader.advance 1;;
                 failIf (Reader.strict r1 && (value <? 32)) ErrNonCanonical;;
                 ret value
               else ret (snd (decodeInitialByte b)));;
            Reader.advanceContainer;; ret value)
             (truncated k (cached st r)))
        = Failed ErrUnexpectedEndOfData).
    { clear Hbody. intros st Hbody.
      unfold Reader.invalidateState, Reader.advance in *.
      rewrite !bind_modify, !bind_get in *. cbv beta in *.
      orPanic_in Hbody. rewrite bind_modify in Hbody.
      reader_fields_in Hsome.
      assert (Hidx : index (Reader.data (Reader.set_stateComputed false
                                           (truncated k (cached st r))))
                           (Reader.offset (Reader.set_stateComputed false
                                           (truncated k (cached st r))))
                     = Some x).
      { reader_fields. rewrite index_firstn by lia. exact Hsome. }
      rewrite Hidx. cbn [orPanic]. rewrite (bind_step _ _ _ _ _ eq_refl).
      rewrite bind_modify.
      split_run Hbody. split_run Hbody.
      apply advanceContainer_inv in Hstep0. inversion Hbody; subst.
      destruct (snd (decodeInitialByte x) =? 24).
      - rewrite bind_get in Hstep. failIf_in Hstep. orPanic_in Hstep.
        rewrite bind_modify in Hstep. failIf_in Hstep.
        inversion Hstep; subst.
        revert Hstep0 Hcond. reader_fields. intros Hstep0 Hcond.
        apply bind_failed. rewrite bind_get. apply bind_failed.
        unfold failIf.
        match goal with
        | |- context [if ?c then _ else _] =>
            assert (Hc : c = true); [|rewrite Hc; reflexivity]
        end.
        apply Z.leb_le. unfold truncated. reader_fields.
        unfold len. rewrite length_firstn. lia.
      - exfalso. inversion Hstep; subst.
        revert Hstep0. reader_fields. lia. }
    destruct s; try discriminate Hbody; now apply Hgo.
  - intros info rest s Hst Hind [-> | ->] Hbody; discriminate Hbody.
Qed.


(** Container starts. *)
Lemma checkNestingDepth_eq (r : Reader.CborReader) :
  Reader.checkNestingDepth r
  = failIf (Reader.maxNestingDepth r <=? len (Reader.nestingStack r))
           ErrNestingDepthExceeded r.
Proof. reflexivity. Qed.

Lemma readStart_truncated (mt : MajorType) (isMap : bool)
      (k : Z) (r r' : Reader.CborReader) (a : Z) :
  0 <= Reader.offset r < k ->
  Reader.readStart mt isMap r = Ok a r' ->
  k < Reader.offset r' ->
  outcome (Reader.readStart mt isMap (truncated k r))
  = Failed ErrUnexpectedEndOfData.
Proof.
  intros Ho Hrun Hk. unfold Reader.readStart in *.
  unfold Reader.invalidateState, Reader.advance, Reader.push in *.
  split_run Hrun. rewrite checkNestingDepth_eq in Hstep.
  apply failIf_ok in Hstep. destruct Hstep as [Hcond ->].
  rewrite bind_modify, bind_get in Hrun. cbv beta in Hrun.
  orPanic_in Hrun. reader_fields_in Hsome.
  assert (Hdepth : Reader.checkNestingDepth (truncated k r)
                   = Ok tt (truncated k r)).
  { rewrite checkNestingDepth_eq.
    change (Reader.maxNestingDepth (truncated k r)
            <=? len (Reader.nestingStack (truncated k r)))
      with (Reader.maxNestingDepth r <=? len (Reader.nestingStack r)).
    rewrite Hcond. reflexivity. }
  rewrite (bind_step _ _ _ _ _ Hdepth).
  rewrite bind_modify, bind_get. cbv beta. reader_fields.
  rewrite index_firstn, Hsome by lia. cbn [orPanic].
  rewrite (bind_step _ _ _ _ _ eq_refl).
  destruct (x =? encodeInitialByte mt (to_byte AdditionalInfoIndefiniteLength)).
  - exfalso. failIf_in Hrun. rewrite !bind_modify in Hrun.
    inversion Hrun; subst. revert Hk. reader_fields. lia.
  - split_run Hrun. rewrite bind_modify in Hrun. inversion Hrun; subst.
    apply bind_failed.
    refine (readArgumentValue_cut k _ _ _ _ Hstep _ _);
      [reader_fields; lia|].
    revert Hk. reader_fields. lia.
Qed.

Lemma ReadStartArray_truncated (k : Z) (r r' : Reader.CborReader) (a : Z) :
  Reader.stateComputed r = false ->
  0 <= Reader.offset r ->
  Reader.ReadStartArray r = Ok a r' ->
  Reader.offset r <= k < Reader.offset r' ->
  Reader.offset r < k \/ Reader.nestingStack r <> [] ->
  outcome (Reader.ReadStartArray (truncated k r))
  = Failed ErrUnexpectedEndOfData.
Proof.
  intros Hsc Ho Hrun Hk Hcut. unfold Reader.ReadStartArray in *.
  apply (peek_then_truncated _ k r r' a); try assumption.
  - intros s Hlt Hbody. expect_in Hbody.
    rewrite (bind_step _ _ _ _ _ (expect_same _ _)).
    apply (readStart_truncated _ _ k _ r' a); [reader_fields; lia| |lia].
    exact Hbody.
  - intros info rest s Hst Hind [-> | ->] Hbody; discriminate Hbody.
Qed.

Lemma ReadStartMap_truncated (k : Z) (r r' : Reader.CborReader) (a : Z) :
  Reader.stateComputed r = false ->
  0 <= Reader.offset r ->
  Reader.ReadStartMap r = Ok a r' ->
  Reader.offset r <= k < Reader.offset r' ->
  Reader.offset r < k \/ Reader.nestingStack r <> [] ->
  outcome (Reader.ReadStartMap (truncated k r))
  = Failed ErrUnexpectedEndOfData.
Proof.
  intros Hsc Ho Hrun Hk Hcut. unfold Reader.ReadStartMap in *.
  apply (peek_then_truncated _ k r r' a); try assumption.
  - intros s Hlt Hbody. expect_in Hbody.
    rewrite (bind_step _ _ _ _ _ (expect_same _ _)).
    apply (readStart_truncated _ _ k _ r' a); [reader_fields; lia| |lia].
    exact Hbody.
  - intros info rest s Hst Hind [-> | ->] Hbody; discriminate Hbody.
Qed.

(** Container ends: at most the break byte is consumed, and nothing at the
    end of a definite-length frame. *)
Lemma readEnd_offset (mt : MajorType) (r r' : Reader.CborReader) (u : unit) :
  Reader.readEnd mt r = Ok u r' ->
  match Reader.nestingStack r with
  | info :: _ =>
      Reader.offset r'
      = Reader.offset r + (if Reader.isIndefinite info then 1 else 0)
  | [] => False
  end.
Proof.
  unfold Reader.readEnd. rewrite bind_get. cbv beta.
  destruct (Reader.nestingStack r) as [|info rest] eqn:Hst; [discriminate|].
  intros Hrun. failIf_in Hrun. split_run Hrun.
  unfold Reader.pop, Reader.invalidateState in Hrun.
  rewrite !bind_modify in Hrun. apply advanceContainer_inv in Hrun.
  reader_fields_in Hrun. rewrite Hrun.
  destruct (Reader.isIndefinite info).
  - orPanic_in Hstep. failIf_in Hstep. unfold Reader.advance, modify in Hstep.
    inversion Hstep; subst. reflexivity.
  - inversion Hstep; subst. lia.
Qed.

Lemma readEnd_truncated (mt : MajorType) (expected : CborReaderState)
      (k : Z) (r r' : Reader.CborReader) (a : unit) :
  Reader.stateComputed r = false ->
  0 <= Reader.offset r ->
  (state <- Reader.PeekState ;;
   Reader.expect state expected ;; Reader.readEnd mt) r = Ok a r' ->
  Reader.offset r <= k < Reader.offset r' ->
  Reader.offset r < k \/ Reader.nestingStack r <> [] ->
  outcome ((state <- Reader.PeekState ;;
            Reader.expect state expected ;; Reader.readEnd mt)
             (truncated k r))
  = Failed ErrUnexpectedEndOfData.
Proof.
  intros Hsc Ho Hrun Hk Hcut.
  apply (peek_then_truncated _ k r r' a); try assumption.
  - intros s Hlt Hbody. exfalso. expect_in Hbody.
    apply readEnd_offset in Hbody. reader_fields_in Hbody.
    destruct (Reader.nestingStack r) as [|info rest]; [contradiction|].
    destruct (Reader.isIndefinite info); lia.
  - intros info rest s Hst Hind Hs Hbody. expect_in Hbody.
    apply readEnd_offset in Hbody. reader_fields_in Hbody.
    rewrite Hst, Hind in Hbody. lia.
Qed.


(** Payloads. *)
Lemma slice_Some_bounds {A : Type} (d : list A) (lo hi : Z) (c : list A) :
  slice d lo hi = Some c -> 0 <= lo <= hi /\ hi <= len d.
Proof.
  unfold slice.
  destruct (Z.leb_spec 0 lo), (Z.leb_spec lo hi), (Z.leb_spec hi (len d));
    cbn [andb]; try discriminate. intros _. lia.
Qed.

Lemma slice_firstn {A : Type} (d : list A) (k lo hi : Z) :
  0 <= lo <= hi -> hi <= len d -> hi <= k ->
  slice (firstn (Z.to_nat k) d) lo hi = slice d lo hi.
Proof.
  intros Hlo Hhi Hk. unfold slice.
  assert (Hl : hi <= len (firstn (Z.to_nat k) d)).
  { unfold len in *. rewrite length_firstn. lia. }
  destruct (Z.leb_spec 0 lo); [|lia]. destruct (Z.leb_spec lo hi); [|lia].
  destruct (Z.leb_spec hi (len d)); [|lia].
  destruct (Z.leb_spec hi (len (firstn (Z.to_nat k) d))); [|lia].
  cbn [andb]. f_equal.
  rewrite skipn_firstn_comm, firstn_firstn. f_equal. lia.
Qed.

Lemma readPayload_ok (length : Z) (r r' : Reader.CborReader)
      (chunk : list Z) :
  Reader.readPayload length r = Ok chunk r' ->
  r' = r
  /\ 0 <= Reader.offset r <= Reader.payloadEnd r length
  /\ Reader.payloadEnd r length <= len (Reader.data r)
  /\ slice (Reader.data r) (Reader.offset r) (Reader.payloadEnd r length)
     = Some chunk.
Proof.
  unfold Reader.readPayload. rewrite bind_get. cbv beta. intros Hrun.
  failIf_in Hrun. apply orPanic_ok in Hrun. destruct Hrun as [Hs ->].
  pose proof (slice_Some_bounds _ _ _ _ Hs). intuition lia.
Qed.

Lemma readPayload_cut (k length : Z) (r r' : Reader.CborReader)
      (chunk : list Z) :
  Reader.readPayload length r = Ok chunk r' ->
  0 <= k < Reader.payloadEnd r length ->
  outcome (Reader.readPayload length (truncated k r))
  = Failed ErrUnexpectedEndOfData.
Proof.
  intros Hrun Hk. apply readPayload_ok in Hrun.
  destruct Hrun as (-> & Ho & Hpe & Hs).
  unfold Reader.readPayload. rewrite bind_get. cbv beta.
  apply bind_failed. unfold failIf.
  change (Reader.payloadEnd (truncated k r) length)
    with (Reader.payloadEnd r length).
  rewrite len_truncated by lia.
  destruct (Z.ltb_spec (Z.min k (len (Reader.data r)))
              (Reader.payloadEnd r length)); [reflexivity|lia].
Qed.

Lemma readPayload_kept (k length : Z) (r r' : Reader.CborReader)
      (chunk : list Z) :
  Reader.readPayload length r = Ok chunk r' ->
  Reader.payloadEnd r length <= k ->
  Reader.readPayload length (truncated k r) = Ok chunk (truncated k r).
Proof.
  intros Hrun Hk. apply readPayload_ok in Hrun.
  destruct Hrun as (-> & Ho & Hpe & Hs).
  unfold Reader.readPayload. rewrite bind_get. cbv beta.
  change (Reader.payloadEnd (truncated k r) length)
    with (Reader.payloadEnd r length).
  change (Reader.offset (truncated k r)) with (Reader.offset r).
  rewrite len_truncated by lia.
  unfold failIf.
  destruct (Z.ltb_spec (Z.min k (len (Reader.data r)))
              (Reader.payloadEnd r length)); [lia|].
  rewrite (bind_step _ _ _ _ _ eq_refl).
  unfold truncated at 1. reader_fields.
  rewrite slice_firstn, Hs by lia. reflexivity.
Qed.

(** The chunks of an indefinite-length string. *)
Lemma readChunks_truncated (mt : MajorType)
      (invalid : Reader.CborReader -> list Z -> bool) :
  (forall k r chunk, invalid (truncated k r) chunk = invalid r chunk) ->
  forall (fuel : nat) (acc : list Z) (r r' : Reader.CborReader)
         (res : list Z),
    0 <= Reader.offset r ->
    Reader.readChunks mt invalid fuel acc r = Ok res r' ->
    (Reader.offset r < Reader.offset r'
     /\ Reader.offset r' <= len (Reader.data r))
    /\ forall (k : Z) (fuelT : nat),
        Reader.offset r <= k < Reader.offset r' ->
        (Z.to_nat (k - Reader.offset r) < fuelT)%nat ->
        outcome (Reader.readChunks mt invalid fuelT acc (truncated k r))
        = Failed ErrUnexpectedEndOfData.
Proof.
  intros Hinv fuel. induction fuel as [|fuel IH];
    intros acc r r' res Ho Hrun; [discriminate Hrun|].
  cbn [Reader.readChunks] in Hrun. rewrite bind_get in Hrun.
  cbv beta in Hrun. failIf_in Hrun. orPanic_in Hrun.
  apply Z.leb_gt in Hcond.
  (* the first steps of the loop on the truncated input *)
  assert (Hfirst :
    forall k fuelT, Reader.offset r <= k ->
      (Z.to_nat (k - Reader.offset r) < fuelT)%nat ->
      exists fuelT',
        fuelT = S fuelT'
        /\ (k = Reader.offset r ->
            outcome (Reader.readChunks mt invalid fuelT acc (truncated k r))
            = Failed ErrUnexpectedEndOfData)
        /\ (Reader.offset r < k ->
            Reader.readChunks mt invalid fuelT acc (truncated k r)
            = (if x =? breakByte then
                 Reader.advance 1 ;; ret acc
               else
                 failIf (negb (MajorType_eqb (fst (decodeInitialByte x)) mt))
                        ErrInvalidCbor ;;
                 length <- Reader.readArgumentValue mt ;;
                 chunk <- Reader.readPayload length ;;
                 failIf (invalid (truncated k r) chunk) ErrInvalidUtf8 ;;
                 Reader.skipPayload length ;;
                 Reader.readChunks mt invalid fuelT' (acc ++ chunk))
                (truncated k r))).
  { intros k fuelT Hk Hf. destruct fuelT as [|fuelT']; [lia|].
    exists fuelT'. split; [reflexivity|].
    cbn [Reader.readChunks]. rewrite bind_get. cbv beta. split; intros Hc.
    - apply bind_failed. unfold failIf. rewrite len_truncated by lia.
      change (Reader.offset (truncated k r)) with (Reader.offset r).
      destruct (Z.leb_spec (Z.min k (len (Reader.data r))) (Reader.offset r));
        [reflexivity|lia].
    - unfold failIf at 1. rewrite len_truncated by lia.
      change (Reader.offset (truncated k r)) with (Reader.offset r).
      destruct (Z.leb_spec (Z.min k (len (Reader.data r))) (Reader.offset r));
        [lia|].
      rewrite (bind_step _ _ _ _ _ eq_refl).
      unfold truncated at 1. reader_fields.
      rewrite index_firstn, Hsome by lia. cbn [orPanic].
      rewrite (bind_step _ _ _ _ _ eq_refl). reflexivity. }
  destruct (x =? breakByte).
  - (* the break byte ends the string *)
    unfold Reader.advance in Hrun. rewrite bind_modify in Hrun.
    inversion Hrun; subst. reader_fields. split; [lia|].
    intros k fuelT Hk Hf.
    destruct (Hfirst k fuelT ltac:(lia) Hf) as (fuelT' & -> & Hend & _).
    apply Hend. lia.
  - (* one more chunk *)
    failIf_in Hrun. split_run Hrun.
    destruct (readArgumentValue_advances _ _ _ _ Hstep Ho) as [Hadv _].
    split_run Hrun. pose proof Hstep0 as Hpay.
    apply readPayload_ok in Hpay. destruct Hpay as (-> & Hpo & Hpe & Hs).
    failIf_in Hrun. unfold Reader.skipPayload in Hrun.
    rewrite bind_modify in Hrun.
    assert (Hdata : Reader.data r0 = Reader.data r).
    { destruct (readArgumentValue_advances _ _ _ _ Hstep Ho) as [_ ->].
      reflexivity. }
    assert (Hnext : 0 <= Reader.offset
                            (Reader.set_offset (Reader.payloadEnd r0 a) r0))
      by (reader_fields; lia).
    destruct (IH _ _ _ _ Hnext Hrun) as [[Hlt Hle] Hcut].
    reader_fields_in Hlt. reader_fields_in Hle.
    split; [rewrite <- Hdata; lia|].
    intros k fuelT Hk Hf.
    destruct (Hfirst k fuelT ltac:(lia) Hf) as (fuelT' & -> & Hend & Hgo).
    destruct (Z.eq_dec k (Reader.offset r)) as [Heq|Hne]; [now apply Hend|].
    rewrite Hgo by lia. unfold failIf at 1. rewrite Hcond0.
    rewrite (bind_step _ _ _ _ _ eq_refl).
    destruct (Z.lt_ge_cases k (Reader.offset r0)) as [Hk0|Hk0].
    { apply bind_failed. now apply (readArgumentValue_cut k _ _ _ _ Hstep). }
    rewrite (bind_step _ _ _ _ _
               (readArgumentValue_kept k _ _ _ _ Hstep Ho ltac:(lia))).
    destruct (Z.lt_ge_cases k (Reader.payloadEnd r0 a)) as [Hk1|Hk1].
    { apply bind_failed. apply (readPayload_cut k _ _ _ _ Hstep0). lia. }
    rewrite (bind_step _ _ _ _ _ (readPayload_kept k _ _ _ _ Hstep0 Hk1)).
    rewrite Hinv, Hcond1. cbn [failIf].
    rewrite (bind_step _ _ _ _ _ eq_refl).
    unfold Reader.skipPayload. rewrite bind_modify.
    apply (Hcut k fuelT'); reader_fields; lia.
Qed.


(** Strings. *)
Lemma indefiniteString_truncated (mt : MajorType)
      (invalid : Reader.CborReader -> list Z -> bool)
      (k : Z) (r r' : Reader.CborReader) (a : list Z) :
  (forall k r chunk, invalid (truncated k r) chunk = invalid r chunk) ->
  0 <= Reader.offset r < k ->
  (r0 <- get ;;
   failIf (mode_geb (Reader.conformanceMode r0) ConformanceCanonical)
          ErrIndefiniteLengthNotAllowed ;;
   Reader.advance 1 ;;
   Reader.invalidateState ;;
   result <- Reader.readChunks mt invalid (S (length (Reader.data r0))) [] ;;
   Reader.advanceContainer ;;
   ret result) r = Ok a r' ->
  k < Reader.offset r' ->
  outcome
    ((r0 <- get ;;
      failIf (mode_geb (Reader.conformanceMode r0) ConformanceCanonical)
             ErrIndefiniteLengthNotAllowed ;;
      Reader.advance 1 ;;
      Reader.invalidateState ;;
      result <- Reader.readChunks mt invalid (S (length (Reader.data r0))) [] ;;
      Reader.advanceContainer ;;
      ret result) (truncated k r))
  = Failed ErrUnexpectedEndOfData.
Proof.
  intros Hinv Ho Hrun Hk.
  rewrite bind_get in *. cbv beta in *. failIf_in Hrun.
  unfold Reader.advance, Reader.invalidateState in *.
  rewrite !bind_modify in Hrun. split_run Hrun. split_run Hrun.
  apply advanceContainer_inv in Hstep0. inversion Hrun; subst.
  change (Reader.conformanceMode (truncated k r))
    with (Reader.conformanceMode r).
  rewrite Hcond. cbn [failIf]. rewrite (bind_step _ _ _ _ _ eq_refl).
  rewrite !bind_modify. apply bind_failed.
  assert (Hnext : 0 <= Reader.offset
                          (Reader.set_stateComputed false
                             (Reader.set_offset (Reader.offset r + 1) r)))
    by (reader_fields; lia).
  destruct (readChunks_truncated mt invalid Hinv _ _ _ _ _ Hnext Hstep)
    as [[Hlt Hle] Hcut].
  reader_fields_in Hlt. reader_fields_in Hle.
  refine (Hcut k _ _ _).
  - reader_fields. lia.
  - reader_fields. rewrite length_firstn. unfold len in Hle. lia.
Qed.

Lemma ReadByteString_truncated (k : Z) (r r' : Reader.CborReader)
      (a : list Z) :
  Reader.stateComputed r = false ->
  0 <= Reader.offset r ->
  Reader.ReadByteString r = Ok a r' ->
  Reader.offset r <= k < Reader.offset r' ->
  Reader.offset r < k \/ Reader.nestingStack r <> [] ->
  outcome (Reader.ReadByteString (truncated k r))
  = Failed ErrUnexpectedEndOfData.
Proof.
  intros Hsc Ho Hrun Hk Hcut. unfold Reader.ReadByteString in *.
  apply (peek_then_truncated _ k r r' a); try assumption.
  - intros s Hlt Hbody.
    destruct (CborReaderState_eqb s StateStartIndefiniteLengthByteString).
    + unfold Reader.readIndefiniteByteString in *.
      apply (indefiniteString_truncated _ _ k _ r' a);
        [reflexivity|reader_fields; lia|exact Hbody|lia].
    + expect_in Hbody.
      rewrite (bind_step _ _ _ _ _ (expect_same _ _)).
      unfold Reader.invalidateState in *. rewrite bind_modify in *.
      split_run Hbody. split_run Hbody. pose proof Hstep0 as Hpay.
      apply readPayload_ok in Hpay. destruct Hpay as (-> & Hpo & Hpe & Hs).
      unfold Reader.skipPayload in Hbody. rewrite bind_modify in Hbody.
      split_run Hbody. apply advanceContainer_inv in Hstep1.
      inversion Hbody; subst. reader_fields_in Hstep1.
      destruct (Z.lt_ge_cases k (Reader.offset r0)) as [Hk0|Hk0].
      { apply bind_failed.
        now apply (readArgumentValue_cut k _ _ _ _ Hstep). }
      rewrite (bind_step _ _ _ _ _
                 (readArgumentValue_kept k _ _ _ _ Hstep Ho ltac:(lia))).
      apply bind_failed. apply (readPayload_cut k _ _ _ _ Hstep0). lia.
  - intros info rest s Hst Hind [-> | ->] Hbody; discriminate Hbody.
Qed.

Lemma ReadTextString_truncated (utf8Valid : list Z -> bool)
      (k : Z) (r r' : Reader.CborReader) (a : list Z) :
  Reader.stateComputed r = false ->
  0 <= Reader.offset r ->
  Reader.ReadTextString utf8Valid r = Ok a r' ->
  Reader.offset r <= k < Reader.offset r' ->
  Reader.offset r < k \/ Reader.nestingStack r <> [] ->
  outcome (Reader.ReadTextString utf8Valid (truncated k r))
  = Failed ErrUnexpectedEndOfData.
Proof.
  intros Hsc Ho Hrun Hk Hcut. unfold Reader.ReadTextString in *.
  apply (peek_then_truncated _ k r r' a); try assumption.
  - intros s Hlt Hbody.
    destruct (CborReaderState_eqb s StateStartIndefiniteLengthTextString).
    + unfold Reader.readIndefiniteTextString in *.
      apply (indefiniteString_truncated _ _ k _ r' a);
        [reflexivity|reader_fields; lia|exact Hbody|lia].
    + expect_in Hbody.
      rewrite (bind_step _ _ _ _ _ (expect_same _ _)).
      unfold Reader.invalidateState in *. rewrite bind_modify in *.
      split_run Hbody. split_run Hbody. pose proof Hstep0 as Hpay.
      apply readPayload_ok in Hpay. destruct Hpay as (-> & Hpo & Hpe & Hs).
      rewrite bind_get in Hbody. cbv beta in Hbody. failIf_in Hbody.
      unfold Reader.skipPayload in Hbody. rewrite bind_modify in Hbody.
      split_run Hbody. apply advanceContainer_inv in Hstep1.
      inversion Hbody; subst. reader_fields_in Hstep1.
      destruct (Z.lt_ge_cases k (Reader.offset r0)) as [Hk0|Hk0].
      { apply bind_failed.
        now apply (readArgumentValue_cut k _ _ _ _ Hstep). }
      rewrite (bind_step _ _ _ _ _
                 (readArgumentValue_kept k _ _ _ _ Hstep Ho ltac:(lia))).
      apply bind_failed. apply (readPayload_cut k _ _ _ _ Hstep0). lia.
  - intros info rest s Hst Hind [-> | ->] Hbody; discriminate Hbody.
Qed.

(** At the root, an exhausted input is classified as finished, and every
    typed read reports the mismatch with the state it expects. *)
Lemma exhausted_at_root (utf8Valid : list Z -> bool) (op : ReadOp)
      (k : Z) (r : Reader.CborReader) :
  Reader.stateComputed r = false ->
  0 <= k <= Reader.offset r ->
  Reader.nestingStack r = [] ->
  outcome (Reader.PeekState (truncated k r)) = Returned StateFinished
  /\ exists expected,
       outcome (runReadOp utf8Valid op (truncated k r))
       = Failed (TypeMismatchError expected StateFinished).
Proof.
  intros Hsc Hk Hst.
  assert (Hp : Reader.PeekState (truncated k r)
               = Ok StateFinished (cached StateFinished (truncated k r))).
  { rewrite PeekState_fresh by exact Hsc.
    rewrite (computeState_truncated_end k r _ eq_refl Hk), Hst.
    reflexivity. }
  split; [rewrite Hp; reflexivity|].
  destruct op; cbn [runReadOp]; unfold discard;
    unfold Reader.ReadUint64, Reader.ReadInt64, Reader.ReadTag,
      Reader.ReadByteString, Reader.ReadTextString, Reader.ReadStartArray,
      Reader.ReadStartMap, Reader.ReadEndArray, Reader.ReadEndMap,
      Reader.ReadBoolean, Reader.ReadNull, Reader.ReadUndefined,
      Reader.ReadSimpleValue, Reader.ReadFloat16, Reader.ReadFloat32,
      Reader.ReadFloat64, Reader.readFloatBits;
    unfold bind at 1; try (unfold bind at 1);  try (unfold bind at 1);
    rewrite Hp; eexists; reflexivity.
Qed.


(** What holds of the typed reads on a truncated input.  Take a decoder that has no cached
    classification and a typed read that succeeds on its input, consuming
    the bytes from [offset r] to [offset r'].  On the input cut at [k]
    strictly inside these bytes (after the first byte of the item at any
    nesting depth, or at its first byte inside an open container) the same
    read returns [UnexpectedEndOfData]: it neither panics nor returns a
    value.  When the input is exhausted at nesting depth 0, the classifier
    answers [StateFinished] and the read reports a [TypeMismatchError]
    against that state. *)
Theorem truncated_read_UnexpectedEndOfData
  (utf8Valid : list Z -> bool) (op : ReadOp)
  (r r' : Reader.CborReader) (k : Z)
  (Hfresh : Reader.stateComputed r = false)
  (Hoffset : 0 <= Reader.offset r)
  (Hfull : runReadOp utf8Valid op r = Ok tt r')
  (Hcut : Reader.offset r <= k < Reader.offset r') :
  (Reader.offset r < k \/ Reader.nestingStack r <> [] ->
   outcome (runReadOp utf8Valid op (truncated k r))
   = Failed ErrUnexpectedEndOfData)
  /\ (k = Reader.offset r -> Reader.nestingStack r = [] ->
      outcome (Reader.PeekState (truncated k r)) = Returned StateFinished
      /\ exists expected,
           outcome (runReadOp utf8Valid op (truncated k r))
           = Failed (TypeMismatchError expected StateFinished)).
Proof.
  split.
  - intros Hin.
    destruct op; cbn [runReadOp] in *;
      try (apply discard_ok_inv in Hfull; destruct Hfull as [a Hfull];
           apply discard_failed).
    + now apply (ReadUint64_truncated k r r' a).
    + now apply (ReadInt64_truncated k r r' a).
    + now apply (ReadTag_truncated k r r' a).
    + now apply (ReadByteString_truncated k r r' a).
    + now apply (ReadTextString_truncated utf8Valid k r r' a).
    + now apply (ReadStartArray_truncated k r r' a).
    + now apply (ReadStartMap_truncated k r r' a).
    + now apply (readEnd_truncated MajorTypeArray StateEndArray k r r' tt).
    + now apply (readEnd_truncated MajorTypeMap StateEndMap k r r' tt).
    + now apply (ReadBoolean_truncated k r r' a).
    + now apply (ReadNull_truncated k r r' tt).
    + now apply (ReadUndefined_truncated k r r' tt).
    + now apply (ReadSimpleValue_truncated k r r' a).
    + unfold Reader.ReadFloat16 in *. split_run Hfull.
      inversion Hfull; subst. apply bind_failed.
      apply (readFloatBits_truncated _ _ _ k r r' a0); try assumption;
        discriminate.
    + apply (readFloatBits_truncated _ _ _ k r r' a); try assumption;
        discriminate.
    + apply (readFloatBits_truncated _ _ _ k r r' a); try assumption;
        discriminate.
  - intros Hk Hst. apply exhausted_at_root; try assumption. lia.
Qed.

Lemma truncated_read_UnexpectedEndOfData_witness :
  let r := Reader.NewCborReader [0x44; 0x01; 0x02; 0x03; 0x04] [] in
  let r' := Reader.mkCborReader [0x44; 0x01; 0x02; 0x03; 0x04] 5
              ConformanceLax [] 64 StateByteString false false in
  runReadOp (fun _ => true) OpReadByteString r = Ok tt r'
  /\ outcome (runReadOp (fun _ => true) OpReadByteString (truncated 3 r))
     = Failed ErrUnexpectedEndOfData.
Proof.
  intros r r'.
  assert (Hfull : runReadOp (fun _ => true) OpReadByteString r = Ok tt r')
    by reflexivity.
  split; [exact Hfull|].
  refine (proj1 (truncated_read_UnexpectedEndOfData (fun _ => true)
                   OpReadByteString r r' 3 eq_refl _ Hfull _) _).
  - cbn. lia.
  - cbn. lia.
  - left. cbn. lia.
Defined.

(** Input exhausted at nesting depth 0.  The tag head [0xC2] is a strict prefix of the
    bignum [0xC2 0x41 0x01], which [ReadBigInt] decodes to 1.  On the prefix the
    tag is read, and the byte string that must follow is looked for at
    nesting depth 0 with no input left: the classifier answers
    [StateFinished] and the read fails with a type mismatch, not with
    [UnexpectedEndOfData].  The empty input, a strict prefix of every
    encoding, is refused by [ReadUint64] in the same way. *)
Lemma truncated_after_tag_is_type_mismatch :
  outcome (Reader.ReadBigInt (Reader.NewCborReader [0xC2; 0x41; 0x01] []))
  = Returned 1
  /\ firstn 1 [0xC2; 0x41; 0x01] = [0xC2]
  /\ outcome (Reader.ReadBigInt (Reader.NewCborReader [0xC2] []))
     = Failed (TypeMismatchError StateByteString StateFinished)
  /\ outcome ((Reader.ReadTag ;; Reader.ReadByteString)
                (Reader.NewCborReader [0xC2] []))
     = Failed (TypeMismatchError StateByteString StateFinished)
  /\ outcome (Reader.ReadUint64 (Reader.NewCborReader [] []))
     = Failed (TypeMismatchError StateUnsignedInteger StateFinished)
  /\ outcome (Reader.ReadBigInt (Reader.NewCborReader [0xC2] []))
     <> Failed ErrUnexpectedEndOfData.
Proof. repeat split; try reflexivity. vm_compute. discriminate. Qed.

(** A declared length of [2^64 - 1] is converted to the [int] -1: the sum
    [r.offset + int(length)] is then below [len(r.data)], the length test
    passes and the slice expression (in [ReadByteString], already the
    allocation) panics. *)
Lemma length_beyond_int_panics :
  let head := [0xFF; 0xFF; 0xFF; 0xFF; 0xFF; 0xFF; 0xFF; 0xFF] in
  outcome (Reader.ReadByteString (Reader.NewCborReader (0x5B :: head) []))
  = Panicked
  /\ outcome (Reader.ReadTextString (fun _ => true)
                (Reader.NewCborReader (0x7B :: head) []))
     = Panicked.
Proof. split; reflexivity. Qed.

(** C7.  Truncated inputs that are not answered with [UnexpectedEndOfData].
    The two bytes [0x39 0x20] are a strict prefix of [0x39 0x20 0x00], the
    negative integer -8193.  [ReadInt64] answers them with
    [UnexpectedEndOfData]; [ReadBigInt] takes that error for an overflow,
    decodes a second head where the failed call stopped and returns -1
    without error.  The head [0x5B 0xFF ... 0xFF] declares a byte string
    of 2^64 - 1 bytes: the sum [r.offset + int(length)] wraps around, the
    test against [len(r.data)] passes, and [ReadByteString],
    [ReadTextString], [SkipValue] and [ReadEncodedValue] panic on the
    slice expression.  Both happen in every conformance mode. *)
Theorem truncated_input_wrong_answers (mode : CborConformanceMode) :
  let opts := [Reader.WithReaderConformanceMode mode] in
  let huge := [0xFF; 0xFF; 0xFF; 0xFF; 0xFF; 0xFF; 0xFF; 0xFF] in
  outcome (Reader.ReadBigInt (Reader.NewCborReader [0x39; 0x20; 0x00] opts))
  = Returned (-8193)
  /\ firstn 2 [0x39; 0x20; 0x00] = [0x39; 0x20]
  /\ outcome (Reader.ReadInt64 (Reader.NewCborReader [0x39; 0x20] opts))
     = Failed ErrUnexpectedEndOfData
  /\ outcome (Reader.ReadBigInt (Reader.NewCborReader [0x39; 0x20] opts))
     = Returned (-1)
  /\ outcome (Reader.ReadByteString
                (Reader.NewCborReader (0x5B :: huge) opts))
     = Panicked
  /\ outcome (Reader.ReadTextString (fun _ => true)
                (Reader.NewCborReader (0x7B :: huge) opts))
     = Panicked
  /\ outcome (Reader.SkipValue (fun _ => true)
                (Reader.NewCborReader (0x5B :: huge) opts))
     = Panicked
  /\ outcome (Reader.ReadEncodedValue (fun _ => true)
                (Reader.NewCborReader (0x5B :: huge) opts))
     = Panicked.
Proof. destruct mode; repeat split; reflexivity. Qed.


(** ** The model on the test vectors of the package *)

Example vector_uint_1000000000000 :
  written [] (Writer.WriteUint64 1000000000000)
  = [0x1b; 0x00; 0x00; 0x00; 0xe8; 0xd4; 0xa5; 0x10; 0x00].
Proof. reflexivity. Qed.

Example vector_int_minus_100 :
  written [] (Writer.WriteInt64 (-100)) = [0x38; 0x63]
  /\ outcome (Reader.ReadInt64 (Reader.NewCborReader [0x38; 0x63] []))
     = Returned (-100).
Proof. split; reflexivity. Qed.

Example vector_array_1_2_3 :
  written []
    (Writer.WriteStartArray 3 ;; Writer.WriteUint64 1 ;; Writer.WriteUint64 2 ;;
     Writer.WriteUint64 3 ;; Writer.WriteEndArray)
  = [0x83; 0x01; 0x02; 0x03]
  /\ outcome
       ((n <- Reader.ReadStartArray ;; a <- Reader.ReadUint64 ;;
         b <- Reader.ReadUint64 ;; c <- Reader.ReadUint64 ;;
         Reader.ReadEndArray ;; s <- Reader.PeekState ;; ret (n, [a; b; c], s))
          (Reader.NewCborReader [0x83; 0x01; 0x02; 0x03] []))
     = Returned (3, [1; 2; 3], StateFinished).
Proof. split; reflexivity. Qed.

Example vector_map_1_2_3_4 :
  written []
    (Writer.WriteStartMap 2 ;; Writer.WriteUint64 1 ;; Writer.WriteUint64 2 ;;
     Writer.WriteUint64 3 ;; Writer.WriteUint64 4 ;; Writer.WriteEndMap)
  = [0xa2; 0x01; 0x02; 0x03; 0x04].
Proof. reflexivity. Qed.

Example vector_indefinite_byte_string :
  outcome (Reader.ReadByteString
             (Reader.NewCborReader
                [0x5f; 0x42; 0x01; 0x02; 0x43; 0x03; 0x04; 0x05; 0xff] []))
  = Returned [1; 2; 3; 4; 5]
  /\ written []
       (Writer.WriteStartIndefiniteLengthByteString ;;
        Writer.WriteByteStringChunk [1; 2] ;;
        Writer.WriteByteStringChunk [3; 4; 5] ;;
        Writer.WriteEndIndefiniteLengthByteString)
     = [0x5f; 0x42; 0x01; 0x02; 0x43; 0x03; 0x04; 0x05; 0xff].
Proof. split; reflexivity. Qed.

Example vector_indefinite_array :
  outcome
    ((Reader.ReadStartArray ;; a <- Reader.ReadUint64 ;;
      Reader.ReadStartArray ;; b <- Reader.ReadUint64 ;;
      c <- Reader.ReadUint64 ;; Reader.ReadEndArray ;;
      Reader.ReadStartArray ;; d <- Reader.ReadUint64 ;;
      e <- Reader.ReadUint64 ;; Reader.ReadEndArray ;;
      Reader.ReadEndArray ;; s <- Reader.PeekState ;;
      ret ([a; b; c; d; e], s))
       (Reader.NewCborReader
          [0x9f; 0x01; 0x82; 0x02; 0x03; 0x9f; 0x04; 0x05; 0xff; 0xff] []))
  = Returned ([1; 2; 3; 4; 5], StateFinished).
Proof. reflexivity. Qed.

Example vector_float16 :
  written [] (Writer.WriteFloat16 0x3FC00000) = [0xf9; 0x3e; 0x00]
  /\ outcome (Reader.ReadFloat16 (Reader.NewCborReader [0xf9; 0x3c; 0x00] []))
     = Returned 0x3F800000.
Proof. split; reflexivity. Qed.

Example vector_bignum_2_128 :
  written [] (Writer.WriteBigInt (Some (2^128)))
  = 0xc2 :: 0x51 :: 0x01 :: repeat 0 16
  /\ outcome (Reader.ReadBigInt
                (Reader.NewCborReader (0xc2 :: 0x51 :: 0x01 :: repeat 0 16) []))
     = Returned (2^128)
  /\ written [] (Writer.WriteBigInt (Some (- 2^128)))
     = 0xc3 :: 0x50 :: repeat 0xff 16
  /\ outcome (Reader.ReadBigInt
                (Reader.NewCborReader (0xc3 :: 0x50 :: repeat 0xff 16) []))
     = Returned (- 2^128).
Proof. repeat split; reflexivity. Qed.

Example vector_nesting_depth_3 :
  outcome
    ((Writer.WriteStartArray 1 ;; Writer.WriteStartArray 1 ;;
      Writer.WriteStartArray 1 ;; Writer.WriteStartArray 1)
       (Writer.NewCborWriter [Writer.WithMaxNestingDepth 3]))
  = Failed ErrNestingDepthExceeded.
Proof. reflexivity. Qed.

Example vector_canonical_indefinite :
  outcome (Writer.WriteStartIndefiniteLengthArray
             (Writer.NewCborWriter
                [Writer.WithConformanceMode ConformanceCanonical]))
  = Failed ErrIndefiniteLengthNotAllowed.
Proof. reflexivity. Qed.


(** ** Every operation of the encoder *)

Ltac unfold_writer :=
  unfold Writer.WriteBigInt, Writer.WriteUri, Writer.WriteEncodedCborData,
    Writer.WriteSelfDescribedCbor;
  unfold Writer.WriteInt64, Writer.WriteUint64, Writer.WriteByteString,
    Writer.WriteTextString, Writer.WriteStartArray, Writer.WriteStartMap,
    Writer.WriteStartIndefiniteLengthArray,
    Writer.WriteStartIndefiniteLengthMap,
    Writer.WriteStartIndefiniteLengthByteString,
    Writer.WriteStartIndefiniteLengthTextString,
    Writer.WriteEndArray, Writer.WriteEndMap, Writer.WriteTag,
    Writer.WriteBoolean, Writer.WriteNull, Writer.WriteUndefined,
    Writer.WriteSimpleValue, Writer.WriteFloat16, Writer.WriteFloat32,
    Writer.WriteFloat64, Writer.WriteByteStringChunk,
    Writer.WriteEndIndefiniteLengthByteString, Writer.WriteTextStringChunk,
    Writer.WriteEndIndefiniteLengthTextString, Writer.WriteRaw;
  unfold Writer.requireIndefinite, Writer.checkNestingDepth,
    Writer.writeMinimalInitialByte, Writer.emit, Writer.push, Writer.pop,
    Writer.advanceContainer;
  unfold_monad.

Ltac writer_split :=
  repeat (match goal with
          | |- context [if ?c then _ else _] => destruct c eqn:?
          | |- context [match ?st with [] => _ | _ :: _ => _ end] =>
              destruct st eqn:?
          end; cbn beta iota; writer_fields).

(** An operation that returns an error has not touched the encoder, and no
    operation panics. *)
Lemma runWriteOp_failure (op : WriteOp) (w : Writer.CborWriter) :
  match runWriteOp op w with
  | Ok _ _ => True
  | Err _ w' => w' = w
  | Panic => False
  end.
Proof.
  destruct w as [buf mode st max off allow root].
  destruct op as [| | [v|] | | | start | | | | | | | | | | | | | | | | | |];
    try destruct start; cbn [runWriteOp runWriteStart];
    unfold_writer; writer_fields; writer_split; exact I || reflexivity.
Qed.

Lemma extends_refl (b : list Z) : extends b b.
Proof. exists []. now rewrite app_nil_r. Qed.

Lemma extends_trans (a b c : list Z) : extends a b -> extends b c -> extends a c.
Proof.
  intros [x ->] [y ->]. exists (x ++ y). now rewrite app_assoc.
Qed.

Lemma extends_app (a b x : list Z) : extends a b -> extends a (b ++ x).
Proof. intros H. apply (extends_trans a b); [exact H|now exists x]. Qed.

Lemma extends_appendInitialByte (a b : list Z) (mt : MajorType) (v : Z) :
  extends a b -> extends a (Writer.appendInitialByte mt v b).
Proof.
  intros H. unfold Writer.appendInitialByte, BigEndian.AppendUint16,
    BigEndian.AppendUint32, BigEndian.AppendUint64.
  repeat match goal with
         | |- context [if ?c then _ else _] => destruct c
         end; repeat apply extends_app; exact H.
Qed.

Lemma extends_AppendUint16 (a b : list Z) (v : Z) :
  extends a b -> extends a (BigEndian.AppendUint16 b v).
Proof. intros H. now apply extends_app. Qed.

Lemma extends_AppendUint32 (a b : list Z) (v : Z) :
  extends a b -> extends a (BigEndian.AppendUint32 b v).
Proof. intros H. now apply extends_app. Qed.

Lemma extends_AppendUint64 (a b : list Z) (v : Z) :
  extends a b -> extends a (BigEndian.AppendUint64 b v).
Proof. intros H. now apply extends_app. Qed.

Ltac extends_solve :=
  repeat first [ apply extends_app | apply extends_appendInitialByte
               | apply extends_AppendUint16 | apply extends_AppendUint32
               | apply extends_AppendUint64 ];
  apply extends_refl.

Lemma frameOk_advanceFrame (c : bool) (info : Writer.nestingInfo) :
  frameOk c info -> frameOk c (Writer.advanceFrame info).
Proof.
  unfold frameOk, Writer.advanceFrame.
  intros (Hi & Hm & Hk & Hd & Hc).
  destruct (Writer.isMap info) eqn:Em; [destruct (Writer.keyWritten info)|];
    cbn [Writer.itemsWritten Writer.isMap Writer.majorType Writer.keyWritten
         Writer.isIndefinite Writer.definiteLength];
    rewrite ?Em; repeat split; try tauto; try lia; try congruence;
    try apply Hm; try apply Hk.
Qed.

Ltac leb_hyps :=
  repeat match goal with
         | H : (_ <=? _) = true |- _ => apply Z.leb_le in H
         | H : (_ <=? _) = false |- _ => apply Z.leb_gt in H
         | H : (_ <? _) = true |- _ => apply Z.ltb_lt in H
         | H : (_ <? _) = false |- _ => apply Z.ltb_ge in H
         end.

(** What a successful operation changes: bytes are appended to the buffer,
    the configuration is kept, and the encoder stays well-formed. *)
Lemma runWriteOp_success (op : WriteOp) (w : Writer.CborWriter) :
  match runWriteOp op w with
  | Ok _ w' =>
      extends (Writer.buffer w) (Writer.buffer w')
      /\ Writer.conformanceMode w' = Writer.conformanceMode w
      /\ Writer.maxNestingDepth w' = Writer.maxNestingDepth w
      /\ Writer.allowMultipleRootValues w' = Writer.allowMultipleRootValues w
      /\ (writerOk w -> writerOk w')
  | _ => True
  end.
Proof.
  destruct w as [buf mode st max off allow root].
  destruct op as [| | [v|] | | | start | | | | | | | | | | | | | | | | | |];
    try destruct start; cbn [runWriteOp runWriteStart];
    unfold_writer; writer_fields; writer_split; try exact I;
    (split; [extends_solve|]); (split; [reflexivity|]);
    (split; [reflexivity|]); (split; [reflexivity|]);
    unfold writerOk, Writer.Len, Writer.NestingDepth, Writer.canonicalMode
      in *;
    writer_fields; intros (Hoff & Hdepth & Hframes); subst; leb_hyps;
    rewrite ?len_cons in *; change (len (@nil Writer.nestingInfo)) with 0 in *;
    cbn [tl] in *;
    repeat match goal with
           | H : Forall _ (_ :: _) |- _ => inversion H; subst; clear H
           end;
    (split; [try reflexivity; try assumption|]);
    (split; [try lia|]);
    repeat match goal with
           | |- Forall _ [] => constructor
           | |- Forall _ (_ :: _) => constructor
           | |- frameOk _ (Writer.advanceFrame _) => apply frameOk_advanceFrame
           end; try assumption;
    unfold frameOk;
    cbn [Writer.itemsWritten Writer.isMap Writer.majorType Writer.keyWritten
         Writer.isIndefinite Writer.definiteLength];
    cbn [Writer.conformanceMode] in *;
    repeat split; intros; try lia; try discriminate; try congruence;
    repeat rewrite len_cons in *; lia.
Qed.

Lemma runWriteOp_root_flags (op : WriteOp) (w1 w2 : Writer.CborWriter) :
  sameButRootFlags w1 w2 ->
  match runWriteOp op w1, runWriteOp op w2 with
  | Ok _ w1', Ok _ w2' => sameButRootFlags w1' w2'
  | Err e1 w1', Err e2 w2' => e1 = e2 /\ sameButRootFlags w1' w2'
  | _, _ => False
  end.
Proof.
  destruct w1 as [buf1 mode1 st1 max1 off1 allow1 root1].
  destruct w2 as [buf2 mode2 st2 max2 off2 allow2 root2].
  unfold sameButRootFlags. writer_fields.
  intros (? & ? & ? & ? & ?); subst.
  destruct op as [| | [v|] | | | start | | | | | | | | | | | | | | | | | |];
    try destruct start; cbn [runWriteOp runWriteStart];
    unfold_writer; unfold Writer.canonicalMode; writer_fields; writer_split;
    repeat split.
Qed.

Lemma runWriteOps_root_flags (ops : list WriteOp) :
  forall w1 w2 : Writer.CborWriter,
    sameButRootFlags w1 w2 ->
    match runWriteOps ops w1, runWriteOps ops w2 with
    | Ok _ w1', Ok _ w2' => sameButRootFlags w1' w2'
    | Err e1 w1', Err e2 w2' => e1 = e2 /\ sameButRootFlags w1' w2'
    | _, _ => False
    end.
Proof.
  induction ops as [|op ops IH]; intros w1 w2 H; cbn [runWriteOps].
  - exact H.
  - unfold bind. pose proof (runWriteOp_root_flags op w1 w2 H) as Hop.
    destruct (runWriteOp op w1) as [[] w1'|e1 w1'|],
             (runWriteOp op w2) as [[] w2'|e2 w2'|]; try contradiction.
    + now apply IH.
    + exact Hop.
Qed.

Lemma runWriteOps_success (ops : list WriteOp) :
  forall w : Writer.CborWriter,
    match final (runWriteOps ops w) with
    | Some w' =>
        extends (Writer.buffer w) (Writer.buffer w')
        /\ Writer.conformanceMode w' = Writer.conformanceMode w
        /\ Writer.maxNestingDepth w' = Writer.maxNestingDepth w
        /\ Writer.allowMultipleRootValues w'
           = Writer.allowMultipleRootValues w
        /\ (writerOk w -> writerOk w')
    | None => False
    end.
Proof.
  induction ops as [|op ops IH]; intros w; cbn [runWriteOps].
  - unfold ret. cbn [final]. split; [apply extends_refl|].
    split; [reflexivity|]. split; [reflexivity|]. split; [reflexivity|].
    exact (fun H => H).
  - unfold bind. pose proof (runWriteOp_success op w) as Hs.
    pose proof (runWriteOp_failure op w) as Hf.
    destruct (runWriteOp op w) as [[] w1|e w1|]; [| |contradiction].
    + destruct Hs as (Hb & Hm & Hd & Ha & Hok).
      specialize (IH w1). destruct (final (runWriteOps ops w1)) as [w'|];
        [|contradiction].
      destruct IH as (Hb' & Hm' & Hd' & Ha' & Hok').
      split; [exact (extends_trans _ _ _ Hb Hb')|].
      split; [congruence|]. split; [congruence|]. split; [congruence|].
      exact (fun H => Hok' (Hok H)).
    + cbn [final]. subst w1. split; [apply extends_refl|].
      split; [reflexivity|]. split; [reflexivity|]. split; [reflexivity|].
      exact (fun H => H).
Qed.

(** X1.  An operation of the encoder that returns an error has changed
    nothing: the encoder, output buffer and nesting stack included, is the
    one before the call.  No operation panics. *)
Theorem write_error_leaves_writer_unchanged
  (op : WriteOp) (w : Writer.CborWriter) :
  runWriteOp op w <> Panic
  /\ forall (e : CborErr) (w' : Writer.CborWriter),
       runWriteOp op w = Err e w' -> w' = w.
Proof.
  pose proof (runWriteOp_failure op w) as H.
  destruct (runWriteOp op w) as [u w1|e1 w1|]; [| |contradiction].
  - split; [discriminate|]. intros e w' Hx. discriminate Hx.
  - split; [discriminate|]. intros e w' Hx. inversion Hx; subst. reflexivity.
Qed.

Lemma write_error_leaves_writer_unchanged_witness :
  let w := Writer.NewCborWriter [] in
  runWriteOp (OpWriteByteStringChunk [1; 2]) w = Err ErrInvalidState w
  /\ w = w.
Proof.
  cbv zeta. split; [reflexivity|].
  exact (proj2 (write_error_leaves_writer_unchanged
                  (OpWriteByteStringChunk [1; 2]) (Writer.NewCborWriter []))
               ErrInvalidState (Writer.NewCborWriter []) eq_refl).
Defined.

(** X2.  Whatever sequence of operations a caller runs on an encoder, up to
    the first error, the bytes already in the buffer are never changed:
    the buffer afterwards is the buffer before with bytes appended.  The
    conformance mode, the nesting cap and the multiple-root option are the
    ones the encoder was created with. *)
Theorem writer_buffer_append_only
  (ops : list WriteOp) (w : Writer.CborWriter) :
  match final (runWriteOps ops w) with
  | Some w' =>
      (exists out, Writer.Bytes w' = Writer.Bytes w ++ out)
      /\ Writer.conformanceMode w' = Writer.conformanceMode w
      /\ Writer.maxNestingDepth w' = Writer.maxNestingDepth w
      /\ Writer.allowMultipleRootValues w' = Writer.allowMultipleRootValues w
  | None => False
  end.
Proof.
  pose proof (runWriteOps_success ops w) as H.
  destruct (final (runWriteOps ops w)) as [w'|]; [|contradiction].
  destruct H as (Hb & Hm & Hd & Ha & _). unfold Writer.Bytes.
  repeat split; assumption.
Qed.

(** X3.  Every encoder reached from [NewCborWriter], with any conformance
    mode, nesting cap and multiple-root option, by a sequence of operations
    is well-formed: [currentOffset] is the length of the buffer, the
    nesting depth does not exceed the configured cap, every frame counts a
    non-negative number of items, only map frames wait for a value, and in
    the canonical modes no frame is indefinite-length. *)
Theorem writer_reachable_well_formed
  (mode : CborConformanceMode) (depth : Z) (allow : bool)
  (ops : list WriteOp) :
  match final (runWriteOps ops
                 (Writer.NewCborWriter
                    [Writer.WithConformanceMode mode;
                     Writer.WithMaxNestingDepth depth;
                     Writer.WithAllowMultipleRootValues allow])) with
  | Some w =>
      Writer.currentOffset w = Writer.Len w
      /\ Writer.NestingDepth w <= Z.max 0 depth
      /\ Forall (frameOk (Writer.canonicalMode w)) (Writer.nestingStack w)
      /\ Writer.conformanceMode w = mode
  | None => False
  end.
Proof.
  pose proof (runWriteOps_success ops
                (Writer.NewCborWriter
                   [Writer.WithConformanceMode mode;
                    Writer.WithMaxNestingDepth depth;
                    Writer.WithAllowMultipleRootValues allow])) as H.
  destruct (final _) as [w|]; [|contradiction].
  destruct H as (_ & Hm & Hd & _ & Hok).
  assert (H0 : writerOk (Writer.NewCborWriter
                   [Writer.WithConformanceMode mode;
                    Writer.WithMaxNestingDepth depth;
                    Writer.WithAllowMultipleRootValues allow])).
  { unfold writerOk. cbn. split; [reflexivity|]. split; [lia|constructor]. }
  destruct (Hok H0) as (Ho & Hdp & Hf).
  split; [exact Ho|]. split; [rewrite Hd in Hdp; exact Hdp|].
  split; [exact Hf|exact Hm].
Qed.

(** X4.  No operation of the encoder reads [allowMultipleRootValues] or
    [rootValueWritten]: two encoders that differ in these two fields only
    give, for every sequence of operations, the same result (success, or
    the same error at the same operation) and the same bytes.  A second
    value at the root is written like the first, whatever the option. *)
Theorem writer_ignores_root_flags
  (ops : list WriteOp) (w : Writer.CborWriter) (allow rootWritten : bool) :
  let w' := Writer.set_allowMultipleRootValues allow
              (Writer.set_rootValueWritten rootWritten w) in
  outcome (runWriteOps ops w') = outcome (runWriteOps ops w)
  /\ option_map Writer.Bytes (final (runWriteOps ops w'))
     = option_map Writer.Bytes (final (runWriteOps ops w)).
Proof.
  cbv zeta.
  assert (H : sameButRootFlags
                (Writer.set_allowMultipleRootValues allow
                   (Writer.set_rootValueWritten rootWritten w)) w).
  { unfold sameButRootFlags. repeat split. }
  apply (runWriteOps_root_flags ops) in H.
  destruct (runWriteOps ops _) as [[] w1|e1 w1|],
           (runWriteOps ops w) as [[] w2|e2 w2|]; try contradiction.
  - destruct H as (Hb & _). cbn. unfold Writer.Bytes. now rewrite Hb.
  - destruct H as (-> & Hb & _). cbn. unfold Writer.Bytes. now rewrite Hb.
Qed.


(** ** Reading a data item in any context *)

Lemma cached_same (r : Reader.CborReader) :
  Reader.stateComputed r = true -> cached (Reader.cachedState r) r = r.
Proof. destruct r. cbn. now intros ->. Qed.

Lemma classify_pure (b : Z) (r r' : Reader.CborReader) (st : CborReaderState) :
  Reader.classify b r = Ok st r' -> forall r0, Reader.classify b r0 = Ok st r0.
Proof.
  unfold Reader.classify. destruct (decodeInitialByte b) as [mt ai].
  destruct mt; unfold ret, throw;
    repeat match goal with
           | |- context [if ?c then _ else _] => destruct c
           end; intros H r0; inversion H; reflexivity.
Qed.

(** The classification of an item that starts with the byte [b]. *)
Lemma PeekState_item (r : Reader.CborReader) (b : Z) (s : list Z)
      (st : CborReaderState) :
  ready r -> remaining r = b :: s -> b <> breakByte ->
  Reader.classify b r = Ok st r ->
  Reader.PeekState r = Ok st (cached st r).
Proof.
  intros (Ho & _ & Hc & Hf) Hrem Hb Hcl.
  assert (Hcs : Reader.computeState r = Ok st r).
  { destruct (Reader.nestingStack r) as [|info rest] eqn:Hst.
    - rewrite (computeState_root r b s Ho Hst Hrem Hb). exact Hcl.
    - rewrite (computeState_in_frame r info rest b s Ho Hst Hf Hrem Hb).
      exact Hcl. }
  destruct (Reader.stateComputed r) eqn:Hsc.
  - unfold Reader.PeekState. unfold_monad. rewrite Hsc.
    specialize (Hc Hsc). rewrite Hcs in Hc. inversion Hc as [Hst].
    rewrite (cached_same r Hsc). reflexivity.
  - rewrite PeekState_fresh by exact Hsc. now rewrite Hcs.
Qed.

Lemma len_writeArgument_spec (mt : MajorType) (v : Z) :
  len (writeArgument_spec mt v) = 1 + Z.of_nat (argumentWidth v).
Proof.
  unfold writeArgument_spec. rewrite len_cons. unfold len.
  now rewrite be_bytes_length.
Qed.

Lemma len_writeArgument_spec_bounds (mt : MajorType) (v : Z) :
  1 <= len (writeArgument_spec mt v) <= 9.
Proof.
  rewrite len_writeArgument_spec. unfold argumentWidth.
  repeat match goal with
         | |- context [if ?c then _ else _] => destruct c
         end; cbn; lia.
Qed.

Lemma PeekState_written_head (r : Reader.CborReader) (mt : MajorType)
      (v : Z) (rest : list Z) :
  ready r -> 0 <= v < 2^64 -> mt <> MajorTypeSimpleOrFloat ->
  remaining r = writeArgument_spec mt v ++ rest ->
  Reader.PeekState r = Ok (headState mt) (cached (headState mt) r).
Proof.
  intros Hr Hv Hmt Hrem.
  pose proof (argumentInfo_range v ltac:(lia)) as Hai.
  apply (PeekState_item r (MajorType_code mt * 32 + argumentInfo v)
           (be_bytes (argumentWidth v) v ++ rest)); try assumption.
  - unfold breakByte. destruct mt; unfold MajorType_code; lia.
  - unfold Reader.classify. rewrite decodeInitialByte_arith by lia.
    destruct mt; try reflexivity; try contradiction;
      change (to_byte AdditionalInfoIndefiniteLength) with 31;
      (destruct (Z.eqb_spec (argumentInfo v) 31); [lia|reflexivity]).
Qed.

Lemma readArgumentValue_written (r : Reader.CborReader) (mt : MajorType)
      (v : Z) (rest : list Z) :
  0 <= Reader.offset r -> 0 <= v < 2^64 ->
  remaining r = writeArgument_spec mt v ++ rest ->
  Reader.readArgumentValue mt r
  = Ok v (consumed (len (writeArgument_spec mt v)) r).
Proof.
  intros Ho Hv Hrem. rewrite readArgumentValue_decodeHead by exact Ho.
  rewrite Hrem, decodeHead_written by exact Hv.
  rewrite len_writeArgument_spec. reflexivity.
Qed.

Lemma stepped_remaining (n : Z) (r r' : Reader.CborReader)
      (item rest : list Z) :
  0 <= Reader.offset r -> stepped n r r' \/ (exists st, moved n st r r') ->
  n = len item -> remaining r = item ++ rest -> remaining r' = rest.
Proof.
  intros Ho Hm Hn Hrem.
  assert (Hd : Reader.data r' = Reader.data r
               /\ Reader.offset r' = Reader.offset r + n).
  { destruct Hm as [Hm|[st Hm]]; unfold stepped, moved in Hm; tauto. }
  destruct Hd as [Hd Hoff]. unfold remaining in *. rewrite Hd, Hoff.
  rewrite skipn_add by (subst n; try apply len_nonneg; lia).
  rewrite Hrem. subst n. unfold len. rewrite Nat2Z.id.
  rewrite skipn_app, skipn_all, Nat.sub_diag. reflexivity.
Qed.

(** The last step of every read of a data item. *)
Lemma advanceContainer_stepped (n : Z) (r r1 : Reader.CborReader) :
  moved n (Reader.nestingStack r) r r1 ->
  exists r', Reader.advanceContainer r1 = Ok tt r' /\ stepped n r r'.
Proof.
  intros (Hd & Ho & Hm & Hx & Ha & Hs & Hc).
  unfold Reader.advanceContainer, modify, stepped, moved.
  rewrite Hs. destruct (Reader.nestingStack r) as [|info rest];
    eexists; (split; [reflexivity|]); reader_fields;
    cbn [advanceStack]; repeat split; assumption.
Qed.

Ltac run_peek H :=
  unfold bind at 1; rewrite H; cbn beta iota.

Ltac run_invalidate :=
  unfold bind at 1, Reader.invalidateState, modify.

Ltac run_head mt v rest Hr Hv Hrem :=
  unfold bind at 1;
  rewrite (readArgumentValue_written _ mt v rest);
  [|apply Hr|exact Hv|exact Hrem].

Ltac run_advance n r r1 :=
  let r' := fresh "r'" in
  let Hadv := fresh "Hadv" in
  let Hst := fresh "Hst" in
  destruct (advanceContainer_stepped n r r1) as (r' & Hadv & Hst);
  [unfold moved; reader_fields; repeat split; try lia
  |unfold bind; rewrite Hadv; exists r'; split; [reflexivity|exact Hst]].

Ltac finish_item n r :=
  match goal with
  | |- context [bind Reader.advanceContainer _ ?r1] => run_advance n r r1
  end.

Lemma ReadUint64_item (r : Reader.CborReader) (v : Z) (rest : list Z) :
  ready r -> 0 <= v < 2^64 ->
  remaining r = writeArgument_spec MajorTypeUnsignedInteger v ++ rest ->
  exists r',
    Reader.ReadUint64 r = Ok v r'
    /\ stepped (len (writeArgument_spec MajorTypeUnsignedInteger v)) r r'.
Proof.
  intros Hr Hv Hrem. unfold Reader.ReadUint64.
  run_peek (PeekState_written_head r MajorTypeUnsignedInteger v rest Hr Hv
              ltac:(discriminate) Hrem).
  cbn [headState]. unfold bind at 1. rewrite expect_same. cbn beta iota.
  unfold bind at 1, Reader.invalidateState, modify.
  unfold bind at 1.
  rewrite (readArgumentValue_written _ MajorTypeUnsignedInteger v rest);
    [|apply Hr|exact Hv|exact Hrem].
  finish_item (len (writeArgument_spec MajorTypeUnsignedInteger v)) r.
Qed.

Lemma ReadInt64_item (r : Reader.CborReader) (i : Z) (rest : list Z) :
  ready r -> MinInt64 <= i <= MaxInt64 ->
  remaining r = encInt64 i ++ rest ->
  exists r',
    Reader.ReadInt64 r = Ok i r' /\ stepped (len (encInt64 i)) r r'.
Proof.
  unfold MinInt64, MaxInt64, encInt64. intros Hr Hi Hrem.
  unfold Reader.ReadInt64.
  destruct (Z.leb_spec 0 i).
  - assert (Hv : 0 <= i < 2^64) by lia.
    run_peek (PeekState_written_head r MajorTypeUnsignedInteger i rest Hr Hv
                ltac:(discriminate) Hrem).
    cbn [headState]. run_invalidate.
    run_head MajorTypeUnsignedInteger i rest Hr Hv Hrem.
    unfold bind at 1, failIf.
    destruct (Z.ltb_spec MaxInt64 i); [unfold MaxInt64 in *; lia|].
    unfold ret at 1. cbn beta iota.
    rewrite to_int64_small by (unfold MinInt64, MaxInt64; lia).
    finish_item (len (writeArgument_spec MajorTypeUnsignedInteger i)) r.
  - assert (Hv : 0 <= -1 - i < 2^64) by lia.
    run_peek (PeekState_written_head r MajorTypeNegativeInteger (-1 - i) rest
                Hr Hv ltac:(discriminate) Hrem).
    cbn [headState]. run_invalidate.
    run_head MajorTypeNegativeInteger (-1 - i) rest Hr Hv Hrem.
    unfold bind at 1, failIf.
    destruct (Z.ltb_spec MaxInt64 (-1 - i)); [unfold MaxInt64 in *; lia|].
    unfold ret at 1. cbn beta iota.
    rewrite (to_int64_small (-1 - i)) by (unfold MinInt64, MaxInt64; lia).
    replace (-1 - (-1 - i)) with i by lia.
    rewrite to_int64_small by (unfold MinInt64, MaxInt64; lia).
    finish_item (len (writeArgument_spec MajorTypeNegativeInteger (-1 - i)))
                r.
Qed.

Lemma ReadTag_item (r : Reader.CborReader) (tag : Z) (rest : list Z) :
  ready r -> 0 <= tag < 2^64 ->
  remaining r = writeArgument_spec MajorTypeTag tag ++ rest ->
  exists r',
    Reader.ReadTag r = Ok tag r'
    /\ moved (len (writeArgument_spec MajorTypeTag tag))
             (Reader.nestingStack r) r r'.
Proof.
  intros Hr Hv Hrem. unfold Reader.ReadTag.
  run_peek (PeekState_written_head r MajorTypeTag tag rest Hr Hv
              ltac:(discriminate) Hrem).
  cbn [headState]. unfold bind at 1. rewrite expect_same. cbn beta iota.
  run_invalidate. run_head MajorTypeTag tag rest Hr Hv Hrem.
  eexists. split; [reflexivity|].
  unfold moved. reader_fields. repeat split.
Qed.

Lemma remaining_len (r : Reader.CborReader) (b : Z) (s : list Z) :
  0 <= Reader.offset r -> remaining r = b :: s ->
  Reader.offset r + 1 + len s = len (Reader.data r).
Proof.
  intros Ho Hrem. pose proof (len_skipn (Reader.data r) (Reader.offset r) Ho)
    as Hl.
  unfold remaining in Hrem. rewrite Hrem, len_cons in Hl.
  pose proof (len_nonneg s). lia.
Qed.

Lemma slice_remaining (d : list Z) (o : Z) (x rest : list Z) :
  0 <= o <= len d -> skipn (Z.to_nat o) d = x ++ rest ->
  slice d o (o + len x) = Some x.
Proof.
  intros Ho Hs. unfold slice.
  pose proof (len_skipn d o ltac:(lia)) as Hl. rewrite Hs, len_app in Hl.
  pose proof (len_nonneg x). pose proof (len_nonneg rest).
  destruct (Z.leb_spec 0 o); [|lia].
  destruct (Z.leb_spec o (o + len x)); [|lia].
  destruct (Z.leb_spec (o + len x) (len d)); [|lia].
  cbn [andb]. rewrite Hs. f_equal.
  replace (o + len x - o) with (len x) by lia. unfold len.
  rewrite Nat2Z.id, firstn_app, firstn_all, Nat.sub_diag.
  cbn [firstn]. apply app_nil_r.
Qed.

(** The payload of a string whose declared length is the number of bytes
    that follow. *)
Lemma readPayload_written (r : Reader.CborReader) (x rest : list Z) :
  0 <= Reader.offset r <= len (Reader.data r) ->
  len (Reader.data r) <= MaxInt64 ->
  remaining r = x ++ rest ->
  Reader.payloadEnd r (len x) = Reader.offset r + len x
  /\ Reader.readPayload (len x) r = Ok x r.
Proof.
  intros Ho Hmax Hrem. unfold MaxInt64 in Hmax.
  pose proof (len_skipn (Reader.data r) (Reader.offset r) ltac:(lia)) as Hl.
  unfold remaining in Hrem. rewrite Hrem, len_app in Hl.
  pose proof (len_nonneg x). pose proof (len_nonneg rest).
  assert (He : Reader.payloadEnd r (len x) = Reader.offset r + len x).
  { unfold Reader.payloadEnd.
    rewrite (to_int64_small (len x)) by (unfold MinInt64, MaxInt64; lia).
    apply to_int64_small. unfold MinInt64, MaxInt64. lia. }
  split; [exact He|]. unfold Reader.readPayload. unfold_monad. rewrite He.
  destruct (Z.ltb_spec (len (Reader.data r)) (Reader.offset r + len x));
    [lia|].
  rewrite (slice_remaining _ _ x rest) by (lia || exact Hrem). reflexivity.
Qed.

Lemma remaining_after (r : Reader.CborReader) (item rest : list Z) :
  0 <= Reader.offset r -> remaining r = item ++ rest ->
  remaining (consumed (len item) r) = rest.
Proof.
  intros Ho Hrem. rewrite remaining_consumed by (apply len_nonneg || lia).
  rewrite Hrem. unfold len. rewrite Nat2Z.id.
  rewrite skipn_app, skipn_all, Nat.sub_diag. reflexivity.
Qed.

Lemma string_length_bounds (r : Reader.CborReader) (mt : MajorType)
      (s rest : list Z) :
  ready r -> remaining r = encString mt s ++ rest ->
  0 <= len s < 2^64
  /\ Reader.offset r + len (writeArgument_spec mt (len s)) + len s
     <= len (Reader.data r).
Proof.
  intros (Ho & Hmax & _) Hrem. unfold MaxInt64 in Hmax.
  pose proof (len_skipn (Reader.data r) (Reader.offset r) Ho) as Hl.
  unfold remaining in Hrem. rewrite Hrem in Hl. unfold encString in Hl.
  rewrite !len_app in Hl.
  pose proof (len_writeArgument_spec_bounds mt (len s)).
  pose proof (len_nonneg s). pose proof (len_nonneg rest). lia.
Qed.

Ltac run_string mt s rest Hr Hrem :=
  let Hv := fresh "Hv" in
  let Hlen := fresh "Hlen" in
  let Hrem' := fresh "Hrem'" in
  destruct (string_length_bounds _ mt s rest Hr Hrem) as [Hv Hlen];
  assert (Hrem' : remaining _ = writeArgument_spec mt (len s) ++ (s ++ rest))
    by (rewrite Hrem; unfold encString; now rewrite <- app_assoc);
  run_peek (PeekState_written_head _ mt (len s) (s ++ rest) Hr Hv
              ltac:(discriminate) Hrem');
  cbn [headState].

Lemma ReadByteString_item (r : Reader.CborReader) (bs rest : list Z) :
  ready r -> remaining r = encString MajorTypeByteString bs ++ rest ->
  exists r',
    Reader.ReadByteString r = Ok bs r'
    /\ stepped (len (encString MajorTypeByteString bs)) r r'.
Proof.
  intros Hr Hrem. unfold Reader.ReadByteString.
  run_string MajorTypeByteString bs rest Hr Hrem.
  change (CborReaderState_eqb StateByteString
            StateStartIndefiniteLengthByteString) with false.
  cbn beta iota. unfold bind at 1. rewrite expect_same. cbn beta iota.
  run_invalidate.
  run_head MajorTypeByteString (len bs) (bs ++ rest) Hr Hv Hrem'.
  match goal with
  | |- context [bind (Reader.readPayload _) _ ?r1] =>
      destruct (readPayload_written r1 bs rest) as [He Hp];
        [reader_fields; destruct Hr as (? & ? & _);
         pose proof (len_writeArgument_spec_bounds MajorTypeByteString
                       (len bs)); pose proof (len_nonneg bs); lia
        |reader_fields; apply Hr
        |apply (remaining_after
                  (Reader.set_stateComputed false (cached StateByteString r)));
         [apply Hr|exact Hrem']
        |unfold bind at 1; rewrite Hp; cbn beta iota;
         unfold bind at 1, Reader.skipPayload, modify; rewrite He]
  end.
  unfold encString. rewrite len_app.
  finish_item (len (writeArgument_spec MajorTypeByteString (len bs)) + len bs)
              r.
Qed.

Lemma ReadTextString_item (utf8Valid : list Z -> bool)
      (r : Reader.CborReader) (s rest : list Z) :
  ready r -> Reader.invalidUtf8 utf8Valid r s = false ->
  remaining r = encString MajorTypeTextString s ++ rest ->
  exists r',
    Reader.ReadTextString utf8Valid r = Ok s r'
    /\ stepped (len (encString MajorTypeTextString s)) r r'.
Proof.
  intros Hr Hutf Hrem. unfold Reader.ReadTextString.
  run_string MajorTypeTextString s rest Hr Hrem.
  change (CborReaderState_eqb StateTextString
            StateStartIndefiniteLengthTextString) with false.
  cbn beta iota. unfold bind at 1. rewrite expect_same. cbn beta iota.
  run_invalidate.
  run_head MajorTypeTextString (len s) (s ++ rest) Hr Hv Hrem'.
  match goal with
  | |- context [bind (Reader.readPayload _) _ ?r1] =>
      destruct (readPayload_written r1 s rest) as [He Hp];
        [reader_fields; destruct Hr as (? & ? & _);
         pose proof (len_writeArgument_spec_bounds MajorTypeTextString
                       (len s)); pose proof (len_nonneg s); lia
        |reader_fields; apply Hr
        |apply (remaining_after
                  (Reader.set_stateComputed false (cached StateTextString r)));
         [apply Hr|exact Hrem']
        |unfold bind at 1; rewrite Hp; cbn beta iota;
         unfold bind at 1, get; cbn beta iota;
         unfold bind at 1, failIf;
         change (Reader.invalidUtf8 utf8Valid r1 s)
           with (Reader.invalidUtf8 utf8Valid r s);
         rewrite Hutf; unfold ret at 1; cbn beta iota;
         unfold bind at 1, Reader.skipPayload, modify; rewrite He]
  end.
  unfold encString. rewrite len_app.
  finish_item (len (writeArgument_spec MajorTypeTextString (len s)) + len s)
              r.
Qed.

Lemma index_remaining (r : Reader.CborReader) (b : Z) (s : list Z) :
  0 <= Reader.offset r -> remaining r = b :: s ->
  index (Reader.data r) (Reader.offset r) = Some b.
Proof.
  intros Ho Hrem. rewrite index_skipn by exact Ho.
  unfold remaining in Hrem. now rewrite Hrem.
Qed.

Lemma ReadBoolean_item (r : Reader.CborReader) (value : bool)
      (rest : list Z) :
  ready r -> remaining r = encBoolean value ++ rest ->
  exists r', Reader.ReadBoolean r = Ok value r' /\ stepped 1 r r'.
Proof.
  intros Hr Hrem. unfold Reader.ReadBoolean.
  run_peek (PeekState_item r (if value then 0xF5 else 0xF4) rest StateBoolean
              Hr Hrem).
  2:{ destruct value; discriminate. }
  2:{ destruct value; reflexivity. }
  unfold bind at 1. rewrite expect_same. cbn beta iota.
  run_invalidate. unfold bind at 1, get. cbn beta iota.
  unfold bind at 1. reader_fields.
  rewrite (index_remaining r _ rest) by (apply Hr || exact Hrem).
  unfold orPanic, ret at 1. cbn beta iota.
  unfold bind at 1, Reader.advance, modify.
  replace (snd (decodeInitialByte (if value then 0xF5 else 0xF4))
           =? to_byte SimpleValueTrue) with value
    by (destruct value; reflexivity).
  finish_item 1 r.
Qed.

Lemma ReadNull_item (r : Reader.CborReader) (b : Z) (rest : list Z) :
  ready r -> remaining r = b :: rest -> b <> breakByte ->
  Reader.classify b r = Ok StateNull r ->
  exists r', Reader.ReadNull r = Ok tt r' /\ stepped 1 r r'.
Proof.
  intros Hr Hrem Hb Hcl. unfold Reader.ReadNull.
  run_peek (PeekState_item r b rest StateNull Hr Hrem Hb Hcl).
  unfold bind at 1. rewrite expect_same. cbn beta iota.
  run_invalidate. unfold bind at 1, Reader.advance, modify.
  destruct (advanceContainer_stepped 1 r
              (Reader.set_offset
                 (Reader.offset
                    (Reader.set_stateComputed false (cached StateNull r)) + 1)
                 (Reader.set_stateComputed false (cached StateNull r))))
    as (r' & Hadv & Hst).
  { unfold moved. reader_fields. repeat split. }
  exists r'. split; assumption.
Qed.

Lemma ReadUndefined_item (r : Reader.CborReader) (rest : list Z) :
  ready r -> remaining r = 0xF7 :: rest ->
  exists r', Reader.ReadUndefined r = Ok tt r' /\ stepped 1 r r'.
Proof.
  intros Hr Hrem. unfold Reader.ReadUndefined.
  run_peek (PeekState_item r 0xF7 rest StateUndefinedValue Hr Hrem
              ltac:(discriminate) eq_refl).
  unfold bind at 1. rewrite expect_same. cbn beta iota.
  run_invalidate. unfold bind at 1, Reader.advance, modify.
  destruct (advanceContainer_stepped 1 r
              (Reader.set_offset
                 (Reader.offset
                    (Reader.set_stateComputed false
                       (cached StateUndefinedValue r)) + 1)
                 (Reader.set_stateComputed false
                    (cached StateUndefinedValue r))))
    as (r' & Hadv & Hst).
  { unfold moved. reader_fields. repeat split. }
  exists r'. split; assumption.
Qed.

Lemma readFloatBits_item (expected : CborReaderState) (width : Z)
      (decode : list Z -> option Z) (r : Reader.CborReader)
      (b bits : Z) (payload rest : list Z) :
  ready r -> remaining r = b :: payload ++ rest -> b <> breakByte ->
  Reader.classify b r = Ok expected r ->
  0 < width -> len payload = width ->
  decode (payload ++ rest) = Some bits ->
  exists r',
    Reader.readFloatBits expected width decode r = Ok bits r'
    /\ stepped (1 + width) r r'.
Proof.
  intros Hr Hrem Hb Hcl Hw Hlen Hdec. unfold Reader.readFloatBits.
  run_peek (PeekState_item r b (payload ++ rest) expected Hr Hrem Hb Hcl).
  unfold bind at 1. rewrite expect_same. cbn beta iota.
  run_invalidate. unfold bind at 1, Reader.advance, modify.
  unfold bind at 1, get. cbn beta iota. reader_fields.
  pose proof (remaining_len r b (payload ++ rest) ltac:(apply Hr) Hrem)
    as Hl. rewrite len_app in Hl. pose proof (len_nonneg rest).
  unfold bind at 1, failIf.
  destruct (Z.ltb_spec (len (Reader.data r)) (Reader.offset r + 1 + width));
    [lia|]. unfold ret at 1. cbn beta iota.
  destruct Hr as (Ho & Hr').
  unfold bind at 1.
  rewrite slice_from_skipn by lia.
  assert (Hs : skipn (Z.to_nat (Reader.offset r + 1)) (Reader.data r)
               = payload ++ rest).
  { rewrite skipn_add by lia. unfold remaining in Hrem. rewrite Hrem.
    reflexivity. }
  rewrite Hs. unfold orPanic at 1, ret at 1. cbn beta iota.
  unfold bind at 1. rewrite Hdec. unfold orPanic, ret at 1. cbn beta iota.
  unfold bind at 1.
  finish_item (1 + width) r.
Qed.

Lemma ReadFloat16_item (r : Reader.CborReader) (bits : Z) (rest : list Z) :
  ready r -> 0 <= bits < 2^16 -> remaining r = encFloat16 bits ++ rest ->
  exists r',
    Reader.ReadFloat16 r = Ok (Writer.float16BitsToFloat32 bits) r'
    /\ stepped 3 r r'.
Proof.
  intros Hr Hb Hrem. unfold Reader.ReadFloat16.
  destruct (readFloatBits_item StateHalfPrecisionFloat 2 BigEndian.Uint16 r
              0xF9 bits (be_bytes 2 bits) rest Hr Hrem)
    as (r' & Hrun & Hst);
    try reflexivity; try discriminate; try lia.
  { now apply be_bytes_2. }
  unfold bind. rewrite Hrun. exists r'. split; [reflexivity|exact Hst].
Qed.

Lemma ReadFloat32_item (r : Reader.CborReader) (bits : Z) (rest : list Z) :
  ready r -> 0 <= bits < 2^32 -> remaining r = encFloat32 bits ++ rest ->
  exists r', Reader.ReadFloat32 r = Ok bits r' /\ stepped 5 r r'.
Proof.
  intros Hr Hb Hrem. unfold Reader.ReadFloat32.
  apply (readFloatBits_item StateSinglePrecisionFloat 4 BigEndian.Uint32 r
           0xFA bits (be_bytes 4 bits) rest Hr Hrem);
    try reflexivity; try discriminate; try lia.
  now apply be_bytes_4.
Qed.

Lemma ReadFloat64_item (r : Reader.CborReader) (bits : Z) (rest : list Z) :
  ready r -> 0 <= bits < 2^64 -> remaining r = encFloat64 bits ++ rest ->
  exists r', Reader.ReadFloat64 r = Ok bits r' /\ stepped 9 r r'.
Proof.
  intros Hr Hb Hrem. unfold Reader.ReadFloat64.
  apply (readFloatBits_item StateDoublePrecisionFloat 8 BigEndian.Uint64 r
           0xFB bits (be_bytes 8 bits) rest Hr Hrem);
    try reflexivity; try discriminate; try lia.
  now apply be_bytes_8.
Qed.

Lemma classify_simple (v : Z) (r : Reader.CborReader) :
  0 <= v < 24 ->
  exists st,
    Reader.classify (0xE0 + v) r = Ok st r
    /\ (st = StateSimpleValue \/ st = StateBoolean \/ st = StateNull
        \/ st = StateUndefinedValue).
Proof.
  intros Hv. unfold Reader.classify.
  change 0xE0 with (MajorType_code MajorTypeSimpleOrFloat * 32).
  rewrite decodeInitialByte_arith by lia.
  change (to_byte SimpleValueFalse) with 20.
  change (to_byte SimpleValueTrue) with 21.
  change (to_byte SimpleValueNull) with 22.
  change (to_byte SimpleValueUndefined) with 23.
  destruct (Z.eqb_spec v 20); [eexists; split; [reflexivity|tauto]|].
  destruct (Z.eqb_spec v 21); [eexists; split; [reflexivity|tauto]|].
  cbn [orb].
  destruct (Z.eqb_spec v 22); [eexists; split; [reflexivity|tauto]|].
  destruct (Z.eqb_spec v 23); [eexists; split; [reflexivity|tauto]|].
  destruct (Z.eqb_spec v 24); [lia|].
  destruct (Z.eqb_spec v 25); [lia|].
  destruct (Z.eqb_spec v 26); [lia|].
  destruct (Z.eqb_spec v 27); [lia|].
  destruct (Z.ltb_spec v 24); [|lia].
  eexists; split; [reflexivity|tauto].
Qed.

Lemma ReadSimpleValue_item (r : Reader.CborReader) (v : Z) (rest : list Z) :
  ready r -> 0 <= v < 24 \/ 32 <= v < 256 ->
  remaining r = encSimpleValue v ++ rest ->
  exists r',
    Reader.ReadSimpleValue r = Ok v r'
    /\ stepped (len (encSimpleValue v)) r r'.
Proof.
  intros Hr Hv Hrem. unfold encSimpleValue in *.
  unfold Reader.ReadSimpleValue.
  destruct (Z.ltb_spec v 32) as [Hlt|Hge].
  - assert (Hv' : 0 <= v < 24) by lia.
    destruct (classify_simple v r Hv') as (st & Hcl & Hst).
    run_peek (PeekState_item r (0xE0 + v) rest st Hr Hrem ltac:(unfold breakByte; lia) Hcl).
    assert (Hd : decodeInitialByte (0xE0 + v) = (MajorTypeSimpleOrFloat, v)).
    { change 0xE0 with (MajorType_code MajorTypeSimpleOrFloat * 32).
      apply decodeInitialByte_arith. lia. }
    destruct Hst as [ -> | [ -> | [ -> | -> ] ] ];
      (run_invalidate; unfold bind at 1, get; cbn beta iota;
       unfold bind at 1; reader_fields;
       rewrite (index_remaining r _ rest) by (apply Hr || exact Hrem);
       unfold orPanic, ret at 1; cbn beta iota;
       unfold bind at 1, Reader.advance, modify;
       rewrite Hd; cbn [snd];
       destruct (Z.eqb_spec v 24); [lia|];
       unfold bind at 1, ret at 1; cbn beta iota;
       change (len [0xE0 + v]) with 1;
       finish_item 1 r).
  - run_peek (PeekState_item r 0xF8 (v :: rest) StateSimpleValue Hr Hrem
                ltac:(discriminate) eq_refl).
    run_invalidate. unfold bind at 1, get. cbn beta iota.
    unfold bind at 1. reader_fields.
    rewrite (index_remaining r _ (v :: rest)) by (apply Hr || exact Hrem).
    unfold orPanic at 1, ret at 1. cbn beta iota.
    unfold bind at 1, Reader.advance, modify.
    change (snd (decodeInitialByte 0xF8) =? 24) with true. cbn beta iota.
    unfold bind at 1. unfold bind at 1, get. cbn beta iota. reader_fields.
    pose proof (remaining_len r _ _ ltac:(apply Hr) Hrem) as Hl.
    rewrite len_cons in Hl. pose proof (len_nonneg rest).
    unfold bind at 1, failIf.
    destruct (Z.leb_spec (len (Reader.data r)) (Reader.offset r + 1)); [lia|].
    unfold ret at 1. cbn beta iota.
    unfold bind at 1.
    assert (Hi : index (Reader.data r) (Reader.offset r + 1) = Some v).
    { destruct Hr as (Ho & _). rewrite index_skipn by lia.
      rewrite skipn_add by lia. unfold remaining in Hrem. now rewrite Hrem. }
    rewrite Hi. unfold orPanic, ret at 1. cbn beta iota.
    unfold bind at 1, modify. unfold bind at 1.
    destruct (Z.ltb_spec v 32); [lia|]. rewrite andb_false_r.
    unfold ret at 1. cbn beta iota. unfold ret at 1. cbn beta iota.
    change (len [0xF8; v]) with 2.
    finish_item 2 r.
Qed.

(** What [PeekState] leaves behind is again a decoder in front of the same
    data item. *)
Lemma PeekState_ready (r r1 : Reader.CborReader) (st : CborReaderState) :
  ready r -> Reader.PeekState r = Ok st r1 ->
  ready r1 /\ remaining r1 = remaining r
  /\ moved 0 (Reader.nestingStack r) r (Reader.set_stateComputed false r1).
Proof.
  intros (Ho & Hmax & Hc & Hf) Hp.
  assert (Hcase : r1 = r \/ (Reader.computeState r = Ok st r
                             /\ r1 = cached st r)).
  { unfold Reader.PeekState in Hp. unfold_monad_in Hp.
    destruct (Reader.stateComputed r) eqn:Hsc.
    - inversion Hp. now left.
    - right. pose proof (computeState_unchanged r) as Hu.
      destruct (Reader.computeState r) as [s r0|e r0|]; try discriminate.
      subst r0. inversion Hp; subst. split; reflexivity. }
  destruct Hcase as [->|[Hcs ->]].
  - split; [repeat split; assumption|]. split; [reflexivity|].
    unfold moved. reader_fields. repeat split. lia.
  - split; [|split; [reflexivity|]].
    + unfold ready. reader_fields. repeat split; try assumption.
      unfold cacheCoherent. reader_fields. intros _.
      rewrite (computeState_congr r (cached st r)) by reflexivity.
      now rewrite Hcs.
    + unfold moved. reader_fields. repeat split. lia.
Qed.

Lemma moved_0_stepped (n : Z) (r r1 r' : Reader.CborReader) :
  moved 0 (Reader.nestingStack r) r (Reader.set_stateComputed false r1) ->
  stepped n r1 r' -> stepped n r r'.
Proof.
  unfold stepped, moved. reader_fields.
  intros (Hd & Ho & Hm & Hx & Ha & Hs & _) (Hd' & Ho' & Hm' & Hx' & Ha' & Hs' & Hc').
  rewrite Hs in Hs'. repeat split; try congruence. lia.
Qed.

Lemma moved_0_moved (n : Z) st (r r1 r' : Reader.CborReader) :
  moved 0 (Reader.nestingStack r) r (Reader.set_stateComputed false r1) ->
  moved n st r1 r' -> moved n st r r'.
Proof.
  unfold moved. reader_fields.
  intros (Hd & Ho & Hm & Hx & Ha & Hs & _) (Hd' & Ho' & Hm' & Hx' & Ha' & Hs' & Hc').
  repeat split; try congruence. lia.
Qed.

Lemma moved_ready (n : Z) (r r' : Reader.CborReader) :
  ready r -> moved n (Reader.nestingStack r) r r' -> 0 <= n -> ready r'.
Proof.
  intros (Ho & Hmax & Hc & Hf) (Hd & Ho' & Hm & Hx & Ha & Hs & Hsc) Hn.
  unfold ready, cacheCoherent. rewrite Hd, Ho', Hs, Hsc.
  repeat split; try assumption; try lia; try discriminate.
Qed.

Lemma moved_stepped (n m : Z) (r r1 r2 : Reader.CborReader) :
  moved n (Reader.nestingStack r) r r1 -> stepped m r1 r2 ->
  stepped (n + m) r r2.
Proof.
  unfold stepped, moved.
  intros (Hd & Ho & Hm & Hx & Ha & Hs & _)
         (Hd' & Ho' & Hm' & Hx' & Ha' & Hs' & Hc').
  rewrite Hs in Hs'. repeat split; try congruence. lia.
Qed.

Lemma moved_remaining (n : Z) st (r r' : Reader.CborReader)
      (item rest : list Z) :
  0 <= Reader.offset r -> moved n st r r' ->
  n = len item -> remaining r = item ++ rest -> remaining r' = rest.
Proof.
  intros Ho Hm. apply (stepped_remaining n r r' item rest Ho).
  right. now exists st.
Qed.


(** ** Writing a data item in any context *)

Lemma emit_appended (out : list Z) (w : Writer.CborWriter) :
  Writer.emit (fun b => b ++ out) w = Ok tt (appended out w).
Proof. reflexivity. Qed.

Lemma writeMinimalInitialByte_appended (mt : MajorType) (v : Z)
      (w : Writer.CborWriter) :
  0 <= v < 2^64 ->
  Writer.writeMinimalInitialByte mt v w
  = Ok tt (appended (writeArgument_spec mt v) w).
Proof.
  intros Hv. unfold Writer.writeMinimalInitialByte, Writer.emit, modify.
  rewrite appendInitialByte_spec by exact Hv. reflexivity.
Qed.

Lemma advanceContainer_itemWritten (out : list Z) (w : Writer.CborWriter) :
  Writer.advanceContainer (appended out w) = Ok tt (itemWritten out w).
Proof.
  unfold Writer.advanceContainer, modify, itemWritten, appended.
  writer_fields. reflexivity.
Qed.

Lemma appended_appended (a b : list Z) (w : Writer.CborWriter) :
  appended b (appended a w) = appended (a ++ b) w.
Proof.
  unfold appended. writer_fields. rewrite <- app_assoc. reflexivity.
Qed.

Lemma WriteUint64_item (v : Z) (w : Writer.CborWriter) :
  0 <= v < 2^64 ->
  Writer.WriteUint64 v w
  = Ok tt (itemWritten (writeArgument_spec MajorTypeUnsignedInteger v) w).
Proof.
  intros Hv. unfold Writer.WriteUint64, bind.
  rewrite writeMinimalInitialByte_appended by exact Hv.
  apply advanceContainer_itemWritten.
Qed.

Lemma WriteInt64_item (i : Z) (w : Writer.CborWriter) :
  MinInt64 <= i <= MaxInt64 ->
  Writer.WriteInt64 i w = Ok tt (itemWritten (encInt64 i) w).
Proof.
  unfold MinInt64, MaxInt64. intros Hi.
  unfold Writer.WriteInt64, encInt64, bind.
  destruct (Z.leb_spec 0 i).
  - rewrite to_uint64_small by lia.
    rewrite writeMinimalInitialByte_appended by lia.
    apply advanceContainer_itemWritten.
  - rewrite to_int64_small by (unfold MinInt64, MaxInt64; lia).
    rewrite to_uint64_small by lia.
    rewrite writeMinimalInitialByte_appended by lia.
    apply advanceContainer_itemWritten.
Qed.

Lemma WriteByteString_item (bs : list Z) (w : Writer.CborWriter) :
  len bs < 2^64 ->
  Writer.WriteByteString bs w
  = Ok tt (itemWritten (encString MajorTypeByteString bs) w).
Proof.
  intros Hl. pose proof (len_nonneg bs).
  unfold Writer.WriteByteString, bind.
  rewrite to_uint64_small by lia.
  rewrite writeMinimalInitialByte_appended by lia.
  rewrite emit_appended, appended_appended.
  apply advanceContainer_itemWritten.
Qed.

Lemma WriteTextString_item (s : list Z) (w : Writer.CborWriter) :
  len s < 2^64 ->
  Writer.WriteTextString s w
  = Ok tt (itemWritten (encString MajorTypeTextString s) w).
Proof.
  intros Hl. pose proof (len_nonneg s).
  unfold Writer.WriteTextString, bind.
  rewrite to_uint64_small by lia.
  rewrite writeMinimalInitialByte_appended by lia.
  rewrite emit_appended, appended_appended.
  apply advanceContainer_itemWritten.
Qed.

Lemma WriteTag_appended (tag : Z) (w : Writer.CborWriter) :
  0 <= tag < 2^64 ->
  Writer.WriteTag tag w
  = Ok tt (appended (writeArgument_spec MajorTypeTag tag) w).
Proof. apply writeMinimalInitialByte_appended. Qed.

Lemma WriteBoolean_item (value : bool) (w : Writer.CborWriter) :
  Writer.WriteBoolean value w = Ok tt (itemWritten (encBoolean value) w).
Proof.
  unfold Writer.WriteBoolean, bind. destruct value;
    (match goal with
     | |- context [Writer.emit (fun b => b ++ ?out) w] =>
         rewrite (emit_appended out w)
     end; apply advanceContainer_itemWritten).
Qed.

Lemma WriteNull_item (w : Writer.CborWriter) :
  Writer.WriteNull w = Ok tt (itemWritten [0xF6] w).
Proof.
  unfold Writer.WriteNull, bind.
  match goal with
  | |- context [Writer.emit (fun b => b ++ ?out) w] =>
      rewrite (emit_appended out w)
  end. apply advanceContainer_itemWritten.
Qed.

Lemma WriteUndefined_item (w : Writer.CborWriter) :
  Writer.WriteUndefined w = Ok tt (itemWritten [0xF7] w).
Proof.
  unfold Writer.WriteUndefined, bind.
  match goal with
  | |- context [Writer.emit (fun b => b ++ ?out) w] =>
      rewrite (emit_appended out w)
  end. apply advanceContainer_itemWritten.
Qed.

Lemma WriteSimpleValue_item (value : Z) (w : Writer.CborWriter) :
  0 <= value < 256 ->
  Writer.WriteSimpleValue value w
  = Ok tt (itemWritten (encSimpleValue value) w).
Proof.
  intros Hv. unfold Writer.WriteSimpleValue, encSimpleValue, bind.
  destruct (Z.ltb_spec value 32).
  - rewrite to_byte_small by lia.
    rewrite encodeInitialByte_arith by lia.
    match goal with
    | |- context [Writer.emit (fun b => b ++ ?out) w] =>
        rewrite (emit_appended out w)
    end. apply advanceContainer_itemWritten.
  - rewrite (to_byte_small value) by lia.
    match goal with
    | |- context [Writer.emit (fun b => b ++ ?out) w] =>
        rewrite (emit_appended out w)
    end. apply advanceContainer_itemWritten.
Qed.

Lemma WriteFloat32_item (bits : Z) (w : Writer.CborWriter) :
  0 <= bits < 2^32 ->
  Writer.WriteFloat32 bits w = Ok tt (itemWritten (encFloat32 bits) w).
Proof.
  intros Hb. unfold Writer.WriteFloat32, bind, Writer.emit, modify.
  rewrite AppendUint32_be by exact Hb. rewrite <- app_assoc.
  apply advanceContainer_itemWritten.
Qed.

Lemma WriteFloat64_item (bits : Z) (w : Writer.CborWriter) :
  0 <= bits < 2^64 ->
  Writer.WriteFloat64 bits w = Ok tt (itemWritten (encFloat64 bits) w).
Proof.
  intros Hb. unfold Writer.WriteFloat64, bind, Writer.emit, modify.
  rewrite AppendUint64_be by exact Hb. rewrite <- app_assoc.
  apply advanceContainer_itemWritten.
Qed.


(** ** Round trips of the data items without items inside *)

Lemma readsBack_intro {A : Type} (read : M Reader.CborReader A)
      (P : Reader.CborReader -> Prop) (out : list Z) (a : A) :
  (forall r rest, ready r -> P r -> remaining r = out ++ rest ->
     exists r', read r = Ok a r' /\ stepped (len out) r r') ->
  readsBack read P out a.
Proof.
  intros H r rest Hr HP Hrem. destruct (H r rest Hr HP Hrem) as (r' & Hrun & Hst).
  exists r'. split; [exact Hrun|]. split; [exact Hst|].
  apply (stepped_remaining (len out) r r' out rest); auto. apply Hr.
Qed.

Lemma fresh_ready (data : list Z) (mode : CborConformanceMode) :
  len data <= MaxInt64 ->
  ready (Reader.NewCborReader data [Reader.WithReaderConformanceMode mode]).
Proof.
  intros H.
  unfold ready, cacheCoherent, Reader.NewCborReader,
    Reader.WithReaderConformanceMode.
  cbn [fold_left]. reader_fields.
  split; [lia|]. split; [exact H|]. split; [discriminate|exact I].
Qed.

Lemma string_length_item (s : list Z) :
  len s < 2^64 ->
  (forall w, Writer.WriteByteString s w
             = Ok tt (itemWritten (encString MajorTypeByteString s) w))
  /\ (forall w, Writer.WriteTextString s w
                = Ok tt (itemWritten (encString MajorTypeTextString s) w)).
Proof.
  intros H. split; intros w.
  - now apply WriteByteString_item.
  - now apply WriteTextString_item.
Qed.

(** X5.  A byte string or a text string of fewer than 2^64 bytes is
    written, in every state of the encoder, as the minimal head of its
    length followed by its bytes, and counts as one item; on every input
    that continues with these bytes [ReadByteString] and [ReadTextString]
    return the string, consume exactly these bytes and count one item.
    [ReadTextString] does so in the lax mode for any bytes, and in the
    strict and canonical modes when the bytes are valid UTF-8. *)
Theorem string_round_trip
  (utf8Valid : list Z -> bool) (s : list Z) (Hlen : len s < 2^64) :
  writesItem (Writer.WriteByteString s) (encString MajorTypeByteString s)
  /\ readsBack Reader.ReadByteString anyReader
       (encString MajorTypeByteString s) s
  /\ writesItem (Writer.WriteTextString s) (encString MajorTypeTextString s)
  /\ readsBack (Reader.ReadTextString utf8Valid)
       (fun r => Reader.strict r = true -> utf8Valid s = true)
       (encString MajorTypeTextString s) s.
Proof.
  split; [|split; [|split]].
  - intros w. now apply WriteByteString_item.
  - apply readsBack_intro. intros r rest Hr _ Hrem.
    now apply (ReadByteString_item r s rest).
  - intros w. now apply WriteTextString_item.
  - apply readsBack_intro. intros r rest Hr Hu Hrem.
    apply (ReadTextString_item utf8Valid r s rest); try assumption.
    unfold Reader.invalidUtf8. destruct (Reader.strict r); [|reflexivity].
    rewrite (Hu eq_refl). reflexivity.
Qed.

Lemma string_round_trip_witness :
  len [0x68; 0x69] < 2^64
  /\ written [] (Writer.WriteTextString [0x68; 0x69]) = [0x62; 0x68; 0x69]
  /\ outcome (Reader.ReadTextString (fun _ => true)
                (Reader.NewCborReader [0x62; 0x68; 0x69]
                   [Reader.WithReaderConformanceMode ConformanceStrict]))
     = Returned [0x68; 0x69].
Proof.
  assert (H : len [0x68; 0x69] < 2^64) by (cbn; lia).
  split; [exact H|]. split; [reflexivity|].
  destruct (string_round_trip (fun _ => true) [0x68; 0x69] H)
    as (_ & _ & _ & Hr).
  destruct (Hr (Reader.NewCborReader [0x62; 0x68; 0x69]
                  [Reader.WithReaderConformanceMode ConformanceStrict]) [])
    as (r' & Hrun & _).
  - apply fresh_ready. cbn. unfold MaxInt64. lia.
  - reflexivity.
  - reflexivity.
  - rewrite Hrun. reflexivity.
Defined.

Lemma ReadTextString_invalid (utf8Valid : list Z -> bool)
      (r : Reader.CborReader) (s rest : list Z) :
  ready r -> Reader.invalidUtf8 utf8Valid r s = true ->
  remaining r = encString MajorTypeTextString s ++ rest ->
  exists r',
    Reader.ReadTextString utf8Valid r = Err ErrInvalidUtf8 r'
    /\ moved (len (writeArgument_spec MajorTypeTextString (len s)))
             (Reader.nestingStack r) r r'.
Proof.
  intros Hr Hutf Hrem. unfold Reader.ReadTextString.
  run_string MajorTypeTextString s rest Hr Hrem.
  change (CborReaderState_eqb StateTextString
            StateStartIndefiniteLengthTextString) with false.
  cbn beta iota. unfold bind at 1. rewrite expect_same. cbn beta iota.
  run_invalidate.
  run_head MajorTypeTextString (len s) (s ++ rest) Hr Hv Hrem'.
  match goal with
  | |- context [bind (Reader.readPayload _) _ ?r1] =>
      destruct (readPayload_written r1 s rest) as [He Hp];
        [reader_fields; destruct Hr as (? & ? & _);
         pose proof (len_writeArgument_spec_bounds MajorTypeTextString
                       (len s)); pose proof (len_nonneg s); lia
        |reader_fields; apply Hr
        |apply (remaining_after
                  (Reader.set_stateComputed false (cached StateTextString r)));
         [apply Hr|exact Hrem']
        |unfold bind at 1; rewrite Hp; cbn beta iota;
         unfold bind at 1, get; cbn beta iota;
         unfold bind at 1, failIf;
         change (Reader.invalidUtf8 utf8Valid r1 s)
           with (Reader.invalidUtf8 utf8Valid r s);
         rewrite Hutf; unfold throw; cbn beta iota]
  end.
  eexists. split; [reflexivity|]. unfold moved. reader_fields.
  repeat split.
Qed.

(** X6.  In the strict and canonical modes [ReadTextString] refuses a text
    string whose bytes are not valid UTF-8 with [InvalidUtf8]; the head of
    the string has been consumed by then, its bytes have not, and the
    enclosing frame has not counted the item. *)
Theorem text_string_utf8_checked
  (utf8Valid : list Z -> bool) (r : Reader.CborReader) (s rest : list Z)
  (Hready : ready r)
  (Hstrict : Reader.strict r = true)
  (Hinvalid : utf8Valid s = false)
  (Hinput : remaining r = encString MajorTypeTextString s ++ rest) :
  exists r',
    Reader.ReadTextString utf8Valid r = Err ErrInvalidUtf8 r'
    /\ Reader.offset r'
       = Reader.offset r + len (writeArgument_spec MajorTypeTextString (len s))
    /\ remaining r' = s ++ rest
    /\ Reader.nestingStack r' = Reader.nestingStack r.
Proof.
  destruct (ReadTextString_invalid utf8Valid r s rest Hready) as (r' & Hrun & Hm).
  - unfold Reader.invalidUtf8. now rewrite Hstrict, Hinvalid.
  - exact Hinput.
  - exists r'. split; [exact Hrun|]. split; [apply Hm|].
    split; [|apply Hm].
    apply (stepped_remaining
             (len (writeArgument_spec MajorTypeTextString (len s))) r r'
             (writeArgument_spec MajorTypeTextString (len s)) (s ++ rest)).
    + apply Hready.
    + right. eexists. exact Hm.
    + reflexivity.
    + rewrite Hinput. unfold encString. now rewrite <- app_assoc.
Qed.

Lemma text_string_utf8_checked_witness :
  let r := Reader.NewCborReader [0x61; 0xFF]
             [Reader.WithReaderConformanceMode ConformanceStrict] in
  exists r',
    Reader.ReadTextString (fun s => negb (existsb (Z.eqb 0xFF) s)) r
    = Err ErrInvalidUtf8 r'
    /\ Reader.offset r' = 1.
Proof.
  cbv zeta.
  destruct (text_string_utf8_checked
              (fun s => negb (existsb (Z.eqb 0xFF) s))
              (Reader.NewCborReader [0x61; 0xFF]
                 [Reader.WithReaderConformanceMode ConformanceStrict])
              [0xFF] [])
    as (r' & Hrun & Hoff & _).
  - apply fresh_ready. cbn. unfold MaxInt64. lia.
  - reflexivity.
  - reflexivity.
  - reflexivity.
  - exists r'. split; [exact Hrun|]. rewrite Hoff. reflexivity.
Defined.

(** X7.  Booleans, null and undefined are written as the single bytes
    0xF4/0xF5, 0xF6 and 0xF7 and count as one item each; [ReadBoolean],
    [ReadNull] and [ReadUndefined] read them back in every context and
    conformance mode, consuming that byte and counting one item. *)
Theorem boolean_null_undefined_round_trip (value : bool) :
  writesItem (Writer.WriteBoolean value) (encBoolean value)
  /\ readsBack Reader.ReadBoolean anyReader (encBoolean value) value
  /\ writesItem Writer.WriteNull [0xF6]
  /\ readsBack Reader.ReadNull anyReader [0xF6] tt
  /\ writesItem Writer.WriteUndefined [0xF7]
  /\ readsBack Reader.ReadUndefined anyReader [0xF7] tt.
Proof.
  split; [|split; [|split; [|split; [|split]]]].
  - intros w. apply WriteBoolean_item.
  - apply readsBack_intro. intros r rest Hr _ Hrem.
    now apply (ReadBoolean_item r value rest).
  - intros w. apply WriteNull_item.
  - apply readsBack_intro. intros r rest Hr _ Hrem.
    apply (ReadNull_item r 0xF6 rest Hr Hrem); [discriminate|reflexivity].
  - intros w. apply WriteUndefined_item.
  - apply readsBack_intro. intros r rest Hr _ Hrem.
    now apply (ReadUndefined_item r rest).
Qed.

(** X8.  [TryReadNull] returns true on a null and consumes it like
    [ReadNull]; in front of any other data item it returns false and
    leaves the position and the nesting stack as they were. *)
Theorem TryReadNull_consumes_only_null
  (r : Reader.CborReader) (b : Z) (s : list Z) (st : CborReaderState)
  (Hready : ready r)
  (Hinput : remaining r = b :: s)
  (Hbreak : b <> breakByte)
  (Hstate : Reader.classify b r = Ok st r) :
  exists r',
    Reader.TryReadNull r = Ok (CborReaderState_eqb st StateNull) r'
    /\ if CborReaderState_eqb st StateNull
       then stepped 1 r r'
       else Reader.offset r' = Reader.offset r
            /\ Reader.data r' = Reader.data r
            /\ Reader.nestingStack r' = Reader.nestingStack r.
Proof.
  unfold Reader.TryReadNull.
  pose proof (PeekState_item r b s st Hready Hinput Hbreak Hstate) as Hp.
  destruct (PeekState_ready r _ st Hready Hp) as (Hr1 & Hrem1 & Hm).
  unfold bind at 1. rewrite Hp. cbn beta iota.
  destruct (CborReaderState_eqb st StateNull) eqn:Hst.
  - apply CborReaderState_eqb_eq in Hst. subst st.
    destruct (ReadNull_item (cached StateNull r) b s Hr1) as (r' & Hrun & Hs').
    { rewrite Hrem1. exact Hinput. }
    { exact Hbreak. }
    { exact (classify_pure b r r StateNull Hstate _). }
    unfold bind. rewrite Hrun. exists r'. split; [reflexivity|].
    exact (moved_0_stepped 1 r _ r' Hm Hs').
  - eexists. split; [reflexivity|]. reader_fields. repeat split.
Qed.

Lemma TryReadNull_consumes_only_null_witness :
  outcome (Reader.TryReadNull (Reader.NewCborReader [0xF6; 0x01] []))
  = Returned true
  /\ exists r',
       Reader.TryReadNull (Reader.NewCborReader [0x01; 0xF6] [])
       = Ok false r' /\ Reader.offset r' = 0.
Proof.
  split.
  - destruct (TryReadNull_consumes_only_null
                (Reader.NewCborReader [0xF6; 0x01] []) 0xF6 [0x01] StateNull)
      as (r' & Hrun & _).
    + apply (fresh_ready _ ConformanceLax). cbn. unfold MaxInt64. lia.
    + reflexivity.
    + discriminate.
    + reflexivity.
    + rewrite Hrun. reflexivity.
  - destruct (TryReadNull_consumes_only_null
                (Reader.NewCborReader [0x01; 0xF6] []) 0x01 [0xF6]
                StateUnsignedInteger)
      as (r' & Hrun & Hoff & _).
    + apply (fresh_ready _ ConformanceLax). cbn. unfold MaxInt64. lia.
    + reflexivity.
    + discriminate.
    + reflexivity.
    + exists r'. split; [exact Hrun|exact Hoff].
Defined.

(** The classification of the byte in front of a decoder. *)
Lemma computeState_ready (r : Reader.CborReader) (b : Z) (rest : list Z) :
  ready r -> remaining r = b :: rest -> b <> breakByte ->
  Reader.computeState r = Reader.classify b r.
Proof.
  intros (Ho & _ & _ & Hf) Hrem Hb.
  destruct (Reader.nestingStack r) as [|info st] eqn:Hst.
  - exact (computeState_root r b rest Ho Hst Hrem Hb).
  - exact (computeState_in_frame r info st b rest Ho Hst Hf Hrem Hb).
Qed.

(** In front of the break byte the classifier fails or reports the end of
    the enclosing frame. *)
Lemma computeState_at_break (r : Reader.CborReader) (rest : list Z) :
  ready r -> remaining r = breakByte :: rest ->
  (exists e, Reader.computeState r = Err e r)
  \/ (exists st,
        Reader.computeState r = Ok st r
        /\ (st = StateEndArray \/ st = StateEndMap
            \/ st = StateEndIndefiniteLengthByteString
            \/ st = StateEndIndefiniteLengthTextString)).
Proof.
  intros (Ho & _ & _ & Hf) Hrem.
  unfold Reader.computeState, Reader.classify. unfold_monad.
  rewrite len_leb_skipn, index_skipn by exact Ho.
  unfold remaining in Hrem. rewrite Hrem. cbn [hd_error].
  change (breakByte =? breakByte) with true. cbn beta iota.
  destruct (Reader.nestingStack r) as [|info st].
  - left. eexists. reflexivity.
  - rewrite Hf. destruct (Reader.isIndefinite info); cbn [negb].
    + destruct (Reader.majorType info);
        try (left; eexists; reflexivity);
        try (right; eexists; split; [reflexivity|tauto]).
      destruct (Reader.keyRead info);
        [left; eexists; reflexivity
        |right; eexists; split; [reflexivity|tauto]].
    + left. eexists. reflexivity.
Qed.

(** [ReadSimpleValue] fails, and consumes nothing, where the classifier
    fails or reports a state that is not a simple value. *)
Lemma ReadSimpleValue_refused (r : Reader.CborReader) :
  cacheCoherent r ->
  (exists e, Reader.computeState r = Err e r)
  \/ (exists st,
        Reader.computeState r = Ok st r
        /\ st <> StateSimpleValue /\ st <> StateBoolean
        /\ st <> StateNull /\ st <> StateUndefinedValue) ->
  exists e r',
    Reader.ReadSimpleValue r = Err e r'
    /\ Reader.data r' = Reader.data r
    /\ Reader.offset r' = Reader.offset r
    /\ Reader.nestingStack r' = Reader.nestingStack r.
Proof.
  intros Hc Hcs. unfold Reader.ReadSimpleValue.
  destruct (Reader.stateComputed r) eqn:Hsc.
  - specialize (Hc Hsc). destruct Hcs as [[e He]|(st & Hst & Hn)];
      [rewrite He in Hc; discriminate|].
    rewrite Hst in Hc. inversion Hc as [Heq].
    unfold Reader.PeekState. unfold_monad. rewrite Hsc.
    rewrite <- Heq.
    destruct st; try (exfalso; tauto);
      (eexists; eexists; split; [reflexivity|repeat split]).
  - unfold bind at 1. rewrite PeekState_fresh by exact Hsc.
    destruct Hcs as [[e ->]|(st & -> & Hn)].
    + eexists. eexists. split; [reflexivity|repeat split].
    + destruct st; try (exfalso; tauto);
        (eexists; eexists; split; [reflexivity|repeat split]).
Qed.

(** The byte 0xF8 is the head of a two-byte simple value: [ReadSimpleValue]
    returns the byte that follows it. *)
Ltac simple_head r rest Hr Hrem :=
  unfold Reader.ReadSimpleValue;
  run_peek (PeekState_item r 0xF8 rest StateSimpleValue Hr Hrem
              ltac:(discriminate) eq_refl);
  run_invalidate; unfold bind at 1, get; cbn beta iota;
  unfold bind at 1; reader_fields;
  rewrite (index_remaining r _ rest) by (apply Hr || exact Hrem);
  unfold orPanic at 1, ret at 1; cbn beta iota;
  unfold bind at 1, Reader.advance, modify;
  change (snd (decodeInitialByte 0xF8) =? 24) with true; cbn beta iota;
  unfold bind at 1; unfold bind at 1, get; cbn beta iota; reader_fields;
  unfold bind at 1, failIf.

Lemma ReadSimpleValue_two_bytes (r : Reader.CborReader) (rest : list Z) :
  ready r -> remaining r = 0xF8 :: rest ->
  match rest with
  | [] => exists r', Reader.ReadSimpleValue r = Err ErrUnexpectedEndOfData r'
  | b :: _ =>
      if Reader.strict r && (b <? 32)
      then exists r', Reader.ReadSimpleValue r = Err ErrNonCanonical r'
      else exists r', Reader.ReadSimpleValue r = Ok b r' /\ stepped 2 r r'
  end.
Proof.
  intros Hr Hrem.
  pose proof (remaining_len r _ _ ltac:(apply Hr) Hrem) as Hl.
  destruct rest as [|b rest'].
  - change (len (@nil Z)) with 0 in Hl.
    simple_head r (@nil Z) Hr Hrem.
    destruct (Z.leb_spec (len (Reader.data r)) (Reader.offset r + 1)); [|lia].
    unfold throw. eexists. reflexivity.
  - rewrite len_cons in Hl. pose proof (len_nonneg rest').
    assert (Hi : index (Reader.data r) (Reader.offset r + 1) = Some b).
    { destruct Hr as (Ho & _). rewrite index_skipn by lia.
      rewrite skipn_add by lia. unfold remaining in Hrem. now rewrite Hrem. }
    destruct (Reader.strict r && (b <? 32)) eqn:Hs;
      simple_head r (b :: rest') Hr Hrem;
      (destruct (Z.leb_spec (len (Reader.data r)) (Reader.offset r + 1));
       [lia|]);
      unfold ret at 1; cbn beta iota; unfold bind at 1;
      rewrite Hi; unfold orPanic, ret at 1; cbn beta iota;
      unfold bind at 1, modify; unfold bind at 1; reader_fields;
      match goal with
      | |- context [Reader.strict ?x && _] =>
          change (Reader.strict x) with (Reader.strict r)
      end; rewrite Hs.
    + unfold throw. eexists. reflexivity.
    + unfold ret at 1. cbn beta iota. unfold ret at 1. cbn beta iota.
      finish_item 2 r.
Qed.

(** X9.  [WriteSimpleValue] writes a value below 32 as the single byte
    0xE0 + value and a larger one as 0xF8 followed by the value.
    [ReadSimpleValue] reads back, in every context and conformance mode,
    the values below 24 (false, true, null and undefined among them) and
    the values from 32 to 255.  The values 24 to 31 are not read back.
    For 25 to 31 the byte written is the head of a float, a reserved head
    or the break byte: [ReadSimpleValue] fails on it in every context and
    consumes nothing.  For 24 the byte written, 0xF8, is the head of a
    two-byte simple value: [ReadSimpleValue] takes the byte that follows,
    whatever it belongs to, as the value, and returns it (or fails with
    [NonCanonical] in the strict modes when it is below 32, or with
    [UnexpectedEndOfData] when nothing follows). *)
Theorem simple_value_round_trip (value : Z) (Hvalue : 0 <= value < 256) :
  writesItem (Writer.WriteSimpleValue value) (encSimpleValue value)
  /\ (value < 24 \/ 32 <= value ->
      readsBack Reader.ReadSimpleValue anyReader (encSimpleValue value) value)
  /\ (25 <= value < 32 ->
      forall (r : Reader.CborReader) (rest : list Z),
        ready r -> remaining r = encSimpleValue value ++ rest ->
        exists e r',
          Reader.ReadSimpleValue r = Err e r'
          /\ Reader.data r' = Reader.data r
          /\ Reader.offset r' = Reader.offset r
          /\ Reader.nestingStack r' = Reader.nestingStack r)
  /\ (value = 24 ->
      forall (r : Reader.CborReader) (rest : list Z),
        ready r -> remaining r = encSimpleValue value ++ rest ->
        match rest with
        | [] =>
            exists r',
              Reader.ReadSimpleValue r = Err ErrUnexpectedEndOfData r'
        | b :: _ =>
            if Reader.strict r && (b <? 32)
            then exists r', Reader.ReadSimpleValue r = Err ErrNonCanonical r'
            else exists r',
                   Reader.ReadSimpleValue r = Ok b r' /\ stepped 2 r r'
        end).
Proof.
  split; [|split; [|split]].
  - intros w. now apply WriteSimpleValue_item.
  - intros Hr. apply readsBack_intro. intros r rest Hrd _ Hrem.
    apply (ReadSimpleValue_item r value rest); try assumption. lia.
  - intros Hv r rest Hr Hrem.
    apply ReadSimpleValue_refused; [apply Hr|].
    unfold encSimpleValue in Hrem.
    destruct (Z.ltb_spec value 32); [|lia]. cbn [app] in Hrem.
    assert (Hc : value = 25 \/ value = 26 \/ value = 27 \/ value = 28
                 \/ value = 29 \/ value = 30 \/ value = 31) by lia.
    destruct Hc as [->|[->|[->|[->|[->|[->| ->]]]]]];
      try (rewrite (computeState_ready r _ rest Hr Hrem)
             by (unfold breakByte; lia);
           first [ left; eexists; reflexivity
                 | right; eexists; split; [reflexivity|];
                   repeat split; discriminate ]).
    destruct (computeState_at_break r rest Hr Hrem)
      as [He|(st & Hst & Hend)]; [left; exact He|].
    right. exists st. split; [exact Hst|].
    destruct Hend as [->|[->|[->| ->]]]; repeat split; discriminate.
  - intros -> r rest Hr Hrem.
    exact (ReadSimpleValue_two_bytes r rest Hr Hrem).
Qed.

Lemma simple_value_round_trip_witness :
  let inArray :=
    Reader.mkCborReader [0x82; 0xF8; 0x05] 1 ConformanceLax
      [Reader.mkReaderNestingInfo MajorTypeArray 2 0 false false false]
      64 StateUndefined false false in
  0 <= 200 < 256
  /\ written [] (Writer.WriteSimpleValue 200) = [0xF8; 200]
  /\ outcome (Reader.ReadSimpleValue (Reader.NewCborReader [0xF8; 200] []))
     = Returned 200
  /\ written [] (Writer.WriteStartArray 2 ;; Writer.WriteSimpleValue 24 ;;
                 Writer.WriteUint64 5 ;; Writer.WriteEndArray)
     = [0x82; 0xF8; 0x05]
  /\ outcome (Reader.ReadSimpleValue inArray) = Returned 5
  /\ (exists e,
        outcome (Reader.ReadSimpleValue
                   (Reader.NewCborReader
                      (written [] (Writer.WriteSimpleValue 25)) []))
        = Failed e).
Proof.
  cbv zeta.
  assert (H : 0 <= 200 < 256) by lia.
  split; [exact H|]. split; [reflexivity|]. split; [|split; [reflexivity|]].
  - destruct (simple_value_round_trip 200 H) as (_ & Hr & _).
    destruct (Hr ltac:(lia) (Reader.NewCborReader [0xF8; 200] []) [])
      as (r' & Hrun & _).
    + apply (fresh_ready _ ConformanceLax). cbn. unfold MaxInt64. lia.
    + exact I.
    + reflexivity.
    + rewrite Hrun. reflexivity.
  - split.
    + destruct (simple_value_round_trip 24 ltac:(lia)) as (_ & _ & _ & H24).
      pose proof (H24 eq_refl
                    (Reader.mkCborReader [0x82; 0xF8; 0x05] 1 ConformanceLax
                       [Reader.mkReaderNestingInfo MajorTypeArray 2 0 false
                          false false]
                       64 StateUndefined false false)
                    [0x05]) as Hrun.
      cbn beta iota in Hrun.
      destruct Hrun as (r' & Hrun & _).
      * unfold ready, cacheCoherent. reader_fields.
        split; [lia|]. split; [cbn; unfold MaxInt64; lia|].
        split; [discriminate|reflexivity].
      * reflexivity.
      * rewrite Hrun. reflexivity.
    + destruct (simple_value_round_trip 25 ltac:(lia)) as (_ & _ & H25 & _).
      destruct (H25 ltac:(lia)
                  (Reader.NewCborReader
                     (written [] (Writer.WriteSimpleValue 25)) []) [])
        as (e & r' & Hrun & _).
      * apply (fresh_ready _ ConformanceLax). cbn. unfold MaxInt64. lia.
      * reflexivity.
      * exists e. rewrite Hrun. reflexivity.
Defined.

Lemma tagged_item {A : Type} (read : M Reader.CborReader A)
      (P : Reader.CborReader -> Prop) (tag : Z) (out : list Z) (a : A) :
  0 <= tag < 2^64 ->
  (forall n r r', P r -> moved n (Reader.nestingStack r) r r' -> P r') ->
  readsBack read P out a ->
  readsBack (t <- Reader.ReadTag ;; x <- read ;; ret (t, x)) P
            (writeArgument_spec MajorTypeTag tag ++ out) (tag, a).
Proof.
  intros Ht HP Hread. apply readsBack_intro. intros r rest Hr HPr Hrem.
  rewrite <- app_assoc in Hrem.
  destruct (ReadTag_item r tag (out ++ rest) Hr Ht Hrem) as (r1 & Hrun & Hm).
  pose proof (len_writeArgument_spec_bounds MajorTypeTag tag) as Hb.
  assert (Hr1 : ready r1) by (apply (moved_ready _ r r1 Hr Hm); lia).
  assert (Hrem1 : remaining r1 = out ++ rest).
  { apply (moved_remaining (len (writeArgument_spec MajorTypeTag tag))
             (Reader.nestingStack r) r r1
             (writeArgument_spec MajorTypeTag tag));
      try assumption; try reflexivity. apply Hr. }
  destruct (Hread r1 rest Hr1 (HP _ r r1 HPr Hm) Hrem1)
    as (r2 & Hrun2 & Hst & _).
  unfold bind. rewrite Hrun, Hrun2. exists r2. split; [reflexivity|].
  rewrite len_app. exact (moved_stepped _ _ r r1 r2 Hm Hst).
Qed.

(** X10.  [WriteUri] and [WriteEncodedCborData] write the tags 32 and 24
    followed by the text or byte string, and the tagged string counts as
    one item of the enclosing container; [ReadTag] followed by
    [ReadTextString] or [ReadByteString] returns the tag and the string in
    every context.  [WriteSelfDescribedCbor] writes the three bytes
    0xD9 0xD9 0xF7 and counts nothing. *)
Theorem tagged_string_round_trip
  (utf8Valid : list Z -> bool) (s : list Z) (Hlen : len s < 2^64) :
  writesItem (Writer.WriteUri s)
    (writeArgument_spec MajorTypeTag TagURI
       ++ encString MajorTypeTextString s)
  /\ readsBack (t <- Reader.ReadTag ;;
                x <- Reader.ReadTextString utf8Valid ;; ret (t, x))
       (fun r => Reader.strict r = true -> utf8Valid s = true)
       (writeArgument_spec MajorTypeTag TagURI
          ++ encString MajorTypeTextString s) (TagURI, s)
  /\ writesItem (Writer.WriteEncodedCborData s)
       (writeArgument_spec MajorTypeTag TagEncodedCborData
          ++ encString MajorTypeByteString s)
  /\ readsBack (t <- Reader.ReadTag ;;
                x <- Reader.ReadByteString ;; ret (t, x))
       anyReader
       (writeArgument_spec MajorTypeTag TagEncodedCborData
          ++ encString MajorTypeByteString s) (TagEncodedCborData, s)
  /\ (forall w, Writer.WriteSelfDescribedCbor w
                = Ok tt (appended [0xD9; 0xD9; 0xF7] w)).
Proof.
  destruct (string_length_item s Hlen) as (Hwb & Hwt).
  split; [|split; [|split; [|split]]].
  - intros w. unfold Writer.WriteUri, bind.
    rewrite WriteTag_appended by (unfold TagURI; lia).
    rewrite Hwt. unfold itemWritten, appended. writer_fields.
    rewrite <- !app_assoc. reflexivity.
  - apply tagged_item; [unfold TagURI; lia| |].
    + intros n r r' HP (_ & _ & Hm & _). unfold Reader.strict in *.
      now rewrite Hm.
    + apply readsBack_intro. intros r rest Hr Hu Hrem.
      apply (ReadTextString_item utf8Valid r s rest); try assumption.
      unfold Reader.invalidUtf8. destruct (Reader.strict r); [|reflexivity].
      rewrite (Hu eq_refl). reflexivity.
  - intros w. unfold Writer.WriteEncodedCborData, bind.
    rewrite WriteTag_appended by (unfold TagEncodedCborData; lia).
    rewrite Hwb. unfold itemWritten, appended. writer_fields.
    rewrite <- !app_assoc. reflexivity.
  - apply tagged_item; [unfold TagEncodedCborData; lia| |].
    + intros; exact I.
    + apply readsBack_intro. intros r rest Hr _ Hrem.
      now apply (ReadByteString_item r s rest).
  - intros w. unfold Writer.WriteSelfDescribedCbor.
    rewrite WriteTag_appended by (unfold TagSelfDescribedCbor; lia).
    reflexivity.
Qed.

Lemma tagged_string_round_trip_witness :
  len [0x61] < 2^64
  /\ written [] (Writer.WriteUri [0x61]) = [0xD8; 0x20; 0x61; 0x61]
  /\ outcome ((t <- Reader.ReadTag ;;
               x <- Reader.ReadTextString (fun _ => true) ;; ret (t, x))
                (Reader.NewCborReader [0xD8; 0x20; 0x61; 0x61] []))
     = Returned (32, [0x61]).
Proof.
  assert (H : len [0x61] < 2^64) by (cbn; lia).
  split; [exact H|]. split; [reflexivity|].
  destruct (tagged_string_round_trip (fun _ => true) [0x61] H)
    as (_ & Hr & _).
  destruct (Hr (Reader.NewCborReader [0xD8; 0x20; 0x61; 0x61] []) [])
    as (r' & Hrun & _).
  - apply (fresh_ready _ ConformanceLax). cbn. unfold MaxInt64. lia.
  - reflexivity.
  - reflexivity.
  - rewrite Hrun. reflexivity.
Defined.








(** ** Floating-point numbers *)

Lemma lor_range (a b k : Z) :
  0 <= k -> 0 <= a < 2^k -> 0 <= b < 2^k -> 0 <= Z.lor a b < 2^k.
Proof.
  intros Hk Ha Hb. split; [apply Z.lor_nonneg; lia|].
  destruct (Z.eq_dec a 0) as [->|Ha0]; [rewrite Z.lor_0_l; lia|].
  destruct (Z.eq_dec b 0) as [->|Hb0]; [rewrite Z.lor_0_r; lia|].
  assert (Hpos : 0 < Z.lor a b).
  { assert (0 <= Z.lor a b) by (apply Z.lor_nonneg; lia).
    assert (Z.lor a b <> 0) by (rewrite Z.lor_eq_0_iff; tauto). lia. }
  apply Z.log2_lt_pow2; [exact Hpos|].
  rewrite Z.log2_lor by lia.
  apply Z.max_lub_lt; apply Z.log2_lt_pow2; lia.
Qed.

Lemma to_uint16_range (x : Z) : 0 <= to_uint16 x < 2^16.
Proof. unfold to_uint16. apply Z.mod_pos_bound. reflexivity. Qed.

Lemma float32ToFloat16Bits_range (f : Z) :
  0 <= Writer.float32ToFloat16Bits f < 2^16.
Proof.
  unfold Writer.float32ToFloat16Bits. cbv zeta.
  pose proof (to_uint16_range (Z.land (Z.shiftr f 16) 0x8000)) as Hs.
  assert (H7 : 0 <= 0x7C00 < 2^16) by lia.
  repeat match goal with
         | |- context [if ?c then _ else _] => destruct c
         end;
    repeat (apply lor_range; [lia| |]);
    try exact Hs; try exact H7; try apply to_uint16_range.
Qed.

Lemma WriteFloat16_item (value : Z) (w : Writer.CborWriter) :
  Writer.WriteFloat16 value w
  = Ok tt (itemWritten (encFloat16 (Writer.float32ToFloat16Bits value)) w).
Proof.
  unfold Writer.WriteFloat16, bind, Writer.emit, modify. cbv zeta.
  rewrite AppendUint16_be by apply float32ToFloat16Bits_range.
  rewrite <- app_assoc. apply advanceContainer_itemWritten.
Qed.

(** X12.  [WriteFloat32] and [WriteFloat64] write the bit pattern of their
    argument after the bytes 0xFA and 0xFB, and [ReadFloat32] and
    [ReadFloat64] return that bit pattern: every value, NaN payloads and
    signed zeros included, comes back bit for bit.  [WriteFloat16] writes
    0xF9 and the 16 bits that [float32ToFloat16Bits] computes, and
    [ReadFloat16] returns the [float32] that [float16BitsToFloat32] gives
    for 16 bits. *)
Theorem float_bits_round_trip (bits32 bits64 value bits16 : Z)
  (H32 : 0 <= bits32 < 2^32) (H64 : 0 <= bits64 < 2^64)
  (H16 : 0 <= bits16 < 2^16) :
  writesItem (Writer.WriteFloat32 bits32) (encFloat32 bits32)
  /\ readsBack Reader.ReadFloat32 anyReader (encFloat32 bits32) bits32
  /\ writesItem (Writer.WriteFloat64 bits64) (encFloat64 bits64)
  /\ readsBack Reader.ReadFloat64 anyReader (encFloat64 bits64) bits64
  /\ writesItem (Writer.WriteFloat16 value)
       (encFloat16 (Writer.float32ToFloat16Bits value))
  /\ readsBack Reader.ReadFloat16 anyReader (encFloat16 bits16)
       (Writer.float16BitsToFloat32 bits16).
Proof.
  split; [|split; [|split; [|split; [|split]]]].
  - intros w. now apply WriteFloat32_item.
  - apply readsBack_intro. intros r rest Hr _ Hrem.
    now apply (ReadFloat32_item r bits32 rest).
  - intros w. now apply WriteFloat64_item.
  - apply readsBack_intro. intros r rest Hr _ Hrem.
    now apply (ReadFloat64_item r bits64 rest).
  - intros w. apply WriteFloat16_item.
  - apply readsBack_intro. intros r rest Hr _ Hrem.
    now apply (ReadFloat16_item r bits16 rest).
Qed.

Lemma float_bits_round_trip_witness :
  0 <= 0x7FC00001 < 2^32
  /\ written [] (Writer.WriteFloat32 0x7FC00001)
     = [0xFA; 0x7F; 0xC0; 0x00; 0x01]
  /\ outcome (Reader.ReadFloat32
                (Reader.NewCborReader [0xFA; 0x7F; 0xC0; 0x00; 0x01] []))
     = Returned 0x7FC00001.
Proof.
  assert (H : 0 <= 0x7FC00001 < 2^32) by lia.
  split; [exact H|]. split; [reflexivity|].
  destruct (float_bits_round_trip 0x7FC00001 0 0 0 H ltac:(lia) ltac:(lia))
    as (_ & Hr & _).
  destruct (Hr (Reader.NewCborReader [0xFA; 0x7F; 0xC0; 0x00; 0x01] []) [])
    as (r' & Hrun & _).
  - apply (fresh_ready _ ConformanceLax). cbn. unfold MaxInt64. lia.
  - exact I.
  - reflexivity.
  - rewrite Hrun. reflexivity.
Defined.


(** ** Big integers written and read back *)

Lemma bigBytes_pos_value (fuel : nat) :
  forall (x : Z) (acc : list Z),
    0 <= x < 256 ^ Z.of_nat fuel ->
    fold_left (fun a b => a * 256 + b) (Writer.bigBytes_pos fuel x acc) 0
    = fold_left (fun a b => a * 256 + b) acc x.
Proof.
  induction fuel as [|fuel IH]; intros x acc Hx.
  - change (256 ^ Z.of_nat 0) with 1 in Hx.
    replace x with 0 by lia. reflexivity.
  - cbn [Writer.bigBytes_pos].
    destruct (Z.eqb_spec x 0) as [->|Hne]; [reflexivity|].
    rewrite Nat2Z.inj_succ, Z.pow_succ_r in Hx by lia.
    rewrite Z.shiftr_div_pow2 by lia. change (2^8) with 256.
    rewrite IH by (Z.div_mod_to_equations; nia).
    cbn [fold_left]. unfold to_byte. change (2^8) with 256.
    f_equal. Z.div_mod_to_equations. lia.
Qed.

Lemma SetBytes_bigBytes (x : Z) :
  0 <= x -> Reader.SetBytes (Writer.bigBytes x) = x.
Proof.
  intros Hx. unfold Reader.SetBytes, Writer.bigBytes.
  rewrite bigBytes_pos_value; [reflexivity|].
  split; [exact Hx|].
  destruct (Z.eq_dec x 0) as [->|Hne].
  - apply Z.pow_pos_nonneg; lia.
  - pose proof (Z.log2_spec x ltac:(lia)) as [_ Hlt].
    pose proof (Z.log2_nonneg x) as Hl.
    replace (Z.of_nat (Z.to_nat (Z.log2 x) + 1)) with (Z.succ (Z.log2 x))
      by lia.
    eapply Z.lt_le_trans; [exact Hlt|].
    apply Z.pow_le_mono_l. lia.
Qed.

Lemma WriteBigInt_item (z : Z) (w : Writer.CborWriter) :
  len (Writer.bigBytes (bigMagnitude z)) < 2^64 ->
  Writer.WriteBigInt (Some z) w = Ok tt (itemWritten (encBigInt z) w).
Proof.
  intros Hlen. unfold Writer.WriteBigInt, encBigInt, bigMagnitude in *.
  destruct ((MinInt64 <=? z) && (z <=? MaxInt64)) eqn:H64.
  { apply andb_true_iff in H64. destruct H64 as [H1 H2].
    apply Z.leb_le in H1, H2. now apply WriteInt64_item. }
  destruct ((0 <=? z) && (z <? 2^64)) eqn:Hu64.
  { apply andb_true_iff in Hu64. destruct Hu64 as [H1 H2].
    apply Z.leb_le in H1. apply Z.ltb_lt in H2.
    now apply WriteUint64_item. }
  destruct (0 <=? z); cbn beta iota; unfold bind;
    (rewrite WriteTag_appended
       by (unfold TagUnsignedBignum, TagNegativeBignum; lia));
    rewrite WriteByteString_item by exact Hlen;
    unfold itemWritten, appended; writer_fields;
    rewrite <- !app_assoc; reflexivity.
Qed.

Lemma ReadBigInt_item (z : Z) (r : Reader.CborReader) (rest : list Z) :
  ready r -> remaining r = encBigInt z ++ rest ->
  exists r',
    Reader.ReadBigInt r = Ok z r' /\ stepped (len (encBigInt z)) r r'.
Proof.
  intros Hr Hrem. unfold encBigInt in *. unfold Reader.ReadBigInt.
  destruct ((MinInt64 <=? z) && (z <=? MaxInt64)) eqn:H64.
  { apply andb_true_iff in H64. destruct H64 as [H1 H2].
    apply Z.leb_le in H1, H2. unfold encInt64 in *.
    unfold MinInt64, MaxInt64 in *.
    destruct (Z.leb_spec 0 z).
    - assert (Hv : 0 <= z < 2^64) by lia.
      pose proof (PeekState_written_head r MajorTypeUnsignedInteger z rest Hr
                    Hv ltac:(discriminate) Hrem) as Hp.
      destruct (PeekState_ready r _ _ Hr Hp) as (Hr1 & Hrem1 & Hm).
    cbn [headState] in Hr1, Hrem1, Hm.
      unfold bind at 1. rewrite Hp. cbn [headState]. cbn beta iota.
      destruct (ReadUint64_item (cached StateUnsignedInteger r) z rest Hr1 Hv)
        as (r' & Hrun & Hst); [now rewrite Hrem1|].
      unfold bind. rewrite Hrun. exists r'. split; [reflexivity|].
      exact (moved_0_stepped _ r _ r' Hm Hst).
    - assert (Hv : 0 <= -1 - z < 2^64) by lia.
      pose proof (PeekState_written_head r MajorTypeNegativeInteger (-1 - z)
                    rest Hr Hv ltac:(discriminate) Hrem) as Hp.
      destruct (PeekState_ready r _ _ Hr Hp) as (Hr1 & Hrem1 & Hm).
    cbn [headState] in Hr1, Hrem1, Hm.
      unfold bind at 1. rewrite Hp. cbn [headState]. cbn beta iota.
      destruct (ReadInt64_item (cached StateNegativeInteger r) z rest Hr1)
        as (r' & Hrun & Hst).
      + unfold MinInt64, MaxInt64. lia.
      + rewrite Hrem1. unfold encInt64.
        destruct (Z.leb_spec 0 z); [lia|exact Hrem].
      + unfold bind, try. rewrite Hrun. exists r'. split; [reflexivity|].
        unfold encInt64 in Hst. destruct (Z.leb_spec 0 z); [lia|].
        exact (moved_0_stepped _ r _ r' Hm Hst). }
  destruct ((0 <=? z) && (z <? 2^64)) eqn:Hu64.
  { apply andb_true_iff in Hu64. destruct Hu64 as [H1 H2].
    apply Z.leb_le in H1. apply Z.ltb_lt in H2.
    assert (Hv : 0 <= z < 2^64) by lia.
    pose proof (PeekState_written_head r MajorTypeUnsignedInteger z rest Hr
                  Hv ltac:(discriminate) Hrem) as Hp.
    destruct (PeekState_ready r _ _ Hr Hp) as (Hr1 & Hrem1 & Hm).
    cbn [headState] in Hr1, Hrem1, Hm.
    unfold bind at 1. rewrite Hp. cbn [headState]. cbn beta iota.
    destruct (ReadUint64_item (cached StateUnsignedInteger r) z rest Hr1 Hv)
      as (r' & Hrun & Hst); [now rewrite Hrem1|].
    unfold bind. rewrite Hrun. exists r'. split; [reflexivity|].
    exact (moved_0_stepped _ r _ r' Hm Hst). }
  assert (Hcases :
    exists tag a,
      (tag = TagUnsignedBignum /\ 0 <= z /\ a = z
       \/ tag = TagNegativeBignum /\ z < 0 /\ a = - z - 1)
      /\ remaining r
         = writeArgument_spec MajorTypeTag tag
             ++ encString MajorTypeByteString (Writer.bigBytes a) ++ rest
      /\ len ((if 0 <=? z
               then writeArgument_spec MajorTypeTag TagUnsignedBignum
                      ++ encString MajorTypeByteString (Writer.bigBytes z)
               else writeArgument_spec MajorTypeTag TagNegativeBignum
                      ++ encString MajorTypeByteString
                           (Writer.bigBytes (- z - 1))))
         = len (writeArgument_spec MajorTypeTag tag)
           + len (encString MajorTypeByteString (Writer.bigBytes a))).
  { destruct (Z.leb_spec 0 z).
    - exists TagUnsignedBignum, z. split; [left; lia|].
      rewrite Hrem, <- app_assoc, len_app. split; reflexivity.
    - exists TagNegativeBignum, (- z - 1). split; [right; lia|].
      rewrite Hrem, <- app_assoc, len_app. split; reflexivity. }
  destruct Hcases as (tag & a & Hta & Hrem' & Hlen). rewrite Hlen.
  assert (Htag : 0 <= tag < 2^64)
    by (destruct Hta as [(-> & _)|(-> & _)];
        unfold TagUnsignedBignum, TagNegativeBignum; lia).
  pose proof (PeekState_written_head r MajorTypeTag tag
                (encString MajorTypeByteString (Writer.bigBytes a) ++ rest)
                Hr Htag ltac:(discriminate) Hrem') as Hp.
  destruct (PeekState_ready r _ _ Hr Hp) as (Hr1 & Hrem1 & Hm).
    cbn [headState] in Hr1, Hrem1, Hm.
  unfold bind at 1. rewrite Hp. cbn [headState]. cbn beta iota.
  destruct (ReadTag_item (cached StateTag r) tag
              (encString MajorTypeByteString (Writer.bigBytes a) ++ rest)
              Hr1 Htag)
    as (r2 & Hrun2 & Hm2); [rewrite Hrem1; exact Hrem'|].
  pose proof (len_writeArgument_spec_bounds MajorTypeTag tag) as Hb.
  assert (Hr2 : ready r2) by (apply (moved_ready _ _ r2 Hr1 Hm2); lia).
  assert (Hrem2 : remaining r2
                  = encString MajorTypeByteString (Writer.bigBytes a) ++ rest).
  { apply (moved_remaining (len (writeArgument_spec MajorTypeTag tag))
             (Reader.nestingStack (cached StateTag r)) (cached StateTag r) r2
             (writeArgument_spec MajorTypeTag tag));
      [apply Hr1|exact Hm2|reflexivity|rewrite Hrem1; exact Hrem']. }
  destruct (ReadByteString_item r2 (Writer.bigBytes a) rest Hr2 Hrem2)
    as (r3 & Hrun3 & Hst3).
  pose proof (moved_0_stepped _ r _ r3 Hm
                (moved_stepped _ _ _ r2 r3 Hm2 Hst3)) as Hst.
  unfold bind at 1. rewrite Hrun2. cbn beta iota.
  destruct Hta as [(-> & Hz & ->)|(-> & Hz & ->)].
  - change (TagUnsignedBignum =? TagUnsignedBignum) with true. cbn beta iota.
    unfold bind. rewrite Hrun3. rewrite SetBytes_bigBytes by lia.
    exists r3. split; [reflexivity|exact Hst].
  - change (TagNegativeBignum =? TagUnsignedBignum) with false.
    change (TagNegativeBignum =? TagNegativeBignum) with true.
    cbn beta iota.
    unfold bind. rewrite Hrun3. rewrite SetBytes_bigBytes by lia.
    replace (- (- z - 1 + 1)) with z by lia.
    exists r3. split; [reflexivity|exact Hst].
Qed.

(** X13.  [WriteBigInt] followed by [ReadBigInt] is the identity on every
    integer: a value that fits [int64] or [uint64] is written as an integer
    head, any other as tag 2 or tag 3 with its magnitude as a byte string,
    and [ReadBigInt] returns the value from either form, in every context
    and conformance mode, consuming exactly the bytes written and counting
    one item. *)
Theorem big_integer_round_trip (z : Z)
  (Hlen : len (Writer.bigBytes (bigMagnitude z)) < 2^64) :
  writesItem (Writer.WriteBigInt (Some z)) (encBigInt z)
  /\ readsBack Reader.ReadBigInt anyReader (encBigInt z) z.
Proof.
  split.
  - intros w. now apply WriteBigInt_item.
  - apply readsBack_intro. intros r rest Hr _ Hrem.
    now apply (ReadBigInt_item z r rest).
Qed.

Lemma big_integer_round_trip_witness :
  written [] (Writer.WriteBigInt (Some (- 2^64 - 1)))
  = [0xC3; 0x49; 0x01; 0; 0; 0; 0; 0; 0; 0; 0]
  /\ outcome (Reader.ReadBigInt
                (Reader.NewCborReader
                   [0xC3; 0x49; 0x01; 0; 0; 0; 0; 0; 0; 0; 0] []))
     = Returned (- 2^64 - 1).
Proof.
  split; [reflexivity|].
  assert (Hlen : len (Writer.bigBytes (bigMagnitude (- 2^64 - 1))) < 2^64)
    by (vm_compute; reflexivity).
  destruct (big_integer_round_trip (- 2^64 - 1) Hlen) as (_ & Hr).
  destruct (Hr (Reader.NewCborReader
                  [0xC3; 0x49; 0x01; 0; 0; 0; 0; 0; 0; 0; 0] []) [])
    as (r' & Hrun & _).
  - apply (fresh_ready _ ConformanceLax). cbn. unfold MaxInt64. lia.
  - exact I.
  - reflexivity.
  - rewrite Hrun. reflexivity.
Defined.


(** ** Nested data items written by the encoder *)

Lemma Value_induction (P : Value -> Prop) :
  (forall u, P (VUint u)) ->
  (forall i, P (VInt i)) ->
  (forall bs, P (VBytes bs)) ->
  (forall s, P (VText s)) ->
  (forall chunks, P (VBytesChunks chunks)) ->
  (forall chunks, P (VTextChunks chunks)) ->
  (forall items, Forall P items -> P (VArray items)) ->
  (forall items, Forall P items -> P (VArrayIndef items)) ->
  (forall pairs, Forall (fun kv => P (fst kv) /\ P (snd kv)) pairs ->
                 P (VMap pairs)) ->
  (forall pairs, Forall (fun kv => P (fst kv) /\ P (snd kv)) pairs ->
                 P (VMapIndef pairs)) ->
  (forall tag v, P v -> P (VTagged tag v)) ->
  (forall b, P (VBool b)) ->
  P VNull ->
  P VUndefined ->
  (forall value, P (VSimple value)) ->
  (forall value, P (VFloat16 value)) ->
  (forall bits, P (VFloat32 bits)) ->
  (forall bits, P (VFloat64 bits)) ->
  forall v, P v.
Proof.
  intros Hu Hi Hb Hs Hbc Htc Ha Hai Hm Hmi Ht Hbo Hn Hun Hsi Hf16 Hf32 Hf64.
  fix IH 1. intros v. destruct v as [u|i|bs|s|chunks|chunks|items|items
    |pairs|pairs|tag v|b| | |value|value|bits|bits].
  - apply Hu.
  - apply Hi.
  - apply Hb.
  - apply Hs.
  - apply Hbc.
  - apply Htc.
  - apply Ha.
    exact ((fix go (l : list Value) : Forall P l :=
              match l with
              | [] => Forall_nil P
              | x :: l' => Forall_cons x (IH x) (go l')
              end) items).
  - apply Hai.
    exact ((fix go (l : list Value) : Forall P l :=
              match l with
              | [] => Forall_nil P
              | x :: l' => Forall_cons x (IH x) (go l')
              end) items).
  - apply Hm.
    exact ((fix go (l : list (Value * Value))
              : Forall (fun kv => P (fst kv) /\ P (snd kv)) l :=
              match l with
              | [] => Forall_nil _
              | (k, x) :: l' =>
                  Forall_cons (k, x) (conj (IH k) (IH x)) (go l')
              end) pairs).
  - apply Hmi.
    exact ((fix go (l : list (Value * Value))
              : Forall (fun kv => P (fst kv) /\ P (snd kv)) l :=
              match l with
              | [] => Forall_nil _
              | (k, x) :: l' =>
                  Forall_cons (k, x) (conj (IH k) (IH x)) (go l')
              end) pairs).
  - apply Ht. apply IH.
  - apply Hbo.
  - apply Hn.
  - apply Hun.
  - apply Hsi.
  - apply Hf16.
  - apply Hf32.
  - apply Hf64.
Qed.

Lemma itemWritten_framed (f : Writer.nestingInfo) (out e : list Z)
      (w : Writer.CborWriter) :
  itemWritten e (framed f out w)
  = framed (Writer.advanceFrame f) (out ++ e) w.
Proof.
  unfold itemWritten, framed, appended. writer_fields.
  rewrite <- app_assoc. reflexivity.
Qed.

Lemma appended_framed (f : Writer.nestingInfo) (out e : list Z)
      (w : Writer.CborWriter) :
  appended e (framed f out w) = framed f (out ++ e) w.
Proof.
  unfold framed, appended. writer_fields.
  rewrite <- app_assoc. reflexivity.
Qed.

Lemma itemWritten_appended (out e : list Z) (w : Writer.CborWriter) :
  itemWritten e (appended out w) = itemWritten (out ++ e) w.
Proof.
  unfold itemWritten, appended. writer_fields.
  rewrite <- app_assoc. destruct (Writer.nestingStack w); reflexivity.
Qed.

Lemma checkNestingDepth_ok (w : Writer.CborWriter) :
  Writer.NestingDepth w < Writer.maxNestingDepth w ->
  Writer.checkNestingDepth w = Ok tt w.
Proof.
  unfold Writer.NestingDepth, Writer.checkNestingDepth. intros H.
  unfold_monad.
  destruct (Z.leb_spec (Writer.maxNestingDepth w)
              (len (Writer.nestingStack w))); [lia|reflexivity].
Qed.

Lemma WriteStartArray_framed (n : Z) (w : Writer.CborWriter) :
  0 <= n <= MaxInt64 ->
  Writer.NestingDepth w < Writer.maxNestingDepth w ->
  Writer.WriteStartArray n w
  = Ok tt (framed (itemsFrame MajorTypeArray n 0 false)
             (writeArgument_spec MajorTypeArray n) w).
Proof.
  unfold MaxInt64. intros Hn Hd. unfold Writer.WriteStartArray, bind.
  rewrite checkNestingDepth_ok by exact Hd.
  rewrite to_uint64_small by lia.
  rewrite writeMinimalInitialByte_appended by lia.
  rewrite to_int64_small by (unfold MinInt64, MaxInt64; lia). reflexivity.
Qed.

Lemma WriteStartMap_framed (n : Z) (w : Writer.CborWriter) :
  0 <= n <= MaxInt64 ->
  Writer.NestingDepth w < Writer.maxNestingDepth w ->
  Writer.WriteStartMap n w
  = Ok tt (framed (pairsFrame n 0 false false)
             (writeArgument_spec MajorTypeMap n) w).
Proof.
  unfold MaxInt64. intros Hn Hd. unfold Writer.WriteStartMap, bind.
  rewrite checkNestingDepth_ok by exact Hd.
  rewrite to_uint64_small by lia.
  rewrite writeMinimalInitialByte_appended by lia.
  rewrite to_int64_small by (unfold MinInt64, MaxInt64; lia). reflexivity.
Qed.

Lemma WriteStartIndefinite_framed (w : Writer.CborWriter) :
  Writer.canonicalMode w = false ->
  Writer.NestingDepth w < Writer.maxNestingDepth w ->
  Writer.WriteStartIndefiniteLengthArray w
  = Ok tt (framed (itemsFrame MajorTypeArray (-1) 0 true) [0x9F] w)
  /\ Writer.WriteStartIndefiniteLengthMap w
     = Ok tt (framed (pairsFrame (-1) 0 false true) [0xBF] w)
  /\ Writer.WriteStartIndefiniteLengthByteString w
     = Ok tt (framed (itemsFrame MajorTypeByteString (-1) 0 true) [0x5F] w)
  /\ Writer.WriteStartIndefiniteLengthTextString w
     = Ok tt (framed (itemsFrame MajorTypeTextString (-1) 0 true) [0x7F] w).
Proof.
  intros Hc Hd.
  unfold Writer.WriteStartIndefiniteLengthArray,
    Writer.WriteStartIndefiniteLengthMap,
    Writer.WriteStartIndefiniteLengthByteString,
    Writer.WriteStartIndefiniteLengthTextString.
  unfold Writer.checkNestingDepth, Writer.NestingDepth in *.
  unfold_monad. rewrite Hc.
  destruct (Z.leb_spec (Writer.maxNestingDepth w)
              (len (Writer.nestingStack w))); [lia|].
  repeat split.
Qed.

Lemma WriteEnd_framed (f : Writer.nestingInfo) (out : list Z)
      (w : Writer.CborWriter) :
  (Writer.isIndefinite f = false ->
   Writer.itemsWritten f = Writer.definiteLength f ->
   (Writer.majorType f = MajorTypeArray ->
    Writer.WriteEndArray (framed f out w) = Ok tt (itemWritten out w))
   /\ (Writer.majorType f = MajorTypeMap -> Writer.keyWritten f = false ->
       Writer.WriteEndMap (framed f out w) = Ok tt (itemWritten out w)))
  /\ (Writer.isIndefinite f = true ->
      (Writer.majorType f = MajorTypeArray ->
       Writer.WriteEndArray (framed f out w)
       = Ok tt (itemWritten (out ++ [0xFF]) w))
      /\ (Writer.majorType f = MajorTypeMap -> Writer.keyWritten f = false ->
          Writer.WriteEndMap (framed f out w)
          = Ok tt (itemWritten (out ++ [0xFF]) w))
      /\ (Writer.majorType f = MajorTypeByteString ->
          Writer.WriteEndIndefiniteLengthByteString (framed f out w)
          = Ok tt (itemWritten (out ++ [0xFF]) w))
      /\ (Writer.majorType f = MajorTypeTextString ->
          Writer.WriteEndIndefiniteLengthTextString (framed f out w)
          = Ok tt (itemWritten (out ++ [0xFF]) w))).
Proof.
  unfold Writer.WriteEndArray, Writer.WriteEndMap,
    Writer.WriteEndIndefiniteLengthByteString,
    Writer.WriteEndIndefiniteLengthTextString, Writer.requireIndefinite,
    Writer.emit, Writer.pop, Writer.advanceContainer, itemWritten, framed,
    appended.
  unfold_monad. writer_fields.
  split.
  - intros Hi He. split; intros Hm; try intros Hk;
      rewrite Hm, Hi, He, ?Hk, Z.eqb_refl, MajorType_eqb_refl;
      cbn [negb tl]; reflexivity.
  - intros Hi. repeat split; intros Hm; try intros Hk;
      rewrite Hm, Hi, ?Hk, MajorType_eqb_refl;
      cbn [negb orb tl]; writer_fields; cbn [tl];
      rewrite <- ?app_assoc; reflexivity.
Qed.

Lemma requireIndefinite_framed (mt : MajorType) (n k : Z) (out : list Z)
      (w : Writer.CborWriter) :
  Writer.requireIndefinite mt (framed (itemsFrame mt n k true) out w)
  = Ok tt (framed (itemsFrame mt n k true) out w).
Proof.
  unfold Writer.requireIndefinite, framed, appended. unfold_monad.
  writer_fields. cbn [itemsFrame Writer.majorType Writer.isIndefinite].
  rewrite MajorType_eqb_refl. reflexivity.
Qed.

Lemma WriteChunk_framed (k : Z) (c out : list Z) (w : Writer.CborWriter) :
  len c < 2^64 ->
  Writer.WriteByteStringChunk c
    (framed (itemsFrame MajorTypeByteString (-1) k true) out w)
  = Ok tt (framed (itemsFrame MajorTypeByteString (-1) k true)
             (out ++ encString MajorTypeByteString c) w)
  /\ Writer.WriteTextStringChunk c
       (framed (itemsFrame MajorTypeTextString (-1) k true) out w)
     = Ok tt (framed (itemsFrame MajorTypeTextString (-1) k true)
                (out ++ encString MajorTypeTextString c) w).
Proof.
  intros Hl. pose proof (len_nonneg c).
  unfold Writer.WriteByteStringChunk, Writer.WriteTextStringChunk.
  split; unfold bind; rewrite requireIndefinite_framed;
    rewrite to_uint64_small by lia;
    rewrite writeMinimalInitialByte_appended by lia;
    rewrite emit_appended, !appended_framed; unfold encString;
    rewrite <- app_assoc; reflexivity.
Qed.

Lemma write_chunks (k : Z) (chunks : list (list Z)) :
  Forall (fun c => len c < 2^64) chunks ->
  forall (out : list Z) (w : Writer.CborWriter),
    sequence (map Writer.WriteByteStringChunk chunks)
      (framed (itemsFrame MajorTypeByteString (-1) k true) out w)
    = Ok tt (framed (itemsFrame MajorTypeByteString (-1) k true)
               (out ++ concat (map (encString MajorTypeByteString) chunks))
               w)
    /\ sequence (map Writer.WriteTextStringChunk chunks)
         (framed (itemsFrame MajorTypeTextString (-1) k true) out w)
       = Ok tt (framed (itemsFrame MajorTypeTextString (-1) k true)
                  (out ++ concat (map (encString MajorTypeTextString) chunks))
                  w).
Proof.
  induction 1 as [|c chunks Hc Hcs IH]; intros out w.
  - cbn [map sequence concat]. rewrite app_nil_r. split; reflexivity.
  - cbn [map sequence concat]. unfold bind.
    destruct (WriteChunk_framed k c out w Hc) as [-> ->].
    destruct (IH (out ++ encString MajorTypeByteString c) w) as [-> _].
    destruct (IH (out ++ encString MajorTypeTextString c) w) as [_ ->].
    rewrite <- !app_assoc. split; reflexivity.
Qed.

Lemma writable_framed (f : Writer.nestingInfo) (out : list Z)
      (w : Writer.CborWriter) (v : Value) :
  wellFormed (negb (Writer.canonicalMode w)) (fun _ => True) v ->
  Writer.NestingDepth w + 1 + Z.of_nat (writerDepth v)
  <= Writer.maxNestingDepth w ->
  writable (framed f out w) v.
Proof.
  intros Hwf Hd. split; [exact Hwf|].
  unfold Writer.NestingDepth, framed, appended in *. writer_fields.
  rewrite len_cons. lia.
Qed.

Lemma write_items (items : list Value) :
  Forall (fun v => forall w, writable w v ->
                             writeValue v w = Ok tt (itemWritten (enc v) w))
         items ->
  forall (mt : MajorType) (n k : Z) (indefinite : bool) (out : list Z)
         (w : Writer.CborWriter),
    Forall (wellFormed (negb (Writer.canonicalMode w)) (fun _ => True))
           items ->
    Writer.NestingDepth w + 1
    + Z.of_nat (list_max (map writerDepth items))
    <= Writer.maxNestingDepth w ->
    sequence (map writeValue items) (framed (itemsFrame mt n k indefinite) out w)
    = Ok tt (framed (itemsFrame mt n (k + len items) indefinite)
               (out ++ concat (map enc items)) w).
Proof.
  induction 1 as [|x items Hx Hxs IH]; intros mt n k indefinite out w Hwf Hd.
  - cbn [map sequence concat]. rewrite app_nil_r.
    change (len (@nil Value)) with 0. rewrite Z.add_0_r. reflexivity.
  - inversion Hwf as [|? ? Hwx Hwxs]; subst.
    cbn [map list_max fold_right] in Hd.
    change (fold_right Nat.max 0%nat (map writerDepth items))
      with (list_max (map writerDepth items)) in Hd.
    cbn [map sequence concat]. unfold bind.
    rewrite Hx by (apply writable_framed; [exact Hwx|lia]).
    rewrite itemWritten_framed.
    change (Writer.advanceFrame (itemsFrame mt n k indefinite))
      with (itemsFrame mt n (k + 1) indefinite).
    rewrite IH by (exact Hwxs || lia).
    rewrite len_cons, <- app_assoc. do 3 f_equal. lia.
Qed.

Lemma write_pairs (pairs : list (Value * Value)) :
  Forall (fun kv =>
            (forall w, writable w (fst kv) ->
                       writeValue (fst kv) w
                       = Ok tt (itemWritten (enc (fst kv)) w))
            /\ (forall w, writable w (snd kv) ->
                          writeValue (snd kv) w
                          = Ok tt (itemWritten (enc (snd kv)) w)))
         pairs ->
  forall (n k : Z) (indefinite : bool) (out : list Z)
         (w : Writer.CborWriter),
    Forall (fun kv =>
              wellFormed (negb (Writer.canonicalMode w)) (fun _ => True)
                         (fst kv)
              /\ wellFormed (negb (Writer.canonicalMode w)) (fun _ => True)
                            (snd kv)) pairs ->
    Writer.NestingDepth w + 1
    + Z.of_nat (list_max (map (fun kv => let '(k, x) := kv in
                                 Nat.max (writerDepth k) (writerDepth x))
                              pairs))
    <= Writer.maxNestingDepth w ->
    sequence (map writePair pairs) (framed (pairsFrame n k false indefinite) out w)
    = Ok tt (framed (pairsFrame n (k + len pairs) false indefinite)
               (out ++ concat (map encPair pairs)) w).
Proof.
  induction 1 as [|[key x] pairs [Hk Hx] Hxs IH];
    intros n k indefinite out w Hwf Hd.
  - cbn [map sequence concat]. rewrite app_nil_r.
    change (len (@nil (Value * Value))) with 0. rewrite Z.add_0_r.
    reflexivity.
  - inversion Hwf as [|? ? [Hwk Hwx] Hwxs]; subst.
    cbn [fst snd] in *.
    cbn [map list_max fold_right] in Hd.
    match type of Hd with
    | context [Nat.max _ (fold_right Nat.max 0%nat ?l)] =>
        change (fold_right Nat.max 0%nat l) with (list_max l) in Hd
    end.
    cbn [map sequence concat writePair encPair]. unfold bind.
    rewrite Hk by (apply writable_framed; [exact Hwk|lia]).
    rewrite itemWritten_framed.
    change (Writer.advanceFrame (pairsFrame n k false indefinite))
      with (pairsFrame n k true indefinite).
    rewrite Hx by (apply writable_framed; [exact Hwx|lia]).
    rewrite itemWritten_framed.
    change (Writer.advanceFrame (pairsFrame n k true indefinite))
      with (pairsFrame n (k + 1) false indefinite).
    rewrite IH by (exact Hwxs || lia).
    rewrite len_cons, <- !app_assoc. do 3 f_equal. lia.
Qed.

Lemma writeValue_item (v : Value) :
  forall w : Writer.CborWriter,
    writable w v -> writeValue v w = Ok tt (itemWritten (enc v) w).
Proof.
  induction v as [u|i|bs|s|chunks|chunks|items IH|items IH|pairs IH|pairs IH
                  |tag v IH|b| | |value|value|bits|bits]
    using Value_induction;
    intros w [Hwf Hd]; inversion Hwf; subst; cbn [writeValue enc].
  - now apply WriteUint64_item.
  - now apply WriteInt64_item.
  - now apply WriteByteString_item.
  - now apply WriteTextString_item.
  - cbn [writerDepth] in Hd.
    match goal with H : negb _ = true |- _ => apply negb_true_iff in H;
      rename H into Hc end.
    destruct (WriteStartIndefinite_framed w Hc ltac:(lia))
      as (_ & _ & Hs & _).
    unfold bind. rewrite Hs.
    destruct (write_chunks 0 chunks ltac:(assumption) [0x5F] w) as [-> _].
    destruct (WriteEnd_framed (itemsFrame MajorTypeByteString (-1) 0 true)
                ([0x5F] ++ concat (map (encString MajorTypeByteString) chunks))
                w) as (_ & He).
    destruct (He eq_refl) as (_ & _ & Hb & _). rewrite (Hb eq_refl).
    rewrite <- app_assoc. reflexivity.
  - cbn [writerDepth] in Hd.
    match goal with H : negb _ = true |- _ => apply negb_true_iff in H;
      rename H into Hc end.
    destruct (WriteStartIndefinite_framed w Hc ltac:(lia))
      as (_ & _ & _ & Hs).
    unfold bind. rewrite Hs.
    assert (Hch : Forall (fun c => len c < 2^64) chunks).
    { match goal with H : Forall _ chunks |- _ =>
        eapply Forall_impl; [|exact H] end. cbv beta. tauto. }
    destruct (write_chunks 0 chunks Hch [0x7F] w) as [_ ->].
    destruct (WriteEnd_framed (itemsFrame MajorTypeTextString (-1) 0 true)
                ([0x7F] ++ concat (map (encString MajorTypeTextString) chunks))
                w) as (_ & He).
    destruct (He eq_refl) as (_ & _ & _ & Hb). rewrite (Hb eq_refl).
    rewrite <- app_assoc. reflexivity.
  - cbn [writerDepth] in Hd. rewrite Nat2Z.inj_succ in Hd.
    pose proof (len_nonneg items).
    unfold bind. rewrite WriteStartArray_framed by lia.
    rewrite (write_items items IH) by (assumption || lia).
    destruct (WriteEnd_framed
                (itemsFrame MajorTypeArray (len items) (0 + len items) false)
                (writeArgument_spec MajorTypeArray (len items)
                   ++ concat (map enc items)) w) as (He & _).
    destruct (He eq_refl ltac:(cbn; lia)) as (Ha & _).
    exact (Ha eq_refl).
  - cbn [writerDepth] in Hd. rewrite Nat2Z.inj_succ in Hd.
    match goal with H : negb _ = true |- _ => apply negb_true_iff in H;
      rename H into Hc end.
    destruct (WriteStartIndefinite_framed w Hc ltac:(lia)) as (Hs & _).
    unfold bind. rewrite Hs.
    rewrite (write_items items IH) by (assumption || lia).
    destruct (WriteEnd_framed
                (itemsFrame MajorTypeArray (-1) (0 + len items) true)
                ([0x9F] ++ concat (map enc items)) w) as (_ & He).
    destruct (He eq_refl) as (Ha & _). rewrite (Ha eq_refl).
    rewrite <- app_assoc. reflexivity.
  - cbn [writerDepth] in Hd. rewrite Nat2Z.inj_succ in Hd.
    pose proof (len_nonneg pairs).
    unfold bind. rewrite WriteStartMap_framed by lia.
    change (map (fun kv : Value * Value =>
                   let '(k, x) := kv in writeValue k;; writeValue x) pairs)
      with (map writePair pairs).
    change (map (fun kv : Value * Value =>
                   let '(k, x) := kv in enc k ++ enc x) pairs)
      with (map encPair pairs).
    rewrite (write_pairs pairs IH) by (assumption || lia).
    destruct (WriteEnd_framed
                (pairsFrame (len pairs) (0 + len pairs) false false)
                (writeArgument_spec MajorTypeMap (len pairs)
                   ++ concat (map encPair pairs)) w) as (He & _).
    destruct (He eq_refl ltac:(cbn; lia)) as (_ & Hm).
    exact (Hm eq_refl eq_refl).
  - cbn [writerDepth] in Hd. rewrite Nat2Z.inj_succ in Hd.
    match goal with H : negb _ = true |- _ => apply negb_true_iff in H;
      rename H into Hc end.
    destruct (WriteStartIndefinite_framed w Hc ltac:(lia)) as (_ & Hs & _).
    unfold bind. rewrite Hs.
    change (map (fun kv : Value * Value =>
                   let '(k, x) := kv in writeValue k;; writeValue x) pairs)
      with (map writePair pairs).
    change (map (fun kv : Value * Value =>
                   let '(k, x) := kv in enc k ++ enc x) pairs)
      with (map encPair pairs).
    rewrite (write_pairs pairs IH) by (assumption || lia).
    destruct (WriteEnd_framed
                (pairsFrame (-1) (0 + len pairs) false true)
                ([0xBF] ++ concat (map encPair pairs)) w) as (_ & He).
    destruct (He eq_refl) as (_ & Hm & _). rewrite (Hm eq_refl eq_refl).
    rewrite <- app_assoc. reflexivity.
  - cbn [writerDepth] in Hd. unfold bind.
    rewrite WriteTag_appended by assumption.
    rewrite IH by (split; assumption).
    apply f_equal. apply itemWritten_appended.
  - apply WriteBoolean_item.
  - apply WriteNull_item.
  - apply WriteUndefined_item.
  - apply WriteSimpleValue_item. lia.
  - apply WriteFloat16_item.
  - now apply WriteFloat32_item.
  - now apply WriteFloat64_item.
Qed.


(** ** Containers in front of the decoder *)

Lemma PeekState_coherent (r : Reader.CborReader) (st : CborReaderState) :
  cacheCoherent r -> Reader.computeState r = Ok st r ->
  Reader.PeekState r = Ok st (cached st r).
Proof.
  intros Hc Hcs. destruct (Reader.stateComputed r) eqn:Hsc.
  - unfold Reader.PeekState. unfold_monad. rewrite Hsc.
    specialize (Hc Hsc). rewrite Hcs in Hc. inversion Hc as [Hst].
    rewrite (cached_same r Hsc). reflexivity.
  - rewrite PeekState_fresh by exact Hsc. now rewrite Hcs.
Qed.

Lemma cached_coherent (r : Reader.CborReader) (st : CborReaderState) :
  Reader.computeState r = Ok st r -> cacheCoherent (cached st r).
Proof.
  intros Hcs. unfold cacheCoherent. reader_fields. intros _.
  rewrite (computeState_congr r (cached st r)) by reflexivity.
  now rewrite Hcs.
Qed.

Lemma moved_trans (n m : Z) st st' (r r1 r2 : Reader.CborReader) :
  moved n st r (Reader.set_stateComputed false r1) ->
  moved m st' r1 r2 -> moved (n + m) st' r r2.
Proof.
  unfold moved. reader_fields.
  intros (Hd & Ho & Hm & Hx & Ha & Hs & _)
         (Hd' & Ho' & Hm' & Hx' & Ha' & Hs' & Hc').
  repeat split; try congruence. lia.
Qed.

Lemma moved_fresh (n : Z) st (r r' : Reader.CborReader) :
  moved n st r r' -> moved n st r (Reader.set_stateComputed false r').
Proof.
  unfold moved. reader_fields. tauto.
Qed.

Lemma ReadStart_definite (r : Reader.CborReader) (mt : MajorType) (n : Z)
      (rest : list Z) :
  ready r -> 0 <= n <= MaxInt64 ->
  Reader.NestingDepth r < Reader.maxNestingDepth r ->
  remaining r = writeArgument_spec mt n ++ rest ->
  (mt = MajorTypeArray ->
   exists r',
     Reader.ReadStartArray r = Ok n r'
     /\ moved (len (writeArgument_spec mt n))
              (Reader.mkReaderNestingInfo MajorTypeArray n 0 false false false
                 :: Reader.nestingStack r) r r')
  /\ (mt = MajorTypeMap ->
      exists r',
        Reader.ReadStartMap r = Ok n r'
        /\ moved (len (writeArgument_spec mt n))
                 (Reader.mkReaderNestingInfo MajorTypeMap n 0 true false false
                    :: Reader.nestingStack r) r r').
Proof.
  unfold MaxInt64, Reader.NestingDepth. intros Hr Hn Hd Hrem.
  assert (Hv : 0 <= n < 2^64) by lia.
  pose proof (argumentInfo_range n ltac:(lia)) as Hai.
  split; intros ->;
    unfold Reader.ReadStartArray, Reader.ReadStartMap;
    (match goal with
     | |- context [Reader.readStart ?mt _] =>
         run_peek (PeekState_written_head r mt n rest Hr Hv
                     ltac:(discriminate) Hrem)
     end);
    cbn [headState]; unfold bind at 1; rewrite expect_same; cbn beta iota;
    unfold Reader.readStart;
    unfold bind at 1; rewrite checkNestingDepth_eq; unfold failIf;
    reader_fields;
    (destruct (Z.leb_spec (Reader.maxNestingDepth r)
                 (len (Reader.nestingStack r))); [lia|]);
    unfold ret at 1; cbn beta iota;
    run_invalidate; unfold bind at 1, get; cbn beta iota;
    unfold bind at 1; reader_fields;
    rewrite (index_remaining r _ _ ltac:(apply Hr) Hrem);
    unfold orPanic, ret at 1; cbn beta iota;
    rewrite encodeInitialByte_arith by (cbn; lia);
    (match goal with
     | |- context [if ?a =? ?b then _ else _] =>
         destruct (Z.eqb_spec a b) as [He|_];
           [change (to_byte AdditionalInfoIndefiniteLength) with 31 in He;
            lia|]
     end);
    (match goal with
     | |- context [Reader.readArgumentValue ?mt] =>
         run_head mt n rest Hr Hv Hrem
     end);
    unfold bind at 1, Reader.push, modify; unfold ret;
    rewrite to_int64_small by (unfold MinInt64, MaxInt64; lia);
    eexists; (split; [reflexivity|]);
    unfold moved; reader_fields; repeat split.
Qed.

Lemma ReadStart_indefinite (r : Reader.CborReader) (rest : list Z) :
  ready r ->
  mode_geb (Reader.conformanceMode r) ConformanceCanonical = false ->
  Reader.NestingDepth r < Reader.maxNestingDepth r ->
  (remaining r = 0x9F :: rest ->
   exists r',
     Reader.ReadStartArray r = Ok (-1) r'
     /\ moved 1 (Reader.mkReaderNestingInfo MajorTypeArray (-1) 0 false false
                   true :: Reader.nestingStack r) r r')
  /\ (remaining r = 0xBF :: rest ->
      exists r',
        Reader.ReadStartMap r = Ok (-1) r'
        /\ moved 1 (Reader.mkReaderNestingInfo MajorTypeMap (-1) 0 true false
                      true :: Reader.nestingStack r) r r').
Proof.
  unfold Reader.NestingDepth. intros Hr Hc Hd.
  split; intros Hrem;
    unfold Reader.ReadStartArray, Reader.ReadStartMap;
    [run_peek (PeekState_item r 0x9F rest StateStartArray Hr Hrem
                 ltac:(discriminate) eq_refl)
    |run_peek (PeekState_item r 0xBF rest StateStartMap Hr Hrem
                 ltac:(discriminate) eq_refl)];
    unfold bind at 1; rewrite expect_same; cbn beta iota;
    unfold Reader.readStart;
    unfold bind at 1; rewrite checkNestingDepth_eq; unfold failIf;
    reader_fields;
    (destruct (Z.leb_spec (Reader.maxNestingDepth r)
                 (len (Reader.nestingStack r))); [lia|]);
    unfold ret at 1; cbn beta iota;
    run_invalidate; unfold bind at 1, get; cbn beta iota;
    unfold bind at 1; reader_fields;
    rewrite (index_remaining r _ _ ltac:(apply Hr) Hrem);
    unfold orPanic, ret at 1; cbn beta iota;
    [change (0x9F =? encodeInitialByte MajorTypeArray
                       (to_byte AdditionalInfoIndefiniteLength)) with true
    |change (0xBF =? encodeInitialByte MajorTypeMap
                       (to_byte AdditionalInfoIndefiniteLength)) with true];
    cbn beta iota; rewrite Hc; unfold ret at 1; unfold bind at 1;
    unfold bind at 1, Reader.advance, modify;
    unfold bind at 1, Reader.push, modify; unfold ret;
    eexists; (split; [reflexivity|]);
    unfold moved; reader_fields; repeat split.
Qed.

Lemma advanceContainer_popped (n : Z) (f : Reader.readerNestingInfo)
      (st : list Reader.readerNestingInfo) (r r1 : Reader.CborReader) :
  Reader.nestingStack r = f :: st ->
  moved n st r r1 ->
  exists r', Reader.advanceContainer r1 = Ok tt r'
             /\ moved n (advanceStack st) r r'.
Proof.
  intros Hst (Hd & Ho & Hm & Hx & Ha & Hs & Hc).
  unfold Reader.advanceContainer, modify, moved.
  rewrite Hs. destruct st as [|info rest];
    eexists; (split; [reflexivity|]); reader_fields;
    cbn [advanceStack]; repeat split; assumption.
Qed.

Lemma readEnd_definite (mt : MajorType) (f : Reader.readerNestingInfo)
      (st : list Reader.readerNestingInfo) (r : Reader.CborReader) :
  Reader.nestingStack r = f :: st ->
  Reader.majorType f = mt -> Reader.isIndefinite f = false ->
  exists r', Reader.readEnd mt r = Ok tt r'
             /\ moved 0 (advanceStack st) r r'.
Proof.
  intros Hst Hmt Hi. unfold Reader.readEnd.
  unfold bind at 1, get. cbn beta iota. rewrite Hst, Hmt, Hi.
  rewrite MajorType_eqb_refl. cbn [negb]. unfold failIf.
  unfold bind at 1, ret at 1. cbn beta iota.
  unfold bind at 1, ret at 1. cbn beta iota.
  unfold bind at 1, Reader.pop, modify.
  run_invalidate.
  apply (advanceContainer_popped 0 f st r); [exact Hst|].
  unfold moved. reader_fields. rewrite Hst. cbn [tl]. repeat split. lia.
Qed.

Lemma readEnd_indefinite (mt : MajorType) (f : Reader.readerNestingInfo)
      (st : list Reader.readerNestingInfo) (r : Reader.CborReader)
      (rest : list Z) :
  0 <= Reader.offset r ->
  Reader.nestingStack r = f :: st ->
  Reader.majorType f = mt -> Reader.isIndefinite f = true ->
  remaining r = 0xFF :: rest ->
  exists r', Reader.readEnd mt r = Ok tt r'
             /\ moved 1 (advanceStack st) r r'.
Proof.
  intros Ho Hst Hmt Hi Hrem. unfold Reader.readEnd.
  unfold bind at 1, get. cbn beta iota. rewrite Hst, Hmt, Hi.
  rewrite MajorType_eqb_refl. cbn [negb]. unfold failIf.
  unfold bind at 1, ret at 1. cbn beta iota.
  unfold bind at 1. unfold bind at 1.
  rewrite (index_remaining r _ _ Ho Hrem).
  unfold orPanic, ret at 1. cbn beta iota.
  change (negb (0xFF =? breakByte)) with false. cbn beta iota.
  unfold bind at 1, ret at 1. cbn beta iota.
  unfold Reader.advance, modify.
  unfold bind at 1, Reader.pop, modify.
  run_invalidate.
  apply (advanceContainer_popped 1 f st r); [exact Hst|].
  unfold moved. reader_fields. rewrite Hst. cbn [tl]. repeat split.
Qed.

Lemma ReadEnd_definite (f : Reader.readerNestingInfo)
      (st : list Reader.readerNestingInfo) (r : Reader.CborReader) :
  cacheCoherent r ->
  Reader.nestingStack r = f :: st ->
  Reader.frameComplete f = true -> Reader.isIndefinite f = false ->
  (Reader.majorType f = MajorTypeArray -> Reader.isMap f = false ->
   exists r', Reader.ReadEndArray r = Ok tt r'
              /\ moved 0 (advanceStack st) r r')
  /\ (Reader.majorType f = MajorTypeMap -> Reader.isMap f = true ->
      exists r', Reader.ReadEndMap r = Ok tt r'
                 /\ moved 0 (advanceStack st) r r').
Proof.
  intros Hc Hst Hfc Hi.
  pose proof (computeState_frameComplete r f st Hst Hfc) as Hcs.
  split; intros Hmt Hm; rewrite Hm in Hcs;
    unfold Reader.ReadEndArray, Reader.ReadEndMap;
    run_peek (PeekState_coherent r _ Hc Hcs);
    unfold bind at 1; rewrite expect_same; cbn beta iota;
    (match goal with
     | |- context [Reader.readEnd ?mt ?r1] =>
         destruct (readEnd_definite mt f st r1 Hst Hmt Hi)
           as (r' & Hrun & Hmv)
     end);
    exists r'; (split; [exact Hrun|]);
    revert Hmv; unfold moved; reader_fields; tauto.
Qed.

Lemma computeState_break (f : Reader.readerNestingInfo)
      (st : list Reader.readerNestingInfo) (r : Reader.CborReader)
      (rest : list Z) :
  0 <= Reader.offset r ->
  Reader.nestingStack r = f :: st -> Reader.isIndefinite f = true ->
  remaining r = 0xFF :: rest ->
  (Reader.majorType f = MajorTypeArray ->
   Reader.computeState r = Ok StateEndArray r)
  /\ (Reader.majorType f = MajorTypeMap -> Reader.keyRead f = false ->
      Reader.computeState r = Ok StateEndMap r).
Proof.
  intros Ho Hst Hi Hrem.
  unfold Reader.computeState, Reader.frameComplete. unfold_monad.
  rewrite Hst, Hi. cbn [negb andb].
  rewrite len_leb_skipn, index_skipn by exact Ho.
  unfold remaining in Hrem. rewrite Hrem. cbn [hd_error].
  change (0xFF =? breakByte) with true. cbn beta iota.
  split; [intros ->|intros -> ->]; reflexivity.
Qed.

Lemma ReadEnd_indefinite (f : Reader.readerNestingInfo)
      (st : list Reader.readerNestingInfo) (r : Reader.CborReader)
      (rest : list Z) :
  cacheCoherent r -> 0 <= Reader.offset r ->
  Reader.nestingStack r = f :: st -> Reader.isIndefinite f = true ->
  remaining r = 0xFF :: rest ->
  (Reader.majorType f = MajorTypeArray ->
   exists r', Reader.ReadEndArray r = Ok tt r'
              /\ moved 1 (advanceStack st) r r')
  /\ (Reader.majorType f = MajorTypeMap -> Reader.keyRead f = false ->
      exists r', Reader.ReadEndMap r = Ok tt r'
                 /\ moved 1 (advanceStack st) r r').
Proof.
  intros Hc Ho Hst Hi Hrem.
  destruct (computeState_break f st r rest Ho Hst Hi Hrem) as [Ha Hm].
  split; [intros Hmt; specialize (Ha Hmt)
         |intros Hmt Hk; specialize (Hm Hmt Hk)];
    unfold Reader.ReadEndArray, Reader.ReadEndMap;
    [run_peek (PeekState_coherent r _ Hc Ha)
    |run_peek (PeekState_coherent r _ Hc Hm)];
    unfold bind at 1; rewrite expect_same; cbn beta iota;
    (match goal with
     | |- context [Reader.readEnd ?mt ?r1] =>
         destruct (readEnd_indefinite mt f st r1 rest Ho Hst Hmt Hi Hrem)
           as (r' & Hrun & Hmv)
     end);
    exists r'; (split; [exact Hrun|]);
    revert Hmv; unfold moved; reader_fields; tauto.
Qed.


(** ** Indefinite-length strings *)

Lemma chunks_length (mt : MajorType) (chunks : list (list Z)) :
  len chunks <= len (concat (map (encString mt) chunks)).
Proof.
  induction chunks as [|c chunks IH]; cbn [map concat].
  - change (len (@nil (list Z))) with 0. change (len (@nil Z)) with 0. lia.
  - rewrite len_cons, len_app. unfold encString at 1. rewrite len_app.
    pose proof (len_writeArgument_spec_bounds mt (len c)).
    pose proof (len_nonneg c). lia.
Qed.

Lemma remaining_bounds (r : Reader.CborReader) (x rest : list Z) :
  0 <= Reader.offset r -> remaining r = x ++ rest -> x <> [] ->
  Reader.offset r + len x + len rest = len (Reader.data r).
Proof.
  intros Ho Hrem Hx. destruct x as [|b x]; [contradiction|].
  pose proof (remaining_len r b (x ++ rest) Ho Hrem) as Hl.
  rewrite len_app in Hl. rewrite len_cons. lia.
Qed.

Lemma readChunks_written (mt : MajorType)
      (invalid : Reader.CborReader -> list Z -> bool)
      (chunks : list (list Z)) :
  mt = MajorTypeByteString \/ mt = MajorTypeTextString ->
  forall (fuel : nat) (r : Reader.CborReader) (acc rest : list Z),
    0 <= Reader.offset r -> len (Reader.data r) <= MaxInt64 ->
    (length chunks < fuel)%nat ->
    (forall n c, In c chunks -> invalid (consumed n r) c = false) ->
    remaining r
    = concat (map (encString mt) chunks) ++ [0xFF] ++ rest ->
    Reader.readChunks mt invalid fuel acc r
    = Ok (acc ++ concat chunks)
         (consumed (len (concat (map (encString mt) chunks)) + 1) r).
Proof.
  intros Hmt. induction chunks as [|c chunks IH];
    intros fuel r acc rest Ho Hmax Hfuel Hinv Hrem.
  - destruct fuel as [|fuel]; [cbn in Hfuel; lia|].
    cbn [map concat app] in Hrem. cbn [Reader.readChunks].
    unfold bind at 1, get. cbn beta iota.
    pose proof (remaining_len r _ _ Ho Hrem) as Hl.
    pose proof (len_nonneg rest).
    unfold bind at 1, failIf.
    destruct (Z.leb_spec (len (Reader.data r)) (Reader.offset r)); [lia|].
    unfold ret at 1. cbn beta iota.
    unfold bind at 1. rewrite (index_remaining r _ _ Ho Hrem).
    unfold orPanic, ret at 1. cbn beta iota.
    change (0xFF =? breakByte) with true. cbn beta iota.
    unfold bind, Reader.advance, modify, ret.
    cbn [map concat]. rewrite app_nil_r. reflexivity.
  - destruct fuel as [|fuel]; [cbn in Hfuel; lia|].
    cbn [length] in Hfuel.
    cbn [map concat] in Hrem. rewrite <- app_assoc in Hrem.
    unfold encString at 1 in Hrem. rewrite <- app_assoc in Hrem.
    assert (Hne : writeArgument_spec mt (len c) <> [])
      by (unfold writeArgument_spec; discriminate).
    pose proof (remaining_bounds r _ _ Ho Hrem Hne) as Hl.
    rewrite !len_app in Hl.
    pose proof (len_writeArgument_spec_bounds mt (len c)) as Hh.
    pose proof (len_nonneg c). pose proof (len_nonneg rest).
    pose proof (len_nonneg (concat (map (encString mt) chunks))).
    change (len [0xFF]) with 1 in Hl.
    assert (Hv : 0 <= len c < 2^64) by (unfold MaxInt64 in Hmax; lia).
    pose proof (argumentInfo_range (len c) ltac:(lia)) as Hai.
    cbn [Reader.readChunks].
    unfold bind at 1, get. cbn beta iota.
    unfold bind at 1, failIf.
    destruct (Z.leb_spec (len (Reader.data r)) (Reader.offset r)); [lia|].
    unfold ret at 1. cbn beta iota.
    unfold bind at 1. rewrite (index_remaining r _ _ Ho Hrem).
    unfold orPanic, ret at 1. cbn beta iota.
    match goal with
    | |- context [if ?b =? breakByte then _ else _] =>
        destruct (Z.eqb_spec b breakByte) as [Hb|_];
          [unfold breakByte in Hb;
           destruct Hmt as [-> | ->]; unfold MajorType_code in Hb; lia|]
    end.
    rewrite decodeInitialByte_arith by lia. cbn [fst].
    rewrite MajorType_eqb_refl. cbn [negb].
    unfold bind at 1, ret at 1. cbn beta iota.
    unfold bind at 1.
    rewrite (readArgumentValue_written r mt (len c) _ Ho Hv Hrem).
    destruct (readPayload_written
                (consumed (len (writeArgument_spec mt (len c))) r) c
                (concat (map (encString mt) chunks) ++ [0xFF] ++ rest))
      as [He Hp].
    { reader_fields. lia. }
    { reader_fields. exact Hmax. }
    { exact (remaining_after r _ _ Ho Hrem). }
    unfold bind at 1. rewrite Hp. cbn beta iota.
    unfold bind at 1, failIf.
    assert (Hi0 : invalid r c = false).
    { specialize (Hinv 0 c (or_introl eq_refl)).
      replace (consumed 0 r) with r in Hinv; [exact Hinv|].
      destruct r. unfold consumed. reader_setters. f_equal. lia. }
    rewrite Hi0. unfold ret at 1. cbn beta iota.
    unfold bind at 1, Reader.skipPayload, modify. rewrite He.
    match goal with
    | |- Reader.readChunks _ _ _ _ ?r2 = _ =>
        replace r2 with (consumed (len (writeArgument_spec mt (len c))
                                   + len c) r)
          by (unfold consumed; reader_eq)
    end.
    rewrite (IH fuel _ (acc ++ c) rest).
    + cbn [map concat]. rewrite consumed_consumed, <- app_assoc.
      f_equal. f_equal. unfold encString. rewrite !len_app. lia.
    + reader_fields. lia.
    + reader_fields. exact Hmax.
    + lia.
    + intros n c' Hin. rewrite consumed_consumed.
      apply Hinv. now right.
    + rewrite <- (remaining_after r
                   (writeArgument_spec mt (len c) ++ c)
                   (concat (map (encString mt) chunks) ++ [0xFF] ++ rest) Ho).
      * rewrite len_app. reflexivity.
      * rewrite Hrem, <- app_assoc. reflexivity.
Qed.

Lemma chunks_fuel (mt : MajorType) (chunks : list (list Z))
      (r : Reader.CborReader) (rest : list Z) :
  0 <= Reader.offset r ->
  remaining r = concat (map (encString mt) chunks) ++ [0xFF] ++ rest ->
  (length chunks < S (length (Reader.data r)))%nat.
Proof.
  intros Ho Hrem. pose proof (chunks_length mt chunks) as Hc.
  pose proof (len_skipn (Reader.data r) (Reader.offset r) Ho) as Hl.
  unfold remaining in Hrem.
  rewrite Hrem, !len_app in Hl. change (len [0xFF]) with 1 in Hl.
  pose proof (len_nonneg rest). unfold len in *. lia.
Qed.

Lemma ReadByteString_chunks (r : Reader.CborReader)
      (chunks : list (list Z)) (rest : list Z) :
  ready r ->
  mode_geb (Reader.conformanceMode r) ConformanceCanonical = false ->
  remaining r
  = 0x5F :: concat (map (encString MajorTypeByteString) chunks)
      ++ [0xFF] ++ rest ->
  exists r',
    Reader.ReadByteString r = Ok (concat chunks) r'
    /\ stepped (1 + len (concat (map (encString MajorTypeByteString) chunks))
                + 1) r r'.
Proof.
  intros Hr Hc Hrem. unfold Reader.ReadByteString.
  run_peek (PeekState_item r 0x5F _ StateStartIndefiniteLengthByteString
              Hr Hrem ltac:(discriminate) eq_refl).
  change (CborReaderState_eqb StateStartIndefiniteLengthByteString
            StateStartIndefiniteLengthByteString) with true.
  cbn beta iota. unfold Reader.readIndefiniteByteString.
  unfold bind at 1, get. cbn beta iota. reader_fields.
  unfold bind at 1, failIf. rewrite Hc. unfold ret at 1. cbn beta iota.
  unfold bind at 1, Reader.advance, modify.
  run_invalidate. reader_fields.
  destruct Hr as (Ho & Hmax & Hcc & Hf).
  assert (Hrem1 : remaining (consumed 1 r)
                  = concat (map (encString MajorTypeByteString) chunks)
                      ++ [0xFF] ++ rest).
  { apply (remaining_after r [0x5F] _ Ho Hrem). }
  unfold bind at 1.
  match goal with
  | |- context [Reader.readChunks _ _ _ _ ?r1] =>
      rewrite (readChunks_written MajorTypeByteString (fun _ _ => false)
                 chunks (or_introl eq_refl) _ r1 [] rest)
  end.
  - cbn [app].
    match goal with
    | |- context [bind Reader.advanceContainer _ ?r2] =>
        destruct (advanceContainer_stepped
                    (1 + len (concat (map (encString MajorTypeByteString)
                                          chunks)) + 1) r r2)
          as (r' & Hadv & Hst)
    end.
    { unfold moved. reader_fields. repeat split. lia. }
    unfold bind. rewrite Hadv. exists r'. split; [reflexivity|exact Hst].
  - reader_fields. lia.
  - reader_fields. exact Hmax.
  - reader_fields. apply (chunks_fuel MajorTypeByteString chunks
                            (consumed 1 r) rest); [reader_fields; lia|].
    exact Hrem1.
  - reflexivity.
  - exact Hrem1.
Qed.

Lemma ReadTextString_chunks (utf8Valid : list Z -> bool)
      (r : Reader.CborReader) (chunks : list (list Z)) (rest : list Z) :
  ready r ->
  mode_geb (Reader.conformanceMode r) ConformanceCanonical = false ->
  Forall (fun c => Reader.invalidUtf8 utf8Valid r c = false) chunks ->
  remaining r
  = 0x7F :: concat (map (encString MajorTypeTextString) chunks)
      ++ [0xFF] ++ rest ->
  exists r',
    Reader.ReadTextString utf8Valid r = Ok (concat chunks) r'
    /\ stepped (1 + len (concat (map (encString MajorTypeTextString) chunks))
                + 1) r r'.
Proof.
  intros Hr Hc Hvalid Hrem. unfold Reader.ReadTextString.
  run_peek (PeekState_item r 0x7F _ StateStartIndefiniteLengthTextString
              Hr Hrem ltac:(discriminate) eq_refl).
  change (CborReaderState_eqb StateStartIndefiniteLengthTextString
            StateStartIndefiniteLengthTextString) with true.
  cbn beta iota. unfold Reader.readIndefiniteTextString.
  unfold bind at 1, get. cbn beta iota. reader_fields.
  unfold bind at 1, failIf. rewrite Hc. unfold ret at 1. cbn beta iota.
  unfold bind at 1, Reader.advance, modify.
  run_invalidate. reader_fields.
  destruct Hr as (Ho & Hmax & Hcc & Hf).
  assert (Hrem1 : remaining (consumed 1 r)
                  = concat (map (encString MajorTypeTextString) chunks)
                      ++ [0xFF] ++ rest).
  { apply (remaining_after r [0x7F] _ Ho Hrem). }
  unfold bind at 1.
  match goal with
  | |- context [Reader.readChunks _ _ _ _ ?r1] =>
      rewrite (readChunks_written MajorTypeTextString
                 (Reader.invalidUtf8 utf8Valid)
                 chunks (or_intror eq_refl) _ r1 [] rest)
  end.
  - cbn [app].
    match goal with
    | |- context [bind Reader.advanceContainer _ ?r2] =>
        destruct (advanceContainer_stepped
                    (1 + len (concat (map (encString MajorTypeTextString)
                                          chunks)) + 1) r r2)
          as (r' & Hadv & Hst)
    end.
    { unfold moved. reader_fields. repeat split. lia. }
    unfold bind. rewrite Hadv. exists r'. split; [reflexivity|exact Hst].
  - reader_fields. lia.
  - reader_fields. exact Hmax.
  - reader_fields. apply (chunks_fuel MajorTypeTextString chunks
                            (consumed 1 r) rest); [reader_fields; lia|].
    exact Hrem1.
  - intros n c Hin. rewrite Forall_forall in Hvalid.
    specialize (Hvalid c Hin). revert Hvalid.
    unfold Reader.invalidUtf8, Reader.strict. reader_fields. tauto.
  - exact Hrem1.
Qed.


(** ** Skipping nested data items *)

Lemma enc_nonempty (v : Value) : 1 <= len (enc v).
Proof.
  destruct v; cbn [enc]; unfold encInt64, encString, encBoolean,
    encSimpleValue, encFloat16, encFloat32, encFloat64;
    repeat match goal with
           | |- context [if ?c then _ else _] => destruct c
           end;
    rewrite ?len_app, ?len_cons;
    repeat match goal with
           | |- context [len (writeArgument_spec ?mt ?n)] =>
               pose proof (len_writeArgument_spec_bounds mt n);
               generalize dependent (len (writeArgument_spec mt n)); intros
           end;
    repeat match goal with
           | |- context [len ?l] =>
               pose proof (len_nonneg l); generalize dependent (len l); intros
           end; lia.
Qed.

Lemma items_length (items : list Value) :
  len items <= len (concat (map enc items)).
Proof.
  induction items as [|x items IH]; cbn [map concat].
  - change (len (@nil Value)) with 0. change (len (@nil Z)) with 0. lia.
  - rewrite len_cons, len_app. pose proof (enc_nonempty x). lia.
Qed.

Lemma pairs_length (pairs : list (Value * Value)) :
  len pairs <= len (concat (map encPair pairs)).
Proof.
  induction pairs as [|[k x] pairs IH]; cbn [map concat].
  - change (len (@nil (Value * Value))) with 0.
    change (len (@nil Z)) with 0. lia.
  - rewrite len_cons, len_app. unfold encPair at 1. rewrite len_app.
    pose proof (enc_nonempty k). pose proof (enc_nonempty x). lia.
Qed.

(** A call of [SkipValue] that succeeds started in front of a data item,
    not at the end of a container. *)
Lemma skipValue_peek (utf8Valid : list Z -> bool) (fuel : nat)
      (r r' : Reader.CborReader) :
  Reader.skipValue utf8Valid fuel r = Ok tt r' ->
  exists st r1,
    Reader.PeekState r = Ok st r1
    /\ CborReaderState_eqb st StateEndArray = false
    /\ CborReaderState_eqb st StateEndMap = false.
Proof.
  destruct fuel as [|fuel]; [discriminate|].
  cbn [Reader.skipValue]. unfold bind at 1.
  destruct (Reader.PeekState r) as [st r1|e r1|]; try discriminate.
  destruct st; try discriminate; intros _;
    eexists; eexists; (split; [reflexivity|split; reflexivity]).
Qed.

Lemma moved_compose (n m : Z) st st' (r r1 r2 : Reader.CborReader) :
  moved n st r r1 -> moved m st' r1 r2 -> moved (n + m) st' r r2.
Proof.
  unfold moved.
  intros (Hd & Ho & Hm & Hx & Ha & Hs & _)
         (Hd' & Ho' & Hm' & Hx' & Ha' & Hs' & Hc').
  repeat split; try congruence. lia.
Qed.

Lemma moved_refl (st : list Reader.readerNestingInfo)
      (r : Reader.CborReader) :
  Reader.nestingStack r = st -> Reader.stateComputed r = false ->
  moved 0 st r r.
Proof. intros Hs Hc. unfold moved. repeat split; try assumption. lia. Qed.

Lemma ready_in_frame (r : Reader.CborReader) (f : Reader.readerNestingInfo)
      (st : list Reader.readerNestingInfo) :
  0 <= Reader.offset r -> len (Reader.data r) <= MaxInt64 ->
  cacheCoherent r -> Reader.nestingStack r = f :: st ->
  Reader.frameComplete f = false -> ready r.
Proof.
  intros Ho Hmax Hc Hst Hf. unfold ready. rewrite Hst. tauto.
Qed.

Lemma fresh_coherent (r : Reader.CborReader) :
  Reader.stateComputed r = false -> cacheCoherent r.
Proof. intros H H'. congruence. Qed.

Lemma skip_items (utf8Valid : list Z -> bool) (items : list Value) :
  Forall (skips utf8Valid) items ->
  forall (fuel lfuel : nat) (n k : Z) st (r : Reader.CborReader)
         (rest : list Z),
    Forall (fun x => (height x < fuel)%nat) items ->
    (length items <= lfuel)%nat ->
    0 <= Reader.offset r -> len (Reader.data r) <= MaxInt64 ->
    Reader.stateComputed r = false ->
    Reader.nestingStack r
    = Reader.mkReaderNestingInfo MajorTypeArray n k false false false :: st ->
    n = k + len items ->
    Forall (readableIn utf8Valid (Reader.conformanceMode r)) items ->
    Forall (fun x => len st + 1 + Z.of_nat (readerDepth x)
                     <= Reader.maxNestingDepth r) items ->
    remaining r = concat (map enc items) ++ rest ->
    exists r',
      Reader.skipTimes (Reader.skipValue utf8Valid fuel) lfuel k n r
      = Ok tt r'
      /\ moved (len (concat (map enc items)))
               (Reader.mkReaderNestingInfo MajorTypeArray n n false false
                  false :: st) r r'.
Proof.
  induction 1 as [|x items Hx Hxs IH];
    intros fuel lfuel n k st r rest Hh Hlf Ho Hmax Hsc Hst Hn Hrd Hdp Hrem.
  - change (len (@nil Value)) with 0 in Hn.
    assert (Hk : (k <? n) = false) by (apply Z.ltb_ge; lia).
    exists r. split.
    + destruct lfuel; cbn [Reader.skipTimes]; rewrite Hk; reflexivity.
    + cbn [map concat]. change (len (@nil Z)) with 0.
      apply moved_refl; [|exact Hsc]. rewrite Hst. do 3 f_equal. lia.
  - rewrite len_cons in Hn. pose proof (len_nonneg items) as Hli.
    destruct lfuel as [|lfuel]; [cbn in Hlf; lia|]. cbn [length] in Hlf.
    inversion Hh as [|? ? Hhx Hhxs]; subst.
    inversion Hrd as [|? ? Hrx Hrxs]; subst.
    inversion Hdp as [|? ? Hdx Hdxs]; subst.
    cbn [map concat] in *. rewrite <- app_assoc in Hrem.
    cbn [Reader.skipTimes].
    destruct (Z.ltb_spec k (k + (1 + len items))) as [_|]; [|lia].
    destruct (Hx fuel r (concat (map enc items) ++ rest) Hhx)
      as (r1 & Hrun & Hstep); try assumption.
    { apply (ready_in_frame r _ st Ho Hmax (fresh_coherent r Hsc) Hst).
      unfold Reader.frameComplete.
      cbn [Reader.isIndefinite Reader.definiteLength Reader.itemsRead negb
           andb].
      apply Z.leb_gt. lia. }
    { unfold Reader.NestingDepth. rewrite Hst, len_cons. lia. }
    unfold bind. rewrite Hrun.
    unfold stepped in Hstep. rewrite Hst in Hstep.
    cbn [advanceStack Reader.advanceFrame Reader.isMap Reader.majorType
         Reader.definiteLength Reader.itemsRead Reader.keyRead
         Reader.isIndefinite] in Hstep.
    pose proof Hstep as (Hd1 & Ho1 & Hm1 & Hx1 & Ha1 & Hs1 & Hc1).
    pose proof (enc_nonempty x) as Hex.
    destruct (IH fuel lfuel (k + (1 + len items)) (k + 1) st r1 rest)
      as (r2 & Hrun2 & Hmv2); try assumption; try lia.
    + rewrite Hd1. exact Hmax.
    + rewrite Hm1. exact Hrxs.
    + rewrite Hx1. exact Hdxs.
    + eapply moved_remaining; [exact Ho|exact Hstep|reflexivity|exact Hrem].
    + exists r2. split; [exact Hrun2|].
      rewrite len_app. exact (moved_compose _ _ _ _ r r1 r2 Hstep Hmv2).
Qed.

(** One pair of a map: a key and a value, skipped one after the other
    inside a map frame. *)
Lemma skip_pair (utf8Valid : list Z -> bool) (key x : Value)
      (fuel : nat) (n k : Z) (indefinite : bool) st
      (r : Reader.CborReader) (rest : list Z) :
  skips utf8Valid key -> skips utf8Valid x ->
  (height key < fuel)%nat -> (height x < fuel)%nat ->
  ready r ->
  Reader.nestingStack r
  = Reader.mkReaderNestingInfo MajorTypeMap n k true false indefinite :: st ->
  indefinite = true \/ k < n ->
  readableIn utf8Valid (Reader.conformanceMode r) key ->
  readableIn utf8Valid (Reader.conformanceMode r) x ->
  len st + 1 + Z.of_nat (readerDepth key) <= Reader.maxNestingDepth r ->
  len st + 1 + Z.of_nat (readerDepth x) <= Reader.maxNestingDepth r ->
  remaining r = encPair (key, x) ++ rest ->
  exists r',
    (Reader.skipValue utf8Valid fuel ;; Reader.skipValue utf8Valid fuel) r
    = Ok tt r'
    /\ moved (len (encPair (key, x)))
             (Reader.mkReaderNestingInfo MajorTypeMap n (k + 1) true false
                indefinite :: st) r r'.
Proof.
  intros Hk Hx Hhk Hhx Hr Hst Hopen Hrk Hrx Hdk Hdx Hrem.
  unfold encPair in *. rewrite <- app_assoc in Hrem.
  destruct (Hk fuel r (enc x ++ rest) Hhk Hr Hrk) as (r1 & Hrun & Hstep);
    try assumption.
  { unfold Reader.NestingDepth. rewrite Hst, len_cons. lia. }
  unfold stepped in Hstep. rewrite Hst in Hstep.
  cbn [advanceStack Reader.advanceFrame Reader.isMap Reader.majorType
       Reader.definiteLength Reader.itemsRead Reader.keyRead
       Reader.isIndefinite] in Hstep.
  pose proof Hstep as (Hd1 & Ho1 & Hm1 & Hx1 & Ha1 & Hs1 & Hc1).
  pose proof (enc_nonempty key) as Hek.
  destruct Hr as (Ho & Hmax & Hcc & Hf).
  assert (Hr1 : ready r1).
  { refine (ready_in_frame r1 _ st _ _ _ Hs1 _).
    - lia.
    - rewrite Hd1. exact Hmax.
    - now apply fresh_coherent.
    - unfold Reader.frameComplete.
      cbn [Reader.isIndefinite Reader.definiteLength Reader.itemsRead].
      destruct Hopen as [->|Hlt]; [reflexivity|].
      destruct indefinite; [reflexivity|]. cbn [negb andb].
      apply Z.leb_gt. lia. }
  destruct (Hx fuel r1 rest Hhx Hr1) as (r2 & Hrun2 & Hstep2).
  { rewrite Hm1. exact Hrx. }
  { unfold Reader.NestingDepth. rewrite Hs1, Hx1, len_cons. lia. }
  { eapply moved_remaining; [exact Ho|exact Hstep|reflexivity|exact Hrem]. }
  unfold stepped in Hstep2. rewrite Hs1 in Hstep2.
  cbn [advanceStack Reader.advanceFrame Reader.isMap Reader.majorType
       Reader.definiteLength Reader.itemsRead Reader.keyRead
       Reader.isIndefinite] in Hstep2.
  unfold bind. rewrite Hrun, Hrun2. exists r2. split; [reflexivity|].
  rewrite len_app. exact (moved_compose _ _ _ _ r r1 r2 Hstep Hstep2).
Qed.

Lemma skip_pairs (utf8Valid : list Z -> bool) (pairs : list (Value * Value)) :
  Forall (fun kv => skips utf8Valid (fst kv) /\ skips utf8Valid (snd kv))
         pairs ->
  forall (fuel lfuel : nat) (n k : Z) st (r : Reader.CborReader)
         (rest : list Z),
    Forall (fun kv => (height (fst kv) < fuel)%nat
                      /\ (height (snd kv) < fuel)%nat) pairs ->
    (length pairs <= lfuel)%nat ->
    0 <= Reader.offset r -> len (Reader.data r) <= MaxInt64 ->
    Reader.stateComputed r = false ->
    Reader.nestingStack r
    = Reader.mkReaderNestingInfo MajorTypeMap n k true false false :: st ->
    n = k + len pairs ->
    Forall (fun kv => readableIn utf8Valid (Reader.conformanceMode r) (fst kv)
                      /\ readableIn utf8Valid (Reader.conformanceMode r)
                                    (snd kv)) pairs ->
    Forall (fun kv => len st + 1 + Z.of_nat (readerDepth (fst kv))
                      <= Reader.maxNestingDepth r
                      /\ len st + 1 + Z.of_nat (readerDepth (snd kv))
                         <= Reader.maxNestingDepth r) pairs ->
    remaining r = concat (map encPair pairs) ++ rest ->
    exists r',
      Reader.skipTimes (Reader.skipValue utf8Valid fuel ;;
                        Reader.skipValue utf8Valid fuel) lfuel k n r
      = Ok tt r'
      /\ moved (len (concat (map encPair pairs)))
               (Reader.mkReaderNestingInfo MajorTypeMap n n true false false
                  :: st) r r'.
Proof.
  induction 1 as [|[key x] pairs [Hk Hx] Hxs IH];
    intros fuel lfuel n k st r rest Hh Hlf Ho Hmax Hsc Hst Hn Hrd Hdp Hrem.
  - change (len (@nil (Value * Value))) with 0 in Hn.
    assert (Hkn : (k <? n) = false) by (apply Z.ltb_ge; lia).
    exists r. split.
    + destruct lfuel; cbn [Reader.skipTimes]; rewrite Hkn; reflexivity.
    + cbn [map concat]. change (len (@nil Z)) with 0.
      apply moved_refl; [|exact Hsc]. rewrite Hst. do 3 f_equal. lia.
  - rewrite len_cons in Hn. pose proof (len_nonneg pairs) as Hli.
    destruct lfuel as [|lfuel]; [cbn in Hlf; lia|]. cbn [length] in Hlf.
    inversion Hh as [|? ? [Hhk Hhx] Hhxs]; subst.
    inversion Hrd as [|? ? [Hrk Hrx] Hrxs]; subst.
    inversion Hdp as [|? ? [Hdk Hdx] Hdxs]; subst.
    cbn [fst snd] in *.
    cbn [map concat] in *. rewrite <- app_assoc in Hrem.
    cbn [Reader.skipTimes].
    destruct (Z.ltb_spec k (k + (1 + len pairs))) as [_|]; [|lia].
    destruct (skip_pair utf8Valid key x fuel (k + (1 + len pairs)) k false
                st r (concat (map encPair pairs) ++ rest) Hk Hx Hhk Hhx)
      as (r1 & Hrun & Hmv); try assumption.
    { apply (ready_in_frame r _ st Ho Hmax (fresh_coherent r Hsc) Hst).
      unfold Reader.frameComplete.
      cbn [Reader.isIndefinite Reader.definiteLength Reader.itemsRead negb
           andb].
      apply Z.leb_gt. lia. }
    { right. lia. }
    unfold bind at 1. rewrite Hrun. cbn beta iota.
    pose proof Hmv as (Hd1 & Ho1 & Hm1 & Hx1 & Ha1 & Hs1 & Hc1).
    pose proof (enc_nonempty key) as Hek. pose proof (enc_nonempty x) as Hex.
    assert (Hlp : len (encPair (key, x)) = len (enc key) + len (enc x))
      by (unfold encPair; apply len_app).
    destruct (IH fuel lfuel (k + (1 + len pairs)) (k + 1) st r1 rest)
      as (r2 & Hrun2 & Hmv2); try assumption; try lia.
    + rewrite Hd1. exact Hmax.
    + rewrite Hm1. exact Hrxs.
    + rewrite Hx1. exact Hdxs.
    + eapply moved_remaining; [exact Ho|exact Hmv|reflexivity|exact Hrem].
    + exists r2. split; [exact Hrun2|].
      rewrite len_app. exact (moved_compose _ _ _ _ r r1 r2 Hmv Hmv2).
Qed.


Lemma remaining_cached (st : CborReaderState) (r : Reader.CborReader) :
  remaining (cached st r) = remaining r.
Proof. reflexivity. Qed.

Lemma moved_from_cached (n : Z) st (s : CborReaderState)
      (r r' : Reader.CborReader) :
  moved n st (cached s r) r' -> moved n st r r'.
Proof. unfold moved. reader_fields. tauto. Qed.

(** The loop of [skipArray] on an indefinite-length array stops in front
    of the break byte, with the classification of the break cached. *)
Lemma skip_until_items (utf8Valid : list Z -> bool) (items : list Value) :
  Forall (skips utf8Valid) items ->
  forall (fuel lfuel : nat) (k : Z) st (r : Reader.CborReader)
         (rest : list Z),
    Forall (fun x => (height x < fuel)%nat) items ->
    (length items < lfuel)%nat ->
    0 <= Reader.offset r -> len (Reader.data r) <= MaxInt64 ->
    Reader.stateComputed r = false ->
    Reader.nestingStack r
    = Reader.mkReaderNestingInfo MajorTypeArray (-1) k false false true
        :: st ->
    Forall (readableIn utf8Valid (Reader.conformanceMode r)) items ->
    Forall (fun x => len st + 1 + Z.of_nat (readerDepth x)
                     <= Reader.maxNestingDepth r) items ->
    remaining r = concat (map enc items) ++ 0xFF :: rest ->
    exists r',
      Reader.skipUntil StateEndArray (Reader.skipValue utf8Valid fuel)
                       lfuel r
      = Ok tt (cached StateEndArray r')
      /\ Reader.computeState r' = Ok StateEndArray r'
      /\ moved (len (concat (map enc items)))
               (Reader.mkReaderNestingInfo MajorTypeArray (-1)
                  (k + len items) false false true :: st) r r'.
Proof.
  induction 1 as [|x items Hx Hxs IH];
    intros fuel lfuel k st r rest Hh Hlf Ho Hmax Hsc Hst Hrd Hdp Hrem;
    (destruct lfuel as [|lfuel]; [cbn in Hlf; lia|]);
    cbn [Reader.skipUntil].
  - cbn [map concat app] in Hrem.
    destruct (computeState_break _ st r rest Ho Hst eq_refl Hrem)
      as [Hcs _]. specialize (Hcs eq_refl).
    unfold bind at 1.
    rewrite (PeekState_coherent r StateEndArray (fresh_coherent r Hsc) Hcs).
    cbn beta iota. cbn [CborReaderState_eqb]. exists r.
    split; [reflexivity|]. split; [exact Hcs|].
    cbn [map concat]. change (len (@nil Z)) with 0.
    change (len (@nil Value)) with 0.
    apply moved_refl; [|exact Hsc]. rewrite Hst. do 3 f_equal. lia.
  - cbn [length] in Hlf.
    inversion Hh as [|? ? Hhx Hhxs]; subst.
    inversion Hrd as [|? ? Hrx Hrxs]; subst.
    inversion Hdp as [|? ? Hdx Hdxs]; subst.
    cbn [map concat] in *. rewrite <- app_assoc in Hrem.
    assert (Hr : ready r).
    { apply (ready_in_frame r _ st Ho Hmax (fresh_coherent r Hsc) Hst).
      reflexivity. }
    assert (Hnd : Reader.NestingDepth r + Z.of_nat (readerDepth x)
                  <= Reader.maxNestingDepth r).
    { unfold Reader.NestingDepth. rewrite Hst, len_cons. lia. }
    destruct (Hx fuel r (concat (map enc items) ++ 0xFF :: rest) Hhx Hr Hrx
                Hnd Hrem) as (r0 & Hrun0 & _).
    destruct (skipValue_peek utf8Valid fuel r r0 Hrun0)
      as (s & r1 & Hp & Hs & _).
    unfold bind at 1. rewrite Hp. cbn beta iota. rewrite Hs.
    destruct (PeekState_ready r r1 s Hr Hp) as (Hr1 & Hrem1 & Hm0).
    pose proof Hm0 as (Hd1 & Ho1 & Hm1 & Hx1 & Ha1 & Hs1 & _).
    reader_fields_in Hd1. reader_fields_in Ho1. reader_fields_in Hm1.
    reader_fields_in Hx1. reader_fields_in Hs1.
    destruct (Hx fuel r1 (concat (map enc items) ++ 0xFF :: rest) Hhx Hr1)
      as (r2 & Hrun & Hstep).
    { rewrite Hm1. exact Hrx. }
    { unfold Reader.NestingDepth. rewrite Hs1, Hx1. exact Hnd. }
    { rewrite Hrem1. exact Hrem. }
    pose proof (moved_0_stepped _ r r1 r2 Hm0 Hstep) as Hstep'.
    unfold bind at 1. rewrite Hrun. cbn beta iota.
    unfold stepped in Hstep'. rewrite Hst in Hstep'.
    cbn [advanceStack Reader.advanceFrame Reader.isMap Reader.majorType
         Reader.definiteLength Reader.itemsRead Reader.keyRead
         Reader.isIndefinite] in Hstep'.
    pose proof Hstep' as (Hd2 & Ho2 & Hm2 & Hx2 & Ha2 & Hs2 & Hc2).
    pose proof (enc_nonempty x) as Hex.
    destruct (IH fuel lfuel (k + 1) st r2 rest)
      as (r3 & Hrun3 & Hcs3 & Hmv3); try assumption; try lia.
    + rewrite Hd2. exact Hmax.
    + rewrite Hm2. exact Hrxs.
    + rewrite Hx2. exact Hdxs.
    + eapply moved_remaining; [exact Ho|exact Hstep'|reflexivity|exact Hrem].
    + exists r3. split; [exact Hrun3|]. split; [exact Hcs3|].
      rewrite len_app, len_cons.
      replace (k + (1 + len items)) with (k + 1 + len items) by lia.
      exact (moved_compose _ _ _ _ r r2 r3 Hstep' Hmv3).
Qed.

Lemma skip_until_pairs (utf8Valid : list Z -> bool)
      (pairs : list (Value * Value)) :
  Forall (fun kv => skips utf8Valid (fst kv) /\ skips utf8Valid (snd kv))
         pairs ->
  forall (fuel lfuel : nat) (k : Z) st (r : Reader.CborReader)
         (rest : list Z),
    Forall (fun kv => (height (fst kv) < fuel)%nat
                      /\ (height (snd kv) < fuel)%nat) pairs ->
    (length pairs < lfuel)%nat ->
    0 <= Reader.offset r -> len (Reader.data r) <= MaxInt64 ->
    Reader.stateComputed r = false ->
    Reader.nestingStack r
    = Reader.mkReaderNestingInfo MajorTypeMap (-1) k true false true :: st ->
    Forall (fun kv => readableIn utf8Valid (Reader.conformanceMode r) (fst kv)
                      /\ readableIn utf8Valid (Reader.conformanceMode r)
                                    (snd kv)) pairs ->
    Forall (fun kv => len st + 1 + Z.of_nat (readerDepth (fst kv))
                      <= Reader.maxNestingDepth r
                      /\ len st + 1 + Z.of_nat (readerDepth (snd kv))
                         <= Reader.maxNestingDepth r) pairs ->
    remaining r = concat (map encPair pairs) ++ 0xFF :: rest ->
    exists r',
      Reader.skipUntil StateEndMap
        (Reader.skipValue utf8Valid fuel ;; Reader.skipValue utf8Valid fuel)
        lfuel r
      = Ok tt (cached StateEndMap r')
      /\ Reader.computeState r' = Ok StateEndMap r'
      /\ moved (len (concat (map encPair pairs)))
               (Reader.mkReaderNestingInfo MajorTypeMap (-1)
                  (k + len pairs) true false true :: st) r r'.
Proof.
  induction 1 as [|[key x] pairs [Hk Hx] Hxs IH];
    intros fuel lfuel k st r rest Hh Hlf Ho Hmax Hsc Hst Hrd Hdp Hrem;
    (destruct lfuel as [|lfuel]; [cbn in Hlf; lia|]);
    cbn [Reader.skipUntil].
  - cbn [map concat app] in Hrem.
    destruct (computeState_break _ st r rest Ho Hst eq_refl Hrem)
      as [_ Hcs]. specialize (Hcs eq_refl eq_refl).
    unfold bind at 1.
    rewrite (PeekState_coherent r StateEndMap (fresh_coherent r Hsc) Hcs).
    cbn beta iota. cbn [CborReaderState_eqb]. exists r.
    split; [reflexivity|]. split; [exact Hcs|].
    cbn [map concat]. change (len (@nil Z)) with 0.
    change (len (@nil (Value * Value))) with 0.
    apply moved_refl; [|exact Hsc]. rewrite Hst. do 3 f_equal. lia.
  - cbn [length] in Hlf.
    inversion Hh as [|? ? [Hhk Hhx] Hhxs]; subst.
    inversion Hrd as [|? ? [Hrk Hrx] Hrxs]; subst.
    inversion Hdp as [|? ? [Hdk Hdx] Hdxs]; subst.
    cbn [fst snd] in *.
    cbn [map concat] in *. rewrite <- app_assoc in Hrem.
    assert (Hr : ready r).
    { apply (ready_in_frame r _ st Ho Hmax (fresh_coherent r Hsc) Hst).
      reflexivity. }
    assert (Hnd : Reader.NestingDepth r + Z.of_nat (readerDepth key)
                  <= Reader.maxNestingDepth r).
    { unfold Reader.NestingDepth. rewrite Hst, len_cons. lia. }
    assert (Hrem' : remaining r
                    = enc key
                        ++ (enc x ++ concat (map encPair pairs)
                                  ++ 0xFF :: rest)).
    { rewrite Hrem. unfold encPair at 1. now rewrite <- app_assoc. }
    destruct (Hk fuel r _ Hhk Hr Hrk Hnd Hrem') as (r0 & Hrun0 & _).
    destruct (skipValue_peek utf8Valid fuel r r0 Hrun0)
      as (s & r1 & Hp & _ & Hs).
    unfold bind at 1. rewrite Hp. cbn beta iota. rewrite Hs.
    destruct (PeekState_ready r r1 s Hr Hp) as (Hr1 & Hrem1 & Hm0).
    pose proof Hm0 as (Hd1 & Ho1 & Hm1 & Hx1 & Ha1 & Hs1 & _).
    reader_fields_in Hd1. reader_fields_in Ho1. reader_fields_in Hm1.
    reader_fields_in Hx1. reader_fields_in Hs1.
    destruct (skip_pair utf8Valid key x fuel (-1) k true st r1
                (concat (map encPair pairs) ++ 0xFF :: rest) Hk Hx Hhk Hhx
                Hr1)
      as (r2 & Hrun & Hmv).
    { rewrite Hs1. exact Hst. }
    { left. reflexivity. }
    { rewrite Hm1. exact Hrk. }
    { rewrite Hm1. exact Hrx. }
    { rewrite Hx1. exact Hdk. }
    { rewrite Hx1. exact Hdx. }
    { rewrite Hrem1. exact Hrem. }
    pose proof (moved_0_moved _ _ r r1 r2 Hm0 Hmv) as Hmv'.
    unfold bind at 1. rewrite Hrun. cbn beta iota.
    pose proof Hmv' as (Hd2 & Ho2 & Hm2 & Hx2 & Ha2 & Hs2 & Hc2).
    pose proof (enc_nonempty key) as Hek. pose proof (enc_nonempty x) as Hex.
    assert (Hlp : len (encPair (key, x)) = len (enc key) + len (enc x))
      by (unfold encPair; apply len_app).
    destruct (IH fuel lfuel (k + 1) st r2 rest)
      as (r3 & Hrun3 & Hcs3 & Hmv3); try assumption; try lia.
    + rewrite Hd2. exact Hmax.
    + rewrite Hm2. exact Hrxs.
    + rewrite Hx2. exact Hdxs.
    + eapply moved_remaining; [exact Ho|exact Hmv'|reflexivity|exact Hrem].
    + exists r3. split; [exact Hrun3|]. split; [exact Hcs3|].
      rewrite len_app, len_cons.
      replace (k + (1 + len pairs)) with (k + 1 + len pairs) by lia.
      exact (moved_compose _ _ _ _ r r2 r3 Hmv' Hmv3).
Qed.


Lemma list_max_map_Forall {A : Type} (f : A -> nat) (l : list A) (n : nat) :
  (list_max (map f l) <= n)%nat -> Forall (fun x => (f x <= n)%nat) l.
Proof.
  intros H. apply list_max_le in H. now apply Forall_map in H.
Qed.

Lemma remaining_fuel (r : Reader.CborReader) (x rest : list Z) (n : nat) :
  0 <= Reader.offset r -> remaining r = x ++ rest -> Z.of_nat n <= len x ->
  (n <= length (Reader.data r))%nat.
Proof.
  intros Ho Hrem Hn.
  pose proof (len_skipn (Reader.data r) (Reader.offset r) Ho) as Hl.
  unfold remaining in Hrem. rewrite Hrem, len_app in Hl.
  pose proof (len_nonneg rest). unfold len in *. lia.
Qed.

Lemma classify_simple_low (v : Z) (r : Reader.CborReader) :
  0 <= v < 20 -> Reader.classify (0xE0 + v) r = Ok StateSimpleValue r.
Proof.
  intros Hv.
  assert (Hc : v = 0 \/ v = 1 \/ v = 2 \/ v = 3 \/ v = 4 \/ v = 5 \/ v = 6
               \/ v = 7 \/ v = 8 \/ v = 9 \/ v = 10 \/ v = 11 \/ v = 12
               \/ v = 13 \/ v = 14 \/ v = 15 \/ v = 16 \/ v = 17 \/ v = 18
               \/ v = 19) by lia.
  repeat (destruct Hc as [->|Hc]; [reflexivity|]). subst v. reflexivity.
Qed.

Ltac skip_peek Hp :=
  cbn [headState] in Hp;
  lazymatch type of Hp with
  | Reader.PeekState ?r = Ok ?s ?r1 =>
      let Hr1 := fresh "Hr1" in
      let Hrem1 := fresh "Hrem1" in
      let Hm0 := fresh "Hm0" in
      destruct (PeekState_ready r r1 s ltac:(assumption) Hp)
        as (Hr1 & Hrem1 & Hm0);
      unfold bind at 1; rewrite Hp; cbn beta iota; cbn [headState]
  end.

Ltac skip_read L :=
  let r' := fresh "r'" in
  let Hrun := fresh "Hrun" in
  let Hst := fresh "Hst" in
  destruct L as (r' & Hrun & Hst);
  [..|unfold bind; rewrite Hrun; exists r'; split;
      [reflexivity
      |match goal with
       | Hm0 : moved 0 _ _ _ |- _ =>
           exact (moved_0_stepped _ _ _ r' Hm0 Hst)
       end]].

(** [SkipValue] skips every data item that the decoder accepts. *)
Lemma skips_all (utf8Valid : list Z -> bool) (v : Value) :
  skips utf8Valid v.
Proof.
  induction v as [u|i|bs|s|chunks|chunks|items IH|items IH|pairs IH|pairs IH
                  |tag v IH|b| | |value|value|bits|bits]
    using Value_induction;
    intros fuel r rest Hh Hr Hrd Hnd Hrem;
    (destruct fuel as [|fuel]; [lia|]);
    inversion Hrd; subst; cbn [enc] in *; cbn [Reader.skipValue].
  - (* VUint *)
    pose proof (PeekState_written_head r MajorTypeUnsignedInteger u rest Hr
                  ltac:(assumption) ltac:(discriminate) Hrem) as Hp.
    skip_peek Hp.
    skip_read (ReadUint64_item _ u rest Hr1 ltac:(assumption)
                 ltac:(rewrite Hrem1; exact Hrem)).
  - (* VInt *)
    unfold encInt64 in *.
    destruct (Z.leb_spec 0 i) as [Hi|Hi].
    + pose proof (PeekState_written_head r MajorTypeUnsignedInteger i rest Hr
                    ltac:(unfold MaxInt64 in *; lia) ltac:(discriminate) Hrem)
        as Hp.
      skip_peek Hp.
      skip_read (ReadUint64_item _ i rest Hr1
                   ltac:(unfold MaxInt64 in *; lia)
                   ltac:(rewrite Hrem1; exact Hrem)).
    + pose proof (PeekState_written_head r MajorTypeNegativeInteger (-1 - i)
                    rest Hr ltac:(unfold MinInt64 in *; lia)
                    ltac:(discriminate) Hrem) as Hp.
      skip_peek Hp.
      assert (He : encInt64 i
                   = writeArgument_spec MajorTypeNegativeInteger (-1 - i)).
      { unfold encInt64. destruct (Z.leb_spec 0 i); [lia|reflexivity]. }
      rewrite <- He.
      skip_read (ReadInt64_item _ i rest Hr1 ltac:(assumption)
                   ltac:(rewrite Hrem1, He; exact Hrem)).
  - (* VBytes *)
    pose proof (len_nonneg bs).
    unfold encString in Hrem. rewrite <- app_assoc in Hrem.
    pose proof (PeekState_written_head r MajorTypeByteString (len bs)
                  (bs ++ rest) Hr ltac:(lia) ltac:(discriminate) Hrem) as Hp.
    skip_peek Hp.
    skip_read (ReadByteString_item _ bs rest Hr1
                 ltac:(rewrite Hrem1; unfold encString;
                       rewrite <- app_assoc; exact Hrem)).
  - (* VText *)
    pose proof (len_nonneg s).
    unfold encString in Hrem. rewrite <- app_assoc in Hrem.
    pose proof (PeekState_written_head r MajorTypeTextString (len s)
                  (s ++ rest) Hr ltac:(lia) ltac:(discriminate) Hrem) as Hp.
    skip_peek Hp.
    skip_read (ReadTextString_item utf8Valid _ s rest Hr1
                 ltac:(assumption)
                 ltac:(rewrite Hrem1; unfold encString;
                       rewrite <- app_assoc; exact Hrem)).
  - (* VBytesChunks *)
    match goal with H : negb _ = true |- _ =>
      apply negb_true_iff in H; rename H into Hc end.
    cbn [app] in Hrem. rewrite <- app_assoc in Hrem.
    pose proof (PeekState_item r 0x5F _ StateStartIndefiniteLengthByteString
                  Hr Hrem ltac:(discriminate) eq_refl) as Hp.
    skip_peek Hp.
    rewrite len_cons, len_app. change (len [0xFF]) with 1.
    rewrite Z.add_assoc.
    skip_read (ReadByteString_chunks _ chunks rest Hr1 Hc
                 ltac:(rewrite Hrem1; exact Hrem)).
  - (* VTextChunks *)
    match goal with H : negb _ = true |- _ =>
      apply negb_true_iff in H; rename H into Hc end.
    cbn [app] in Hrem. rewrite <- app_assoc in Hrem.
    pose proof (PeekState_item r 0x7F _ StateStartIndefiniteLengthTextString
                  Hr Hrem ltac:(discriminate) eq_refl) as Hp.
    skip_peek Hp.
    rewrite len_cons, len_app. change (len [0xFF]) with 1.
    rewrite Z.add_assoc.
    skip_read (ReadTextString_chunks utf8Valid _ chunks rest Hr1 Hc).
    + match goal with H : Forall _ chunks |- _ =>
        eapply Forall_impl; [|exact H] end.
      cbv beta. intros c [_ Hv]. exact Hv.
    + rewrite Hrem1. exact Hrem.
  - (* VArray *)
    pose proof (len_nonneg items) as Hli.
    rewrite <- app_assoc in Hrem.
    pose proof (PeekState_written_head r MajorTypeArray (len items) _ Hr
                  ltac:(unfold MaxInt64 in *; lia) ltac:(discriminate) Hrem)
      as Hp.
    skip_peek Hp.
    pose proof Hm0 as (Hd1 & Ho1 & Hm1 & Hx1 & Ha1 & Hs1 & _).
    reader_fields_in Hd1. reader_fields_in Ho1. reader_fields_in Hm1.
    reader_fields_in Hx1. reader_fields_in Hs1.
    cbn [height] in Hh. cbn [readerDepth] in Hnd.
    rewrite Nat2Z.inj_succ in Hnd.
    unfold Reader.skipArrayWith.
    destruct (ReadStart_definite (cached StateStartArray r) MajorTypeArray
                (len items) (concat (map enc items) ++ rest) Hr1
                ltac:(lia)) as [Hsa _].
    { unfold Reader.NestingDepth in *. reader_fields. lia. }
    { rewrite Hrem1. exact Hrem. }
    destruct (Hsa eq_refl) as (r2 & Hrun2 & Hmv2). clear Hsa.
    unfold bind at 1. rewrite Hrun2. cbn beta iota.
    unfold bind at 1, get. cbn beta iota.
    destruct (Z.eqb_spec (len items) (-1)) as [|_]; [lia|].
    pose proof Hmv2 as (Hd2 & Ho2 & Hm2 & Hx2 & Ha2 & Hs2 & Hc2).
    reader_fields_in Hd2. reader_fields_in Ho2. reader_fields_in Hm2.
    reader_fields_in Hx2. reader_fields_in Hs2.
    pose proof (len_writeArgument_spec_bounds MajorTypeArray (len items))
      as Hl.
    destruct Hr as (Ho & Hmax & Hcc & Hf).
    assert (Hrem2 : remaining r2 = concat (map enc items) ++ rest).
    { eapply moved_remaining;
        [apply Hr1|exact Hmv2|reflexivity|rewrite Hrem1; exact Hrem]. }
    assert (Hhs : Forall (fun x => (height x < fuel)%nat) items).
    { eapply Forall_impl;
        [|apply (list_max_map_Forall height items
                   (list_max (map height items))); lia].
      cbv beta. intros. lia. }
    assert (Hlf : (length items <= S (length (Reader.data r2)))%nat).
    { apply le_S.
      apply (remaining_fuel r2 (concat (map enc items)) rest);
        [lia|exact Hrem2|]. apply items_length. }
    assert (Hrds : Forall (readableIn utf8Valid (Reader.conformanceMode r2))
                          items).
    { rewrite Hm2. assumption. }
    assert (Hdps : Forall (fun x => len (Reader.nestingStack r) + 1
                                    + Z.of_nat (readerDepth x)
                                    <= Reader.maxNestingDepth r2) items).
    { eapply Forall_impl;
        [|apply (list_max_map_Forall readerDepth items
                   (list_max (map readerDepth items))); lia].
      cbv beta. intros. unfold Reader.NestingDepth in Hnd. rewrite Hx2. lia. }
    destruct (skip_items utf8Valid items IH fuel
                (S (length (Reader.data r2))) (len items) 0
                (Reader.nestingStack r) r2 rest Hhs Hlf ltac:(lia)
                ltac:(rewrite Hd2; exact Hmax) Hc2 Hs2 ltac:(lia) Hrds Hdps
                Hrem2)
      as (r3 & Hrun3 & Hmv3).
    unfold bind at 1. rewrite Hrun3. cbn beta iota.
    pose proof Hmv3 as (Hd3 & Ho3 & Hm3 & Hx3 & Ha3 & Hs3 & Hc3).
    destruct (ReadEnd_definite _ (Reader.nestingStack r) r3
                (fresh_coherent r3 Hc3) Hs3) as [He _].
    { unfold Reader.frameComplete.
      cbn [Reader.isIndefinite Reader.definiteLength Reader.itemsRead negb
           andb]. apply Z.leb_refl. }
    { reflexivity. }
    destruct (He eq_refl eq_refl) as (r4 & Hrun4 & Hmv4). clear He.
    exists r4. split; [exact Hrun4|].
    apply (moved_0_stepped _ r _ r4 Hm0). unfold stepped. reader_fields.
    rewrite len_app.
    replace (len (writeArgument_spec MajorTypeArray (len items))
             + len (concat (map enc items)))
      with (len (writeArgument_spec MajorTypeArray (len items))
            + (len (concat (map enc items)) + 0)) by lia.
    eapply moved_compose; [exact Hmv2|].
    eapply moved_compose; [exact Hmv3|exact Hmv4].
  - (* VArrayIndef *)
    match goal with H : negb _ = true |- _ =>
      apply negb_true_iff in H; rename H into Hc end.
    cbn [app] in Hrem. rewrite <- app_assoc in Hrem. cbn [app] in Hrem.
    pose proof (PeekState_item r 0x9F _ StateStartArray Hr Hrem
                  ltac:(discriminate) eq_refl) as Hp.
    skip_peek Hp.
    pose proof Hm0 as (Hd1 & Ho1 & Hm1 & Hx1 & Ha1 & Hs1 & _).
    reader_fields_in Hd1. reader_fields_in Ho1. reader_fields_in Hm1.
    reader_fields_in Hx1. reader_fields_in Hs1.
    cbn [height] in Hh. cbn [readerDepth] in Hnd.
    rewrite Nat2Z.inj_succ in Hnd.
    unfold Reader.skipArrayWith.
    destruct (ReadStart_indefinite (cached StateStartArray r)
                (concat (map enc items) ++ 0xFF :: rest) Hr1 Hc)
      as [Hsa _].
    { unfold Reader.NestingDepth in *. reader_fields. lia. }
    destruct (Hsa ltac:(rewrite Hrem1; exact Hrem)) as (r2 & Hrun2 & Hmv2).
    clear Hsa.
    unfold bind at 1. rewrite Hrun2. cbn beta iota.
    unfold bind at 1, get. cbn beta iota.
    change (-1 =? -1) with true. cbn beta iota.
    pose proof Hmv2 as (Hd2 & Ho2 & Hm2 & Hx2 & Ha2 & Hs2 & Hc2).
    reader_fields_in Hd2. reader_fields_in Ho2. reader_fields_in Hm2.
    reader_fields_in Hx2. reader_fields_in Hs2.
    destruct Hr as (Ho & Hmax & Hcc & Hf).
    assert (Hrem2 : remaining r2 = concat (map enc items) ++ 0xFF :: rest).
    { eapply (moved_remaining 1 _ (cached StateStartArray r) r2 [0x9F]);
        [apply Hr1|exact Hmv2|reflexivity|rewrite Hrem1; exact Hrem]. }
    assert (Hhs : Forall (fun x => (height x < fuel)%nat) items).
    { eapply Forall_impl;
        [|apply (list_max_map_Forall height items
                   (list_max (map height items))); lia].
      cbv beta. intros. lia. }
    assert (Hlf : (length items < S (length (Reader.data r2)))%nat).
    { apply Nat.lt_succ_r.
      apply (remaining_fuel r2 (concat (map enc items)) (0xFF :: rest));
        [lia|exact Hrem2|]. apply items_length. }
    assert (Hrds : Forall (readableIn utf8Valid (Reader.conformanceMode r2))
                          items).
    { rewrite Hm2. assumption. }
    assert (Hdps : Forall (fun x => len (Reader.nestingStack r) + 1
                                    + Z.of_nat (readerDepth x)
                                    <= Reader.maxNestingDepth r2) items).
    { eapply Forall_impl;
        [|apply (list_max_map_Forall readerDepth items
                   (list_max (map readerDepth items))); lia].
      cbv beta. intros. unfold Reader.NestingDepth in Hnd. rewrite Hx2. lia. }
    destruct (skip_until_items utf8Valid items IH fuel
                (S (length (Reader.data r2))) 0
                (Reader.nestingStack r) r2 rest Hhs Hlf ltac:(lia)
                ltac:(rewrite Hd2; exact Hmax) Hc2 Hs2 Hrds Hdps Hrem2)
      as (r3 & Hrun3 & Hcs3 & Hmv3).
    unfold bind at 1. rewrite Hrun3. cbn beta iota.
    pose proof Hmv3 as (Hd3 & Ho3 & Hm3 & Hx3 & Ha3 & Hs3 & Hc3).
    pose proof (len_nonneg (concat (map enc items))) as Hil.
    assert (Hrem3 : remaining r3 = 0xFF :: rest).
    { eapply moved_remaining; [|exact Hmv3|reflexivity|exact Hrem2]. lia. }
    destruct (ReadEnd_indefinite _ (Reader.nestingStack r)
                (cached StateEndArray r3) rest
                (cached_coherent r3 StateEndArray Hcs3)
                ltac:(reader_fields; lia) Hs3 eq_refl Hrem3) as [He _].
    destruct (He eq_refl) as (r4 & Hrun4 & Hmv4). clear He.
    apply moved_from_cached in Hmv4.
    exists r4. split; [exact Hrun4|].
    apply (moved_0_stepped _ r _ r4 Hm0). unfold stepped. reader_fields.
    rewrite len_cons, len_app. change (len [0xFF]) with 1.
    eapply moved_compose; [exact Hmv2|].
    eapply moved_compose; [exact Hmv3|exact Hmv4].
  - (* VMap *)
    pose proof (len_nonneg pairs) as Hli.
    change (fun kv : Value * Value => let '(k, x) := kv in enc k ++ enc x)
      with encPair in *.
    rewrite <- app_assoc in Hrem.
    pose proof (PeekState_written_head r MajorTypeMap (len pairs) _ Hr
                  ltac:(unfold MaxInt64 in *; lia) ltac:(discriminate) Hrem)
      as Hp.
    skip_peek Hp.
    pose proof Hm0 as (Hd1 & Ho1 & Hm1 & Hx1 & Ha1 & Hs1 & _).
    reader_fields_in Hd1. reader_fields_in Ho1. reader_fields_in Hm1.
    reader_fields_in Hx1. reader_fields_in Hs1.
    cbn [height] in Hh. cbn [readerDepth] in Hnd.
    rewrite Nat2Z.inj_succ in Hnd.
    unfold Reader.skipMapWith.
    destruct (ReadStart_definite (cached StateStartMap r) MajorTypeMap
                (len pairs) (concat (map encPair pairs) ++ rest) Hr1
                ltac:(lia)) as [_ Hsa].
    { unfold Reader.NestingDepth in *. reader_fields. lia. }
    { rewrite Hrem1. exact Hrem. }
    destruct (Hsa eq_refl) as (r2 & Hrun2 & Hmv2). clear Hsa.
    unfold bind at 1. rewrite Hrun2. cbn beta iota.
    unfold bind at 1, get. cbn beta iota.
    destruct (Z.eqb_spec (len pairs) (-1)) as [|_]; [lia|].
    pose proof Hmv2 as (Hd2 & Ho2 & Hm2 & Hx2 & Ha2 & Hs2 & Hc2).
    reader_fields_in Hd2. reader_fields_in Ho2. reader_fields_in Hm2.
    reader_fields_in Hx2. reader_fields_in Hs2.
    pose proof (len_writeArgument_spec_bounds MajorTypeMap (len pairs))
      as Hl.
    destruct Hr as (Ho & Hmax & Hcc & Hf).
    assert (Hrem2 : remaining r2 = concat (map encPair pairs) ++ rest).
    { eapply moved_remaining;
        [apply Hr1|exact Hmv2|reflexivity|rewrite Hrem1; exact Hrem]. }
    assert (Hlf : (length pairs <= S (length (Reader.data r2)))%nat).
    { apply le_S.
      apply (remaining_fuel r2 (concat (map encPair pairs)) rest);
        [lia|exact Hrem2|]. apply pairs_length. }
    assert (Hhs : Forall (fun kv => (height (fst kv) < fuel)%nat
                                    /\ (height (snd kv) < fuel)%nat) pairs).
    { eapply Forall_impl;
        [|apply (list_max_map_Forall
                   (fun kv : Value * Value =>
                      let '(k, x) := kv in Nat.max (height k) (height x))
                   pairs _ (Nat.le_refl _))].
      cbv beta. intros [k x] Hkx. cbn [fst snd]. lia. }
    assert (Hrds : Forall (fun kv =>
                             readableIn utf8Valid (Reader.conformanceMode r2)
                                        (fst kv)
                             /\ readableIn utf8Valid
                                           (Reader.conformanceMode r2)
                                           (snd kv)) pairs).
    { rewrite Hm2. assumption. }
    assert (Hdps : Forall (fun kv =>
                             len (Reader.nestingStack r) + 1
                             + Z.of_nat (readerDepth (fst kv))
                             <= Reader.maxNestingDepth r2
                             /\ len (Reader.nestingStack r) + 1
                                + Z.of_nat (readerDepth (snd kv))
                                <= Reader.maxNestingDepth r2) pairs).
    { eapply Forall_impl;
        [|apply (list_max_map_Forall
                   (fun kv : Value * Value =>
                      let '(k, x) := kv in
                      Nat.max (readerDepth k) (readerDepth x))
                   pairs _ (Nat.le_refl _))].
      cbv beta. intros [k x] Hkx. cbn [fst snd].
      unfold Reader.NestingDepth in Hnd. rewrite Hx2. lia. }
    destruct (skip_pairs utf8Valid pairs IH fuel
                (S (length (Reader.data r2))) (len pairs) 0
                (Reader.nestingStack r) r2 rest Hhs Hlf ltac:(lia)
                ltac:(rewrite Hd2; exact Hmax) Hc2 Hs2 ltac:(lia) Hrds Hdps
                Hrem2)
      as (r3 & Hrun3 & Hmv3).
    unfold bind at 1. rewrite Hrun3. cbn beta iota.
    pose proof Hmv3 as (Hd3 & Ho3 & Hm3 & Hx3 & Ha3 & Hs3 & Hc3).
    destruct (ReadEnd_definite _ (Reader.nestingStack r) r3
                (fresh_coherent r3 Hc3) Hs3) as [_ He].
    { unfold Reader.frameComplete.
      cbn [Reader.isIndefinite Reader.definiteLength Reader.itemsRead negb
           andb]. apply Z.leb_refl. }
    { reflexivity. }
    destruct (He eq_refl eq_refl) as (r4 & Hrun4 & Hmv4). clear He.
    exists r4. split; [exact Hrun4|].
    apply (moved_0_stepped _ r _ r4 Hm0). unfold stepped. reader_fields.
    rewrite len_app.
    replace (len (writeArgument_spec MajorTypeMap (len pairs))
             + len (concat (map encPair pairs)))
      with (len (writeArgument_spec MajorTypeMap (len pairs))
            + (len (concat (map encPair pairs)) + 0)) by lia.
    eapply moved_compose; [exact Hmv2|].
    eapply moved_compose; [exact Hmv3|exact Hmv4].
  - (* VMapIndef *)
    match goal with H : negb _ = true |- _ =>
      apply negb_true_iff in H; rename H into Hc end.
    change (fun kv : Value * Value => let '(k, x) := kv in enc k ++ enc x)
      with encPair in *.
    cbn [app] in Hrem. rewrite <- app_assoc in Hrem. cbn [app] in Hrem.
    pose proof (PeekState_item r 0xBF _ StateStartMap Hr Hrem
                  ltac:(discriminate) eq_refl) as Hp.
    skip_peek Hp.
    pose proof Hm0 as (Hd1 & Ho1 & Hm1 & Hx1 & Ha1 & Hs1 & _).
    reader_fields_in Hd1. reader_fields_in Ho1. reader_fields_in Hm1.
    reader_fields_in Hx1. reader_fields_in Hs1.
    cbn [height] in Hh. cbn [readerDepth] in Hnd.
    rewrite Nat2Z.inj_succ in Hnd.
    unfold Reader.skipMapWith.
    destruct (ReadStart_indefinite (cached StateStartMap r)
                (concat (map encPair pairs) ++ 0xFF :: rest) Hr1 Hc)
      as [_ Hsa].
    { unfold Reader.NestingDepth in *. reader_fields. lia. }
    destruct (Hsa ltac:(rewrite Hrem1; exact Hrem)) as (r2 & Hrun2 & Hmv2).
    clear Hsa.
    unfold bind at 1. rewrite Hrun2. cbn beta iota.
    unfold bind at 1, get. cbn beta iota.
    change (-1 =? -1) with true. cbn beta iota.
    pose proof Hmv2 as (Hd2 & Ho2 & Hm2 & Hx2 & Ha2 & Hs2 & Hc2).
    reader_fields_in Hd2. reader_fields_in Ho2. reader_fields_in Hm2.
    reader_fields_in Hx2. reader_fields_in Hs2.
    destruct Hr as (Ho & Hmax & Hcc & Hf).
    assert (Hrem2 : remaining r2
                    = concat (map encPair pairs) ++ 0xFF :: rest).
    { eapply (moved_remaining 1 _ (cached StateStartMap r) r2 [0xBF]);
        [apply Hr1|exact Hmv2|reflexivity|rewrite Hrem1; exact Hrem]. }
    assert (Hlf : (length pairs < S (length (Reader.data r2)))%nat).
    { apply Nat.lt_succ_r.
      apply (remaining_fuel r2 (concat (map encPair pairs)) (0xFF :: rest));
        [lia|exact Hrem2|]. apply pairs_length. }
    assert (Hhs : Forall (fun kv => (height (fst kv) < fuel)%nat
                                    /\ (height (snd kv) < fuel)%nat) pairs).
    { eapply Forall_impl;
        [|apply (list_max_map_Forall
                   (fun kv : Value * Value =>
                      let '(k, x) := kv in Nat.max (height k) (height x))
                   pairs _ (Nat.le_refl _))].
      cbv beta. intros [k x] Hkx. cbn [fst snd]. lia. }
    assert (Hrds : Forall (fun kv =>
                             readableIn utf8Valid (Reader.conformanceMode r2)
                                        (fst kv)
                             /\ readableIn utf8Valid
                                           (Reader.conformanceMode r2)
                                           (snd kv)) pairs).
    { rewrite Hm2. assumption. }
    assert (Hdps : Forall (fun kv =>
                             len (Reader.nestingStack r) + 1
                             + Z.of_nat (readerDepth (fst kv))
                             <= Reader.maxNestingDepth r2
                             /\ len (Reader.nestingStack r) + 1
                                + Z.of_nat (readerDepth (snd kv))
                                <= Reader.maxNestingDepth r2) pairs).
    { eapply Forall_impl;
        [|apply (list_max_map_Forall
                   (fun kv : Value * Value =>
                      let '(k, x) := kv in
                      Nat.max (readerDepth k) (readerDepth x))
                   pairs _ (Nat.le_refl _))].
      cbv beta. intros [k x] Hkx. cbn [fst snd].
      unfold Reader.NestingDepth in Hnd. rewrite Hx2. lia. }
    destruct (skip_until_pairs utf8Valid pairs IH fuel
                (S (length (Reader.data r2))) 0
                (Reader.nestingStack r) r2 rest Hhs Hlf ltac:(lia)
                ltac:(rewrite Hd2; exact Hmax) Hc2 Hs2 Hrds Hdps Hrem2)
      as (r3 & Hrun3 & Hcs3 & Hmv3).
    unfold bind at 1. rewrite Hrun3. cbn beta iota.
    pose proof Hmv3 as (Hd3 & Ho3 & Hm3 & Hx3 & Ha3 & Hs3 & Hc3).
    pose proof (len_nonneg (concat (map encPair pairs))) as Hil.
    assert (Hrem3 : remaining r3 = 0xFF :: rest).
    { eapply moved_remaining; [|exact Hmv3|reflexivity|exact Hrem2]. lia. }
    destruct (ReadEnd_indefinite _ (Reader.nestingStack r)
                (cached StateEndMap r3) rest
                (cached_coherent r3 StateEndMap Hcs3)
                ltac:(reader_fields; lia) Hs3 eq_refl Hrem3) as [_ He].
    destruct (He eq_refl eq_refl) as (r4 & Hrun4 & Hmv4). clear He.
    apply moved_from_cached in Hmv4.
    exists r4. split; [exact Hrun4|].
    apply (moved_0_stepped _ r _ r4 Hm0). unfold stepped. reader_fields.
    rewrite len_cons, len_app. change (len [0xFF]) with 1.
    eapply moved_compose; [exact Hmv2|].
    eapply moved_compose; [exact Hmv3|exact Hmv4].
  - (* VTagged *)
    rewrite <- app_assoc in Hrem.
    pose proof (PeekState_written_head r MajorTypeTag tag (enc v ++ rest) Hr
                  ltac:(assumption) ltac:(discriminate) Hrem) as Hp.
    skip_peek Hp.
    pose proof Hm0 as (Hd1 & Ho1 & Hm1 & Hx1 & Ha1 & Hs1 & _).
    reader_fields_in Hd1. reader_fields_in Ho1. reader_fields_in Hm1.
    reader_fields_in Hx1. reader_fields_in Hs1.
    destruct (ReadTag_item (cached StateTag r) tag (enc v ++ rest) Hr1
                ltac:(assumption) ltac:(rewrite Hrem1; exact Hrem))
      as (r2 & Hrun2 & Hmv2).
    unfold bind at 1. rewrite Hrun2. cbn beta iota.
    pose proof (len_writeArgument_spec_bounds MajorTypeTag tag) as Hl.
    pose proof (moved_ready _ _ r2 Hr1 Hmv2 ltac:(lia)) as Hr2.
    pose proof Hmv2 as (Hd2 & Ho2 & Hm2 & Hx2 & Ha2 & Hs2 & _).
    cbn [height] in Hh. cbn [readerDepth] in Hnd.
    destruct (IH fuel r2 rest ltac:(lia) Hr2) as (r3 & Hrun3 & Hst3).
    { rewrite Hm2. assumption. }
    { unfold Reader.NestingDepth in *. rewrite Hs2, Hx2. exact Hnd. }
    { eapply moved_remaining;
        [apply Hr1|exact Hmv2|reflexivity|rewrite Hrem1; exact Hrem]. }
    exists r3. split; [exact Hrun3|]. rewrite len_app.
    apply (moved_0_stepped _ r _ r3 Hm0).
    exact (moved_stepped _ _ _ r2 r3 Hmv2 Hst3).
  - (* VBool *)
    pose proof (PeekState_item r (if b then 0xF5 else 0xF4) rest StateBoolean
                  Hr Hrem ltac:(destruct b; discriminate)
                  ltac:(destruct b; reflexivity)) as Hp.
    skip_peek Hp.
    skip_read (ReadBoolean_item _ b rest Hr1
                 ltac:(rewrite Hrem1; exact Hrem)).
  - (* VNull *)
    pose proof (PeekState_item r 0xF6 rest StateNull Hr Hrem
                  ltac:(discriminate) eq_refl) as Hp.
    skip_peek Hp.
    destruct (ReadNull_item _ 0xF6 rest Hr1
                ltac:(rewrite Hrem1; exact Hrem) ltac:(discriminate) eq_refl)
      as (r' & Hrun & Hst).
    exists r'. split; [exact Hrun|].
    exact (moved_0_stepped _ _ _ r' Hm0 Hst).
  - (* VUndefined *)
    pose proof (PeekState_item r 0xF7 rest StateUndefinedValue Hr Hrem
                  ltac:(discriminate) eq_refl) as Hp.
    skip_peek Hp.
    destruct (ReadUndefined_item _ rest Hr1
                ltac:(rewrite Hrem1; exact Hrem))
      as (r' & Hrun & Hst).
    exists r'. split; [exact Hrun|].
    exact (moved_0_stepped _ _ _ r' Hm0 Hst).
  - (* VSimple *)
    match goal with H : _ \/ _ |- _ => rename H into Hv end.
    assert (Hp : Reader.PeekState r
                 = Ok StateSimpleValue (cached StateSimpleValue r)).
    { unfold encSimpleValue in Hrem.
      destruct (Z.ltb_spec value 32).
      - apply (PeekState_item r (0xE0 + value) rest StateSimpleValue Hr Hrem).
        + unfold breakByte. lia.
        + apply classify_simple_low. lia.
      - apply (PeekState_item r 0xF8 (value :: rest) StateSimpleValue Hr Hrem);
          [discriminate|reflexivity]. }
    skip_peek Hp.
    skip_read (ReadSimpleValue_item _ value rest Hr1 ltac:(lia)
                 ltac:(rewrite Hrem1; exact Hrem)).
  - (* VFloat16 *)
    pose proof (PeekState_item r 0xF9 _ StateHalfPrecisionFloat Hr Hrem
                  ltac:(discriminate) eq_refl) as Hp.
    skip_peek Hp.
    replace (len (encFloat16 (Writer.float32ToFloat16Bits value))) with 3
      by (unfold encFloat16, len; cbn [length]; rewrite be_bytes_length;
          reflexivity).
    skip_read (ReadFloat16_item _ (Writer.float32ToFloat16Bits value) rest Hr1
                 (float32ToFloat16Bits_range value)
                 ltac:(rewrite Hrem1; exact Hrem)).
  - (* VFloat32 *)
    pose proof (PeekState_item r 0xFA _ StateSinglePrecisionFloat Hr Hrem
                  ltac:(discriminate) eq_refl) as Hp.
    skip_peek Hp.
    replace (len (encFloat32 bits)) with 5
      by (unfold encFloat32, len; cbn [length]; rewrite be_bytes_length;
          reflexivity).
    skip_read (ReadFloat32_item _ bits rest Hr1 ltac:(assumption)
                 ltac:(rewrite Hrem1; exact Hrem)).
  - (* VFloat64 *)
    pose proof (PeekState_item r 0xFB _ StateDoublePrecisionFloat Hr Hrem
                  ltac:(discriminate) eq_refl) as Hp.
    skip_peek Hp.
    replace (len (encFloat64 bits)) with 9
      by (unfold encFloat64, len; cbn [length]; rewrite be_bytes_length;
          reflexivity).
    skip_read (ReadFloat64_item _ bits rest Hr1 ltac:(assumption)
                 ltac:(rewrite Hrem1; exact Hrem)).
Qed.


(** ** Nested data items: the encoder, [SkipValue] and [ReadEncodedValue] *)

Lemma list_max_concat {A : Type} (f : A -> nat) (g : A -> list Z)
      (l : list A) :
  Forall (fun x => Z.of_nat (f x) <= len (g x)) l ->
  Z.of_nat (list_max (map f l)) <= len (concat (map g l)).
Proof.
  induction 1 as [|x l Hx Hl IH]; cbn [map concat].
  - change (len (@nil Z)) with 0. cbn. lia.
  - cbn [list_max fold_right].
    change (fold_right Nat.max 0%nat (map f l)) with (list_max (map f l)).
    rewrite len_app. pose proof (len_nonneg (g x)).
    pose proof (len_nonneg (concat (map g l))). lia.
Qed.

(** The recursion of [SkipValue] on a data item is never deeper than the
    item has bytes. *)
Lemma height_enc (v : Value) : Z.of_nat (height v) <= len (enc v).
Proof.
  induction v as [u|i|bs|s|chunks|chunks|items IH|items IH|pairs IH|pairs IH
                  |tag v IH|b| | |value|value|bits|bits]
    using Value_induction;
    try (cbn [height]; apply len_nonneg); cbn [height enc].
  - pose proof (list_max_concat height enc items IH).
    pose proof (len_writeArgument_spec_bounds MajorTypeArray (len items)).
    rewrite len_app. lia.
  - pose proof (list_max_concat height enc items IH).
    rewrite len_cons, len_app. change (len [0xFF]) with 1. lia.
  - pose proof (list_max_concat
                  (fun kv : Value * Value =>
                     let '(k, x) := kv in Nat.max (height k) (height x))
                  encPair pairs) as H.
    pose proof (len_writeArgument_spec_bounds MajorTypeMap (len pairs)).
    rewrite len_app.
    change (fun kv : Value * Value => let '(k, x) := kv in enc k ++ enc x)
      with encPair.
    assert (Z.of_nat (list_max
              (map (fun kv : Value * Value =>
                      let '(k, x) := kv in Nat.max (height k) (height x))
                   pairs))
            <= len (concat (map encPair pairs))); [|lia].
    apply H. eapply Forall_impl; [|exact IH].
    cbv beta. intros [k x] [Hk Hx]. cbn [fst snd] in *.
    unfold encPair. rewrite len_app.
    pose proof (len_nonneg (enc k)). pose proof (len_nonneg (enc x)). lia.
  - pose proof (list_max_concat
                  (fun kv : Value * Value =>
                     let '(k, x) := kv in Nat.max (height k) (height x))
                  encPair pairs) as H.
    rewrite len_cons, len_app. change (len [0xFF]) with 1.
    change (fun kv : Value * Value => let '(k, x) := kv in enc k ++ enc x)
      with encPair.
    assert (Z.of_nat (list_max
              (map (fun kv : Value * Value =>
                      let '(k, x) := kv in Nat.max (height k) (height x))
                   pairs))
            <= len (concat (map encPair pairs))); [|lia].
    apply H. eapply Forall_impl; [|exact IH].
    cbv beta. intros [k x] [Hk Hx]. cbn [fst snd] in *.
    unfold encPair. rewrite len_app.
    pose proof (len_nonneg (enc k)). pose proof (len_nonneg (enc x)). lia.
  - pose proof (len_writeArgument_spec_bounds MajorTypeTag tag).
    rewrite len_app. lia.
Qed.

Lemma SkipValue_item (utf8Valid : list Z -> bool) (v : Value)
      (r : Reader.CborReader) (rest : list Z) :
  ready r ->
  readableIn utf8Valid (Reader.conformanceMode r) v ->
  Reader.NestingDepth r + Z.of_nat (readerDepth v)
  <= Reader.maxNestingDepth r ->
  remaining r = enc v ++ rest ->
  exists r',
    Reader.SkipValue utf8Valid r = Ok tt r'
    /\ stepped (len (enc v)) r r'.
Proof.
  intros Hr Hrd Hnd Hrem. unfold Reader.SkipValue, bind, get.
  apply (skips_all utf8Valid v _ r rest); try assumption.
  apply Nat.lt_succ_r.
  apply (remaining_fuel r (enc v) rest); [apply Hr|exact Hrem|].
  apply height_enc.
Qed.

(** X14.  The calls that write a nested data item (arrays and maps of
    definite and indefinite length, chunked strings, tags, with any data
    items inside) all succeed when the arguments are in range, the nesting
    fits under the cap and, in the canonical modes, no indefinite length is
    used.  Together they append the encodings of the parts in order, and
    the frame around the item counts one item. *)
Theorem nested_item_written (v : Value) (w : Writer.CborWriter)
        (Hv : writable w v) :
  writeValue v w = Ok tt (itemWritten (enc v) w).
Proof. now apply writeValue_item. Qed.

Lemma nested_item_written_witness :
  writable (Writer.NewCborWriter [])
           (VArray [VUint 1; VMapIndef [(VText [0x61], VTagged 1 (VInt (-2)))]])
  /\ written []
       (writeValue
          (VArray [VUint 1;
                   VMapIndef [(VText [0x61], VTagged 1 (VInt (-2)))]]))
     = [0x82; 0x01; 0xBF; 0x61; 0x61; 0xC1; 0x21; 0xFF].
Proof.
  assert (H : writable (Writer.NewCborWriter [])
                (VArray [VUint 1;
                         VMapIndef [(VText [0x61], VTagged 1 (VInt (-2)))]])).
  { split.
    - repeat (constructor; cbn [fst snd]);
        try (unfold MinInt64, MaxInt64; cbn; lia); reflexivity.
    - cbn. lia. }
  split; [exact H|]. unfold written.
  rewrite (nested_item_written _ _ H). reflexivity.
Defined.

(** X15.  [SkipValue] on a decoder in front of the encoding of a data item
    (nested to any depth under the cap, with valid UTF-8 where the mode
    checks it, without indefinite lengths in the canonical modes) returns
    without error, consumes exactly that item and counts it as one item of
    the frame around it, whatever bytes follow. *)
Theorem SkipValue_skips_item (utf8Valid : list Z -> bool) (v : Value)
        (r : Reader.CborReader) (rest : list Z)
        (Hr : ready r)
        (Hv : readableIn utf8Valid (Reader.conformanceMode r) v)
        (Hdepth : Reader.NestingDepth r + Z.of_nat (readerDepth v)
                  <= Reader.maxNestingDepth r)
        (Hrem : remaining r = enc v ++ rest) :
  exists r',
    Reader.SkipValue utf8Valid r = Ok tt r'
    /\ stepped (len (enc v)) r r'
    /\ remaining r' = rest.
Proof.
  destruct (SkipValue_item utf8Valid v r rest Hr Hv Hdepth Hrem)
    as (r' & Hrun & Hst).
  exists r'. split; [exact Hrun|]. split; [exact Hst|].
  apply (stepped_remaining (len (enc v)) r r' (enc v) rest); auto.
  apply Hr.
Qed.

Lemma SkipValue_skips_item_witness :
  exists r',
    Reader.SkipValue (fun _ => true)
      (Reader.NewCborReader
         [0x82; 0x01; 0xBF; 0x61; 0x61; 0xC1; 0x21; 0xFF; 0xF6]
         [Reader.WithReaderConformanceMode ConformanceStrict])
    = Ok tt r'
    /\ Reader.offset r' = 8
    /\ remaining r' = [0xF6].
Proof.
  destruct (SkipValue_skips_item (fun _ => true)
              (VArray [VUint 1;
                       VMapIndef [(VText [0x61], VTagged 1 (VInt (-2)))]])
              (Reader.NewCborReader
                 [0x82; 0x01; 0xBF; 0x61; 0x61; 0xC1; 0x21; 0xFF; 0xF6]
                 [Reader.WithReaderConformanceMode ConformanceStrict])
              [0xF6])
    as (r' & Hrun & Hst & Hrem).
  - apply fresh_ready. cbn. unfold MaxInt64. lia.
  - repeat (constructor; cbn [fst snd]);
      try (unfold MinInt64, MaxInt64; cbn; lia); reflexivity.
  - cbn. lia.
  - reflexivity.
  - exists r'. split; [exact Hrun|]. split; [|exact Hrem].
    destruct Hst as (_ & Ho & _). rewrite Ho. reflexivity.
Defined.

Lemma ReadEncodedValue_item (utf8Valid : list Z -> bool)
      (v : Value) (r : Reader.CborReader) (rest : list Z) :
  ready r ->
  readableIn utf8Valid (Reader.conformanceMode r) v ->
  Reader.NestingDepth r + Z.of_nat (readerDepth v)
  <= Reader.maxNestingDepth r ->
  remaining r = enc v ++ rest ->
  exists r',
    Reader.ReadEncodedValue utf8Valid r = Ok (enc v) r'
    /\ Reader.SkipValue utf8Valid r = Ok tt r'
    /\ stepped (len (enc v)) r r'.
Proof.
  intros Hr Hv Hdepth Hrem.
  destruct (SkipValue_item utf8Valid v r rest Hr Hv Hdepth Hrem)
    as (r' & Hrun & Hst).
  exists r'. split; [|split; [exact Hrun|exact Hst]].
  unfold Reader.ReadEncodedValue. unfold bind at 1, get. cbn beta iota zeta.
  unfold bind at 1. rewrite Hrun. cbn beta iota.
  unfold bind, get. cbn beta iota.
  destruct Hst as (Hd & Ho & _). rewrite Hd, Ho.
  pose proof (enc_nonempty v) as Hne.
  assert (Hx : enc v <> []).
  { intros He. rewrite He in Hne. change (len (@nil Z)) with 0 in Hne. lia. }
  pose proof (remaining_bounds r (enc v) rest ltac:(apply Hr) Hrem Hx) as Hb.
  pose proof (len_nonneg rest).
  rewrite (slice_remaining (Reader.data r) (Reader.offset r) (enc v) rest).
  - reflexivity.
  - destruct Hr as (Ho' & _). lia.
  - exact Hrem.
Qed.

(** X16.  [ReadEncodedValue] on a decoder in front of the encoding of a
    data item returns exactly the bytes of that item, and leaves the
    decoder where [SkipValue] does. *)
Theorem ReadEncodedValue_returns_item (utf8Valid : list Z -> bool)
        (v : Value) (r : Reader.CborReader) (rest : list Z)
        (Hr : ready r)
        (Hv : readableIn utf8Valid (Reader.conformanceMode r) v)
        (Hdepth : Reader.NestingDepth r + Z.of_nat (readerDepth v)
                  <= Reader.maxNestingDepth r)
        (Hrem : remaining r = enc v ++ rest) :
  exists r',
    Reader.ReadEncodedValue utf8Valid r = Ok (enc v) r'
    /\ Reader.SkipValue utf8Valid r = Ok tt r'
    /\ stepped (len (enc v)) r r'.
Proof. exact (ReadEncodedValue_item utf8Valid v r rest Hr Hv Hdepth Hrem). Qed.

Lemma ReadEncodedValue_returns_item_witness :
  outcome (Reader.ReadEncodedValue (fun _ => true)
             (Reader.NewCborReader
                [0x82; 0x01; 0xBF; 0x61; 0x61; 0xC1; 0x21; 0xFF; 0xF6]
                [Reader.WithReaderConformanceMode ConformanceStrict]))
  = Returned [0x82; 0x01; 0xBF; 0x61; 0x61; 0xC1; 0x21; 0xFF].
Proof.
  destruct (ReadEncodedValue_returns_item (fun _ => true)
              (VArray [VUint 1;
                       VMapIndef [(VText [0x61], VTagged 1 (VInt (-2)))]])
              (Reader.NewCborReader
                 [0x82; 0x01; 0xBF; 0x61; 0x61; 0xC1; 0x21; 0xFF; 0xF6]
                 [Reader.WithReaderConformanceMode ConformanceStrict])
              [0xF6])
    as (r' & Hrun & _).
  - apply fresh_ready. cbn. unfold MaxInt64. lia.
  - repeat (constructor; cbn [fst snd]);
      try (unfold MinInt64, MaxInt64; cbn; lia); reflexivity.
  - cbn. lia.
  - reflexivity.
  - rewrite Hrun. reflexivity.
Defined.


(** X17.  A data item written by a fresh encoder is read back whole: when
    the calls that write it are accepted by the encoder and the item is
    one the decoder accepts, [ReadEncodedValue] on a fresh decoder over
    the written bytes, followed by any other bytes, returns exactly the
    written bytes and stops behind them at nesting depth 0. *)
Theorem encoded_value_round_trip
        (utf8Valid : list Z -> bool) (v : Value)
        (wmode rmode : CborConformanceMode) (rest : list Z)
        (Hw : writable
                (Writer.NewCborWriter [Writer.WithConformanceMode wmode]) v)
        (Hr : readableIn utf8Valid rmode v)
        (Hdepth : Z.of_nat (readerDepth v) <= 64)
        (Hlen : len (written [Writer.WithConformanceMode wmode]
                             (writeValue v)) + len rest <= MaxInt64) :
  outcome (writeValue v
             (Writer.NewCborWriter [Writer.WithConformanceMode wmode]))
  = Returned tt
  /\ exists r',
       Reader.ReadEncodedValue utf8Valid
         (Reader.NewCborReader
            (written [Writer.WithConformanceMode wmode] (writeValue v)
               ++ rest)
            [Reader.WithReaderConformanceMode rmode])
       = Ok (written [Writer.WithConformanceMode wmode] (writeValue v)) r'
       /\ Reader.offset r'
          = len (written [Writer.WithConformanceMode wmode] (writeValue v))
       /\ Reader.nestingStack r' = []
       /\ remaining r' = rest.
Proof.
  pose proof (writeValue_item v _ Hw) as Hrun.
  assert (Hwr : written [Writer.WithConformanceMode wmode] (writeValue v)
                = enc v).
  { unfold written. rewrite Hrun. reflexivity. }
  rewrite Hwr in *. split; [rewrite Hrun; reflexivity|].
  assert (Hready : ready (Reader.NewCborReader (enc v ++ rest)
                            [Reader.WithReaderConformanceMode rmode])).
  { apply fresh_ready. rewrite len_app. exact Hlen. }
  destruct (ReadEncodedValue_item utf8Valid v _ rest Hready Hr)
    as (r' & Hread & _ & Hst).
  { exact Hdepth. }
  { reflexivity. }
  exists r'. split; [exact Hread|].
  pose proof Hst as (_ & Ho & _ & _ & _ & Hs & _).
  split; [rewrite Ho; reflexivity|]. split; [exact Hs|].
  eapply (stepped_remaining (len (enc v)));
    [apply Hready|left; exact Hst|reflexivity|reflexivity].
Qed.

Lemma encoded_value_round_trip_witness :
  outcome (Reader.ReadEncodedValue (fun _ => true)
             (Reader.NewCborReader
                (written [Writer.WithConformanceMode ConformanceCanonical]
                   (writeValue
                      (VMap [(VUint 1, VArray [VBool true; VNull]);
                             (VText [0x61], VTagged 2 (VBytes [0x01]))]))
                   ++ [0x00])
                [Reader.WithReaderConformanceMode ConformanceCanonical]))
  = Returned [0xA2; 0x01; 0x82; 0xF5; 0xF6; 0x61; 0x61; 0xC2; 0x41; 0x01].
Proof.
  destruct (encoded_value_round_trip (fun _ => true)
              (VMap [(VUint 1, VArray [VBool true; VNull]);
                     (VText [0x61], VTagged 2 (VBytes [0x01]))])
              ConformanceCanonical ConformanceCanonical [0x00])
    as (_ & r' & Hread & _).
  - split.
    + repeat (constructor; cbn [fst snd]);
        try (unfold MinInt64, MaxInt64; cbn; lia); reflexivity.
    + cbn. lia.
  - repeat (constructor; cbn [fst snd]);
      try (unfold MinInt64, MaxInt64; cbn; lia); reflexivity.
  - cbn. lia.
  - unfold MaxInt64. cbn. lia.
  - rewrite Hread. reflexivity.
Defined.

(** X18.  An indefinite-length string written chunk by chunk is read back
    as one string: the start call, one chunk call for every chunk and the
    end call succeed on every encoder outside the canonical modes with
    room for one more frame, and write the start byte, the chunks as
    definite-length strings and the break byte; [ReadByteString] and
    [ReadTextString] outside the canonical modes return the concatenation
    of the chunks, consume exactly these bytes and count one item.  In the
    strict mode [ReadTextString] does so when every chunk is valid UTF-8
    by itself. *)
Theorem chunked_string_round_trip
        (utf8Valid : list Z -> bool) (chunks : list (list Z))
        (Hlen : Forall (fun c => len c < 2^64) chunks) :
  (forall w : Writer.CborWriter,
     Writer.canonicalMode w = false ->
     Writer.NestingDepth w < Writer.maxNestingDepth w ->
     (Writer.WriteStartIndefiniteLengthByteString ;;
      sequence (map Writer.WriteByteStringChunk chunks) ;;
      Writer.WriteEndIndefiniteLengthByteString) w
     = Ok tt (itemWritten
                (0x5F :: concat (map (encString MajorTypeByteString) chunks)
                   ++ [0xFF]) w)
     /\ (Writer.WriteStartIndefiniteLengthTextString ;;
         sequence (map Writer.WriteTextStringChunk chunks) ;;
         Writer.WriteEndIndefiniteLengthTextString) w
        = Ok tt (itemWritten
                   (0x7F :: concat (map (encString MajorTypeTextString)
                                        chunks) ++ [0xFF]) w))
  /\ readsBack Reader.ReadByteString
       (fun r => mode_geb (Reader.conformanceMode r) ConformanceCanonical
                 = false)
       (0x5F :: concat (map (encString MajorTypeByteString) chunks)
          ++ [0xFF])
       (concat chunks)
  /\ readsBack (Reader.ReadTextString utf8Valid)
       (fun r => mode_geb (Reader.conformanceMode r) ConformanceCanonical
                 = false
                 /\ (Reader.strict r = true ->
                     Forall (fun c => utf8Valid c = true) chunks))
       (0x7F :: concat (map (encString MajorTypeTextString) chunks)
          ++ [0xFF])
       (concat chunks).
Proof.
  split; [|split].
  - intros w Hc Hd. split.
    + apply (writeValue_item (VBytesChunks chunks) w). split.
      * apply wf_bytes_chunks; [rewrite Hc; reflexivity|exact Hlen].
      * cbn [writerDepth]. lia.
    + apply (writeValue_item (VTextChunks chunks) w). split.
      * apply wf_text_chunks; [rewrite Hc; reflexivity|].
        eapply Forall_impl; [|exact Hlen]. cbv beta. tauto.
      * cbn [writerDepth]. lia.
  - apply readsBack_intro. intros r rest Hr Hc Hrem.
    cbn [app] in Hrem. rewrite <- app_assoc in Hrem.
    rewrite len_cons, len_app. change (len [0xFF]) with 1.
    rewrite Z.add_assoc.
    exact (ReadByteString_chunks r chunks rest Hr Hc Hrem).
  - apply readsBack_intro. intros r rest Hr [Hc Hu] Hrem.
    cbn [app] in Hrem. rewrite <- app_assoc in Hrem.
    rewrite len_cons, len_app. change (len [0xFF]) with 1.
    rewrite Z.add_assoc.
    apply (ReadTextString_chunks utf8Valid r chunks rest Hr Hc); [|exact Hrem].
    unfold Reader.invalidUtf8. destruct (Reader.strict r).
    + eapply Forall_impl; [|exact (Hu eq_refl)]. cbv beta.
      intros c ->. reflexivity.
    + clear. induction chunks; constructor; auto.
Qed.

Lemma chunked_string_round_trip_witness :
  written []
    (Writer.WriteStartIndefiniteLengthByteString ;;
     sequence (map Writer.WriteByteStringChunk [[0x01; 0x02]; [0x03]]) ;;
     Writer.WriteEndIndefiniteLengthByteString)
  = [0x5F; 0x42; 0x01; 0x02; 0x41; 0x03; 0xFF]
  /\ outcome (Reader.ReadByteString
                (Reader.NewCborReader
                   [0x5F; 0x42; 0x01; 0x02; 0x41; 0x03; 0xFF] []))
     = Returned [0x01; 0x02; 0x03].
Proof.
  assert (H : Forall (fun c : list Z => len c < 2^64) [[0x01; 0x02]; [0x03]])
    by (repeat constructor; cbn; lia).
  destruct (chunked_string_round_trip (fun _ => true) [[0x01; 0x02]; [0x03]]
              H) as (Hw & Hb & _).
  split.
  - unfold written.
    destruct (Hw (Writer.NewCborWriter []) eq_refl ltac:(cbn; lia))
      as [-> _].
    reflexivity.
  - destruct (Hb (Reader.NewCborReader
                    [0x5F; 0x42; 0x01; 0x02; 0x41; 0x03; 0xFF] []) [])
      as (r' & Hrun & _).
    + apply (fresh_ready _ ConformanceLax). cbn. unfold MaxInt64. lia.
    + reflexivity.
    + reflexivity.
    + rewrite Hrun. reflexivity.
Defined.


(** ** Initial bytes, failed reads *)

Lemma MajorType_code_of_code (c : Z) :
  0 <= c < 8 -> MajorType_code (MajorType_of_code c) = c.
Proof.
  intros H.
  assert (Hc : c = 0 \/ c = 1 \/ c = 2 \/ c = 3 \/ c = 4 \/ c = 5 \/ c = 6
               \/ c = 7) by lia.
  repeat (destruct Hc as [->|Hc]; [reflexivity|]). subst c. reflexivity.
Qed.

(** X19.  [encodeInitialByte] and [decodeInitialByte] are inverse to each
    other: every byte is the initial byte of the major type and the
    additional information that it decodes to, and the initial byte of a
    major type and of additional information below 32 decodes to them.
    [encodeInitialByte] keeps the low five bits of its second argument
    only. *)
Theorem initial_byte_round_trip (mt : MajorType) (b : Z)
        (Hb : 0 <= b < 256) :
  encodeInitialByte (fst (decodeInitialByte b)) (snd (decodeInitialByte b))
  = b
  /\ 0 <= snd (decodeInitialByte b) < 32
  /\ decodeInitialByte (encodeInitialByte mt b) = (mt, b mod 32).
Proof.
  assert (Hland : Z.land b 0x1F = b mod 32).
  { change 0x1F with (Z.ones 5). rewrite Z.land_ones by lia. reflexivity. }
  assert (Hm : 0 <= b mod 32 < 32) by (apply Z.mod_pos_bound; lia).
  split; [|split].
  - unfold decodeInitialByte. cbn [fst snd]. rewrite Hland.
    rewrite encodeInitialByte_arith by exact Hm.
    rewrite Z.shiftr_div_pow2 by lia. change (2^5) with 32.
    rewrite MajorType_code_of_code
      by (split; [apply Z.div_pos; lia|apply Z.div_lt_upper_bound; lia]).
    pose proof (Z.div_mod b 32 ltac:(lia)). lia.
  - unfold decodeInitialByte. cbn [snd]. rewrite Hland. exact Hm.
  - replace (encodeInitialByte mt b) with (encodeInitialByte mt (b mod 32)).
    + apply decode_encodeInitialByte. exact Hm.
    + unfold encodeInitialByte. f_equal. rewrite Hland.
      change 0x1F with (Z.ones 5). rewrite Z.land_ones by lia.
      change (2^5) with 32. apply Z.mod_mod. lia.
Qed.

Lemma initial_byte_round_trip_witness :
  decodeInitialByte 0x9F = (MajorTypeArray, 31)
  /\ encodeInitialByte MajorTypeArray 31 = 0x9F
  /\ decodeInitialByte (encodeInitialByte MajorTypeMap 0xF8)
     = (MajorTypeMap, 24).
Proof.
  destruct (initial_byte_round_trip MajorTypeMap 0xF8 ltac:(lia))
    as (_ & _ & H).
  split; [reflexivity|]. split; [reflexivity|exact H].
Defined.

Lemma head_width_9 (mt : MajorType) (v : Z) :
  MaxInt64 < v -> len (writeArgument_spec mt v) = 9.
Proof.
  unfold MaxInt64. intros H. rewrite len_writeArgument_spec.
  unfold argumentWidth.
  destruct (Z.ltb_spec v 24); [lia|].
  destruct (Z.leb_spec v 0xFF); [lia|].
  destruct (Z.leb_spec v 0xFFFF); [lia|].
  destruct (Z.leb_spec v 0xFFFFFFFF); [lia|]. reflexivity.
Qed.

Lemma ReadInt64_beyond (r : Reader.CborReader) (mt : MajorType) (v : Z)
      (rest : list Z) :
  ready r -> MaxInt64 < v < 2^64 ->
  mt = MajorTypeUnsignedInteger \/ mt = MajorTypeNegativeInteger ->
  remaining r = writeArgument_spec mt v ++ rest ->
  exists r',
    Reader.ReadInt64 r = Err ErrOverflow r'
    /\ moved 9 (Reader.nestingStack r) r r'.
Proof.
  intros Hr Hv Hmt Hrem. unfold Reader.ReadInt64.
  assert (Hv' : 0 <= v < 2^64) by (unfold MaxInt64 in *; lia).
  destruct Hmt as [->| ->].
  - run_peek (PeekState_written_head r MajorTypeUnsignedInteger v rest Hr Hv'
                ltac:(discriminate) Hrem).
    cbn [headState]. run_invalidate.
    run_head MajorTypeUnsignedInteger v rest Hr Hv' Hrem.
    unfold bind at 1, failIf.
    destruct (Z.ltb_spec MaxInt64 v); [|lia].
    unfold throw. cbn beta iota. eexists. split; [reflexivity|].
    rewrite head_width_9 by lia.
    unfold moved. reader_fields. repeat split.
  - run_peek (PeekState_written_head r MajorTypeNegativeInteger v rest Hr Hv'
                ltac:(discriminate) Hrem).
    cbn [headState]. run_invalidate.
    run_head MajorTypeNegativeInteger v rest Hr Hv' Hrem.
    unfold bind at 1, failIf.
    destruct (Z.ltb_spec MaxInt64 v); [|lia].
    unfold throw. cbn beta iota. eexists. split; [reflexivity|].
    rewrite head_width_9 by lia.
    unfold moved. reader_fields. repeat split.
Qed.

(** X20.  [ReadInt64] returns [Overflow] on an unsigned integer above
    [MaxInt64] and on a negative integer below [MinInt64] (argument above
    [MaxInt64]).  The failed call has consumed the nine bytes of the
    integer, and has not counted an item in the enclosing frame. *)
Theorem ReadInt64_overflow (r : Reader.CborReader) (v : Z) (rest : list Z)
        (Hr : ready r) (Hv : MaxInt64 < v < 2^64) :
  (remaining r = writeArgument_spec MajorTypeUnsignedInteger v ++ rest ->
   exists r',
     Reader.ReadInt64 r = Err ErrOverflow r'
     /\ Reader.offset r' = Reader.offset r + 9
     /\ Reader.nestingStack r' = Reader.nestingStack r)
  /\ (remaining r = writeArgument_spec MajorTypeNegativeInteger v ++ rest ->
      exists r',
        Reader.ReadInt64 r = Err ErrOverflow r'
        /\ Reader.offset r' = Reader.offset r + 9
        /\ Reader.nestingStack r' = Reader.nestingStack r).
Proof.
  split; intros Hrem.
  - destruct (ReadInt64_beyond r MajorTypeUnsignedInteger v rest Hr Hv
                (or_introl eq_refl) Hrem) as (r' & Hrun & Hm).
    exists r'. split; [exact Hrun|]. destruct Hm as (_ & Ho & _ & _ & _ & Hs & _).
    split; assumption.
  - destruct (ReadInt64_beyond r MajorTypeNegativeInteger v rest Hr Hv
                (or_intror eq_refl) Hrem) as (r' & Hrun & Hm).
    exists r'. split; [exact Hrun|]. destruct Hm as (_ & Ho & _ & _ & _ & Hs & _).
    split; assumption.
Qed.

Lemma ReadInt64_overflow_witness :
  exists r',
    Reader.ReadInt64
      (Reader.NewCborReader [0x1B; 0x80; 0; 0; 0; 0; 0; 0; 0; 0x01] [])
    = Err ErrOverflow r'
    /\ Reader.offset r' = 9.
Proof.
  destruct (ReadInt64_overflow
              (Reader.NewCborReader [0x1B; 0x80; 0; 0; 0; 0; 0; 0; 0; 0x01] [])
              (2^63) [0x01]) as [H _].
  - apply (fresh_ready _ ConformanceLax). cbn. unfold MaxInt64. lia.
  - unfold MaxInt64. lia.
  - destruct (H eq_refl) as (r' & Hrun & Ho & _).
    exists r'. split; [exact Hrun|]. rewrite Ho. reflexivity.
Defined.

(** X21.  A typed read in front of an item that it does not accept fails
    with [TypeMismatchError], which names the state that the read expects
    and the state that [PeekState] reports, and consumes nothing: the
    input, the offset and the nesting stack are the ones before the
    call. *)
Theorem type_mismatch_consumes_nothing
        (utf8Valid : list Z -> bool) (op : ReadOp)
        (r r1 : Reader.CborReader) (st : CborReaderState)
        (Hpeek : Reader.PeekState r = Ok st r1)
        (Hst : acceptsState op st = false) :
  exists r',
    runReadOp utf8Valid op r
    = Err (TypeMismatchError (expectedState op) st) r'
    /\ Reader.data r' = Reader.data r
    /\ Reader.offset r' = Reader.offset r
    /\ Reader.nestingStack r' = Reader.nestingStack r.
Proof.
  destruct (PeekState_fields r r1 st Hpeek) as (Hd & Ho & Hs & _).
  destruct op; cbn [runReadOp expectedState]; unfold discard;
    unfold Reader.ReadUint64, Reader.ReadInt64, Reader.ReadTag,
      Reader.ReadByteString, Reader.ReadTextString, Reader.ReadStartArray,
      Reader.ReadStartMap, Reader.ReadEndArray, Reader.ReadEndMap,
      Reader.ReadBoolean, Reader.ReadNull, Reader.ReadUndefined,
      Reader.ReadSimpleValue, Reader.ReadFloat16, Reader.ReadFloat32,
      Reader.ReadFloat64, Reader.readFloatBits;
    repeat (unfold bind at 1; try rewrite Hpeek; cbn beta iota);
    destruct st; try discriminate Hst;
    unfold Reader.expect, Reader.invalidateState, failIf, modify, throw,
      bind;
    cbn [CborReaderState_eqb negb]; cbn beta iota;
    (eexists; split; [reflexivity|]); reader_fields;
    repeat split; assumption.
Qed.

Lemma type_mismatch_consumes_nothing_witness :
  exists r',
    runReadOp (fun _ => true) OpReadTextString
      (Reader.NewCborReader [0x41; 0x00] [])
    = Err (TypeMismatchError StateTextString StateByteString) r'
    /\ Reader.offset r' = 0.
Proof.
  destruct (type_mismatch_consumes_nothing (fun _ => true) OpReadTextString
              (Reader.NewCborReader [0x41; 0x00] [])
              (cached StateByteString (Reader.NewCborReader [0x41; 0x00] []))
              StateByteString eq_refl eq_refl)
    as (r' & Hrun & _ & Ho & _).
  exists r'. split; [exact Hrun|exact Ho].
Defined.


(** ** Indefinite lengths in the canonical modes of the decoder *)

Lemma indefinite_string_refused (utf8Valid : list Z -> bool)
      (r : Reader.CborReader) (rest : list Z) :
  ready r ->
  mode_geb (Reader.conformanceMode r) ConformanceCanonical = true ->
  (remaining r = 0x5F :: rest ->
   exists r', Reader.ReadByteString r = Err ErrIndefiniteLengthNotAllowed r'
              /\ samePlace r r')
  /\ (remaining r = 0x7F :: rest ->
      exists r', Reader.ReadTextString utf8Valid r
                 = Err ErrIndefiniteLengthNotAllowed r'
                 /\ samePlace r r').
Proof.
  intros Hr Hc. split; intros Hrem.
  - unfold Reader.ReadByteString.
    run_peek (PeekState_item r 0x5F rest StateStartIndefiniteLengthByteString
                Hr Hrem ltac:(discriminate) eq_refl).
    change (CborReaderState_eqb StateStartIndefiniteLengthByteString
              StateStartIndefiniteLengthByteString) with true.
    cbn beta iota. unfold Reader.readIndefiniteByteString.
    unfold bind at 1, get. cbn beta iota. reader_fields.
    unfold bind at 1, failIf. rewrite Hc. unfold throw.
    eexists. split; [reflexivity|]. unfold samePlace. reader_fields.
    repeat split.
  - unfold Reader.ReadTextString.
    run_peek (PeekState_item r 0x7F rest StateStartIndefiniteLengthTextString
                Hr Hrem ltac:(discriminate) eq_refl).
    change (CborReaderState_eqb StateStartIndefiniteLengthTextString
              StateStartIndefiniteLengthTextString) with true.
    cbn beta iota. unfold Reader.readIndefiniteTextString.
    unfold bind at 1, get. cbn beta iota. reader_fields.
    unfold bind at 1, failIf. rewrite Hc. unfold throw.
    eexists. split; [reflexivity|]. unfold samePlace. reader_fields.
    repeat split.
Qed.

Lemma indefinite_container_refused (r : Reader.CborReader) (rest : list Z) :
  ready r ->
  mode_geb (Reader.conformanceMode r) ConformanceCanonical = true ->
  Reader.NestingDepth r < Reader.maxNestingDepth r ->
  (remaining r = 0x9F :: rest ->
   exists r', Reader.ReadStartArray r = Err ErrIndefiniteLengthNotAllowed r'
              /\ samePlace r r')
  /\ (remaining r = 0xBF :: rest ->
      exists r', Reader.ReadStartMap r = Err ErrIndefiniteLengthNotAllowed r'
                 /\ samePlace r r').
Proof.
  intros Hr Hc Hd. unfold Reader.NestingDepth in Hd. split; intros Hrem.
  - unfold Reader.ReadStartArray.
    run_peek (PeekState_item r 0x9F rest StateStartArray
                Hr Hrem ltac:(discriminate) eq_refl).
    unfold bind at 1. rewrite expect_same. cbn beta iota.
    unfold Reader.readStart, Reader.checkNestingDepth.
    unfold bind at 1. unfold bind at 1, get. cbn beta iota. reader_fields.
    unfold failIf.
    destruct (Z.leb_spec (Reader.maxNestingDepth r)
                (len (Reader.nestingStack r))); [lia|].
    unfold ret at 1. cbn beta iota. run_invalidate.
    unfold bind at 1, get. cbn beta iota. reader_fields.
    unfold bind at 1.
    rewrite (index_remaining r 0x9F rest) by (apply Hr || exact Hrem).
    unfold orPanic, ret at 1. cbn beta iota.
    change (0x9F =? encodeInitialByte MajorTypeArray
                      (to_byte AdditionalInfoIndefiniteLength)) with true.
    cbn beta iota. unfold bind at 1. rewrite Hc. unfold throw.
    eexists. split; [reflexivity|]. unfold samePlace. reader_fields.
    repeat split.
  - unfold Reader.ReadStartMap.
    run_peek (PeekState_item r 0xBF rest StateStartMap
                Hr Hrem ltac:(discriminate) eq_refl).
    unfold bind at 1. rewrite expect_same. cbn beta iota.
    unfold Reader.readStart, Reader.checkNestingDepth.
    unfold bind at 1. unfold bind at 1, get. cbn beta iota. reader_fields.
    unfold failIf.
    destruct (Z.leb_spec (Reader.maxNestingDepth r)
                (len (Reader.nestingStack r))); [lia|].
    unfold ret at 1. cbn beta iota. run_invalidate.
    unfold bind at 1, get. cbn beta iota. reader_fields.
    unfold bind at 1.
    rewrite (index_remaining r 0xBF rest) by (apply Hr || exact Hrem).
    unfold orPanic, ret at 1. cbn beta iota.
    change (0xBF =? encodeInitialByte MajorTypeMap
                      (to_byte AdditionalInfoIndefiniteLength)) with true.
    cbn beta iota. unfold bind at 1. rewrite Hc. unfold throw.
    eexists. split; [reflexivity|]. unfold samePlace. reader_fields.
    repeat split.
Qed.

Lemma samePlace_cached (st : CborReaderState) (r r' : Reader.CborReader) :
  samePlace (cached st r) r' -> samePlace r r'.
Proof. unfold samePlace. reader_fields. tauto. Qed.

(** X22.  A decoder in the canonical modes refuses every indefinite-length
    item: on the start byte of an indefinite-length byte string, text
    string, array or map, the read of that type, and [SkipValue], fail
    with [IndefiniteLengthNotAllowed] and consume nothing; no frame is
    pushed.  For arrays and maps the nesting cap is tested first. *)
Theorem canonical_decoder_refuses_indefinite_length
        (utf8Valid : list Z -> bool) (r : Reader.CborReader) (b : Z)
        (rest : list Z)
        (Hr : ready r)
        (Hmode : mode_geb (Reader.conformanceMode r) ConformanceCanonical
                 = true)
        (Hrem : remaining r = b :: rest) :
  (b = 0x5F ->
   exists r', Reader.ReadByteString r = Err ErrIndefiniteLengthNotAllowed r'
              /\ samePlace r r')
  /\ (b = 0x7F ->
      exists r', Reader.ReadTextString utf8Valid r
                 = Err ErrIndefiniteLengthNotAllowed r'
                 /\ samePlace r r')
  /\ (b = 0x9F -> Reader.NestingDepth r < Reader.maxNestingDepth r ->
      exists r', Reader.ReadStartArray r
                 = Err ErrIndefiniteLengthNotAllowed r'
                 /\ samePlace r r')
  /\ (b = 0xBF -> Reader.NestingDepth r < Reader.maxNestingDepth r ->
      exists r', Reader.ReadStartMap r
                 = Err ErrIndefiniteLengthNotAllowed r'
                 /\ samePlace r r')
  /\ (b = 0x5F \/ b = 0x7F
      \/ ((b = 0x9F \/ b = 0xBF)
          /\ Reader.NestingDepth r < Reader.maxNestingDepth r) ->
      exists r', Reader.SkipValue utf8Valid r
                 = Err ErrIndefiniteLengthNotAllowed r'
                 /\ samePlace r r').
Proof.
  split; [|split; [|split; [|split]]].
  - intros ->.
    exact (proj1 (indefinite_string_refused utf8Valid r rest Hr Hmode) Hrem).
  - intros ->.
    exact (proj2 (indefinite_string_refused utf8Valid r rest Hr Hmode) Hrem).
  - intros -> Hd.
    exact (proj1 (indefinite_container_refused r rest Hr Hmode Hd) Hrem).
  - intros -> Hd.
    exact (proj2 (indefinite_container_refused r rest Hr Hmode Hd) Hrem).
  - intros Hb. unfold Reader.SkipValue, bind at 1, get. cbn beta iota.
    cbn [Reader.skipValue].
    assert (Hp : exists st,
               Reader.PeekState r = Ok st (cached st r)
               /\ ((b = 0x5F /\ st = StateStartIndefiniteLengthByteString)
                   \/ (b = 0x7F /\ st = StateStartIndefiniteLengthTextString)
                   \/ (b = 0x9F /\ st = StateStartArray
                       /\ Reader.NestingDepth r < Reader.maxNestingDepth r)
                   \/ (b = 0xBF /\ st = StateStartMap
                       /\ Reader.NestingDepth r
                          < Reader.maxNestingDepth r))).
    { destruct Hb as [->|[->|[[->| ->] Hd]]].
      - eexists. split;
          [exact (PeekState_item r 0x5F rest _ Hr Hrem ltac:(discriminate)
                    eq_refl)|]. left. split; reflexivity.
      - eexists. split;
          [exact (PeekState_item r 0x7F rest _ Hr Hrem ltac:(discriminate)
                    eq_refl)|]. right. left. split; reflexivity.
      - eexists. split;
          [exact (PeekState_item r 0x9F rest _ Hr Hrem ltac:(discriminate)
                    eq_refl)|]. right. right. left. repeat split. exact Hd.
      - eexists. split;
          [exact (PeekState_item r 0xBF rest _ Hr Hrem ltac:(discriminate)
                    eq_refl)|]. right. right. right. repeat split. exact Hd. }
    destruct Hp as (st & Hp & Hcase).
    destruct (PeekState_ready r _ st Hr Hp) as (Hr1 & Hrem1 & _).
    rewrite Hrem in Hrem1.
    unfold bind at 1. rewrite Hp. cbn beta iota.
    destruct Hcase as [[-> ->]|[[-> ->]|[(-> & -> & Hd)|(-> & -> & Hd)]]].
    + destruct (proj1 (indefinite_string_refused utf8Valid _ rest Hr1 Hmode)
                  Hrem1) as (r' & Hrun & Hsame).
      unfold bind. rewrite Hrun. exists r'. split; [reflexivity|].
      exact (samePlace_cached _ r r' Hsame).
    + destruct (proj2 (indefinite_string_refused utf8Valid _ rest Hr1 Hmode)
                  Hrem1) as (r' & Hrun & Hsame).
      unfold bind. rewrite Hrun. exists r'. split; [reflexivity|].
      exact (samePlace_cached _ r r' Hsame).
    + destruct (proj1 (indefinite_container_refused _ rest Hr1 Hmode Hd)
                  Hrem1) as (r' & Hrun & Hsame).
      unfold Reader.skipArrayWith, bind. rewrite Hrun.
      exists r'. split; [reflexivity|].
      exact (samePlace_cached _ r r' Hsame).
    + destruct (proj2 (indefinite_container_refused _ rest Hr1 Hmode Hd)
                  Hrem1) as (r' & Hrun & Hsame).
      unfold Reader.skipMapWith, bind. rewrite Hrun.
      exists r'. split; [reflexivity|].
      exact (samePlace_cached _ r r' Hsame).
Qed.

Lemma canonical_decoder_refuses_indefinite_length_witness :
  outcome (Reader.SkipValue (fun _ => true)
             (Reader.NewCborReader [0x9F; 0x01; 0xFF]
                [Reader.WithReaderConformanceMode ConformanceCanonical]))
  = Failed ErrIndefiniteLengthNotAllowed
  /\ outcome (Reader.ReadByteString
                (Reader.NewCborReader [0x5F; 0x41; 0x00; 0xFF]
                   [Reader.WithReaderConformanceMode
                      ConformanceCtap2Canonical]))
     = Failed ErrIndefiniteLengthNotAllowed.
Proof.
  split.
  - destruct (canonical_decoder_refuses_indefinite_length (fun _ => true)
                (Reader.NewCborReader [0x9F; 0x01; 0xFF]
                   [Reader.WithReaderConformanceMode ConformanceCanonical])
                0x9F [0x01; 0xFF]) as (_ & _ & _ & _ & H).
    + apply fresh_ready. cbn. unfold MaxInt64. lia.
    + reflexivity.
    + reflexivity.
    + destruct H as (r' & Hrun & _).
      * right. right. split; [left; reflexivity|]. cbn. lia.
      * rewrite Hrun. reflexivity.
  - destruct (canonical_decoder_refuses_indefinite_length (fun _ => true)
                (Reader.NewCborReader [0x5F; 0x41; 0x00; 0xFF]
                   [Reader.WithReaderConformanceMode
                      ConformanceCtap2Canonical])
                0x5F [0x41; 0x00; 0xFF]) as (H & _).
    + apply fresh_ready. cbn. unfold MaxInt64. lia.
    + reflexivity.
    + reflexivity.
    + destruct (H eq_refl) as (r' & Hrun & _). rewrite Hrun. reflexivity.
Defined.


(** ** Reuse of an encoder, several values at the root *)

(** X23.  [Reset] makes an encoder as good as new: after any sequence of
    operations, complete or not, successful or not, the encoder after
    [Reset] is the one that [NewCborWriter] returns for the same conformance
    mode, nesting cap and multiple-root option, so that it answers every
    later call as a new encoder does. *)
Theorem writer_reset_as_new
        (mode : CborConformanceMode) (depth : Z) (allow : bool)
        (ops : list WriteOp) :
  match final (runWriteOps ops
                 (Writer.NewCborWriter
                    [Writer.WithConformanceMode mode;
                     Writer.WithMaxNestingDepth depth;
                     Writer.WithAllowMultipleRootValues allow])) with
  | Some w =>
      Writer.Reset w
      = Writer.NewCborWriter
          [Writer.WithConformanceMode mode;
           Writer.WithMaxNestingDepth depth;
           Writer.WithAllowMultipleRootValues allow]
  | None => False
  end.
Proof.
  pose proof (runWriteOps_success ops
                (Writer.NewCborWriter
                   [Writer.WithConformanceMode mode;
                    Writer.WithMaxNestingDepth depth;
                    Writer.WithAllowMultipleRootValues allow])) as H.
  destruct (final _) as [w|]; [|contradiction].
  destruct H as (_ & Hm & Hd & Ha & _).
  destruct w as [buf m st d off rootWritten allow'].
  cbn in Hm, Hd, Ha. subst. reflexivity.
Qed.

Lemma fresh_ready_options (data : list Z) (mode : CborConformanceMode)
      (allow : bool) :
  len data <= MaxInt64 ->
  ready (Reader.NewCborReader data
           [Reader.WithReaderConformanceMode mode;
            Reader.WithReaderAllowMultipleRootValues allow]).
Proof.
  intros H.
  unfold ready, cacheCoherent, Reader.NewCborReader,
    Reader.WithReaderConformanceMode,
    Reader.WithReaderAllowMultipleRootValues.
  cbn [fold_left]. reader_fields.
  split; [lia|]. split; [exact H|]. split; [discriminate|exact I].
Qed.

(** X24.  The decoder reads one data item after the other at the root,
    whatever [WithReaderAllowMultipleRootValues] says: on an input made of
    two data items, two calls of [SkipValue] succeed and stop behind the
    second item, also when the option is false. *)
Theorem decoder_reads_consecutive_root_items
        (utf8Valid : list Z -> bool) (v1 v2 : Value)
        (mode : CborConformanceMode) (allow : bool) (rest : list Z)
        (Hv1 : readableIn utf8Valid mode v1)
        (Hv2 : readableIn utf8Valid mode v2)
        (Hd1 : Z.of_nat (readerDepth v1) <= 64)
        (Hd2 : Z.of_nat (readerDepth v2) <= 64)
        (Hlen : len (enc v1 ++ enc v2 ++ rest) <= MaxInt64) :
  exists r',
    (Reader.SkipValue utf8Valid ;; Reader.SkipValue utf8Valid)
      (Reader.NewCborReader (enc v1 ++ enc v2 ++ rest)
         [Reader.WithReaderConformanceMode mode;
          Reader.WithReaderAllowMultipleRootValues allow])
    = Ok tt r'
    /\ Reader.offset r' = len (enc v1) + len (enc v2)
    /\ Reader.nestingStack r' = []
    /\ remaining r' = rest.
Proof.
  pose proof (fresh_ready_options (enc v1 ++ enc v2 ++ rest) mode allow Hlen)
    as Hr.
  destruct (SkipValue_item utf8Valid v1 _ (enc v2 ++ rest) Hr Hv1 Hd1
              eq_refl) as (r1 & Hrun1 & Hst1).
  pose proof Hst1 as (Hdt1 & Ho1 & Hm1 & Hx1 & _ & Hs1 & Hc1).
  pose proof (enc_nonempty v1) as Hn1. pose proof (enc_nonempty v2) as Hn2.
  assert (Hrem1 : remaining r1 = enc v2 ++ rest).
  { eapply (stepped_remaining (len (enc v1)));
      [apply Hr|left; exact Hst1|reflexivity|reflexivity]. }
  assert (Hr1 : ready r1).
  { unfold ready. rewrite Hs1, Hdt1, Ho1.
    split; [cbn; lia|]. split; [exact Hlen|].
    split; [now apply fresh_coherent|exact I]. }
  destruct (SkipValue_item utf8Valid v2 r1 rest Hr1) as (r2 & Hrun2 & Hst2).
  { rewrite Hm1. exact Hv2. }
  { unfold Reader.NestingDepth. rewrite Hs1, Hx1. exact Hd2. }
  { exact Hrem1. }
  exists r2. unfold bind. rewrite Hrun1, Hrun2.
  split; [reflexivity|].
  pose proof Hst2 as (_ & Ho2 & _ & _ & _ & Hs2 & _).
  split; [rewrite Ho2, Ho1; reflexivity|].
  split; [rewrite Hs2, Hs1; reflexivity|].
  eapply (stepped_remaining (len (enc v2)));
    [apply Hr1|left; exact Hst2|reflexivity|exact Hrem1].
Qed.

Lemma decoder_reads_consecutive_root_items_witness :
  exists r',
    (Reader.SkipValue (fun _ => true) ;; Reader.SkipValue (fun _ => true))
      (Reader.NewCborReader [0x01; 0x81; 0x02; 0x03]
         [Reader.WithReaderConformanceMode ConformanceStrict;
          Reader.WithReaderAllowMultipleRootValues false])
    = Ok tt r'
    /\ Reader.offset r' = 3.
Proof.
  destruct (decoder_reads_consecutive_root_items (fun _ => true)
              (VUint 1) (VArray [VUint 2]) ConformanceStrict false [0x03])
    as (r' & Hrun & Ho & _).
  - constructor. lia.
  - repeat constructor; cbn; unfold MaxInt64; lia.
  - cbn. lia.
  - cbn. lia.
  - cbn. unfold MaxInt64. lia.
  - exists r'. split; [exact Hrun|exact Ho].
Defined.


(** ** Tags and the enclosing frame *)

Lemma writer_frame_counted (info : Writer.nestingInfo) :
  Writer.majorType (Writer.advanceFrame info) = Writer.majorType info
  /\ Writer.definiteLength (Writer.advanceFrame info)
     = Writer.definiteLength info
  /\ Writer.isMap (Writer.advanceFrame info) = Writer.isMap info
  /\ Writer.isIndefinite (Writer.advanceFrame info)
     = Writer.isIndefinite info
  /\ countedOnce (Writer.isMap info) (Writer.keyWritten info)
       (Writer.itemsWritten info)
       (Writer.keyWritten (Writer.advanceFrame info))
       (Writer.itemsWritten (Writer.advanceFrame info)).
Proof.
  unfold Writer.advanceFrame, countedOnce.
  destruct (Writer.isMap info) eqn:Hm, (Writer.keyWritten info) eqn:Hk;
    cbn [Writer.majorType Writer.definiteLength Writer.isMap
         Writer.isIndefinite Writer.keyWritten Writer.itemsWritten];
    rewrite ?Hm, ?Hk; repeat split; reflexivity.
Qed.

Lemma reader_frame_counted (info : Reader.readerNestingInfo) :
  Reader.majorType (Reader.advanceFrame info) = Reader.majorType info
  /\ Reader.definiteLength (Reader.advanceFrame info)
     = Reader.definiteLength info
  /\ Reader.isMap (Reader.advanceFrame info) = Reader.isMap info
  /\ Reader.isIndefinite (Reader.advanceFrame info)
     = Reader.isIndefinite info
  /\ countedOnce (Reader.isMap info) (Reader.keyRead info)
       (Reader.itemsRead info)
       (Reader.keyRead (Reader.advanceFrame info))
       (Reader.itemsRead (Reader.advanceFrame info)).
Proof.
  unfold Reader.advanceFrame, countedOnce.
  destruct (Reader.isMap info) eqn:Hm, (Reader.keyRead info) eqn:Hk;
    cbn [Reader.majorType Reader.definiteLength Reader.isMap
         Reader.isIndefinite Reader.keyRead Reader.itemsRead];
    rewrite ?Hm, ?Hk; repeat split; reflexivity.
Qed.

(** C8.  [WriteTag] succeeds in every state of the encoder, appends exactly
    the major-type-6 head of its argument and leaves the nesting stack,
    hence the items-written count and the key flag of every frame, as they
    were; the data item written after the tag is what the enclosing frame
    counts, once.  [ReadTag], in front of such a head, succeeds, returns
    the argument, consumes exactly the head and leaves the nesting stack
    as it was; whatever its result, it never changes the stack, and
    whenever it returns it has consumed exactly one head of major type 6;
    the data item read after the tag is what the enclosing frame counts,
    once. *)
Theorem tag_does_not_advance_container :
  (forall (w : Writer.CborWriter) (tag : Z),
      0 <= tag < 2^64 ->
      exists w',
        Writer.WriteTag tag w = Ok tt w'
        /\ Writer.nestingStack w' = Writer.nestingStack w
        /\ Writer.rootValueWritten w' = Writer.rootValueWritten w
        /\ Writer.buffer w'
           = Writer.buffer w ++ writeArgument_spec MajorTypeTag tag)
  /\ (forall (w : Writer.CborWriter) (tag : Z) (v : Value) info rest,
         0 <= tag < 2^64 -> writable w v ->
         Writer.nestingStack w = info :: rest ->
         exists w' info',
           (Writer.WriteTag tag ;; writeValue v) w = Ok tt w'
           /\ Writer.buffer w'
              = Writer.buffer w ++ writeArgument_spec MajorTypeTag tag
                  ++ enc v
           /\ Writer.nestingStack w' = info' :: rest
           /\ Writer.majorType info' = Writer.majorType info
           /\ Writer.definiteLength info' = Writer.definiteLength info
           /\ Writer.isMap info' = Writer.isMap info
           /\ Writer.isIndefinite info' = Writer.isIndefinite info
           /\ countedOnce (Writer.isMap info) (Writer.keyWritten info)
                (Writer.itemsWritten info)
                (Writer.keyWritten info') (Writer.itemsWritten info'))
  /\ (forall (r : Reader.CborReader) (tag : Z) (rest : list Z),
         ready r -> 0 <= tag < 2^64 ->
         remaining r = writeArgument_spec MajorTypeTag tag ++ rest ->
         exists r',
           Reader.ReadTag r = Ok tag r'
           /\ Reader.nestingStack r' = Reader.nestingStack r
           /\ Reader.data r' = Reader.data r
           /\ Reader.offset r'
              = Reader.offset r + len (writeArgument_spec MajorTypeTag tag)
           /\ remaining r' = rest)
  /\ (forall (r : Reader.CborReader),
         0 <= Reader.offset r ->
         match final (Reader.ReadTag r) with
         | Some r' => Reader.nestingStack r' = Reader.nestingStack r
         | None => True
         end)
  /\ (forall (r r' : Reader.CborReader) (tag : Z),
         0 <= Reader.offset r -> bytes (Reader.data r) ->
         Reader.ReadTag r = Ok tag r' ->
         exists ai payload,
           remaining r
           = (MajorType_code MajorTypeTag * 32 + ai) :: payload ++ remaining r'
           /\ len payload = infoWidth ai
           /\ Reader.offset r' = Reader.offset r + 1 + len payload
           /\ Reader.data r' = Reader.data r
           /\ tag = (if ai <? 24 then ai else be_value payload))
  /\ (forall (utf8Valid : list Z -> bool) (r : Reader.CborReader)
             (tag : Z) (v : Value) info st (rest : list Z),
         ready r -> 0 <= tag < 2^64 ->
         readableIn utf8Valid (Reader.conformanceMode r) v ->
         Reader.NestingDepth r + Z.of_nat (readerDepth v)
         <= Reader.maxNestingDepth r ->
         Reader.nestingStack r = info :: st ->
         remaining r = writeArgument_spec MajorTypeTag tag ++ enc v ++ rest ->
         exists r' info',
           (_ <- Reader.ReadTag ;; Reader.SkipValue utf8Valid) r = Ok tt r'
           /\ Reader.offset r'
              = Reader.offset r + len (writeArgument_spec MajorTypeTag tag)
                + len (enc v)
           /\ Reader.nestingStack r' = info' :: st
           /\ Reader.majorType info' = Reader.majorType info
           /\ Reader.definiteLength info' = Reader.definiteLength info
           /\ Reader.isMap info' = Reader.isMap info
           /\ Reader.isIndefinite info' = Reader.isIndefinite info
           /\ countedOnce (Reader.isMap info) (Reader.keyRead info)
                (Reader.itemsRead info)
                (Reader.keyRead info') (Reader.itemsRead info')).
Proof.
  split; [|split; [|split; [|split; [|split]]]].
  - exact WriteTag_head.
  - intros w tag v info rest Ht [Hwf Hd] Hst.
    assert (Hw : writable w (VTagged tag v)).
    { split; [now apply wf_tagged|exact Hd]. }
    pose proof (writeValue_item (VTagged tag v) w Hw) as Hrun.
    cbn [writeValue enc] in Hrun.
    exists (itemWritten (writeArgument_spec MajorTypeTag tag ++ enc v) w),
      (Writer.advanceFrame info).
    split; [exact Hrun|].
    unfold itemWritten, appended. rewrite Hst.
    cbn [Writer.buffer Writer.nestingStack Writer.set_nestingStack
         Writer.set_currentOffset Writer.set_buffer].
    split; [reflexivity|]. split; [reflexivity|].
    exact (writer_frame_counted info).
  - intros r tag rest Hr Ht Hrem.
    destruct (ReadTag_item r tag rest Hr Ht Hrem) as (r' & Hrun & Hm).
    exists r'. split; [exact Hrun|].
    pose proof Hm as (Hd & Ho & _ & _ & _ & Hs & _).
    repeat split; try assumption.
    eapply moved_remaining; [apply Hr|exact Hm|reflexivity|exact Hrem].
  - exact ReadTag_stack.
  - exact ReadTag_consumes_head.
  - intros utf8Valid r tag v info st rest Hr Ht Hv Hd Hst Hrem.
    destruct (ReadTag_item r tag (enc v ++ rest) Hr Ht Hrem)
      as (r1 & Hrun1 & Hm1).
    pose proof (len_writeArgument_spec_bounds MajorTypeTag tag) as Hl.
    pose proof (moved_ready _ r r1 Hr Hm1 ltac:(lia)) as Hr1.
    pose proof Hm1 as (Hd1 & Ho1 & Hmode1 & Hx1 & _ & Hs1 & _).
    destruct (SkipValue_item utf8Valid v r1 rest Hr1) as (r2 & Hrun2 & Hst2).
    { rewrite Hmode1. exact Hv. }
    { unfold Reader.NestingDepth in *. rewrite Hs1, Hx1. exact Hd. }
    { eapply moved_remaining; [apply Hr|exact Hm1|reflexivity|exact Hrem]. }
    exists r2, (Reader.advanceFrame info).
    unfold bind. rewrite Hrun1, Hrun2. split; [reflexivity|].
    destruct Hst2 as (_ & Ho2 & _ & _ & _ & Hs2 & _).
    split; [rewrite Ho2, Ho1; reflexivity|].
    split; [rewrite Hs2, Hs1, Hst; reflexivity|].
    exact (reader_frame_counted info).
Qed.

Lemma tag_does_not_advance_container_witness :
  let inArray :=
    Reader.mkCborReader [0x81; 0xC2; 0x41; 0x01] 1 ConformanceLax
      [Reader.mkReaderNestingInfo MajorTypeArray 1 0 false false false]
      64 StateUndefined false false in
  (exists w',
     Writer.WriteTag 2 (Writer.NewCborWriter []) = Ok tt w'
     /\ Writer.buffer w' = [0xC2])
  /\ (exists r',
        Reader.ReadTag inArray = Ok 2 r'
        /\ Reader.offset r' = 2
        /\ Reader.nestingStack r'
           = [Reader.mkReaderNestingInfo MajorTypeArray 1 0 false false
                false])
  /\ (exists r' info',
        (_ <- Reader.ReadTag ;; Reader.SkipValue (fun _ => true)) inArray
        = Ok tt r'
        /\ Reader.offset r' = 4
        /\ Reader.nestingStack r' = [info']
        /\ Reader.itemsRead info' = 1).
Proof.
  cbv zeta.
  assert (Hr : ready
                 (Reader.mkCborReader [0x81; 0xC2; 0x41; 0x01] 1
                    ConformanceLax
                    [Reader.mkReaderNestingInfo MajorTypeArray 1 0 false
                       false false]
                    64 StateUndefined false false)).
  { unfold ready, cacheCoherent. reader_fields.
    split; [lia|]. split; [cbn; unfold MaxInt64; lia|].
    split; [discriminate|reflexivity]. }
  destruct tag_does_not_advance_container
    as (Hw & _ & Hread & _ & _ & Hnext).
  split; [|split].
  - destruct (Hw (Writer.NewCborWriter []) 2 ltac:(lia))
      as (w' & Hrun & _ & _ & Hbuf).
    exists w'. split; [exact Hrun|exact Hbuf].
  - destruct (Hread _ 2 [0x41; 0x01] Hr ltac:(lia) eq_refl)
      as (r' & Hrun & Hs & _ & Ho & _).
    exists r'. split; [exact Hrun|]. split; [rewrite Ho; reflexivity|].
    rewrite Hs. reflexivity.
  - destruct (Hnext (fun _ => true) _ 2 (VBytes [0x01]) _ [] [] Hr
                ltac:(lia) ltac:(constructor; cbn; lia) ltac:(cbn; lia)
                eq_refl eq_refl)
      as (r' & info' & Hrun & Ho & Hs & _ & _ & _ & _ & Hc).
    exists r', info'. split; [exact Hrun|].
    split; [rewrite Ho; reflexivity|]. split; [exact Hs|].
    cbn in Hc. destruct Hc as [_ Hc]. rewrite Hc. reflexivity.
Defined.
